(* ===== verification/_CoqProject ===== *)
-Q . S2P
Prelude.v
SqlSyntax.v
Reachability.v
RoleCatalog.v
RoleSession.v
Auth.v
StatementPolicy.v
PolicyOutcomes.v
CopyText.v
CopyRowFacts.v
CopyValues.v
CopyDecoder.v
CopySession.v
CopyOutcomes.v
Threads.v
Lifecycle.v
Admission.v
Storage.v
StorageOutcomes.v
Cursors.v
MigrateConfig.v
MigratePlan.v
MigrateChecksum.v
MigrateSql.v
MigrateFiles.v
MigrateSource.v
MigrateRun.v
MigrateOutcomes.v
RestTokens.v
RestRequests.v
RestGateway.v
RestSafety.v
RestOutcomes.v
SpatialRewrite.v
Utf8.v
PrivilegeInquiry.v
PrivilegeNames.v
PrivilegeOutcomes.v
SessionCommands.v
SessionHandlers.v
SessionOutcomes.v
SessionStatus.v
CatalogGuard.v
CatalogOutcomes.v
BboxLayout.v
BboxSemantics.v
BboxCopy.v
BboxMaintenance.v
EdgeProtocol.v
EdgeRuntime.v
EdgeCompression.v
