(* ===== verification/Prelude.v ===== *)
(** * QuackGIS verification library

    QuackGIS serves DuckDB/DuckLake tables over the PostgreSQL wire protocol.  This
    library models the parts of the Rust workspace that decide who may do what, that
    move data, and that keep shared state consistent, and proves what makes them
    correct.  The sources are under [src/crates]; [server] below is
    [quackgis-server/src], [edge] is [quackgis-edge/src], [migrate] is
    [quackgis-migrate/src] and [rest] is [quackgis-rest/src].

    ** How the program is put together

    A client connects over pgwire, directly or through the edge transport.  The edge
    client obtains a signed access lease from the bootstrap authority, proves its
    credential to a worker, and opens streams whose bytes travel in compression
    blocks ([edge/lib.rs], [runtime.rs], [compression.rs]).  The server authenticates
    the login ([server/auth.rs]), opens a role session over the configured role
    catalog ([role.rs]), and authorizes every statement and COPY target
    ([statement_policy.rs]) in the query handlers ([pgwire_server/duckdb.rs]).  Operations pass admission control
    ([execution_control.rs]), run on a storage session that owns one native
    connection ([duckdb_adbc_storage.rs]), and join the drain set of the process while
    in a transaction ([lifecycle.rs]).  COPY data is decoded in chunks into Arrow
    batches ([pgwire_server/copy_text.rs]).

    The migration tool copies selected PostGIS tables into a QuackGIS server.  It
    validates a configuration ([migrate/config.rs]), inventories the source in one
    read-only snapshot ([source.rs], [inventory.rs]), plans every object ([plan.rs]),
    copies and verifies the tables in one target transaction, and later verifies,
    promotes or removes a staged copy, bound to report digests and to the identity of
    the runtime ([migration.rs], [report.rs], [runtime.rs], [connect.rs]).

    The REST gateway ([rest/main.rs]) answers reads of exposed tables over HTTP.  It
    verifies a signed token per request, keeps one database connection behind a lock and
    one schema cache per role, validated by the server's catalog epochs or a digest of
    the columns, and runs each read in a transaction with the token's role and claims.

    ** Files

    - [Prelude]: the [Result] monad ([x ← e; k] is the [?] operator), machine integers
      as [Z] with saturating and wrapping operations, bytes, UTF-8 strings, stable
      sorting, and the tactics and lemmas the components share.
    - [Reachability]: the worklist search used by the role catalog, with its
      termination and correctness for any push discipline.
    - [RoleCatalog] ([role.rs]): [RoleConfigDocument] and [try_from], the catalog, and
      [has_role_privilege], [has_schema_privilege], [has_table_privilege] and
      [allows_table_operation].  Privileges are characterised as reachability in the
      membership graph and as the grants and ownerships that authorize an operation.
    - [RoleSession] ([role.rs]): [RoleSessionState] with SET ROLE, RESET ROLE,
      transaction-local state, request settings and the epoch.  It is proved against
      the interface [RoleDirectory], which the catalog implements.
    - [Auth] ([auth.rs]): [AuthConfig], its constructors and modifiers, allowlists and
      login decisions.
    - [StatementPolicy] ([statement_policy.rs]): [authorize_statement] and
      [authorize_copy_target] on the statements the policy distinguishes;
      [PolicyOutcomes]: who may read and write what, as a specification of its own.
    - [CopyText] ([copy_text.rs]): the decoder and its values; [CopyRowFacts] the
      representation of rows in one buffer; [CopyValues] field values; [CopyDecoder]
      the decoder against its specification on whole byte streams.  [CopySession]
      ([pgwire_server/duckdb.rs]): the session task, the channel, the ingest worker and
      cancellation of one COPY as interleaved steps; [CopyOutcomes]: their invariants.
    - [Threads]: interleavings of atomic steps, invariants, counting of threads.
    - [Lifecycle] ([lifecycle.rs]) and [Admission] ([execution_control.rs], with the
      modules [Pool] and [Registry]): step systems over atomics and semaphores.
    - [Storage] and [StorageOutcomes] ([duckdb_adbc_storage.rs], [engine_api.rs]): the
      session state machine for an arbitrary driver, and the truth of the reported
      transaction outcomes for a driver that satisfies the laws of [Adbc].
    - [SpatialRewrite] ([spatial_compat.rs]): the rewriter of PostGIS function names.
    - [Utf8]: characters of encoded strings.  [SqlSyntax]: identifiers and function heads of
      the SQL parser.  [PrivilegeInquiry] ([pgwire_server/duckdb.rs]): calls of
      [has_table_privilege], [pg_has_role] and the like, answered from the role catalog;
      [PrivilegeNames]: their object names; [PrivilegeOutcomes]: what the answers mean.
    - [BboxLayout] ([duckdb_adbc_storage.rs]): the bounding boxes kept beside a geometry,
      the filter added to queries and the assignments added to updates; [BboxSemantics]: what
      these expressions mean on rows; [BboxCopy]: the database as a reader of the texts that
      COPY publishes with; [BboxMaintenance]: the boxes of a table over time.
    - [Cursors] ([pgwire_server/duckdb.rs] and the portals of the vendored [pgwire]):
      DECLARE, FETCH, CLOSE, and the end of a transaction block, which composes
      [Storage], [RoleSession] and the cursors.
    - [SessionCommands] ([pgwire_server/duckdb.rs]): what a text asks for: its classification,
      session settings, role, request-context, maintenance, COPY and cursor commands.
      [SessionHandlers]: a client connection in a state and error monad: prepared statements,
      portals, [parse_sql], both [do_query], transactions, cursors and the messages, over the
      interface [Engine].  [SessionOutcomes]: the program logic and the invariant of a
      connection; [SessionStatus]: the laws of an engine, and [Storage] as one.
    - [CatalogGuard] ([pgwire_server/duckdb.rs]): the names of catalog relations and functions that
      validation refuses, and the relations and identity calls of the statement that is
      executed; [CatalogOutcomes]: what is left in it.
    - [MigrateConfig] ([migrate/config.rs], [build_staging_config]): the configuration,
      [validate], and the staging names.  [MigratePlan] ([inventory.rs], [plan.rs]):
      [build_preflight].  [MigrateChecksum]: canonical values and multiset checksums,
      [MigrateSql]: the SQL texts and [release_plan], [MigrateRun]: the commands as
      programs over a driver, all three of [migration.rs].  [MigrateFiles]
      ([report.rs], [runtime.rs], [connect.rs]): bound inputs, the connection policy
      and atomic publication.  [MigrateSource] ([source.rs]): the snapshot.
      [MigrateOutcomes]: the laws of the driver and what each report means.
    - [RestTokens], [RestRequests], [RestGateway] ([rest/main.rs]): tokens and secrets;
      query parsing and the connection policy; the connection, the caches, the handlers
      and the start as resumptions that wait at the locks.  [RestSafety]: the program
      logic of these resumptions and the invariant; [RestOutcomes]: what holds of the
      start and of requests served together.
    - [EdgeProtocol] ([edge/lib.rs]), [EdgeRuntime] ([runtime.rs]), [EdgeCompression]
      ([compression.rs]).

    ** What the theorems show

    - Roles: the privilege queries decide exactly the reachability and authorization
      relations; accepted configurations satisfy the catalog invariant and membership
      is a partial order; a session's effective role is always one its user may set,
      and transactions restore the identity.
    - Authorization: queries are authorized exactly when what they read is permitted, the
      metadata relations included, statements that change data exactly when the user, the
      allowlist and the role may do that to the table they write, and COPY exactly when its
      target is permitted; the statements that escape the policy are exhibited.  A privilege
      inquiry answers what the role catalog decides, except for grants spelled otherwise than
      the registered table and for names with capital letters outside ASCII, and an accepted
      statement is forwarded with all its inquiries replaced.
    - Connections: whatever a client sends, every call that reaches the engine was validated
      and authorized for the identity the connection has at that moment; a portal not executed
      and a cursor not fetched from are refused once the identity has changed, while those
      already opened deliver their remaining rows; a failed block takes
      its end only, except that portals bound before still run; a connection that reports
      itself idle has no transaction open, except at the end of a COPY of the simple protocol.
    - Catalog: in an executed statement every macro of the private catalog in a plain table factor
      is called with the identity of the connection and no call for the identity is left;
      three-part [information_schema] names and some LATERAL calls escape the checks.
    - COPY: rows are delivered once, in order, whatever the chunking; text encoding
      and field escaping round-trip; integers and decimals are exact or refused;
      batches partition the rows and the splitting ends.  However the client, the session,
      the worker and cancellations interleave, completion is reported, with the number of
      rows, only after the worker has ingested all of them, and an aborted worker ends.
      Two defects are proved: the
      end marker is always refused and an octal escape can panic.
    - Shared state: admission, worker and drain accounting are exact in every
      interleaving, limits are never exceeded, a control worker and progress are
      always available, a drain admits no straggler; the wait for a drain can miss its
      wakeup.
    - Storage: a session never loses its connection except in the one path that is
      exhibited; a quarantined session is never used again; transactions and updates
      report what happened to the durable data; COMMIT and ROLLBACK tell the client
      the truth, leave no cursor and no transaction-local state; FETCHes read a
      cursor's result once, in order.
    - Spatial SQL: respelling PostGIS names twice is the same as once, and changes calls of
      the listed functions only; tagged dollar quotes and escape strings are respelled where
      they should be copied.  Whatever is copied into a table with maintained boxes and
      whatever statements are let through, each row has the box of its geometry, as the
      database reads the published columns and values, so the filter by boxes does not change
      the answer of a query.
    - Edge: a worker accepts only a fresh, leased, proven authentication, and only
      streams the lease permits reach the backend, as sessions of the leased role alone or as
      cancellations; issued leases are for registered credentials, and a request is refused
      when repeated until 4096 others have been recorded; a startup packet without fields can
      panic; honest exchanges succeed; signing domains are
      disjoint; control and startup frames and compressed streams round-trip, and the
      decoder is bounded on hostile input.

    - Migration: [validate] accepts exactly the well-formed configurations; a preflight
      is ready exactly when every selected table, role and grant is supported and
      present, and then plans each selected table with a representable type for every
      column; checksums do not depend on the row order and detect a changed row; quoted
      names and literals are read back as data; a run is published whole or not at all
      and its report, and that of a promotion, says which; verification only reads and
      cleanup drops the staging tables only; reports are published atomically and plain
      connections are local.
    - REST: a token is accepted exactly when it is signed, current, addressed to this
      gateway and names a configured role; a parsed request is what the query says;
      however requests interleave, generated SQL runs only in a transaction with the role
      and claims of one verified token, on a connection opened with the credential then
      on file, and is built from a schema the role saw during that request, as long as the
      epochs of the server change with what a role sees and, where it has none, the digests of
      two column sets of the role do not collide.

    ** Modelling choices

    Loops that are not structural take fuel computed from their input and are proved
    never to run out: one round per configured name in [explore], one per byte in
    [decode_loop], [push_loop], [negotiate] and [decompress_loop], one per row in
    [bounded_batches].  [usize] is 64 bits.  Panics ([expect], slices out of range) are
    error values where client input can reach them.  Code outside the repository is a
    parameter with named laws: JSON, SCRAM, Arrow sizes, chrono, rust_decimal, float
    parsing, signatures, LZ4, the ADBC driver, SHA-256, the SQL parser, tokio-postgres
    with the databases behind it, the file system, tokio's semaphores and [Notify]; each
    class of laws has a concrete instance, used by the witnesses.  Interleavings are
    sequentially consistent and semaphore waits are steps enabled by an available permit.
    Reports of the migration tool are modelled without elapsed times and error texts; a
    query's rows and a COPY stream are the list of the results the driver yields.  What the
    gateway's database answers is a function of all calls made before, and a dropped
    future is a call whose answer does not arrive.

    ** Not modelled

    The passes of [pgwire_server/duckdb.rs] for the functions, casts, operators and query shapes
    of the PostgreSQL catalog and the queries of psql; in [SessionHandlers] the passes over a
    statement are arguments of the validation, on a coarser syntax than [CatalogGuard]'s.  Parameter
    decoding and the encoding of rows; the SQL texts of [postgres_compat.rs], which DuckDB
    evaluates; the skipping of messages until Sync after an error (the model handles them, so
    what is proved holds of more runs) and the cancellation channel of the vendored [pgwire],
    which never fires here; listeners, TLS and process start-up; the command lines; the REST
    gateway's router; the edge configuration, files and keys read at start; metrics and
    logging; the rest of the vendored crates. *)

From Stdlib Require Export ZArith Lia.
From Stdlib Require Export Strings.String Strings.Byte.
From stdpp Require Export base tactics option list gmap sorting relations.

Set Default Goal Selector "!".

Declare Scope rust_scope.
Delimit Scope rust_scope with rust.
#[global] Open Scope Z_scope.

(** ** Fallible code

    [Result<T, E>] of the source.  The instances make stdpp's [x ← e; k]
    notation the [?] operator. *)

Inductive result (E A : Type) : Type :=
  | Ok (a : A)
  | Err (e : E).
Arguments Ok {E A} a.
Arguments Err {E A} e.

#[export] Instance result_ret E : MRet (result E) := fun A a => Ok a.
#[export] Instance result_bind E : MBind (result E) := fun A B f m =>
  match m with Ok a => f a | Err e => Err e end.
#[export] Instance result_fmap E : FMap (result E) := fun A B f m =>
  match m with Ok a => Ok (f a) | Err e => Err e end.

(** [if !cond { return Err(e) }] *)
Definition ensure {E} (cond : bool) (e : E) : result E unit :=
  if cond then Ok tt else Err e.

(** [option.ok_or(e)] *)
Definition ok_or {E A} (o : option A) (e : E) : result E A :=
  match o with Some a => Ok a | None => Err e end.

(** [result.map_err(f)] *)
Definition map_err {E F A} (f : E -> F) (r : result E A) : result F A :=
  match r with Ok a => Ok a | Err e => Err (f e) end.

(** [result.is_ok()] *)
Definition is_ok {E A} (r : result E A) : bool :=
  match r with Ok _ => true | Err _ => false end.

(** [iter.map(f).collect::<Result<Vec<_>, _>>()]: stops at the first error. *)
Fixpoint collect {E A B} (f : A -> result E B) (l : list A) : result E (list B) :=
  match l with
  | [] => Ok []
  | x :: rest => y ← f x; ys ← collect f rest; Ok (y :: ys)
  end.

(** [for x in l { state = step(state, x)?; }] *)
Fixpoint try_fold {E S A} (step : S -> A -> result E S) (l : list A) (s : S)
    : result E S :=
  match l with
  | [] => Ok s
  | x :: rest => s' ← step s x; try_fold step rest s'
  end.

(** ** Machine integers *)

Definition u32_max : Z := 4294967295.
Definition u64_max : Z := 18446744073709551615.
Definition i64_max : Z := 9223372036854775807.
Definition i64_min : Z := -9223372036854775808.

(** [u64]/[usize] saturating and wrapping arithmetic (64-bit target). *)
Definition saturating_add (a b : Z) : Z := Z.min (a + b) u64_max.
Definition saturating_sub (a b : Z) : Z := Z.max (a - b) 0.
Definition saturating_mul (a b : Z) : Z := Z.min (a * b) u64_max.
Definition wrapping_add (a b : Z) : Z := (a + b) mod (u64_max + 1).

(** [slice.len()] / [str.len()] *)
Definition len {A} (l : list A) : Z := Z.of_nat (length l).

(** ** Bytes and strings

    [u8] is [byte]; [&[u8]] and [&str] are lists of bytes, a [str] holding the
    UTF-8 encoding of its characters, as in Rust. *)

Abbreviation str := (list byte).

#[export] Instance byte_eq_dec : EqDecision byte := Byte.byte_eq_dec.
#[export] Instance byte_countable : Countable byte :=
  inj_countable Byte.to_N Byte.of_N Byte.of_to_N.

Definition lit (s : string) : str := list_byte_of_string s.

(** [u8 as integer] and [integer as u8] *)
Definition bz (b : byte) : Z := Z.of_N (Byte.to_N b).
Definition zb (z : Z) : byte :=
  match Byte.of_N (Z.to_N (z mod 256)) with Some b => b | None => x00 end.

Definition in_range (lo hi : Z) (b : byte) : bool := (lo <=? bz b) && (bz b <=? hi).
Definition is_ascii_digit : byte -> bool := in_range 48 57.
Definition is_ascii_lowercase : byte -> bool := in_range 97 122.
Definition is_ascii_uppercase : byte -> bool := in_range 65 90.
Definition is_ascii_alphabetic (b : byte) : bool :=
  is_ascii_lowercase b || is_ascii_uppercase b.
Definition is_ascii_alphanumeric (b : byte) : bool :=
  is_ascii_alphabetic b || is_ascii_digit b.
Definition is_ascii_whitespace (b : byte) : bool :=
  bool_decide (b ∈ [x20; x09; x0a; x0c; x0d]).
Definition is_ascii_hexdigit (b : byte) : bool :=
  is_ascii_digit b || in_range 97 102 b || in_range 65 70 b.

Definition byte_to_ascii_lowercase (b : byte) : byte :=
  if is_ascii_uppercase b then zb (bz b + 32) else b.
Definition byte_to_ascii_uppercase (b : byte) : byte :=
  if is_ascii_lowercase b then zb (bz b - 32) else b.
Definition to_ascii_lowercase (s : str) : str := map byte_to_ascii_lowercase s.
Definition to_ascii_uppercase (s : str) : str := map byte_to_ascii_uppercase s.
Definition eq_ignore_ascii_case (a b : str) : bool :=
  bool_decide (to_ascii_lowercase a = to_ascii_lowercase b).

(** [str::split(sep)] for an ASCII separator: [n] separators give [n + 1] parts. *)
Fixpoint split_on (sep : byte) (s : str) : list str :=
  match s with
  | [] => [[]]
  | b :: rest =>
      if bool_decide (b = sep) then [] :: split_on sep rest
      else match split_on sep rest with
           | [] => [[b]]
           | part :: parts => (b :: part) :: parts
           end
  end.

(** [str::split_once], [starts_with], [strip_prefix] and [parse::<i64>] *)
Fixpoint split_once (sep : byte) (s : str) : option (str * str) :=
  match s with
  | [] => None
  | b :: r =>
      if bool_decide (b = sep) then Some ([], r)
      else match split_once sep r with Some (x, y) => Some (b :: x, y) | None => None end
  end.
Definition starts_with (prefix s : str) : bool := bool_decide (take (length prefix) s = prefix).
Definition strip_prefix (prefix s : str) : option str :=
  if starts_with prefix s then Some (drop (length prefix) s) else None.
Definition parse_decimal_digits (s : str) : option Z :=
  if bool_decide (s = []) || negb (forallb is_ascii_digit s) then None
  else Some (foldl (fun acc b => acc * 10 + (bz b - 48)) 0 s).
Definition parse_i64 (s : str) : option Z :=
  z ← match s with
      | x2d :: r => Z.opp <$> parse_decimal_digits r
      | x2b :: r => parse_decimal_digits r
      | _ => parse_decimal_digits s
      end;
  if (i64_min <=? z) && (z <=? i64_max) then Some z else None.

(** [str::trim_matches(c)] for an ASCII character *)
Fixpoint strip_leading (p : byte -> bool) (s : str) : str :=
  match s with
  | b :: rest => if p b then strip_leading p rest else s
  | [] => []
  end.
Definition trim_matches (p : byte -> bool) (s : str) : str :=
  rev (strip_leading p (rev (strip_leading p s))).
Definition quote_byte : byte := x22.
Definition trim_quotes (s : str) : str :=
  trim_matches (fun b => bool_decide (b = quote_byte)) s.

(** Quoting: a byte around the text, and doubled in it; [Vec::join] *)
Definition single_quote : byte := x27.

(** [value.replace(c, cc)] for one ASCII character *)
Definition double_byte (c : byte) (s : str) : str :=
  concat (map (fun b => if bool_decide (b = c) then [c; c] else [b]) s).
Definition quote_with (c : byte) (s : str) : str := c :: double_byte c s ++ [c].
Fixpoint join (sep : str) (l : list str) : str :=
  match l with
  | [] => []
  | [x] => x
  | x :: rest => x ++ sep ++ join sep rest
  end.

(** [std::str::from_utf8]: well-formed UTF-8 decodes to its scalar values. *)
Definition utf8_cont (b : byte) : bool := in_range 128 191 b.
Definition utf8_second3 (b0 b1 : byte) : bool :=
  if bz b0 =? 224 then in_range 160 191 b1
  else if bz b0 =? 237 then in_range 128 159 b1
  else utf8_cont b1.
Definition utf8_second4 (b0 b1 : byte) : bool :=
  if bz b0 =? 240 then in_range 144 191 b1
  else if bz b0 =? 244 then in_range 128 143 b1
  else utf8_cont b1.
Definition utf8_low (b : byte) : Z := bz b mod 64.

Fixpoint utf8_decode (s : str) : option (list Z) :=
  match s with
  | [] => Some []
  | b0 :: r0 =>
    if bz b0 <? 128 then cons (bz b0) <$> utf8_decode r0
    else match r0 with
    | [] => None
    | b1 :: r1 =>
      if in_range 194 223 b0 && utf8_cont b1
      then cons ((bz b0 mod 32) * 64 + utf8_low b1) <$> utf8_decode r1
      else match r1 with
      | [] => None
      | b2 :: r2 =>
        if in_range 224 239 b0 && utf8_second3 b0 b1 && utf8_cont b2
        then cons ((bz b0 mod 16) * 4096 + utf8_low b1 * 64 + utf8_low b2)
               <$> utf8_decode r2
        else match r2 with
        | [] => None
        | b3 :: r3 =>
          if in_range 240 244 b0 && utf8_second4 b0 b1 && utf8_cont b2 && utf8_cont b3
          then cons ((bz b0 mod 8) * 262144 + utf8_low b1 * 4096
                     + utf8_low b2 * 64 + utf8_low b3) <$> utf8_decode r3
          else None
        end
      end
    end
  end.

Definition utf8_encode_char (c : Z) : str :=
  if c <? 128 then [zb c]
  else if c <? 2048 then [zb (192 + c / 64); zb (128 + c mod 64)]
  else if c <? 65536 then
    [zb (224 + c / 4096); zb (128 + c / 64 mod 64); zb (128 + c mod 64)]
  else [zb (240 + c / 262144); zb (128 + c / 4096 mod 64);
        zb (128 + c / 64 mod 64); zb (128 + c mod 64)].
Definition utf8_encode (cs : list Z) : str := concat (map utf8_encode_char cs).

(** [str.chars()] of a well-formed string *)
Definition chars (s : str) : list Z := default [] (utf8_decode s).

(** [char::is_control] (general category Cc) and [char::is_whitespace] *)
Definition is_control (c : Z) : bool :=
  (c <=? 31) || ((127 <=? c) && (c <=? 159)).
Definition is_whitespace (c : Z) : bool :=
  ((9 <=? c) && (c <=? 13)) || (c =? 32) || (c =? 133) || (c =? 160) ||
  (c =? 5760) || ((8192 <=? c) && (c <=? 8202)) || (c =? 8232) || (c =? 8233) ||
  (c =? 8239) || (c =? 8287) || (c =? 12288).

Definition has_control (s : str) : bool := existsb is_control (chars s).

(** [str.trim()] *)
Fixpoint trim_start_chars (cs : list Z) : list Z :=
  match cs with
  | c :: rest => if is_whitespace c then trim_start_chars rest else cs
  | [] => []
  end.
Definition trim (s : str) : str :=
  utf8_encode (rev (trim_start_chars (rev (trim_start_chars (chars s))))).

(** [u32::to_be_bytes] and [u32::from_be_bytes] *)
Definition u32_to_be_bytes (n : Z) : list byte :=
  [zb (n / 16777216); zb (n / 65536); zb (n / 256); zb n].
Definition u32_from_be_bytes (b0 b1 b2 b3 : byte) : Z :=
  bz b0 * 16777216 + bz b1 * 65536 + bz b2 * 256 + bz b3.

(** ** Orderings and stable sorting

    [Vec::sort_by]: a stable sort; insertion of each element, from the last to
    the first, before the first element that is not smaller. *)

Fixpoint str_compare (a b : str) : comparison :=
  match a, b with
  | [], [] => Eq
  | [], _ :: _ => Lt
  | _ :: _, [] => Gt
  | x :: a', y :: b' =>
      match Z.compare (bz x) (bz y) with Eq => str_compare a' b' | c => c end
  end.
Definition then_compare (c d : comparison) : comparison :=
  match c with Eq => d | _ => c end.
Definition opt_compare {A} (cmp : A -> A -> comparison) (a b : option A) : comparison :=
  match a, b with
  | None, None => Eq
  | None, Some _ => Lt
  | Some _, None => Gt
  | Some x, Some y => cmp x y
  end.

Fixpoint insert_by {A} (cmp : A -> A -> comparison) (x : A) (l : list A) : list A :=
  match l with
  | [] => [x]
  | y :: rest => match cmp x y with Gt => y :: insert_by cmp x rest | _ => x :: l end
  end.
Definition sort_by {A} (cmp : A -> A -> comparison) (l : list A) : list A :=
  foldr (insert_by cmp) [] l.

(** [Vec::dedup]: consecutive equal elements are removed. *)
Fixpoint dedup `{EqDecision A} (l : list A) : list A :=
  match l with
  | x :: ((y :: _) as rest) =>
      if decide (x = y) then dedup rest else x :: dedup rest
  | _ => l
  end.

(** ** Lemmas on results *)

Create HintDb rust discriminated.

Lemma bind_ok {E A B} (m : result E A) (f : A -> result E B) b :
  (m ≫= f) = Ok b <-> exists a, m = Ok a /\ f a = Ok b.
Proof. destruct m; simpl; naive_solver. Qed.

Lemma ensure_ok {E} (c : bool) (e : E) u : ensure c e = Ok u <-> c = true.
Proof. destruct c, u; simpl; naive_solver. Qed.

Lemma ok_or_ok {E A} (o : option A) (e : E) a : ok_or o e = Ok a <-> o = Some a.
Proof. destruct o; simpl; naive_solver. Qed.

Section result_lemmas.
Context {E A B S : Type}.

Lemma map_err_ok {F} (f : E -> F) (m : result E A) a : map_err f m = Ok a <-> m = Ok a.
Proof. destruct m; simpl; naive_solver. Qed.

Lemma collect_ok (f : A -> result E B) l bs :
  collect f l = Ok bs <-> Forall2 (fun a b => f a = Ok b) l bs.
Proof.
  revert bs; induction l as [|x l IH]; intros bs; simpl.
  - split; [intros [= <-]; constructor | by inversion 1].
  - rewrite bind_ok; split.
    + intros (y & Hy & Hr). destruct (collect f l) as [ys|] eqn:Hys; simplify_eq/=.
      constructor; [done|]. by apply IH.
    + inversion 1 as [|? y ? ys Hy Hys]; subst. exists y; split; [done|].
      apply IH in Hys as ->. done.
Qed.

Lemma try_fold_app (step : S -> A -> result E S) l k s :
  try_fold step (l ++ k) s = (s' ← try_fold step l s; try_fold step k s').
Proof.
  revert s; induction l as [|x l IH]; intros s; simpl; [done|]. by destruct (step s x); simpl.
Qed.

(** Rule induction for a fallible loop, with the prefix consumed so far. *)
Lemma try_fold_ind (P : list A -> S -> Prop) (step : S -> A -> result E S) l s0 s :
  P [] s0 ->
  (forall done x s s', done ++ [x] `prefix_of` l -> P done s -> step s x = Ok s' ->
     P (done ++ [x]) s') ->
  try_fold step l s0 = Ok s -> P l s.
Proof.
  intros H0 Hstep.
  assert (forall rest done s1, l = done ++ rest -> P done s1 ->
            try_fold step rest s1 = Ok s -> P l s) as Hgen; [|by eapply (Hgen l [])].
  induction rest as [|x rest IH]; simpl; intros done s1 -> Hp.
  - intros [= <-]. by rewrite app_nil_r.
  - rewrite bind_ok. intros (s2 & H1 & H2).
    eapply (IH (done ++ [x])); [by rewrite <- (assoc_L (++)) | | done].
    eapply Hstep; [|done..]. exists rest. by rewrite <- (assoc_L (++)).
Qed.
End result_lemmas.

(** Decompose hypotheses [_ = Ok _] along the source's control flow. *)
Ltac inv_ok_step :=
  match goal with
  | H : Ok _ = Ok _ |- _ => injection H as H; try subst
  | H : Err _ = Ok _ |- _ => discriminate H
  | H : Ok _ = Err _ |- _ => discriminate H
  | H : (_ ≫= _) = Ok _ |- _ => apply bind_ok in H as (? & ? & H)
  | H : ensure _ _ = Ok _ |- _ => apply ensure_ok in H
  | H : ok_or _ _ = Ok _ |- _ => apply ok_or_ok in H
  | H : map_err _ _ = Ok _ |- _ => apply map_err_ok in H
  | H : (if ?b then _ else _) = Ok _ |- _ => destruct b eqn:?
  end.
Ltac inv_ok := repeat (inv_ok_step; simpl in *; try discriminate).

(** [loop_inv H P] turns [H : try_fold step l s0 = Ok s] into the invariant
    [P l s]; the base case and the step case are left after the main goal. *)
Tactic Notation "loop_inv" hyp(H) uconstr(P) :=
  eapply (try_fold_ind P) in H; [cbn beta iota in H| |].

(** Boolean guards as propositions. *)
Ltac bool_prop :=
  repeat match goal with
  | H : negb _ = true |- _ => apply negb_true_iff in H
  | H : negb _ = false |- _ => apply negb_false_iff in H
  | H : (_ && _) = true |- _ => apply andb_true_iff in H as [? ?]
  | H : (_ || _) = false |- _ => apply orb_false_iff in H as [? ?]
  | H : (_ || _) = true |- _ => apply orb_true_iff in H
  | H : (_ && _) = false |- _ => apply andb_false_iff in H
  | H : (_ =? _)%Z = true |- _ => apply Z.eqb_eq in H
  | H : (_ =? _)%Z = false |- _ => apply Z.eqb_neq in H
  | H : (_ <=? _)%Z = true |- _ => apply Z.leb_le in H
  | H : (_ <=? _)%Z = false |- _ => apply Z.leb_gt in H
  | H : (_ <? _)%Z = true |- _ => apply Z.ltb_lt in H
  | H : (_ <? _)%Z = false |- _ => apply Z.ltb_ge in H
  | H : bool_decide _ = true |- _ => apply bool_decide_eq_true in H
  | H : bool_decide _ = false |- _ => apply bool_decide_eq_false in H
  end.

(** ** Lemmas on bytes and machine integers *)

Lemma bz_range b : 0 <= bz b < 256.
Proof. destruct b; vm_compute; split; congruence. Qed.
#[export] Hint Resolve bz_range : rust.

Lemma zb_bz b : zb (bz b) = b.
Proof. destruct b; reflexivity. Qed.

Lemma bz_zb z : bz (zb z) = z mod 256.
Proof.
  assert (0 <= z mod 256 < 256) as Hr by (apply Z.mod_pos_bound; lia).
  unfold zb, bz. destruct (Byte.of_N (Z.to_N (z mod 256))) as [b|] eqn:Hb.
  - apply Byte.to_of_N in Hb. rewrite Hb. lia.
  - apply Byte.of_N_None_iff in Hb. lia.
Qed.

Lemma zb_inj x y : 0 <= x < 256 -> 0 <= y < 256 -> zb x = zb y -> x = y.
Proof.
  intros Hx Hy H. apply (f_equal bz) in H. rewrite !bz_zb in H.
  by rewrite !Z.mod_small in H.
Qed.

#[export] Instance bz_inj : Inj (=) (=) bz.
Proof. intros a b H. rewrite <- (zb_bz a), <- (zb_bz b). by rewrite H. Qed.

Lemma u32_from_to_be_bytes n b0 b1 b2 b3 :
  0 <= n <= u32_max ->
  u32_to_be_bytes n = [b0; b1; b2; b3] -> u32_from_be_bytes b0 b1 b2 b3 = n.
Proof.
  unfold u32_max, u32_to_be_bytes, u32_from_be_bytes. intros Hn [= <- <- <- <-].
  rewrite !bz_zb.
  pose proof (Z.div_mod n 256) as H1. pose proof (Z.div_mod (n / 256) 256) as H2.
  pose proof (Z.div_mod (n / 65536) 256) as H3.
  replace (n / 65536) with (n / 256 / 256) in * by (rewrite Z.div_div by lia; reflexivity).
  replace (n / 16777216) with (n / 256 / 256 / 256) by (rewrite !Z.div_div by lia; reflexivity).
  assert (n / 256 / 256 / 256 < 256) by
    (rewrite !Z.div_div by lia; apply Z.div_lt_upper_bound; lia).
  assert (0 <= n / 256 / 256 / 256) by (rewrite !Z.div_div by lia; apply Z.div_pos; lia).
  rewrite (Z.mod_small (n / 256 / 256 / 256)) by lia. lia.
Qed.

Lemma u32_from_be_bytes_range b0 b1 b2 b3 :
  0 <= u32_from_be_bytes b0 b1 b2 b3 <= u32_max.
Proof.
  unfold u32_from_be_bytes, u32_max.
  pose proof (bz_range b0). pose proof (bz_range b1).
  pose proof (bz_range b2). pose proof (bz_range b3). lia.
Qed.

Lemma len_nonneg {A} (l : list A) : 0 <= len l.
Proof. unfold len. lia. Qed.
#[export] Hint Resolve len_nonneg : rust.

Lemma len_app {A} (l k : list A) : len (l ++ k) = len l + len k.
Proof. unfold len. rewrite length_app. lia. Qed.

Lemma len_cons {A} (x : A) l : len (x :: l) = 1 + len l.
Proof. unfold len. simpl. lia. Qed.

Lemma len_nil_inv {A} (l : list A) : len l = 0 -> l = [].
Proof. destruct l; [done|]. rewrite len_cons. pose proof (len_nonneg l). lia. Qed.

Lemma existsb_elem {A} (f : A -> bool) (l : list A) :
  existsb f l = true <-> exists x, x ∈ l /\ f x = true.
Proof. rewrite existsb_exists. by setoid_rewrite list_elem_of_In. Qed.

(** ** ASCII case folding *)

Lemma eq_ignore_ascii_case_refl a : eq_ignore_ascii_case a a = true.
Proof. by apply bool_decide_eq_true. Qed.

Lemma eq_ignore_ascii_case_sym a b :
  eq_ignore_ascii_case a b = eq_ignore_ascii_case b a.
Proof. unfold eq_ignore_ascii_case. apply bool_decide_ext. naive_solver. Qed.

(** Strings up to ASCII case, and the functions that cannot tell them apart. *)
Definition ascii_ci (a b : str) : Prop := to_ascii_lowercase a = to_ascii_lowercase b.

#[export] Instance ascii_ci_equiv : Equivalence ascii_ci.
Proof. unfold ascii_ci. split; red; naive_solver congruence. Qed.

#[export] Instance eq_ignore_ascii_case_proper :
  Proper (ascii_ci ==> ascii_ci ==> (=)) eq_ignore_ascii_case.
Proof.
  intros a a' Ha b b' Hb. unfold eq_ignore_ascii_case, ascii_ci in *.
  apply bool_decide_ext. by rewrite Ha, Hb.
Qed.

Lemma eq_ignore_ascii_case_true a b : eq_ignore_ascii_case a b = true <-> ascii_ci a b.
Proof. unfold eq_ignore_ascii_case. by rewrite bool_decide_eq_true. Qed.

(** ** Stable sorting *)

Section sort_lemmas.
Context {A : Type} (cmp : A -> A -> comparison).
Definition le_by (x y : A) : Prop := cmp x y <> Gt.

Lemma insert_by_perm x l : insert_by cmp x l ≡ₚ x :: l.
Proof.
  induction l as [|y l IH]; simpl; [done|].
  destruct (cmp x y); [done..|]. rewrite IH. constructor.
Qed.

Lemma sort_by_perm l : sort_by cmp l ≡ₚ l.
Proof.
  induction l as [|x l IH]; simpl; [done|]. rewrite insert_by_perm. by rewrite IH.
Qed.

Hypothesis cmp_flip : forall x y, cmp x y = Gt -> cmp y x <> Gt.

Lemma insert_by_sorted x l : Sorted le_by l -> Sorted le_by (insert_by cmp x l).
Proof using cmp_flip.
  induction 1 as [|y l Hs IH Hh]; simpl; [repeat constructor|].
  destruct (cmp x y) eqn:Hc; [constructor; [by constructor | constructor; unfold le_by; congruence]..|].
  constructor; [done|]. destruct Hh as [|z l Hz]; simpl.
  - constructor. by apply cmp_flip.
  - destruct (cmp x z); constructor; try done; by apply cmp_flip.
Qed.

Lemma sort_by_sorted l : Sorted le_by (sort_by cmp l).
Proof using cmp_flip. induction l; simpl; [constructor|]. by apply insert_by_sorted. Qed.
End sort_lemmas.

(** Sorting commutes with a map that keeps the order. *)
Lemma sort_by_map {A B} (f : A -> B) (cmpA : A -> A -> comparison) (cmpB : B -> B -> comparison) l :
  (forall x y, cmpB (f x) (f y) = cmpA x y) -> sort_by cmpB (map f l) = map f (sort_by cmpA l).
Proof.
  intros Hf.
  assert (forall x k, insert_by cmpB (f x) (map f k) = map f (insert_by cmpA x k)) as Hins.
  { intros x k. induction k as [|y k IH]; simpl; [done|].
    rewrite Hf. destruct (cmpA x y); simpl; [done..|]. by rewrite IH. }
  induction l as [|x l IH]; simpl; [done|]. by rewrite IH, Hins.
Qed.

Lemma str_compare_antisym a b : str_compare b a = CompOpp (str_compare a b).
Proof.
  revert b. induction a as [|x a IH]; intros [|y b]; simpl; [done..|].
  rewrite (Z.compare_antisym (bz x) (bz y)). destruct (bz x ?= bz y); simpl; [apply IH | done..].
Qed.

Lemma str_compare_eq a b : str_compare a b = Eq -> a = b.
Proof.
  revert b. induction a as [|x a IH]; intros [|y b]; simpl; [done..|].
  destruct (bz x ?= bz y) eqn:Hc; [|done..]. apply Z.compare_eq in Hc.
  intros ->%IH. f_equal. by apply bz_inj.
Qed.

Lemma then_compare_flip c d : CompOpp (then_compare c d) = then_compare (CompOpp c) (CompOpp d).
Proof. by destruct c. Qed.

(** ** Splitting *)

Lemma split_on_app sep (a b : str) :
  sep ∉ a -> split_on sep (a ++ sep :: b) = a :: split_on sep b.
Proof.
  induction a as [|c a IH]; intros Hn; simpl; [by rewrite bool_decide_eq_true_2|].
  rewrite bool_decide_eq_false_2 by set_solver. rewrite IH by set_solver. done.
Qed.

Lemma split_on_free sep (s : str) : sep ∉ s -> split_on sep s = [s].
Proof.
  induction s as [|c s IH]; intros Hn; simpl; [done|].
  rewrite bool_decide_eq_false_2 by set_solver. by rewrite IH by set_solver.
Qed.

Lemma split_on_cons sep s a parts :
  split_on sep s = a :: parts ->
  sep ∉ a /\ match parts with [] => s = a | _ => exists rest, s = a ++ sep :: rest /\ split_on sep rest = parts end.
Proof.
  revert a. induction s as [|c s IH]; intros a H; simpl in H.
  { injection H as <- <-. split; [set_solver|done]. }
  case_bool_decide as Hc.
  { injection H as <- Hp. split; [set_solver|]. subst c.
    destruct parts as [|b parts]; [destruct s; simpl in Hp; repeat case_match; done|]. by exists s. }
  destruct (split_on sep s) as [|part rest] eqn:Hs.
  { destruct s; simpl in Hs; repeat case_match; done. }
  injection H as <- <-. destruct (IH _ eq_refl) as [Hn Hr]. split; [set_solver|].
  destruct rest as [|b rest]; [by subst|]. destruct Hr as (r & -> & Hr). by exists r.
Qed.

Lemma split_on_three sep s a b c :
  split_on sep s = [a; b; c] <-> (sep ∉ a /\ sep ∉ b /\ sep ∉ c) /\ s = a ++ sep :: b ++ sep :: c.
Proof.
  split.
  - intros H. destruct (split_on_cons _ _ _ _ H) as [Ha (r & -> & Hr)].
    destruct (split_on_cons _ _ _ _ Hr) as [Hb (r' & -> & Hr')].
    destruct (split_on_cons _ _ _ _ Hr') as [Hc ->]. done.
  - intros [(Ha & Hb & Hc) ->]. by rewrite !split_on_app, split_on_free.
Qed.

Lemma dedup_elem `{EqDecision A} (x : A) l : x ∈ dedup l <-> x ∈ l.
Proof.
  induction l as [|a [|b l] IH]; [done..|].
  change (dedup (a :: b :: l)) with
    (if decide (a = b) then dedup (b :: l) else a :: dedup (b :: l)).
  case_decide as Hab; [subst; rewrite IH, !elem_of_cons; tauto |].
  by rewrite elem_of_cons, IH, (elem_of_cons (b :: l)).
Qed.

(** ** Induction on the length of a list *)

Lemma list_len_ind {A} (P : list A -> Prop) :
  (forall l, (forall l', (length l' < length l)%nat -> P l') -> P l) -> forall l, P l.
Proof. intros H l. induction l as [l IH] using (induction_ltof1 _ (@length A)). by apply H. Qed.
