(* ===== verification/SqlSyntax.v ===== *)
(** * Names and calls of SQL syntax, and schemas

    What the components that inspect parsed SQL share: identifiers, object names and the parts
    of a function call other than its arguments, as the SQL parser has them; and the schemas of
    query results. *)

From S2P Require Import Prelude.

Record Ident := mkIdent { ident_value : str; quote_style : option byte }.
Inductive ObjectNamePart := PartIdentifier (i : Ident) | PartFunction (text : str).
Abbreviation ObjectName := (list ObjectNamePart).
(** A function call, less its arguments; the arguments are listed plainly, or are not *)
Record FunctionHead := mkFunctionHead {
  function_name : ObjectName;
  uses_odbc_syntax : bool;
  has_parameters : bool;
  has_filter : bool;
  has_null_treatment : bool;
  has_over : bool;
  has_within_group : bool;
  args_listed : bool;
  args_modified : bool }.

(** A field of an Arrow schema, with the name of its type *)
Record SchemaField := mkSchemaField { schema_name : str; schema_type : str; schema_nullable : bool }.
#[export] Instance schema_field_eq_dec : EqDecision SchemaField.
Proof. solve_decision. Defined.

(** [EngineTableRef] *)
Record EngineTableRef := mkEngineTableRef { ref_catalog : str; ref_schema : str; ref_table : str }.

#[export] Instance ident_eq_dec : EqDecision Ident.
Proof. solve_decision. Defined.
#[export] Instance part_eq_dec : EqDecision ObjectNamePart.
Proof. solve_decision. Defined.
#[export] Instance head_eq_dec : EqDecision FunctionHead.
Proof. solve_decision. Defined.
