(* ===== verification/Reachability.v ===== *)
(** * Worklist search over a finite relation

    The role catalog answers every graph question with the same loop: take a
    name from the worklist, walk over its outgoing edges, stop on a target, and
    queue each name seen for the first time.  [explore] is that loop; a queue
    ([VecDeque], [push_back]/[pop_front]) and a stack ([Vec], [push]/[pop])
    differ in [push] only.  The lemmas show that the loop ends within a fuel
    bounded by the number of names and decides reachability. *)

From S2P Require Import Prelude.

Section explore.
Context {K : Type} `{Countable K}.

(** Where a new name goes: [push_back] on a queue whose head is taken first,
    [push] on a stack whose top is the head of the list. *)
Definition push_back (pending : list K) (x : K) : list K := pending ++ [x].
Definition push_top (pending : list K) (x : K) : list K := x :: pending.

Inductive explored :=
  | Found
  | Exhausted (visited : gset K).

(** The inner [for] loop: [None] when an edge hits the target. *)
Fixpoint expand (push : list K -> K -> list K) (stop : K -> bool) (granted : list K)
    (visited : gset K) (pending : list K) : option (gset K * list K) :=
  match granted with
  | [] => Some (visited, pending)
  | x :: rest =>
      if stop x then None
      else if decide (x ∈ visited) then expand push stop rest visited pending
      else expand push stop rest ({[x]} ∪ visited) (push pending x)
  end.

(** The outer [while let Some(current) = pending.pop...()] loop. *)
Fixpoint explore (fuel : nat) (push : list K -> K -> list K) (stop : K -> bool)
    (succ : K -> list K) (visited : gset K) (pending : list K) : option explored :=
  match fuel with
  | O => None
  | S fuel =>
      match pending with
      | [] => Some (Exhausted visited)
      | current :: rest =>
          match expand push stop (succ current) visited rest with
          | None => Some Found
          | Some (visited', pending') => explore fuel push stop succ visited' pending'
          end
      end
  end.

(** [push] puts exactly one element into the worklist, wherever it does. *)
Class Pusher (push : list K -> K -> list K) : Prop :=
  push_perm : forall p x, push p x ≡ₚ x :: p.

#[export] Instance push_back_pusher : Pusher push_back.
Proof. intros p x. unfold push_back. by rewrite Permutation_app_comm. Qed.
#[export] Instance push_top_pusher : Pusher push_top.
Proof. intros p x. by unfold push_top. Qed.

Context (push : list K -> K -> list K) `{!Pusher push}.
Context (stop : K -> bool) (succ : K -> list K).

Definition edge (a b : K) : Prop := b ∈ succ a.

Lemma expand_spec granted V P :
  match expand push stop granted V P with
  | None => exists x, x ∈ granted /\ stop x = true
  | Some (V', P') =>
      Forall (fun x => stop x = false) granted /\
      V' = list_to_set granted ∪ V /\
      (forall x, x ∈ P' <-> x ∈ P \/ (x ∈ granted /\ x ∉ V)) /\
      (length P' + size V = length P + size V')%nat
  end.
Proof using Pusher0.
  clear succ. revert V P; induction granted as [|x granted IH]; intros V P; simpl.
  { split_and!; [constructor | set_solver | set_solver | lia]. }
  destruct (stop x) eqn:Hx; [set_solver|].
  destruct (decide (x ∈ V)) as [Hin|Hin].
  - specialize (IH V P). destruct (expand _ _ _ V P) as [[V' P']|]; [|set_solver].
    destruct IH as (Hs & -> & HP & Hl).
    split_and!; [by constructor | set_solver | set_solver | lia].
  - specialize (IH ({[x]} ∪ V) (push P x)).
    destruct (expand _ _ _ _ _) as [[V' P']|]; [|set_solver].
    destruct IH as (Hs & -> & HP & Hl). rewrite (Permutation_length (push_perm (push:=push) P x)) in Hl.
    rewrite size_union, size_singleton in Hl by set_solver. simpl in Hl.
    split_and!; [by constructor | set_solver | | lia].
    intros y. rewrite HP, (push_perm (push:=push) P x), !elem_of_cons, not_elem_of_union,
      not_elem_of_singleton. destruct (decide (y = x)) as [->|]; naive_solver.
Qed.

Lemma tc_last (R : K -> K -> Prop) x z : tc R x z -> exists y, rtc R x y /\ R y z.
Proof using.
  induction 1 as [x y Hxy|x y z Hxy _ (w & Hyw & Hwz)]; [exists x; by split; [constructor|]|].
  exists w. split; [by eapply rtc_l | done].
Qed.

Section from.
Context (s : K) (V0 : gset K).

(** What holds at the head of every iteration. *)
Definition explore_inv (V : gset K) (P : list K) : Prop :=
  (forall x, x ∈ P -> rtc edge s x) /\
  (forall x, x ∈ V -> x ∈ V0 \/ tc edge s x) /\ V0 ⊆ V /\
  (forall x, x = s \/ x ∈ V -> x ∈ P \/ forall y, edge x y -> y ∈ V /\ stop y = false).

Lemma explore_result fuel V P r :
  explore_inv V P -> explore fuel push stop succ V P = Some r ->
  match r with
  | Found => exists z, tc edge s z /\ stop z = true
  | Exhausted V' => explore_inv V' []
  end.
Proof using Pusher0.
  revert V P; induction fuel as [|fuel IH]; intros V P Hinv; simpl; [done|].
  destruct P as [|x P]; [by intros [= <-]|]. pose proof (expand_spec (succ x) V P) as Hexp.
  destruct Hinv as (HP & HV & HV0 & Hcl). assert (rtc edge s x) by (apply HP; set_solver).
  assert (forall y, edge x y -> tc edge s y) as Hx by (intros; by eapply tc_rtc_l; [|apply tc_once]).
  destruct (expand _ _ _ _ _) as [[V' P']|].
  - destruct Hexp as (Hs & -> & HP' & _). rewrite Forall_forall in Hs. intros Hr.
    eapply IH; [|exact Hr]. split_and!.
    + intros y [?|[? _]]%HP'; [apply HP; set_solver | by apply tc_rtc, Hx].
    + intros y [Hy%elem_of_list_to_set|?]%elem_of_union; [right; by apply Hx | auto].
    + set_solver.
    + intros y Hy. destruct (decide (y = x)) as [->|Hne].
      { right. intros z Hz. split; [by apply elem_of_union_l, elem_of_list_to_set | by apply Hs]. }
      destruct (decide (y ∈ P')) as [|HnP]; [by left|]. right. rewrite HP' in HnP.
      assert (y = s \/ y ∈ V) as Hy0.
      { destruct Hy as [|[Hg%elem_of_list_to_set|]%elem_of_union]; [by left| |by right].
        right. destruct (decide (y ∈ V)); [done|]. destruct HnP. by right. }
      destruct (Hcl y Hy0) as [[?|?]%elem_of_cons|Hy']; [done | by destruct HnP; left |].
      intros z Hz. destruct (Hy' z Hz). split; [by apply elem_of_union_r | done].
  - intros [= <-]. destruct Hexp as (z & Hz & ?). exists z. split; [by apply Hx | done].
Qed.

Lemma explore_terminates fuel U V P :
  (forall x y, edge x y -> y ∈ (U : gset K)) -> V ⊆ U ∪ V0 ->
  (length P + size (U ∪ V0) - size V < fuel)%nat ->
  exists r, explore fuel push stop succ V P = Some r.
Proof using Pusher0.
  intros HU. revert V P; induction fuel as [|fuel IH]; intros V P HV Hf; simpl; [lia|].
  destruct P as [|x P]; [eauto|]. pose proof (expand_spec (succ x) V P) as Hexp.
  destruct (expand _ _ _ _ _) as [[V' P']|]; [|eauto].
  destruct Hexp as (_ & -> & _ & Hl).
  assert (list_to_set (succ x) ∪ V ⊆ U ∪ V0) as Hsub.
  { apply union_least; [|done]. intros y Hy%elem_of_list_to_set.
    apply elem_of_union_l. by eapply HU. }
  pose proof (subseteq_size _ _ Hsub). pose proof (subseteq_size _ _ HV).
  apply IH; [done|]. simpl in Hf. lia.
Qed.
End from.

(** The loop started at [s] finds a target iff one is reachable in at least one
    step, and otherwise returns what it started with plus everything reachable. *)
Lemma explore_correct fuel U (V0 : gset K) s :
  (forall x y, edge x y -> y ∈ (U : gset K)) -> V0 ⊆ {[s]} -> (2 + size U < fuel)%nat ->
  (explore fuel push stop succ V0 [s] = Some Found /\
     (exists z, tc edge s z /\ stop z = true)) \/
  (exists V, explore fuel push stop succ V0 [s] = Some (Exhausted V) /\
     (forall x, x ∈ V <-> x ∈ V0 \/ tc edge s x) /\
     (forall z, tc edge s z -> stop z = false)).
Proof using Pusher0.
  intros HU HV0 Hf.
  assert (size (U ∪ V0) <= S (size U))%nat as Hsz.
  { rewrite size_union_alt. apply subseteq_size in HV0 as HV0'. rewrite size_singleton in HV0'.
    assert (size (V0 ∖ U) <= size V0)%nat by (apply subseteq_size; set_solver). lia. }
  destruct (explore_terminates V0 fuel U V0 [s]) as [r Hr]; [done | set_solver | simpl; lia |].
  assert (explore_inv s V0 V0 [s]) as Hinv.
  { split_and!; [intros x ->%list_elem_of_singleton; constructor | by left | done | set_solver]. }
  pose proof (explore_result s V0 _ _ _ _ Hinv Hr) as Hres. destruct r as [|V]; [by left|].
  right. exists V. destruct Hres as (_ & HV & Hsub & Hcl).
  assert (forall x y, rtc edge s x -> edge x y -> y ∈ V /\ stop y = false) as Hreach.
  { assert (forall x, x = s \/ x ∈ V -> forall y, edge x y -> y ∈ V /\ stop y = false) as Hc.
    { intros x Hx. by destruct (Hcl x Hx) as [?%not_elem_of_nil|]. }
    intros x y Hx. revert y. pattern x. revert x Hx. apply rtc_ind_r; [by apply Hc; left|].
    intros x z _ Hxz IH. apply Hc. right. by apply IH. }
  split_and!; [done| |].
  - intros x; split; [apply HV|]. intros [?|(y & ? & ?)%tc_last]; [set_solver|].
    by eapply Hreach.
  - intros z (y & ? & ?)%tc_last. by eapply Hreach.
Qed.
End explore.

Lemma size_list_to_set_le `{Countable K} (l : list K) :
  (size (list_to_set (C := gset K) l) <= length l)%nat.
Proof.
  induction l as [|x l IH]; cbn [list_to_set length]; [apply Nat.eq_le_incl, size_empty|].
  rewrite size_union_alt, size_singleton.
  assert (size (list_to_set (C := gset K) l ∖ {[x]}) <= size (list_to_set (C := gset K) l))%nat
    by (apply subseteq_size; set_solver). lia.
Qed.

Arguments Found {K _ _}.
Arguments Exhausted {K _ _} visited.
Arguments explore {K _ _} fuel push stop succ visited pending : simpl never.
