(* ===== verification/RoleCatalog.v ===== *)
(** * The immutable role catalog ([quackgis-server/src/role.rs])

    Roles, memberships, table owners and grants, built once from the role
    configuration document ([TryFrom<RoleConfigDocument>]) and queried by every
    authorization decision.  The queries walk the membership graph with the
    worklist of [Reachability]; the theorems relate them to reachability over
    the configured memberships, and give the invariant that a catalog accepted
    at startup satisfies. *)

From S2P Require Import Prelude Reachability.

Definition MAX_ROLE_CONFIG_BYTES : Z := 1048576.
Definition MAX_ROLE_NAME_BYTES : Z := 63.
Definition BOOTSTRAP_OWNER_OID : Z := 10.

Record Role := mkRole {
  role_oid : Z;
  role_name : str;
  role_login : bool;
  role_inherit : bool }.

Record RoleMembership := mkRoleMembership {
  membership_oid : Z;
  membership_role : str;
  membership_member : str;
  inherit_option : bool;
  set_option : bool;
  admin_option : bool }.

Record TableOwner := mkTableOwner {
  owner_schema : str;
  owner_table : str;
  owner_role : str }.

Inductive SchemaPrivilege := SchemaUsage.
Inductive TablePrivilege :=
  TableSelect | TableInsert | TableUpdate | TableDelete | TableMaintain.
Inductive RolePrivilege := RoleMember | RoleUsage | RoleSet.

#[export] Instance schema_privilege_eq_dec : EqDecision SchemaPrivilege.
Proof. solve_decision. Defined.
#[export] Instance table_privilege_eq_dec : EqDecision TablePrivilege.
Proof. solve_decision. Defined.
#[export] Instance role_privilege_eq_dec : EqDecision RolePrivilege.
Proof. solve_decision. Defined.

Record SchemaGrant := mkSchemaGrant {
  schema_grant_schema : str;
  schema_grant_role : option str;
  schema_grant_privileges : list SchemaPrivilege }.

Record TableGrant := mkTableGrant {
  table_grant_schema : str;
  table_grant_table : str;
  table_grant_role : option str;
  table_grant_privileges : list TablePrivilege }.

Record RoleCatalog := mkRoleCatalog {
  roles : list Role;
  memberships : list RoleMembership;
  table_owners : list TableOwner;
  schema_grants : list SchemaGrant;
  table_grants : list TableGrant;
  role_indexes : gmap str nat }.

(** ** Queries *)

(** [RoleCatalog::role] *)
Definition role (self : RoleCatalog) (name : str) : option Role :=
  index ← role_indexes self !! name; roles self !! (index : nat).

(** [RoleCatalog::role_by_oid] *)
Definition role_by_oid (self : RoleCatalog) (oid : Z) : option Role :=
  List.find (fun r => role_oid r =? oid) (roles self).

Definition is_none {A} (o : option A) : bool := match o with None => true | _ => false end.

(** The filter of the loop in [has_role_privilege]: the roles granted to
    [current] by memberships that carry the privilege. *)
Definition edge_carries (privilege : RolePrivilege) (e : RoleMembership) : bool :=
  match privilege with
  | RoleMember => true
  | RoleUsage => inherit_option e
  | RoleSet => set_option e
  end.
Definition granted_to (ms : list RoleMembership) (privilege : RolePrivilege)
    (current : str) : list str :=
  map membership_role
    (List.filter (fun e => bool_decide (membership_member e = current)
                           && edge_carries privilege e) ms).

(** Every name enters the worklist at most once, so this many rounds suffice. *)
Definition search_fuel (ms : list RoleMembership) : nat := 3 + length ms.

(** [RoleCatalog::has_role_privilege] *)
Definition has_role_privilege (self : RoleCatalog) (member target : str)
    (privilege : RolePrivilege) : bool :=
  if is_none (role self member) || is_none (role self target) then false
  else if bool_decide (member = target) then true
  else match explore (search_fuel (memberships self)) push_back
               (fun r => bool_decide (r = target))
               (granted_to (memberships self) privilege) {[member]} [member] with
       | Some Found => true
       | _ => false
       end.

(** [RoleCatalog::can_set_role] *)
Definition can_set_role (self : RoleCatalog) (session_user target : str) : bool :=
  has_role_privilege self session_user target RoleSet.

(** [RoleCatalog::inherited_roles] *)
Definition inherited_roles (self : RoleCatalog) (r : str) : gset str :=
  if is_none (role self r) then ∅
  else match explore (search_fuel (memberships self)) push_back (fun _ => false)
               (granted_to (memberships self) RoleUsage) {[r]} [r] with
       | Some (Exhausted inherited) => inherited
       | _ => ∅
       end.

(** [grant.role.as_ref().is_none_or(|grantee| ...)] *)
Definition is_none_or {A} (o : option A) (p : A -> bool) : bool :=
  match o with None => true | Some a => p a end.

(** [RoleCatalog::has_schema_privilege] *)
Definition has_schema_privilege (self : RoleCatalog) (r schema : str)
    (privilege : SchemaPrivilege) : bool :=
  let public := eq_ignore_ascii_case r (lit "PUBLIC") in
  if negb public && is_none (role self r) then false
  else
    let inherited := inherited_roles self r in
    existsb (fun grant =>
      eq_ignore_ascii_case (schema_grant_schema grant) schema
      && bool_decide (privilege ∈ schema_grant_privileges grant)
      && is_none_or (schema_grant_role grant)
           (fun grantee => negb public && bool_decide (grantee ∈ inherited)))
      (schema_grants self).

(** The owner test shared by [has_table_privilege] and
    [can_create_configured_table]. *)
Definition owns_table (self : RoleCatalog) (inherited : gset str) (schema table : str) : bool :=
  existsb (fun owner =>
    eq_ignore_ascii_case (owner_schema owner) schema
    && eq_ignore_ascii_case (owner_table owner) table
    && bool_decide (owner_role owner ∈ inherited)) (table_owners self).

(** [RoleCatalog::has_table_privilege] *)
Definition has_table_privilege (self : RoleCatalog) (r schema table : str)
    (privilege : TablePrivilege) : bool :=
  let public := eq_ignore_ascii_case r (lit "PUBLIC") in
  if negb public && is_none (role self r) then false
  else
    let inherited := inherited_roles self r in
    if negb public && owns_table self inherited schema table then true
    else
      existsb (fun grant =>
        eq_ignore_ascii_case (table_grant_schema grant) schema
        && eq_ignore_ascii_case (table_grant_table grant) table
        && bool_decide (privilege ∈ table_grant_privileges grant)
        && is_none_or (table_grant_role grant)
             (fun grantee => negb public && bool_decide (grantee ∈ inherited)))
        (table_grants self).

(** [RoleCatalog::can_create_configured_table] *)
Definition can_create_configured_table (self : RoleCatalog) (r schema table : str) : bool :=
  let inherited := inherited_roles self r in
  has_schema_privilege self r schema SchemaUsage && owns_table self inherited schema table.

(** [RoleCatalog::allows_table_operation] *)
Definition allows_table_operation (self : RoleCatalog) (r schema table : str)
    (privilege : TablePrivilege) : bool :=
  has_schema_privilege self r schema SchemaUsage
  && has_table_privilege self r schema table privilege.

(** ** The configuration document and its validation *)

Record RoleConfig := mkRoleConfig {
  rc_oid : Z; rc_name : str; rc_login : bool; rc_inherit : bool }.
Record MembershipConfig := mkMembershipConfig {
  mc_oid : Z; mc_role : str; mc_member : str;
  mc_inherit_option : option bool; mc_set_option : bool; mc_admin_option : bool }.
Record TableOwnerConfig := mkTableOwnerConfig { toc_table : str; toc_role : str }.
Inductive SchemaPrivilegeConfig := CfgSchemaUsage.
Record SchemaGrantConfig := mkSchemaGrantConfig {
  sgc_schema : str; sgc_role : str; sgc_privileges : list SchemaPrivilegeConfig }.
Inductive TablePrivilegeConfig :=
  CfgSelect | CfgInsert | CfgUpdate | CfgDelete | CfgMaintain.
Record TableGrantConfig := mkTableGrantConfig {
  tgc_table : str; tgc_role : str; tgc_privileges : list TablePrivilegeConfig }.
Record RoleConfigDocument := mkRoleConfigDocument {
  doc_roles : list RoleConfig;
  doc_memberships : list MembershipConfig;
  doc_table_owners : list TableOwnerConfig;
  doc_schema_grants : list SchemaGrantConfig;
  doc_table_grants : list TableGrantConfig }.

(** One constructor per [bail!] site. *)
Inductive RoleConfigError :=
  | ConfigTooLarge
  | InvalidDocument
  | NoRoles
  | InvalidRoleName (name : str)
  | ReservedRoleName (name : str)
  | DuplicateRole (name : str)
  | ReservedRoleOid (name : str) (oid : Z)
  | DuplicateRoleOid (oid : Z)
  | UnknownRole (label : string) (name : str)
  | SelfMembership (name : str)
  | AdminOptionUnsupported
  | BadMembershipOid (member role : str) (oid : Z)
  | DuplicateMembership (member role : str)
  | MembershipCycle (name : str)
  | UnsupportedTablePath (label : string) (raw : str)
  | InvalidTableName (label : string)
  | DuplicateOwner (schema table : str)
  | UnsupportedSchema (label : string) (raw : str)
  | RepeatedPrivilege (label : string)
  | NoPrivileges (label : string)
  | DuplicateSchemaGrant (grantee schema : str)
  | DuplicateTableGrant (grantee schema table : str)
  | IndexPanic.

(** [validate_role_name]; the first character and the rest are ASCII tests, so
    a byte outside ASCII (part of a longer character) is rejected as well. *)
Definition role_name_head (b : byte) : bool := bool_decide (b = x5f) || is_ascii_lowercase b.
Definition role_name_rest (b : byte) : bool :=
  bool_decide (b = x5f) || bool_decide (b = x24) || is_ascii_lowercase b || is_ascii_digit b.
Definition reserved_role_names : list str :=
  [lit "public"; lit "none"; lit "current_user"; lit "session_user"].
Definition validate_role_name (name : str) : result RoleConfigError unit :=
  _ ← ensure (negb ((MAX_ROLE_NAME_BYTES <? len name)
                    || negb (match name with b :: _ => role_name_head b | [] => false end)
                    || existsb (fun b => negb (role_name_rest b)) (tail name)))
        (InvalidRoleName name);
  ensure (negb (bool_decide (name ∈ reserved_role_names))) (ReservedRoleName name).

(** [known_role] *)
Definition known_role (indexes : gmap str nat) (name : str) (label : string)
    : result RoleConfigError str :=
  if bool_decide (is_Some (indexes !! name)) then Ok name else Err (UnknownRole label name).

(** [normalize_grantee] *)
Definition normalize_grantee (indexes : gmap str nat) (grantee : str)
    : result RoleConfigError (option str) :=
  if bool_decide (grantee = lit "PUBLIC") then Ok None
  else Some <$> known_role indexes grantee "grant grantee".

Definition is_public_or_main (s : str) : bool :=
  eq_ignore_ascii_case s (lit "public") || eq_ignore_ascii_case s (lit "main").

(** [normalize_schema] *)
Definition normalize_schema (raw : str) (label : string) : result RoleConfigError str :=
  if is_public_or_main raw then Ok (lit "main") else Err (UnsupportedSchema label raw).

(** [normalize_table] *)
Definition normalize_table (raw : str) (label : string) : result RoleConfigError (str * str) :=
  '(schema, table) ←
    match split_on x2e raw with
    | [table] => Ok (lit "main", table)
    | [schema; table] =>
        if is_public_or_main schema then Ok (lit "main", table)
        else Err (UnsupportedTablePath label raw)
    | _ => Err (UnsupportedTablePath label raw)
    end;
  _ ← ensure (negb (bool_decide (table = []) || (MAX_ROLE_NAME_BYTES <? len table)
                    || has_control table)) (InvalidTableName label);
  Ok (schema, table).

(** [set.insert(key)], failing when the key is already there. *)
Definition insert_new {E} `{Countable K} (seen : gset K) (k : K) (e : E)
    : result E (gset K) :=
  if decide (k ∈ seen) then Err e else Ok ({[k]} ∪ seen).

(** [nonempty_unique]; [Hash] + [Eq] on the enum is membership in the list seen. *)
Definition nonempty_unique `{EqDecision T} (values : list T) (label : string)
    : result RoleConfigError (list T) :=
  out ← try_fold (fun seen v =>
          _ ← ensure (negb (bool_decide (v ∈ seen))) (RepeatedPrivilege label);
          Ok (seen ++ [v])) values [];
  _ ← ensure (negb (bool_decide (out = []))) (NoPrivileges label);
  Ok out.

(** [reject_membership_cycles]: the adjacency lists, then one search per role. *)
Definition outgoing_of (ms : list RoleMembership) : gmap str (list str) :=
  foldl (fun outgoing m =>
    <[membership_member m := default [] (outgoing !! membership_member m)
                             ++ [membership_role m]]> outgoing) ∅ ms.
Definition reject_membership_cycles (rs : list Role) (ms : list RoleMembership)
    : result RoleConfigError unit :=
  let outgoing := outgoing_of ms in
  try_fold (fun _ r =>
    match explore (search_fuel ms) push_top (fun g => bool_decide (g = role_name r))
            (fun member => default [] (outgoing !! member)) ∅ [role_name r] with
    | Some Found => Err (MembershipCycle (role_name r))
    | _ => Ok tt
    end) rs tt.

(** The loops of [TryFrom<RoleConfigDocument>::try_from], one definition each. *)
Definition build_roles (configured : list RoleConfig) : result RoleConfigError (list Role) :=
  '(_, _, rs) ← try_fold (fun '(names, oids, rs) c =>
    _ ← validate_role_name (rc_name c);
    names' ← insert_new names (rc_name c) (DuplicateRole (rc_name c));
    _ ← ensure (negb ((rc_oid c =? 0) || (rc_oid c =? BOOTSTRAP_OWNER_OID)))
          (ReservedRoleOid (rc_name c) (rc_oid c));
    oids' ← insert_new oids (rc_oid c) (DuplicateRoleOid (rc_oid c));
    Ok (names', oids',
        rs ++ [mkRole (rc_oid c) (rc_name c) (rc_login c) (rc_inherit c)]))
    configured (∅, ∅, []);
  Ok (sort_by (fun a b => Z.compare (role_oid a) (role_oid b)) rs).

Definition index_roles (rs : list Role) : gmap str nat :=
  foldl (fun m '(i, r) => <[role_name r := i]> m) ∅ (imap (fun i r => (i, r)) rs).

Definition compare_memberships (l r : RoleMembership) : comparison :=
  then_compare (str_compare (membership_member l) (membership_member r))
               (str_compare (membership_role l) (membership_role r)).

Definition build_memberships (rs : list Role) (indexes : gmap str nat)
    (configured : list MembershipConfig) : result RoleConfigError (list RoleMembership) :=
  '(_, _, ms) ← try_fold (fun '(keys, oids, ms) c =>
    r ← known_role indexes (mc_role c) "membership role";
    m ← known_role indexes (mc_member c) "membership member";
    _ ← ensure (negb (bool_decide (r = m))) (SelfMembership r);
    _ ← ensure (negb (mc_admin_option c)) AdminOptionUnsupported;
    _ ← ensure (negb (mc_oid c =? 0)) (BadMembershipOid m r (mc_oid c));
    oids' ← insert_new oids (mc_oid c) (BadMembershipOid m r (mc_oid c));
    keys' ← insert_new keys (m, r) (DuplicateMembership m r);
    inherit ← match mc_inherit_option c with
              | Some b => Ok b
              | None => member ← ok_or (i ← indexes !! m; rs !! (i : nat)) IndexPanic;
                        Ok (role_inherit member)
              end;
    Ok (keys', oids',
        ms ++ [mkRoleMembership (mc_oid c) r m inherit (mc_set_option c) false]))
    configured (∅, ∅, []);
  Ok (sort_by compare_memberships ms).

Definition build_table_owners (indexes : gmap str nat) (configured : list TableOwnerConfig)
    : result RoleConfigError (list TableOwner) :=
  '(_, owners) ← try_fold (fun '(keys, owners) c =>
    r ← known_role indexes (toc_role c) "table owner";
    '(schema, table) ← normalize_table (toc_table c) "table owner";
    keys' ← insert_new keys (schema, table) (DuplicateOwner schema table);
    Ok (keys', owners ++ [mkTableOwner schema table r]))
    configured (∅, []);
  Ok (sort_by (fun l r => then_compare (str_compare (owner_schema l) (owner_schema r))
                                       (str_compare (owner_table l) (owner_table r))) owners).

Definition schema_privilege_of (p : SchemaPrivilegeConfig) : SchemaPrivilege :=
  match p with CfgSchemaUsage => SchemaUsage end.
Definition table_privilege_of (p : TablePrivilegeConfig) : TablePrivilege :=
  match p with
  | CfgSelect => TableSelect | CfgInsert => TableInsert | CfgUpdate => TableUpdate
  | CfgDelete => TableDelete | CfgMaintain => TableMaintain
  end.

Definition build_schema_grants (indexes : gmap str nat) (configured : list SchemaGrantConfig)
    : result RoleConfigError (list SchemaGrant) :=
  '(_, grants) ← try_fold (fun '(keys, grants) c =>
    r ← normalize_grantee indexes (sgc_role c);
    schema ← normalize_schema (sgc_schema c) "schema grant";
    privileges ← nonempty_unique (map schema_privilege_of (sgc_privileges c)) "schema grant";
    keys' ← insert_new keys (schema, r) (DuplicateSchemaGrant (sgc_role c) schema);
    Ok (keys', grants ++ [mkSchemaGrant schema r privileges]))
    configured (∅, []);
  Ok (sort_by (fun l r =>
        then_compare (str_compare (schema_grant_schema l) (schema_grant_schema r))
          (opt_compare str_compare (schema_grant_role l) (schema_grant_role r))) grants).

Definition build_table_grants (indexes : gmap str nat) (configured : list TableGrantConfig)
    : result RoleConfigError (list TableGrant) :=
  '(_, grants) ← try_fold (fun '(keys, grants) c =>
    r ← normalize_grantee indexes (tgc_role c);
    '(schema, table) ← normalize_table (tgc_table c) "table grant";
    privileges ← nonempty_unique (map table_privilege_of (tgc_privileges c)) "table grant";
    keys' ← insert_new keys (schema, table, r)
              (DuplicateTableGrant (tgc_role c) schema table);
    Ok (keys', grants ++ [mkTableGrant schema table r privileges]))
    configured (∅, []);
  Ok (sort_by (fun l r =>
        then_compare (str_compare (table_grant_schema l) (table_grant_schema r))
          (then_compare (str_compare (table_grant_table l) (table_grant_table r))
             (opt_compare str_compare (table_grant_role l) (table_grant_role r)))) grants).

(** [TryFrom<RoleConfigDocument> for RoleCatalog] *)
Definition try_from (document : RoleConfigDocument) : result RoleConfigError RoleCatalog :=
  _ ← ensure (negb (bool_decide (length (doc_roles document) = 0%nat))) NoRoles;
  rs ← build_roles (doc_roles document);
  let indexes := index_roles rs in
  ms ← build_memberships rs indexes (doc_memberships document);
  _ ← reject_membership_cycles rs ms;
  owners ← build_table_owners indexes (doc_table_owners document);
  sgrants ← build_schema_grants indexes (doc_schema_grants document);
  tgrants ← build_table_grants indexes (doc_table_grants document);
  Ok (mkRoleCatalog rs ms owners sgrants tgrants indexes).

(** [RoleCatalog::from_json]; [serde_json] is a parameter. *)
Definition from_json (serde_json : str -> option RoleConfigDocument) (raw : str)
    : result RoleConfigError RoleCatalog :=
  _ ← ensure (negb (MAX_ROLE_CONFIG_BYTES <? len raw)) ConfigTooLarge;
  document ← ok_or (serde_json raw) InvalidDocument;
  try_from document.

(** ** Specification *)

(** The option a membership must have been granted with, as in PostgreSQL: INHERIT
    for USAGE, SET for SET, none for MEMBER. *)
Definition option_granted (p : RolePrivilege) (m : RoleMembership) : Prop :=
  (p = RoleUsage -> inherit_option m = true) /\ (p = RoleSet -> set_option m = true).

(** [a] is a direct member of [b] through a membership that carries the privilege. *)
Definition member_edge (ms : list RoleMembership) (p : RolePrivilege) (a b : str) : Prop :=
  exists m, m ∈ ms /\ membership_member m = a /\ membership_role m = b /\ option_granted p m.

Definition known (self : RoleCatalog) (r : str) : Prop := is_Some (role self r).

(** [r] has the privileges granted to [g]. *)
Definition inherits (self : RoleCatalog) (r g : str) : Prop :=
  known self r /\ rtc (member_edge (memberships self) RoleUsage) r g.

Definition public_name (r : str) : Prop := ascii_ci r (lit "PUBLIC").

(** Which grants and ownerships authorize a table operation. *)
Inductive table_authorized (self : RoleCatalog) (r schema table : str) (p : TablePrivilege)
    : Prop :=
  | by_ownership o :
      o ∈ table_owners self -> ascii_ci (owner_schema o) schema ->
      ascii_ci (owner_table o) table -> ~ public_name r -> inherits self r (owner_role o) ->
      table_authorized self r schema table p
  | by_public_grant g :
      g ∈ table_grants self -> ascii_ci (table_grant_schema g) schema ->
      ascii_ci (table_grant_table g) table -> p ∈ table_grant_privileges g ->
      table_grant_role g = None -> public_name r \/ known self r ->
      table_authorized self r schema table p
  | by_grant g grantee :
      g ∈ table_grants self -> ascii_ci (table_grant_schema g) schema ->
      ascii_ci (table_grant_table g) table -> p ∈ table_grant_privileges g ->
      table_grant_role g = Some grantee -> ~ public_name r -> inherits self r grantee ->
      table_authorized self r schema table p.

Definition valid_role_name (name : str) : Prop :=
  name <> [] /\ len name <= MAX_ROLE_NAME_BYTES /\ name ∉ reserved_role_names /\
  Forall (fun b => role_name_rest b = true) name.

Definition role_ok (r : Role) : Prop :=
  valid_role_name (role_name r) /\ role_oid r <> 0 /\ role_oid r <> BOOTSTRAP_OWNER_OID.

Definition known_grantee (rs : list Role) (g : option str) : Prop :=
  match g with None => True | Some n => n ∈ map role_name rs end.

Definition role_of (c : RoleConfig) : Role :=
  mkRole (rc_oid c) (rc_name c) (rc_login c) (rc_inherit c).

(** The membership recorded for a configuration entry. *)
Definition membership_of (rs : list Role) (c : MembershipConfig) (m : RoleMembership) : Prop :=
  membership_oid m = mc_oid c /\ membership_role m = mc_role c /\
  membership_member m = mc_member c /\ set_option m = mc_set_option c /\ admin_option m = false /\
  match mc_inherit_option c with
  | Some b => inherit_option m = b
  | None => exists r, r ∈ rs /\ role_name r = mc_member c /\ inherit_option m = role_inherit r
  end.

Definition membership_known (rs : list Role) (m : RoleMembership) : Prop :=
  membership_role m ∈ map role_name rs /\ membership_member m ∈ map role_name rs /\
  admin_option m = false.

Definition membership_key (m : RoleMembership) : str * str :=
  (membership_member m, membership_role m).

Definition owner_key (o : TableOwner) : str * str := (owner_schema o, owner_table o).

Definition owner_known (rs : list Role) (o : TableOwner) : Prop :=
  owner_role o ∈ map role_name rs /\ owner_schema o = lit "main" /\ owner_table o <> [].

Definition schema_grant_known (rs : list Role) (g : SchemaGrant) : Prop :=
  known_grantee rs (schema_grant_role g) /\ schema_grant_schema g = lit "main" /\
  schema_grant_privileges g <> [] /\ NoDup (schema_grant_privileges g).

Definition schema_grant_key (g : SchemaGrant) : str * option str :=
  (schema_grant_schema g, schema_grant_role g).

Definition table_grant_known (rs : list Role) (g : TableGrant) : Prop :=
  known_grantee rs (table_grant_role g) /\ table_grant_schema g = lit "main" /\
  table_grant_table g <> [] /\ table_grant_privileges g <> [] /\
  NoDup (table_grant_privileges g).

Definition table_grant_key (g : TableGrant) : str * str * option str :=
  (table_grant_schema g, table_grant_table g, table_grant_role g).

(** What every accepted catalog satisfies. *)
Record catalog_wf (c : RoleCatalog) : Prop := {
  wf_nonempty : roles c <> [];
  wf_names : NoDup (map role_name (roles c));
  wf_oids : NoDup (map role_oid (roles c));
  wf_role : Forall role_ok (roles c);
  wf_index : forall n r, role c n = Some r <-> r ∈ roles c /\ role_name r = n;
  wf_membership_oids : NoDup (map membership_oid (memberships c));
  wf_membership_keys : NoDup (map membership_key (memberships c));
  wf_membership : Forall (membership_known (roles c)) (memberships c);
  wf_acyclic : forall r, ~ tc (member_edge (memberships c) RoleMember) r r;
  wf_owner_keys : NoDup (map owner_key (table_owners c));
  wf_owner : Forall (owner_known (roles c)) (table_owners c);
  wf_schema_grant_keys : NoDup (map schema_grant_key (schema_grants c));
  wf_schema_grant : Forall (schema_grant_known (roles c)) (schema_grants c);
  wf_table_grant_keys : NoDup (map table_grant_key (table_grants c));
  wf_table_grant : Forall (table_grant_known (roles c)) (table_grants c) }.

(** ** The membership graph *)

Lemma edge_carries_granted p m : edge_carries p m = true <-> option_granted p m.
Proof. unfold option_granted. destruct p; simpl; naive_solver. Qed.

Lemma granted_to_edge ms p a b : b ∈ granted_to ms p a <-> member_edge ms p a b.
Proof.
  unfold granted_to, member_edge. rewrite list_elem_of_In, in_map_iff.
  setoid_rewrite filter_In. setoid_rewrite <- list_elem_of_In.
  setoid_rewrite andb_true_iff. setoid_rewrite bool_decide_eq_true.
  setoid_rewrite edge_carries_granted. naive_solver.
Qed.

Lemma outgoing_of_edge ms a b :
  b ∈ default [] (outgoing_of ms !! a) <-> member_edge ms RoleMember a b.
Proof.
  unfold outgoing_of. induction ms as [|m ms IH] using rev_ind; [set_unfold; naive_solver|].
  rewrite foldl_snoc. cbv beta.
  assert (member_edge (ms ++ [m]) RoleMember a b <->
          member_edge ms RoleMember a b \/ (membership_member m = a /\ membership_role m = b)) as ->.
  { unfold member_edge. setoid_rewrite elem_of_app. setoid_rewrite list_elem_of_singleton.
    split; [intros (? & [?| ->] & ? & ? & ?) | intros [(x & ? & ?)|[? ?]]]; eauto 10.
    exists m. split_and!; [auto | done | done | by split]. }
  destruct (decide (membership_member m = a)) as [<-|Hne].
  - rewrite lookup_insert_eq. simpl. rewrite elem_of_app, IH, list_elem_of_singleton. intuition congruence.
  - rewrite lookup_insert_ne, IH by done. tauto.
Qed.

(** Both searches instantiate the worklist with a successor function whose edges
    are those of [member_edge]. *)
Section search.
Context (ms : list RoleMembership) (p : RolePrivilege) (succ : str -> list str).
Hypothesis succ_edge : forall a b, b ∈ succ a <-> member_edge ms p a b.

Lemma search_tc a b : tc (edge succ) a b <-> tc (member_edge ms p) a b.
Proof using succ_edge.
  split; induction 1 as [? ? H|? ? ? H _ IH]; first [by apply tc_once, succ_edge
    | by eapply tc_l; [apply succ_edge|]].
Qed.

Lemma search_correct push `{!Pusher push} stop V0 s :
  V0 ⊆ {[s]} ->
  (explore (search_fuel ms) push stop succ V0 [s] = Some Found /\
     exists z, tc (member_edge ms p) s z /\ stop z = true) \/
  (exists V, explore (search_fuel ms) push stop succ V0 [s] = Some (Exhausted V) /\
     (forall x, x ∈ V <-> x ∈ V0 \/ tc (member_edge ms p) s x) /\
     (forall z, tc (member_edge ms p) s z -> stop z = false)).
Proof using succ_edge.
  intros HV0.
  destruct (explore_correct push stop succ (search_fuel ms)
              (list_to_set (map membership_role ms)) V0 s) as [[H1 H2]|(V & H1 & H2 & H3)].
  - intros x y (m & ? & ? & <- & ?)%succ_edge. by apply elem_of_list_to_set, list_elem_of_fmap_2.
  - done.
  - pose proof (size_list_to_set_le (map membership_role ms)) as Hsz.
    rewrite length_map in Hsz. unfold search_fuel. lia.
  - left. setoid_rewrite <- search_tc. done.
  - right. exists V. setoid_rewrite <- search_tc. done.
Qed.
End search.

Lemma is_none_false {A} (o : option A) : is_none o = false <-> is_Some o.
Proof. destruct o; simpl; naive_solver. Qed.

Lemma rtc_tc_or (R : str -> str -> Prop) a b : rtc R a b <-> a = b \/ tc R a b.
Proof. split; [apply rtc_tc | intros [->|?]; [done | by apply tc_rtc]]. Qed.

Lemma has_role_privilege_rtc c a b p :
  has_role_privilege c a b p = true <->
  known c a /\ known c b /\ rtc (member_edge (memberships c) p) a b.
Proof.
  unfold has_role_privilege, known.
  destruct (is_none (role c a)) eqn:Ha, (is_none (role c b)) eqn:Hb; simpl;
    rewrite <- !is_none_false, Ha, Hb; [by split; [|intros (? & ? & ?)]..|].
  rewrite rtc_tc_or. case_bool_decide as Heq; [naive_solver|].
  destruct (search_correct (memberships c) p _ (granted_to_edge _ _) push_back
              (fun r => bool_decide (r = b)) {[a]} a) as
    [[-> (z & Hz & ->%bool_decide_eq_true)]|(V & -> & _ & Hno)]; [done|naive_solver|].
  split; [done|]. intros (_ & _ & [?|Htc]); [done|]. apply Hno in Htc.
  by apply bool_decide_eq_false in Htc.
Qed.

Lemma can_set_role_known c user target :
  can_set_role c user target = true -> is_Some (role c target).
Proof. by intros (_ & H & _)%has_role_privilege_rtc. Qed.

Lemma inherited_roles_spec c r g : g ∈ inherited_roles c r <-> inherits c r g.
Proof.
  unfold inherited_roles, inherits, known. rewrite <- is_none_false.
  destruct (is_none (role c r)); [set_solver|].
  destruct (search_correct (memberships c) RoleUsage _ (granted_to_edge _ _) push_back
              (fun _ => false) {[r]} r) as [[_ (z & _ & ?)]|(V & -> & HV & _)]; [done..|].
  rewrite HV, rtc_tc_or. set_solver.
Qed.

Lemma member_edge_mono ms p a b :
  member_edge ms p a b -> member_edge ms RoleMember a b.
Proof. intros (m & ? & ? & ? & _). exists m. split_and!; try done. Qed.

Lemma rtc_member_edge_mono ms p a b :
  rtc (member_edge ms p) a b -> rtc (member_edge ms RoleMember) a b.
Proof. apply rtc_subrel. intros ? ?. apply member_edge_mono. Qed.

Lemma inherits_trans c a b g :
  rtc (member_edge (memberships c) RoleUsage) a b -> known c a -> inherits c b g -> inherits c a g.
Proof. intros H ? [_ H2]. split; [done|]. by etrans. Qed.

(** ** Authorization queries against the specification *)

Lemma owns_table_spec c r schema table :
  owns_table c (inherited_roles c r) schema table = true <->
  exists o, o ∈ table_owners c /\ ascii_ci (owner_schema o) schema /\
            ascii_ci (owner_table o) table /\ inherits c r (owner_role o).
Proof.
  unfold owns_table. rewrite existsb_elem.
  setoid_rewrite andb_true_iff. setoid_rewrite andb_true_iff.
  setoid_rewrite eq_ignore_ascii_case_true. setoid_rewrite bool_decide_eq_true.
  setoid_rewrite inherited_roles_spec. split; intros (o & H); exists o; tauto.
Qed.

Lemma grantee_ok_spec c r (public : bool) g :
  is_none_or g (fun grantee => negb public && bool_decide (grantee ∈ inherited_roles c r)) = true
  <-> g = None \/ exists n, g = Some n /\ public = false /\ inherits c r n.
Proof.
  destruct g as [n|]; simpl; [|naive_solver].
  rewrite andb_true_iff, negb_true_iff, bool_decide_eq_true, inherited_roles_spec. naive_solver.
Qed.

Lemma public_name_false r : eq_ignore_ascii_case r (lit "PUBLIC") = false <-> ~ public_name r.
Proof.
  unfold public_name. rewrite <- eq_ignore_ascii_case_true. by rewrite not_true_iff_false.
Qed.

Lemma inherits_known c r g : inherits c r g -> known c r.
Proof. by intros []. Qed.

Lemma table_grant_matches c r schema table p (public : bool) :
  existsb (fun grant =>
    eq_ignore_ascii_case (table_grant_schema grant) schema
    && eq_ignore_ascii_case (table_grant_table grant) table
    && bool_decide (p ∈ table_grant_privileges grant)
    && is_none_or (table_grant_role grant)
         (fun grantee => negb public && bool_decide (grantee ∈ inherited_roles c r)))
    (table_grants c) = true <->
  exists g, g ∈ table_grants c /\
    ascii_ci (table_grant_schema g) schema /\ ascii_ci (table_grant_table g) table /\
    p ∈ table_grant_privileges g /\
    (table_grant_role g = None \/ exists n, table_grant_role g = Some n /\ public = false /\
                                           inherits c r n).
Proof.
  rewrite existsb_elem. setoid_rewrite andb_true_iff.
  setoid_rewrite andb_true_iff. setoid_rewrite andb_true_iff.
  setoid_rewrite eq_ignore_ascii_case_true. setoid_rewrite bool_decide_eq_true.
  setoid_rewrite grantee_ok_spec. split; intros (g & H); exists g; tauto.
Qed.

Lemma has_table_privilege_authorized c r schema table p :
  has_table_privilege c r schema table p = true <-> table_authorized c r schema table p.
Proof.
  unfold has_table_privilege. set (public := eq_ignore_ascii_case r (lit "PUBLIC")).
  pose proof (table_grant_matches c r schema table p public) as Hm.
  set (matches := existsb _ (table_grants c)) in *.
  clearbody matches.
  assert (public = false <-> ~ public_name r) as Hpub by apply public_name_false.
  assert (public = true <-> public_name r) as Hpub' by apply eq_ignore_ascii_case_true.
  destruct (negb public && is_none (role c r)) eqn:Hunknown.
  { bool_prop. split; [done|]. destruct (role c r) eqn:Hr; [done|]. intros Ha. exfalso.
    assert (~ known c r) by (unfold known; rewrite Hr; by intros [? ?]).
    destruct Ha as [o _ _ _ _ Hi%inherits_known|g _ _ _ _ _ [?|?]|g n _ _ _ _ _ _ Hi%inherits_known];
      [done | | done | done]. by apply Hpub. }
  assert (public = false -> known c r) as Hk.
  { unfold known. intros ->. simpl in Hunknown. by apply is_none_false. }
  destruct (negb public && owns_table c (inherited_roles c r) schema table) eqn:Hown.
  - bool_prop. split; [intros _|done]. apply owns_table_spec in H0 as (o & ? & ? & ? & ?).
    eapply by_ownership; naive_solver.
  - rewrite Hm. split.
    + intros (g & ? & ? & ? & ? & [?|(n & ? & ? & ?)]); [eapply by_public_grant|eapply by_grant];
        eauto; [|naive_solver]. destruct public; naive_solver.
    + intros [o|g|g n]; [|exists g; tauto|exists g; split_and!; try done].
      * apply andb_false_iff in Hown as [Hown|Hown]; [destruct public; naive_solver|].
        exfalso. apply not_true_iff_false in Hown. apply Hown, owns_table_spec. eauto.
      * right. exists n. naive_solver.
Qed.

Lemma has_schema_privilege_spec c r schema p :
  has_schema_privilege c r schema p = true <->
  (public_name r \/ known c r) /\
  exists g, g ∈ schema_grants c /\ ascii_ci (schema_grant_schema g) schema /\
    p ∈ schema_grant_privileges g /\
    (schema_grant_role g = None \/
     exists n, schema_grant_role g = Some n /\ ~ public_name r /\ inherits c r n).
Proof.
  unfold has_schema_privilege. pose proof (public_name_false r) as Hpub.
  pose proof (eq_ignore_ascii_case_true r (lit "PUBLIC")) as Hpub'.
  set (public := eq_ignore_ascii_case r (lit "PUBLIC")) in *.
  destruct (negb public && is_none (role c r)) eqn:Hunknown.
  { split; [done|]. intros [Hor _]. apply andb_true_iff in Hunknown as [H1%negb_true_iff H2].
    unfold known in Hor. rewrite <- is_none_false, H2 in Hor.
    destruct Hor; [|done]. by apply Hpub in H1. }
  rewrite existsb_elem. setoid_rewrite andb_true_iff. setoid_rewrite andb_true_iff.
  setoid_rewrite eq_ignore_ascii_case_true. setoid_rewrite bool_decide_eq_true.
  setoid_rewrite grantee_ok_spec. setoid_rewrite Hpub.
  assert (public_name r \/ known c r).
  { apply andb_false_iff in Hunknown as [H1%negb_false_iff|H1]; [left; by apply Hpub'|].
    right. by apply is_none_false. }
  split; [intros (g & H1); split; [done|] | intros (_ & g & H1)]; exists g; tauto.
Qed.

(** ** Building the catalog *)

Section tracked.
Context {A : Type} `{Countable K} (key : A -> K).

(** A list built by a loop that refuses a repeated key. *)
Definition tracked (seen : gset K) (out : list A) : Prop :=
  seen = list_to_set (map key out) /\ NoDup (map key out).

Lemma tracked_nil : tracked ∅ [].
Proof using. by split; [|constructor]. Qed.

Lemma tracked_snoc {E} seen seen' out y (e : E) :
  tracked seen out -> insert_new seen (key y) e = Ok seen' -> tracked seen' (out ++ [y]).
Proof using.
  unfold insert_new, tracked. intros [-> Hnd] Hins. case_decide as Hin; [done|].
  injection Hins as <-. rewrite map_app. simpl. split; [set_solver|].
  apply NoDup_app. split_and!; [done | | apply NoDup_singleton].
  intros x Hx ->%list_elem_of_singleton. apply Hin. by apply elem_of_list_to_set.
Qed.
End tracked.

Lemma sort_by_map_nodup {A B} cmp (f : A -> B) l : NoDup (map f l) -> NoDup (map f (sort_by cmp l)).
Proof. intros Hnd. eapply NoDup_Permutation_proper; [|done]. by rewrite sort_by_perm. Qed.

Lemma sort_by_forall {A} cmp (P : A -> Prop) l : Forall P l -> Forall P (sort_by cmp l).
Proof. by rewrite sort_by_perm. Qed.

Lemma known_role_ok ix name label r :
  known_role ix name label = Ok r -> r = name /\ is_Some (ix !! name).
Proof. unfold known_role. case_bool_decide; intros; simplify_eq/=; eauto. Qed.

Lemma validate_role_name_ok name u : validate_role_name name = Ok u -> valid_role_name name.
Proof.
  unfold validate_role_name, valid_role_name. intros H. inv_ok. bool_prop.
  destruct name as [|b rest]; [done|]. split_and!; [done | lia | done |].
  simpl in *. constructor.
  - unfold role_name_head, role_name_rest in *.
    destruct (bool_decide (b = x5f)), (is_ascii_lowercase b); simpl in *; (done || by rewrite ?orb_true_r).
  - apply Forall_forall. intros y Hy. destruct (role_name_rest y) eqn:Hr; [done|].
    enough (existsb (fun b => negb (role_name_rest b)) rest = true) by congruence.
    apply existsb_elem. exists y. by rewrite Hr.
Qed.

Lemma build_roles_ok configured rs :
  build_roles configured = Ok rs ->
  rs ≡ₚ map role_of configured /\ NoDup (map role_name rs) /\ NoDup (map role_oid rs) /\
  Forall role_ok rs.
Proof.
  unfold build_roles. intros H. apply bind_ok in H as ([[names oids] out] & Hf & [= <-]).
  rewrite sort_by_perm.
  loop_inv Hf (fun done '(names, oids, out) =>
    out = map role_of done /\ tracked role_name names out /\ tracked role_oid oids out /\
    Forall role_ok out).
  - by destruct Hf as (-> & [_ H1] & [_ H2] & H3).
  - split_and!; [done | apply tracked_nil .. | constructor].
  - intros done c [[ns os] o] [[ns' os'] o'] _ (-> & Hn & Ho & Hall) Hs. inv_ok.
    split_and!; [by rewrite map_app | by eapply tracked_snoc .. |].
    apply Forall_app. split; [done|]. constructor; [|constructor]. bool_prop.
    split_and!; [by eapply validate_role_name_ok | done | done].
Qed.

Lemma index_roles_lookup rs n i :
  NoDup (map role_name rs) ->
  index_roles rs !! n = Some i <-> exists r, rs !! i = Some r /\ role_name r = n.
Proof.
  unfold index_roles. revert i. induction rs as [|r rs IH] using rev_ind; intros i Hnd.
  { simpl. rewrite lookup_empty. split; [done|]. by intros (? & ? & ?). }
  rewrite imap_app, foldl_app. simpl. rewrite Nat.add_0_r.
  rewrite map_app in Hnd. apply NoDup_app in Hnd as (Hnd & Hdis & _).
  destruct (decide (role_name r = n)) as [<-|Hne].
  - rewrite lookup_insert_eq. split.
    + intros [= <-]. exists r. by rewrite lookup_app_r, Nat.sub_diag by done.
    + intros (r' & Hr' & Hname). f_equal. apply lookup_app_Some in Hr' as [Hr'|[Hle Hr']].
      * exfalso. apply (Hdis (role_name r)); [|set_solver]. rewrite <- Hname.
        by eapply list_elem_of_fmap_2, list_elem_of_lookup_2.
      * apply list_lookup_singleton_Some in Hr' as [? _]. lia.
  - rewrite lookup_insert_ne, IH by done. split; intros (r' & Hr' & Hname); exists r'.
    + split; [by apply lookup_app_l_Some | done].
    + split; [|done]. apply lookup_app_Some in Hr' as [?|[_ Hr']]; [done|].
      apply list_lookup_singleton_Some in Hr' as [_ ->]. done.
Qed.

Lemma index_roles_known rs n :
  NoDup (map role_name rs) -> is_Some (index_roles rs !! n) <-> n ∈ map role_name rs.
Proof.
  intros Hnd. rewrite list_elem_of_fmap. unfold is_Some. setoid_rewrite index_roles_lookup; [|done].
  setoid_rewrite list_elem_of_lookup. naive_solver.
Qed.

Lemma index_roles_found rs n r :
  NoDup (map role_name rs) ->
  (i ← index_roles rs !! n; rs !! (i : nat)) = Some r <-> r ∈ rs /\ role_name r = n.
Proof.
  intros Hnd. rewrite bind_Some. setoid_rewrite index_roles_lookup; [|done].
  rewrite list_elem_of_lookup. split; [|naive_solver].
  intros (i & (r' & Hr & <-) & Hi). simplify_eq. eauto.
Qed.

Lemma build_memberships_ok rs configured ms :
  NoDup (map role_name rs) -> build_memberships rs (index_roles rs) configured = Ok ms ->
  (exists ms', ms ≡ₚ ms' /\ Forall2 (membership_of rs) configured ms') /\
  NoDup (map membership_key ms) /\ NoDup (map membership_oid ms) /\
  Forall (membership_known rs) ms.
Proof.
  intros Hrs. unfold build_memberships. intros H.
  apply bind_ok in H as ([[keys oids] out] & Hf & [= <-]).
  loop_inv Hf (fun done '(keys, oids, out) =>
    Forall2 (membership_of rs) done out /\ tracked membership_key keys out /\
    tracked membership_oid oids out /\ Forall (membership_known rs) out).
  - destruct Hf as (H0 & [_ H1] & [_ H2] & H3). split_and!;
      [exists out; by rewrite sort_by_perm | by apply sort_by_map_nodup .. |by apply sort_by_forall].
  - split_and!; [constructor | apply tracked_nil .. | constructor].
  - intros done c [[ks os] o] [[ks' os'] o'] _ (H0 & Hk & Ho & Hfa) Hs. inv_ok.
    repeat match goal with
    | H : known_role _ _ _ = Ok _ |- _ => apply known_role_ok in H as [-> ?]
    end.
    split_and!; [ | by eapply tracked_snoc .. |].
    + apply Forall2_app; [done|]. constructor; [|constructor]. unfold membership_of; simpl.
      split_and!; try done. destruct (mc_inherit_option c); inv_ok; [done|].
      match goal with
      | Hx : (_ ≫= _) = Some ?y |- _ => apply index_roles_found in Hx as [? ?]; [by exists y | done]
      end.
    + apply Forall_app; split; [done|]. constructor; [|constructor].
      split_and!; [by apply index_roles_known .. | done].
Qed.

Lemma try_fold_unit {E A} (f : A -> result E unit) l u :
  try_fold (fun _ x => f x) l u = Ok tt <-> Forall (fun x => f x = Ok tt) l.
Proof.
  destruct u. induction l as [|x l IH]; cbn [try_fold]; [by split; [constructor|]|].
  rewrite Forall_cons. destruct (f x) as [[]|e]; simpl; [|by split; [|intros []]].
  rewrite IH. tauto.
Qed.

Lemma reject_membership_cycles_ok rs ms :
  reject_membership_cycles rs ms = Ok tt <->
  forall r, r ∈ map role_name rs -> ~ tc (member_edge ms RoleMember) r r.
Proof.
  unfold reject_membership_cycles. rewrite try_fold_unit, Forall_forall.
  setoid_rewrite list_elem_of_fmap.
  assert (forall r, match explore (search_fuel ms) push_top (fun g => bool_decide (g = role_name r))
              (fun member => default [] (outgoing_of ms !! member)) ∅ [role_name r] with
            | Some Found => Err (MembershipCycle (role_name r)) | _ => Ok tt end = Ok tt <->
            ~ tc (member_edge ms RoleMember) (role_name r) (role_name r)) as Hr.
  { intros r. destruct (search_correct ms RoleMember _ (outgoing_of_edge ms) push_top
      (fun g => bool_decide (g = role_name r)) ∅ (role_name r)) as
      [[-> (z & Hz & ->%bool_decide_eq_true)]|(V & -> & _ & Hno)]; [set_solver|naive_solver|].
    split; [|done]. intros _ Htc%Hno. by apply bool_decide_eq_false in Htc. }
  setoid_rewrite Hr. naive_solver.
Qed.

Lemma acyclic_everywhere rs ms :
  Forall (membership_known rs) ms ->
  (forall r, r ∈ map role_name rs -> ~ tc (member_edge ms RoleMember) r r) ->
  forall r, ~ tc (member_edge ms RoleMember) r r.
Proof.
  intros Hk Hno r Htc. apply (Hno r); [|done].
  assert (forall a b, tc (member_edge ms RoleMember) a b -> a ∈ map role_name rs) as Ha; [|by eapply Ha].
  intros a b Hab. assert (exists c, member_edge ms RoleMember a c) as [c (m & Hm & <- & _)].
  { destruct Hab; eauto. }
  rewrite Forall_forall in Hk. by apply Hk.
Qed.

Lemma normalize_table_ok raw label schema table :
  normalize_table raw label = Ok (schema, table) ->
  schema = lit "main" /\ table <> [] /\ len table <= MAX_ROLE_NAME_BYTES /\
  has_control table = false.
Proof.
  unfold normalize_table. intros H. apply bind_ok in H as ([s t] & Hm & H). inv_ok. bool_prop.
  split_and!; try done.
  destruct (split_on x2e raw) as [|p1 [|p2 [|]]]; inv_ok; naive_solver.
Qed.

Lemma build_table_owners_ok rs configured owners :
  NoDup (map role_name rs) -> build_table_owners (index_roles rs) configured = Ok owners ->
  NoDup (map owner_key owners) /\ Forall (owner_known rs) owners.
Proof.
  intros Hrs. unfold build_table_owners. intros H. apply bind_ok in H as ([keys out] & Hf & [= <-]).
  loop_inv Hf (fun _ '(keys, out) => tracked owner_key keys out /\ Forall (owner_known rs) out).
  - destruct Hf as [[_ H1] H2]. split; [by apply sort_by_map_nodup | by apply sort_by_forall].
  - split; [apply tracked_nil | constructor].
  - intros done c [ks o] [ks' o'] _ [Hk Hall] Hs.
    apply bind_ok in Hs as (r & [-> ?]%known_role_ok & Hs).
    apply bind_ok in Hs as ([schema table] & Hn & Hs). apply normalize_table_ok in Hn as (-> & ? & _).
    inv_ok. split; [by eapply tracked_snoc|]. apply Forall_app; split; [done|].
    constructor; [|constructor]. split_and!; [by apply index_roles_known | done | done].
Qed.

Lemma nonempty_unique_ok `{EqDecision T} (values out : list T) label :
  nonempty_unique values label = Ok out -> out = values /\ out <> [] /\ NoDup out.
Proof.
  unfold nonempty_unique. intros H. apply bind_ok in H as (o & Hf & H). inv_ok. bool_prop.
  loop_inv Hf (fun done out => out = done /\ NoDup out).
  - naive_solver.
  - split; [done|constructor].
  - intros done v s s' _ [-> Hnd] Hs. inv_ok. bool_prop. split; [done|].
    apply NoDup_app. split_and!; [done| |apply NoDup_singleton]. set_solver.
Qed.

Lemma normalize_grantee_ok rs grantee g :
  NoDup (map role_name rs) -> normalize_grantee (index_roles rs) grantee = Ok g ->
  known_grantee rs g.
Proof.
  intros Hnd. unfold normalize_grantee. case_bool_decide; [by intros [= <-]|].
  unfold known_role. case_bool_decide; [|done]. intros [= <-]. by apply index_roles_known.
Qed.

Lemma normalize_schema_ok raw label s : normalize_schema raw label = Ok s -> s = lit "main".
Proof. unfold normalize_schema. intros H. by inv_ok. Qed.

Lemma build_schema_grants_ok rs configured grants :
  NoDup (map role_name rs) -> build_schema_grants (index_roles rs) configured = Ok grants ->
  NoDup (map schema_grant_key grants) /\ Forall (schema_grant_known rs) grants.
Proof.
  intros Hrs. unfold build_schema_grants. intros H. apply bind_ok in H as ([keys out] & Hf & [= <-]).
  loop_inv Hf (fun _ '(keys, out) =>
    tracked schema_grant_key keys out /\ Forall (schema_grant_known rs) out).
  - destruct Hf as [[_ H1] H2]. split; [by apply sort_by_map_nodup | by apply sort_by_forall].
  - split; [apply tracked_nil | constructor].
  - intros done c [ks o] [ks' o'] _ [Hk Hall] Hs.
    apply bind_ok in Hs as (r & Hr & Hs). apply normalize_grantee_ok in Hr; [|done].
    apply bind_ok in Hs as (schema & ->%normalize_schema_ok & Hs).
    apply bind_ok in Hs as (ps & (_ & ? & ?)%nonempty_unique_ok & Hs).
    inv_ok. split; [by eapply tracked_snoc|]. apply Forall_app; split; [done|].
    by constructor; [|constructor].
Qed.

Lemma build_table_grants_ok rs configured grants :
  NoDup (map role_name rs) -> build_table_grants (index_roles rs) configured = Ok grants ->
  NoDup (map table_grant_key grants) /\ Forall (table_grant_known rs) grants.
Proof.
  intros Hrs. unfold build_table_grants. intros H. apply bind_ok in H as ([keys out] & Hf & [= <-]).
  loop_inv Hf (fun _ '(keys, out) =>
    tracked table_grant_key keys out /\ Forall (table_grant_known rs) out).
  - destruct Hf as [[_ H1] H2]. split; [by apply sort_by_map_nodup | by apply sort_by_forall].
  - split; [apply tracked_nil | constructor].
  - intros done c [ks o] [ks' o'] _ [Hk Hall] Hs.
    apply bind_ok in Hs as (r & Hr & Hs). apply normalize_grantee_ok in Hr; [|done].
    apply bind_ok in Hs as ([schema table] & (-> & ? & _)%normalize_table_ok & Hs).
    apply bind_ok in Hs as (ps & (_ & ? & ?)%nonempty_unique_ok & Hs).
    inv_ok. split; [by eapply tracked_snoc|]. apply Forall_app; split; [done|].
    by constructor; [|constructor].
Qed.

Lemma try_from_wf document c : try_from document = Ok c -> catalog_wf c.
Proof.
  unfold try_from. intros H. apply bind_ok in H as (_ & Hne%ensure_ok & H).
  apply bind_ok in H as (rs & Hrs & H). apply bind_ok in H as (ms & Hms & H).
  apply bind_ok in H as ([] & Hcyc & H). apply bind_ok in H as (os & Hos & H).
  apply bind_ok in H as (sgs & Hsg & H). apply bind_ok in H as (tgs & Htg & [= <-]).
  apply build_roles_ok in Hrs as (Hperm & Hnames & Hoids & Hok).
  apply build_memberships_ok in Hms as (_ & Hkeys & Hmoids & Hknown); [|done].
  rewrite reject_membership_cycles_ok in Hcyc.
  apply build_table_owners_ok in Hos as [? ?]; [|done].
  apply build_schema_grants_ok in Hsg as [? ?]; [|done].
  apply build_table_grants_ok in Htg as [? ?]; [|done].
  split; simpl; try done.
  - intros ->. apply Permutation_nil_l in Hperm. by destruct (doc_roles document).
  - intros n r. by apply index_roles_found.
  - by eapply acyclic_everywhere.
Qed.

Lemma wf_known c r : catalog_wf c -> known c r <-> r ∈ map role_name (roles c).
Proof.
  intros Hwf. unfold known, is_Some. setoid_rewrite (wf_index c Hwf).
  rewrite list_elem_of_fmap. naive_solver.
Qed.

Lemma wf_not_public c r : catalog_wf c -> known c r -> ~ public_name r.
Proof.
  intros Hwf (ro & [Hin <-]%(wf_index c Hwf)) Hpub.
  pose proof (wf_role c Hwf) as Hall. rewrite Forall_forall in Hall.
  destruct (Hall _ Hin) as [(_ & _ & Hres & Hb) _]. clear Hall Hin.
  apply Hres. unfold public_name, ascii_ci in Hpub.
  change (to_ascii_lowercase (lit "PUBLIC")) with (lit "public") in Hpub.
  enough (to_ascii_lowercase (role_name ro) = role_name ro) as Heq.
  { rewrite Heq in Hpub. rewrite Hpub. set_solver. }
  clear Hpub Hres. induction Hb as [|b bs Hb _ IH]; [done|]. simpl. f_equal; [|done].
  unfold byte_to_ascii_lowercase. destruct b; done.
Qed.

(** ** Properties *)

(** The configuration used by the witnesses: [alice] is an analyst, analysts
    inherit from [editors], which owns [places]. *)
Definition sample_document : RoleConfigDocument := {|
  doc_roles := [ mkRoleConfig 102 (lit "editors") false true;
                 mkRoleConfig 100 (lit "alice") true true;
                 mkRoleConfig 101 (lit "analysts") false true ];
  doc_memberships := [ mkMembershipConfig 201 (lit "analysts") (lit "alice") None true false;
                       mkMembershipConfig 202 (lit "editors") (lit "analysts") (Some true) false false ];
  doc_table_owners := [ mkTableOwnerConfig (lit "public.Places") (lit "editors") ];
  doc_schema_grants := [ mkSchemaGrantConfig (lit "public") (lit "PUBLIC") [CfgSchemaUsage] ];
  doc_table_grants := [ mkTableGrantConfig (lit "roads") (lit "analysts") [CfgSelect; CfgInsert] ] |}.

Definition sample_catalog : RoleCatalog :=
  match try_from sample_document with
  | Ok c => c
  | Err _ => mkRoleCatalog [] [] [] [] [] ∅
  end.

Lemma sample_catalog_ok : try_from sample_document = Ok sample_catalog.
Proof. vm_compute. reflexivity. Qed.

Definition two_owner_document : RoleConfigDocument :=
  mkRoleConfigDocument
    [mkRoleConfig 100 (lit "a") true true; mkRoleConfig 101 (lit "b") true true] []
    [mkTableOwnerConfig (lit "T") (lit "a"); mkTableOwnerConfig (lit "t") (lit "b")] [] [].
Definition two_owner_catalog : RoleCatalog :=
  match try_from two_owner_document with
  | Ok c => c
  | Err _ => mkRoleCatalog [] [] [] [] [] ∅
  end.

(** C2: [has_role_privilege] answers true exactly when both names are configured
    roles and [target] is [member] itself or is reachable from it over the
    memberships that carry the privilege; in particular the search always ends. *)
Theorem has_role_privilege_iff_reachable c member target p :
  has_role_privilege c member target p = true <->
  known c member /\ known c target /\ rtc (member_edge (memberships c) p) member target.
Proof. apply has_role_privilege_rtc. Qed.

(** C3: [has_table_privilege] grants an operation exactly when a table ownership
    inherited by the role, a grant to PUBLIC, or a grant to an inherited role
    authorizes it; PUBLIC itself never gains by ownership or by named grants. *)
Theorem has_table_privilege_iff_authorized c r schema table p :
  has_table_privilege c r schema table p = true <-> table_authorized c r schema table p.
Proof. apply has_table_privilege_authorized. Qed.

(** A configuration document accepted by [try_from] yields a catalog with
    unique role names and OIDs, no reserved names or OIDs, an exact name index,
    memberships, owners and grants that name configured roles only, unique keys,
    non-empty privilege lists and an acyclic membership graph. *)
Theorem try_from_establishes_invariant document c :
  try_from document = Ok c -> catalog_wf c.
Proof. apply try_from_wf. Qed.

Lemma try_from_establishes_invariant_witness :
  try_from sample_document = Ok sample_catalog /\ catalog_wf sample_catalog.
Proof.
  split; [exact sample_catalog_ok|].
  exact (try_from_establishes_invariant sample_document sample_catalog sample_catalog_ok).
Defined.

(** The cycle check accepts a membership list exactly when no configured role
    reaches itself through one or more memberships. *)
Theorem reject_membership_cycles_iff_acyclic rs ms :
  reject_membership_cycles rs ms = Ok tt <->
  forall r, r ∈ map role_name rs -> ~ tc (member_edge ms RoleMember) r r.
Proof. apply reject_membership_cycles_ok. Qed.

(** In an accepted catalog MEMBER is a partial order on the configured roles:
    reflexive, transitive, and never in both directions between two roles. *)
Theorem role_membership_partial_order document c :
  try_from document = Ok c ->
  (forall r, known c r -> has_role_privilege c r r RoleMember = true) /\
  (forall r s t, has_role_privilege c r s RoleMember = true ->
     has_role_privilege c s t RoleMember = true -> has_role_privilege c r t RoleMember = true) /\
  (forall r s, has_role_privilege c r s RoleMember = true ->
     has_role_privilege c s r RoleMember = true -> r = s).
Proof.
  intros Hwf%try_from_wf. setoid_rewrite has_role_privilege_rtc. split_and!.
  - auto using rtc_refl.
  - intros r s t (? & ? & H1) (? & ? & H2). split_and!; [done | done | by etrans].
  - intros r s (_ & _ & H1) (_ & _ & H2). apply rtc_tc_or in H1 as [|H1]; [done|].
    destruct (wf_acyclic c Hwf r). by eapply tc_rtc_r.
Qed.

Lemma role_membership_partial_order_witness :
  has_role_privilege sample_catalog (lit "alice") (lit "editors") RoleMember = true /\
  (has_role_privilege sample_catalog (lit "editors") (lit "alice") RoleMember = true ->
   lit "alice" = lit "editors").
Proof.
  assert (Hae : has_role_privilege sample_catalog (lit "alice") (lit "editors") RoleMember = true)
    by (vm_compute; reflexivity).
  split; [exact Hae|].
  exact (proj2 (proj2 (role_membership_partial_order sample_document sample_catalog
                         sample_catalog_ok)) _ _ Hae).
Defined.

(** In an accepted catalog, a role that inherits another (USAGE) may do every
    table operation the other may do. *)
Theorem allows_table_operation_inherited document c r s schema table p :
  try_from document = Ok c ->
  has_role_privilege c r s RoleUsage = true ->
  allows_table_operation c s schema table p = true ->
  allows_table_operation c r schema table p = true.
Proof.
  intros Hwf%try_from_wf (Hr & Hs & Hrs)%has_role_privilege_rtc.
  pose proof (wf_not_public c r Hwf Hr) as Hnp.
  unfold allows_table_operation. rewrite !andb_true_iff.
  rewrite !has_schema_privilege_spec, !has_table_privilege_authorized.
  intros [(_ & g & ? & ? & ? & Hg) Hauth]. split.
  - split; [by right|]. exists g. split_and!; try done.
    destruct Hg as [|(n & ? & _ & ?)]; [by left | right]. eauto using inherits_trans.
  - destruct Hauth; [eapply by_ownership | eapply by_public_grant | eapply by_grant];
      eauto using inherits_trans.
Qed.

Lemma allows_table_operation_inherited_witness :
  allows_table_operation sample_catalog (lit "alice") (lit "main") (lit "PLACES") TableDelete = true.
Proof.
  apply (allows_table_operation_inherited sample_document sample_catalog (lit "alice")
           (lit "editors") _ _ _ sample_catalog_ok); vm_compute; reflexivity.
Defined.

(** The owner keys of an accepted catalog are compared byte for byte, while
    the queries ignore ASCII case: a document with owners for [T] and [t] is
    accepted and both owners hold every privilege on either name. *)
Theorem owner_keys_case_sensitive :
  exists document c a b,
    try_from document = Ok c /\ a <> b /\ known c a /\ known c b /\
    (forall p, has_table_privilege c a (lit "main") (lit "t") p = true) /\
    (forall p, has_table_privilege c b (lit "main") (lit "t") p = true).
Proof.
  exists two_owner_document, two_owner_catalog, (lit "a"), (lit "b").
  split; [vm_compute; reflexivity|]. unfold known. rewrite <- !is_none_false.
  split_and!; [done | vm_compute; reflexivity .. | |]; intros []; vm_compute; reflexivity.
Qed.
