(* ===== verification/RoleSession.v ===== *)
(** * Session roles and request context ([quackgis-server/src/role.rs])

    [RoleSessionState] holds the role a connection acts under: the login role,
    the role selected with SET ROLE, the role selected with SET LOCAL ROLE until
    the transaction ends, and the transaction-local request context.  Every
    change of identity advances [epoch], which other components compare to
    notice it.  The state asks the catalog two questions only, stated as the
    interface [RoleDirectory]; [RoleCatalog] implements it. *)

From S2P Require Import Prelude Reachability RoleCatalog.

Definition REQUEST_JWT_CLAIMS : str := lit "request.jwt.claims".
Definition MAX_REQUEST_SETTING_BYTES : Z := 16384.
Definition MAX_REQUEST_CONTEXT_BYTES : Z := 32768.

(** What the session state needs from a role catalog. *)
Class RoleDirectory (C : Type) := {
  find_role : C -> str -> option Role;
  may_set_role : C -> str -> str -> bool;
  may_set_role_known : forall c user target,
    may_set_role c user target = true -> is_Some (find_role c target) }.

#[export] Instance role_catalog_directory : RoleDirectory RoleCatalog := {
  find_role := role;
  may_set_role := can_set_role;
  may_set_role_known := can_set_role_known }.

Inductive RoleSelection :=
  | SessionUser
  | Named (name : str).

#[export] Instance role_selection_eq_dec : EqDecision RoleSelection.
Proof. solve_decision. Defined.

Record RoleSession := mkRoleSession {
  session_user : str;
  session_role : RoleSelection;
  local_role : option RoleSelection;
  epoch : Z;
  request_context : gmap str str }.

Record SessionIdentity := mkSessionIdentity {
  identity_session_user : str;
  identity_current_user : str;
  identity_epoch : Z;
  identity_request_context : gmap str str }.

Inductive RoleSessionErrorKind :=
  ErrUnknownRole | ErrPermissionDenied | ErrNoTransaction | ErrInvalidInput | ErrInternal.

(** [RoleSessionState::new] fails with an [anyhow] error. *)
Inductive StartSessionError := NoConfiguredRole | NologinRole.

Section session.
Context {C : Type} `{RoleDirectory C}.

(** [poisoned] is the mutex's poison flag: [lock()] fails when it is set. *)
Record RoleSessionState := mkRoleSessionState {
  catalog : option C;
  session : RoleSession;
  poisoned : bool }.

Definition set_session (self : RoleSessionState) (s : RoleSession) : RoleSessionState :=
  mkRoleSessionState (catalog self) s (poisoned self).
Definition lock (self : RoleSessionState) : result RoleSessionErrorKind RoleSession :=
  if poisoned self then Err ErrInternal else Ok (session self).

(** [RoleSessionState::new] *)
Definition new_session (user : str) (cat : option C)
    : result StartSessionError RoleSessionState :=
  _ ← match cat with
      | None => Ok tt
      | Some c => r ← ok_or (find_role c user) NoConfiguredRole;
                  ensure (role_login r) NologinRole
      end;
  Ok (mkRoleSessionState cat (mkRoleSession user SessionUser None 0 ∅) false).

(** [effective_role] *)
Definition effective_role (s : RoleSession) : str :=
  match default (session_role s) (local_role s) with
  | SessionUser => session_user s
  | Named r => r
  end.

(** [RoleSessionState::identity] *)
Definition identity (self : RoleSessionState) : result RoleSessionErrorKind SessionIdentity :=
  s ← lock self;
  Ok (mkSessionIdentity (session_user s) (effective_role s) (epoch s) (request_context s)).

(** The [match target] of [set_role]. *)
Definition select_role (self : RoleSessionState) (s : RoleSession) (target : option str)
    : result RoleSessionErrorKind RoleSelection :=
  match target with
  | None => Ok SessionUser
  | Some target =>
      match catalog self with
      | None => Err ErrUnknownRole
      | Some c =>
          _ ← ok_or (find_role c target) ErrUnknownRole;
          _ ← ensure (may_set_role c (session_user s) target) ErrPermissionDenied;
          Ok (Named target)
      end
  end.

(** [RoleSessionState::set_role] *)
Definition set_role (self : RoleSessionState) (target : option str) (local in_transaction : bool)
    : result RoleSessionErrorKind RoleSessionState :=
  _ ← ensure (negb (local && negb in_transaction)) ErrNoTransaction;
  s ← lock self;
  selection ← select_role self s target;
  let changed :=
    if local then negb (bool_decide (local_role s = Some selection))
    else negb (bool_decide (session_role s = selection)) || negb (is_none (local_role s)) in
  let next_epoch := if changed then wrapping_add (epoch s) 1 else epoch s in
  Ok (set_session self
        (if local
         then mkRoleSession (session_user s) (session_role s) (Some selection)
                next_epoch (request_context s)
         else mkRoleSession (session_user s) selection None next_epoch (request_context s))).

(** [RoleSessionState::reset_role] *)
Definition reset_role (self : RoleSessionState) : result RoleSessionErrorKind RoleSessionState :=
  s ← lock self;
  if negb (bool_decide (session_role s = SessionUser)) || negb (is_none (local_role s))
  then Ok (set_session self (mkRoleSession (session_user s) SessionUser None
                               (wrapping_add (epoch s) 1) (request_context s)))
  else Ok self.

(** [RoleSessionState::end_transaction] *)
Definition end_transaction (self : RoleSessionState)
    : result RoleSessionErrorKind RoleSessionState :=
  s ← lock self;
  if negb (is_none (local_role s)) || negb (bool_decide (request_context s = ∅))
  then Ok (set_session self (mkRoleSession (session_user s) (session_role s) None
                               (wrapping_add (epoch s) 1) ∅))
  else Ok self.

(** The byte count of [request_context]: names and values. *)
Definition context_bytes (ctx : gmap str str) : Z :=
  map_fold (fun name value total => len name + len value + total) 0 ctx.

(** [RoleSessionState::set_request_setting] *)
Definition set_request_setting (self : RoleSessionState) (name value : str)
    (in_transaction : bool) : result RoleSessionErrorKind RoleSessionState :=
  _ ← ensure in_transaction ErrNoTransaction;
  _ ← ensure (bool_decide (name = REQUEST_JWT_CLAIMS)) ErrInvalidInput;
  _ ← ensure (negb ((MAX_REQUEST_SETTING_BYTES <? len value) || bool_decide (x00 ∈ value)))
        ErrInvalidInput;
  s ← lock self;
  let replaced_bytes := match request_context s !! name with
                        | None => 0
                        | Some current => len name + len current
                        end in
  let current_bytes := context_bytes (request_context s) in
  let next_bytes := current_bytes - replaced_bytes + len name + len value in
  _ ← ensure (negb (MAX_REQUEST_CONTEXT_BYTES <? next_bytes)) ErrInvalidInput;
  if bool_decide (request_context s !! name = Some value) then Ok self
  else Ok (set_session self (mkRoleSession (session_user s) (session_role s) (local_role s)
             (wrapping_add (epoch s) 1) (<[name := value]> (request_context s)))).

(** ** The session as a state machine

    The operations a connection performs; a refused one leaves the state. *)
Inductive session_op :=
  | OpSetRole (target : option str) (local in_transaction : bool)
  | OpResetRole
  | OpEndTransaction
  | OpSetRequestSetting (name value : str) (in_transaction : bool).

Definition perform (op : session_op) (self : RoleSessionState)
    : result RoleSessionErrorKind RoleSessionState :=
  match op with
  | OpSetRole t l i => set_role self t l i
  | OpResetRole => reset_role self
  | OpEndTransaction => end_transaction self
  | OpSetRequestSetting n v i => set_request_setting self n v i
  end.

Definition after (op : session_op) (self : RoleSessionState) : RoleSessionState :=
  match perform op self with Ok self' => self' | Err _ => self end.

Definition run (ops : list session_op) (self : RoleSessionState) : RoleSessionState :=
  foldl (fun st op => after op st) self ops.

(** ** Invariant *)

(** A role the login user may act under. *)
Definition allowed_role (cat : option C) (user r : str) : Prop :=
  r = user \/ exists c, cat = Some c /\ may_set_role c user r = true.

Definition allowed_selection (cat : option C) (user : str) (sel : RoleSelection) : Prop :=
  match sel with SessionUser => True | Named r => allowed_role cat user r end.

Definition bounded_context (ctx : gmap str str) : Prop :=
  forall name value, ctx !! name = Some value ->
    name = REQUEST_JWT_CLAIMS /\ len value <= MAX_REQUEST_SETTING_BYTES /\ x00 ∉ value.

Record session_inv (self : RoleSessionState) : Prop := {
  inv_session_role :
    allowed_selection (catalog self) (session_user (session self)) (session_role (session self));
  inv_local_role : forall sel, local_role (session self) = Some sel ->
    allowed_selection (catalog self) (session_user (session self)) sel;
  inv_context : bounded_context (request_context (session self));
  inv_epoch : 0 <= epoch (session self) <= u64_max }.

(** ** Lemmas *)

Lemma lock_ok self s : lock self = Ok s <-> poisoned self = false /\ s = session self.
Proof using. unfold lock. destruct (poisoned self); naive_solver. Qed.

Lemma wrapping_add_range e : 0 <= wrapping_add e 1 <= u64_max.
Proof using. unfold wrapping_add, u64_max. pose proof (Z.mod_pos_bound (e + 1) (18446744073709551615 + 1)). lia. Qed.

Lemma select_role_allowed self s target sel :
  select_role self s target = Ok sel -> allowed_selection (catalog self) (session_user s) sel.
Proof using.
  unfold select_role. destruct target as [target|]; [|by intros [= <-]].
  destruct (catalog self) as [c|] eqn:Hc; [|done]. intros Hs. inv_ok.
  right. eauto.
Qed.

Lemma new_session_inv user cat self : new_session user cat = Ok self -> session_inv self.
Proof using.
  unfold new_session. intros Hn. inv_ok. split; simpl; [done | done | |].
  - intros name value Hl. by rewrite lookup_empty in Hl.
  - unfold u64_max. lia.
Qed.

(** Each operation keeps the catalog, the login user and the poison flag. *)
Lemma perform_frame op self self' :
  perform op self = Ok self' ->
  catalog self' = catalog self /\ session_user (session self') = session_user (session self) /\
  poisoned self' = poisoned self.
Proof using.
  destruct op; simpl; unfold set_role, reset_role, end_transaction, set_request_setting;
    intros Hp; inv_ok; repeat match goal with
    | Hl : lock _ = Ok _ |- _ => apply lock_ok in Hl as [? ->]
    end; try done.
  destruct local; done.
Qed.

Lemma perform_inv op self self' :
  session_inv self -> perform op self = Ok self' -> session_inv self'.
Proof using.
  intros [Hsr Hlr Hctx He]. pose proof (wrapping_add_range (epoch (session self))).
  destruct op as [t l i| | |n v i]; simpl;
    unfold set_role, reset_role, end_transaction, set_request_setting; intros Hp; inv_ok;
    repeat match goal with Hl : lock _ = Ok _ |- _ => apply lock_ok in Hl as [? ->] end;
    try done.
  - match goal with Hs : select_role _ _ _ = Ok _ |- _ => apply select_role_allowed in Hs end.
    destruct l; split; simpl; try done; [by intros ? [= <-] | by case_match ..].
  - bool_prop. subst. split; simpl; try done. intros name value.
    destruct (decide (REQUEST_JWT_CLAIMS = name)) as [<-|]; [rewrite lookup_insert_eq|rewrite lookup_insert_ne by done; apply Hctx].
    intros [= <-]. split_and!; [done | lia | done].
Qed.

Lemma run_ind (P : RoleSessionState -> Prop) ops self :
  P self -> (forall op st st', P st -> perform op st = Ok st' -> P st') -> P (run ops self).
Proof using.
  intros H0 Hstep. unfold run. induction ops as [|op ops IH] using rev_ind; [done|].
  rewrite foldl_app. simpl. unfold after at 1. destruct (perform op _) eqn:Hp; [by eapply Hstep | done].
Qed.

Lemma run_frame ops self :
  catalog (run ops self) = catalog self /\
  session_user (session (run ops self)) = session_user (session self) /\
  poisoned (run ops self) = poisoned self.
Proof using.
  apply (run_ind (fun st => catalog st = catalog self /\
    session_user (session st) = session_user (session self) /\ poisoned st = poisoned self)); [done|].
  intros op st st' (? & ? & ?) (-> & -> & ->)%perform_frame. done.
Qed.

Lemma run_inv ops self : session_inv self -> session_inv (run ops self).
Proof using. intros Hinv. apply run_ind; [done|]. intros ? ? ? ? ?. by eapply perform_inv. Qed.

Lemma effective_role_allowed self :
  session_inv self ->
  allowed_role (catalog self) (session_user (session self)) (effective_role (session self)).
Proof using.
  intros [Hsr Hlr _ _]. unfold effective_role.
  destruct (local_role (session self)) as [[|r]|]; simpl; [by left | by apply (Hlr (Named r)) |].
  destruct (session_role (session self)); [by left | done].
Qed.

(** A step either keeps the whole session or advances the epoch by one. *)
Lemma perform_epoch op self self' :
  perform op self = Ok self' ->
  session self' = session self \/
  epoch (session self') = wrapping_add (epoch (session self)) 1.
Proof using.
  destruct op as [t l i| | |n v i]; simpl;
    unfold set_role, reset_role, end_transaction, set_request_setting; intros Hp; inv_ok;
    repeat match goal with Hl : lock _ = Ok _ |- _ => apply lock_ok in Hl as [? ->] end;
    try (by left); try (by right).
  destruct (session self) as [u sr lr e ctx]; simpl in *. destruct l.
  - case_bool_decide; [left; by subst | by right].
  - case_bool_decide; [|by right]. destruct lr; [by right | left; by subst].
Qed.
End session.

Arguments RoleSessionState C : clear implicits.

Section properties_lemmas.
Context {C : Type} `{RoleDirectory C}.

(** The operations whose effect ends with the transaction. *)
Definition transaction_local (op : session_op) : bool :=
  match op with
  | OpSetRole _ local _ => local
  | OpSetRequestSetting _ _ _ => true
  | _ => false
  end.

Lemma perform_local op (st st' : RoleSessionState C) :
  transaction_local op = true -> perform op st = Ok st' ->
  session_role (session st') = session_role (session st).
Proof using.
  destruct op as [t l i| | |n v i]; simpl; try done; intros Hl;
    unfold set_role, set_request_setting; intros Hp; inv_ok;
    repeat match goal with Hl : lock _ = Ok _ |- _ => apply lock_ok in Hl as [? ->] end; try done.
Qed.

Lemma run_local ops (st : RoleSessionState C) :
  Forall (fun op => transaction_local op = true) ops ->
  session_role (session (run ops st)) = session_role (session st).
Proof using.
  unfold run. induction ops as [|op ops IH] using rev_ind; [done|].
  intros [Hops Hop]%Forall_app. rewrite Forall_singleton in Hop. rewrite foldl_app. simpl.
  unfold after at 1. destruct (perform op _) as [st'|] eqn:Hp; [|by apply IH].
  rewrite (perform_local _ _ _ Hop Hp). by apply IH.
Qed.

Lemma end_transaction_result (st : RoleSessionState C) :
  poisoned st = false ->
  exists st', end_transaction st = Ok st' /\ local_role (session st') = None /\
    request_context (session st') = ∅ /\ session_role (session st') = session_role (session st) /\
    session_user (session st') = session_user (session st).
Proof using.
  intros Hp. unfold end_transaction, lock. rewrite Hp. simpl.
  destruct (session st) as [u sr lr e ctx] eqn:Hs; simpl.
  destruct lr; simpl; [eauto 10|]. case_bool_decide; simpl; [|eauto 10].
  exists st. by rewrite Hs; simpl.
Qed.

Lemma bounded_context_bytes ctx :
  bounded_context ctx ->
  context_bytes ctx <= 16402 /\
  forall value : str, len value <= MAX_REQUEST_SETTING_BYTES ->
    context_bytes ctx - match ctx !! REQUEST_JWT_CLAIMS with
                        | None => 0
                        | Some current => len REQUEST_JWT_CLAIMS + len current
                        end + len REQUEST_JWT_CLAIMS + len value <= MAX_REQUEST_CONTEXT_BYTES.
Proof using.
  intros Hb. unfold MAX_REQUEST_SETTING_BYTES, MAX_REQUEST_CONTEXT_BYTES.
  change (len REQUEST_JWT_CLAIMS) with 18.
  destruct (ctx !! REQUEST_JWT_CLAIMS) as [v|] eqn:Hv.
  - destruct (Hb _ _ Hv) as (_ & Hlen & _). unfold MAX_REQUEST_SETTING_BYTES in Hlen.
    assert (ctx = {[REQUEST_JWT_CLAIMS := v]}) as ->.
    { apply map_eq. intros n. destruct (decide (n = REQUEST_JWT_CLAIMS)) as [->|Hne].
      - by rewrite lookup_singleton_eq.
      - rewrite lookup_singleton_ne by done. apply eq_None_not_Some. intros [w Hw].
        by destruct (Hb _ _ Hw). }
    unfold context_bytes. rewrite map_fold_singleton. change (len REQUEST_JWT_CLAIMS) with 18.
    split; [lia|]. intros. lia.
  - assert (ctx = ∅) as ->.
    { apply map_eq. intros n. rewrite lookup_empty. apply eq_None_not_Some. intros [w Hw].
      destruct (Hb _ _ Hw) as [-> _]. congruence. }
    unfold context_bytes. rewrite map_fold_empty. split; [lia|]. intros. lia.
Qed.

Lemma run_epoch ops (st : RoleSessionState C) :
  0 <= epoch (session st) <= u64_max ->
  exists k, 0 <= k <= len ops /\
    epoch (session (run ops st)) = (epoch (session st) + k) mod (u64_max + 1) /\
    (k = 0 -> session (run ops st) = session st).
Proof using.
  intros He. unfold run. induction ops as [|op ops (k & Hk & Hep & Heq)] using rev_ind.
  { exists 0. simpl. rewrite Z.add_0_r, Z.mod_small by lia. unfold len; simpl. split_and!; lia || done. }
  rewrite foldl_app, len_app. change (len [op]) with 1. simpl. unfold after at 1 3.
  destruct (perform op _) as [st'|] eqn:Hp; [|exists k; split_and!; lia || done].
  apply perform_epoch in Hp as [Hs|Hs].
  - exists k. rewrite Hs. split_and!; lia || done.
  - exists (k + 1). rewrite Hs, Hep. unfold wrapping_add. split_and!; [lia..| |lia].
    rewrite Z.add_mod_idemp_l by (unfold u64_max; lia). f_equal. lia.
Qed.
End properties_lemmas.

(** ** Properties *)

Definition sample_session : RoleSessionState RoleCatalog :=
  mkRoleSessionState (Some sample_catalog)
    (mkRoleSession (lit "alice") SessionUser None 0 ∅) false.

Lemma sample_session_ok : new_session (lit "alice") (Some sample_catalog) = Ok sample_session.
Proof. vm_compute. reflexivity. Qed.

(** C7: after any sequence of SET ROLE, RESET ROLE, request settings and
    transaction ends, accepted or refused, a session acts as its login user or as
    a role reachable from it over memberships with the SET option. *)
Theorem session_role_confined user (c : RoleCatalog) st ops :
  new_session user (Some c) = Ok st ->
  let s := session (run ops st) in
  session_user s = user /\
  (effective_role s = user \/
   (known c (effective_role s) /\ rtc (member_edge (memberships c) RoleSet) user (effective_role s))).
Proof.
  intros Hnew s. pose proof (run_inv ops st (new_session_inv _ _ _ Hnew)) as Hinv.
  apply effective_role_allowed in Hinv. destruct (run_frame ops st) as (Hc & Hu & _).
  rewrite Hc, Hu in Hinv.
  assert (catalog st = Some c /\ session_user (session st) = user) as [Hcat Huser].
  { unfold new_session in Hnew. inv_ok. done. }
  rewrite Hcat, Huser in Hinv. split; [by rewrite <- Huser|].
  destruct Hinv as [?|(c' & [= <-] & Hset)]; [by left | right].
  by apply has_role_privilege_rtc in Hset as (_ & ? & ?).
Qed.

Lemma session_role_confined_witness :
  effective_role (session (run [OpSetRole (Some (lit "analysts")) false false;
                                OpSetRole (Some (lit "editors")) true true] sample_session))
    = lit "analysts" /\
  known sample_catalog (lit "analysts").
Proof.
  assert (effective_role (session (run [OpSetRole (Some (lit "analysts")) false false;
            OpSetRole (Some (lit "editors")) true true] sample_session)) = lit "analysts") as He
    by (vm_compute; reflexivity).
  split; [exact He|].
  destruct (session_role_confined _ _ _ [OpSetRole (Some (lit "analysts")) false false;
              OpSetRole (Some (lit "editors")) true true] sample_session_ok) as [_ Hconf].
  cbv zeta in Hconf. rewrite He in Hconf. destruct Hconf as [Habs|[Hk _]]; [discriminate Habs | exact Hk].
Defined.

(** A transaction that starts without local state and runs SET LOCAL ROLE and
    request settings, in any order and number, ends with the identity it started
    with: the same effective role and an empty request context. *)
Theorem transaction_restores_identity (st : RoleSessionState RoleCatalog) ops :
  poisoned st = false ->
  local_role (session st) = None ->
  Forall (fun op => transaction_local op = true) ops ->
  exists st', end_transaction (run ops st) = Ok st' /\
    effective_role (session st') = effective_role (session st) /\
    request_context (session st') = ∅.
Proof.
  intros Hp Hlr Hops. destruct (run_frame ops st) as (_ & Hu & Hp').
  destruct (end_transaction_result (run ops st)) as (st' & ? & Hl & Hc & Hs & Hu').
  { by rewrite Hp'. }
  exists st'. split_and!; [done | | done].
  unfold effective_role. rewrite Hl, Hlr, Hs, Hu', Hu. simpl. by rewrite run_local.
Qed.

Lemma transaction_restores_identity_witness :
  exists st', end_transaction (run [OpSetRole (Some (lit "analysts")) true true;
      OpSetRequestSetting REQUEST_JWT_CLAIMS (lit "{}") true] sample_session) = Ok st' /\
    effective_role (session st') = effective_role (session sample_session) /\
    request_context (session st') = ∅.
Proof.
  apply (transaction_restores_identity sample_session);
    [reflexivity | reflexivity | repeat constructor].
Defined.

(** The epoch is a sound change marker: over up to 2^64 - 1 operations, an
    unchanged epoch means that the session (roles, login user and request context)
    is unchanged. *)
Theorem epoch_detects_changes user (cat : option RoleCatalog) st before ops :
  new_session user cat = Ok st ->
  len ops <= u64_max ->
  epoch (session (run ops (run before st))) = epoch (session (run before st)) ->
  session (run ops (run before st)) = session (run before st).
Proof.
  intros Hnew Hlen Heq. pose proof (run_inv before st (new_session_inv _ _ _ Hnew)) as [_ _ _ He].
  destruct (run_epoch ops (run before st) He) as (k & Hk & Hep & Hsame).
  apply Hsame. rewrite Hep in Heq.
  destruct (Z.eq_dec k 0); [done|]. exfalso.
  destruct (Z_lt_le_dec (epoch (session (run before st)) + k) (u64_max + 1)).
  - rewrite Z.mod_small in Heq by lia. lia.
  - rewrite (Z.mod_eq _ (u64_max + 1)) in Heq by (unfold u64_max; lia).
    replace ((epoch (session (run before st)) + k) / (u64_max + 1)) with 1 in Heq; [lia|].
    apply (Z.div_unique _ _ _ (epoch (session (run before st)) + k - (u64_max + 1))); lia.
Qed.

Lemma epoch_detects_changes_witness :
  session (run [OpSetRole (Some (lit "editors")) false false; OpEndTransaction]
             (run [OpSetRole (Some (lit "analysts")) false false] sample_session)) =
  session (run [OpSetRole (Some (lit "analysts")) false false] sample_session).
Proof.
  apply (epoch_detects_changes _ _ _ [OpSetRole (Some (lit "analysts")) false false]
           [OpSetRole (Some (lit "editors")) false false; OpEndTransaction] sample_session_ok);
    vm_compute; (reflexivity || discriminate).
Defined.

(** The request context only ever holds the allowlisted setting, at most
    16384 bytes and without NUL, so its total stays below the session limit and
    the 32768-byte check never refuses a setting. *)
Theorem request_context_bounded user (cat : option RoleCatalog) st ops :
  new_session user cat = Ok st ->
  let s := session (run ops st) in
  bounded_context (request_context s) /\
  context_bytes (request_context s) <= MAX_REQUEST_CONTEXT_BYTES /\
  (forall value, len value <= MAX_REQUEST_SETTING_BYTES -> x00 ∉ value ->
     exists st', set_request_setting (run ops st) REQUEST_JWT_CLAIMS value true = Ok st').
Proof.
  intros Hnew s. pose proof (run_inv ops st (new_session_inv _ _ _ Hnew)) as [_ _ Hctx _].
  destruct (run_frame ops st) as (_ & _ & Hpois).
  assert (poisoned st = false) as Hp by (unfold new_session in Hnew; by inv_ok).
  rewrite Hp in Hpois. destruct (bounded_context_bytes _ Hctx) as [Hb Hrep].
  fold s in Hb. split_and!; [done | unfold MAX_REQUEST_CONTEXT_BYTES; lia |].
  intros value Hlen Hnul. unfold set_request_setting, lock. rewrite Hpois. simpl.
  rewrite (proj2 (Z.ltb_ge _ _) Hlen), (bool_decide_eq_false_2 _ Hnul). simpl.
  specialize (Hrep value Hlen). fold s in Hrep |- *.
  rewrite (proj2 (Z.ltb_ge _ _) Hrep). simpl. case_bool_decide; eauto.
Qed.

Lemma request_context_bounded_witness :
  context_bytes (request_context (session (run
    [OpSetRequestSetting REQUEST_JWT_CLAIMS (lit "{}") true] sample_session)))
    <= MAX_REQUEST_CONTEXT_BYTES.
Proof.
  exact (proj1 (proj2 (request_context_bounded _ _ _
           [OpSetRequestSetting REQUEST_JWT_CLAIMS (lit "{}") true] sample_session_ok))).
Defined.
