(* ===== verification/Auth.v ===== *)
(** * Authentication modes and table allowlists ([quackgis-server/src/auth.rs])

    [AuthConfig] is built once from the command line by a chain of constructors
    and [with_*] calls and then answers who may log in, read and write.  SCRAM
    key derivation ([pgwire]'s [gen_salted_password]) is a parameter, and the
    nonce drawn for each user is an argument. *)

From S2P Require Import Prelude Reachability RoleCatalog RoleSession.

Inductive AuthMode := Trust | Password | EdgePreauthenticated.
Inductive AccessRole := ReadWrite | ReadOnly.
Record WriteTarget := mkWriteTarget { target_schema : str; target_table : str }.

#[export] Instance auth_mode_eq_dec : EqDecision AuthMode.
Proof. solve_decision. Defined.
#[export] Instance access_role_eq_dec : EqDecision AccessRole.
Proof. solve_decision. Defined.
#[export] Instance write_target_eq_dec : EqDecision WriteTarget.
Proof. solve_decision. Defined.

Inductive TablePolicy :=
  | PolicyAll
  | PolicyOnly (targets : list WriteTarget).

(** [#[derive(Ord)]] on [WriteTarget] *)
Definition target_compare (a b : WriteTarget) : comparison :=
  then_compare (str_compare (target_schema a) (target_schema b))
               (str_compare (target_table a) (target_table b)).

(** [targets.sort(); targets.dedup();] *)
Definition sort_dedup (targets : list WriteTarget) : list WriteTarget :=
  dedup (sort_by target_compare targets).

(** [TablePolicy::only], [allows], [allowed_targets], [is_restricted] *)
Definition policy_only (targets : list WriteTarget) : TablePolicy := PolicyOnly (sort_dedup targets).
Definition policy_allows (self : TablePolicy) (target : option (str * str)) : bool :=
  match self with
  | PolicyAll => true
  | PolicyOnly targets =>
      match target with
      | None => false
      | Some (schema, table) =>
          existsb (fun allowed => eq_ignore_ascii_case (target_schema allowed) schema
                                  && eq_ignore_ascii_case (target_table allowed) table) targets
      end
  end.
Definition allowed_targets (self : TablePolicy) : option (list WriteTarget) :=
  match self with PolicyAll => None | PolicyOnly targets => Some targets end.
Definition is_restricted (self : TablePolicy) : bool :=
  match self with PolicyAll => false | PolicyOnly _ => true end.

Record AuthUser := mkAuthUser {
  user_role : AccessRole;
  write_policy : TablePolicy;
  scram_salt : list byte;
  scram_salted_password : list byte }.

Record AuthConfig := mkAuthConfig {
  mode : AuthMode;
  users : gmap str AuthUser;
  trust_write_policy : TablePolicy;
  read_policy : TablePolicy;
  maintenance_user : option str;
  role_catalog : option RoleCatalog }.

Inductive AuthError :=
  | EmptyUser (label : string)
  | InvalidUser (label : string)
  | EmptyPassword (label : string)
  | NulPassword (label : string)
  | SameUsers
  | NoLoginRole
  | RolesNeedPasswordAuth
  | LoginRolesMismatch
  | InvalidMaintenanceUser
  | UnknownMaintenanceUser
  | MissingPasswordUser
  | NotPreauthenticated
  | RoleSessionRefused (e : StartSessionError)
  | EmptyAllowlistEntry (label : string)
  | EmptyAllowlist (label : string)
  | UnsupportedTarget (label : string) (raw : str)
  | EmptyIdentifier (label : string)
  | ControlIdentifier (label : string).

(** [AuthUser::allows_write_target] and [write_targets] *)
Definition allows_write_target (self : AuthUser) (schema table : str) : bool :=
  bool_decide (user_role self = ReadWrite) && policy_allows (write_policy self) (Some (schema, table)).
Definition write_targets (self : AuthUser) : option (list WriteTarget) :=
  allowed_targets (write_policy self).

(** [AuthConfig::trust] *)
Definition trust : AuthConfig := mkAuthConfig Trust ∅ PolicyAll PolicyAll None None.

(** [validate_user_password] *)
Definition validate_user_password (label : string) (user password : str) : result AuthError unit :=
  _ ← ensure (negb (bool_decide (trim user = []))) (EmptyUser label);
  _ ← ensure (negb (negb (bool_decide (user = trim user)) || has_control user)) (InvalidUser label);
  _ ← ensure (negb (bool_decide (password = []))) (EmptyPassword label);
  ensure (negb (bool_decide (x00 ∈ password))) (NulPassword label).

Section scram.
Variable gen_salted_password : str -> list byte -> list byte.

(** [AuthUser::scram]; [nonce] is the value [random_nonce()] returned. *)
Definition scram (nonce : list byte) (password : str) (role : AccessRole) : AuthUser :=
  mkAuthUser role PolicyAll nonce (gen_salted_password password nonce).

(** [AuthConfig::password] *)
Definition password (nonce1 nonce2 : list byte) (readwrite_user readwrite_password : str)
    (readonly : option (str * str)) : result AuthError AuthConfig :=
  _ ← validate_user_password "readwrite" readwrite_user readwrite_password;
  let us := <[readwrite_user := scram nonce1 readwrite_password ReadWrite]> ∅ in
  us ← match readonly with
       | None => Ok us
       | Some (readonly_user, readonly_password) =>
           _ ← validate_user_password "readonly" readonly_user readonly_password;
           _ ← ensure (negb (bool_decide (readonly_user = readwrite_user))) SameUsers;
           Ok (<[readonly_user := scram nonce2 readonly_password ReadOnly]> us)
       end;
  Ok (mkAuthConfig Password us PolicyAll PolicyAll None None).
End scram.

(** [AuthConfig::edge_preauthenticated] *)
Definition edge_preauthenticated (c : RoleCatalog) : result AuthError AuthConfig :=
  _ ← ensure (existsb role_login (roles c)) NoLoginRole;
  Ok (mkAuthConfig EdgePreauthenticated ∅ PolicyAll PolicyAll None (Some c)).

(** The two sets compared by [with_role_catalog]. *)
Definition login_roles (c : RoleCatalog) : gset str :=
  list_to_set (map role_name (List.filter role_login (roles c))).

(** [AuthConfig::with_role_catalog] *)
Definition with_role_catalog (self : AuthConfig) (c : RoleCatalog) : result AuthError AuthConfig :=
  _ ← ensure (bool_decide (mode self = Password)) RolesNeedPasswordAuth;
  _ ← ensure (bool_decide (dom (users self) = login_roles c)) LoginRolesMismatch;
  Ok (mkAuthConfig (mode self) (users self) (trust_write_policy self) (read_policy self)
        (maintenance_user self) (Some c)).

(** [AuthConfig::allows_preauthenticated_login] *)
Definition allows_preauthenticated_login (self : AuthConfig) (name : str) : bool :=
  bool_decide (mode self = EdgePreauthenticated) &&
  match (c ← role_catalog self; role c name) with
  | Some r => role_login r
  | None => false
  end.

(** [AuthConfig::with_maintenance_user] *)
Definition with_maintenance_user (self : AuthConfig) (user : str) : result AuthError AuthConfig :=
  _ ← ensure (negb (negb (bool_decide (trim user = user)) || bool_decide (user = [])
                    || has_control user)) InvalidMaintenanceUser;
  let valid := match mode self with
               | Trust => true
               | Password => match users self !! user with
                             | Some configured => bool_decide (user_role configured = ReadWrite)
                             | None => false
                             end
               | EdgePreauthenticated => allows_preauthenticated_login self user
               end in
  _ ← ensure valid UnknownMaintenanceUser;
  Ok (mkAuthConfig (mode self) (users self) (trust_write_policy self) (read_policy self)
        (Some user) (role_catalog self)).

(** [AuthConfig::with_readwrite_allowlist] *)
Definition restrict_user (policy : TablePolicy) (u : AuthUser) : AuthUser :=
  match user_role u with
  | ReadWrite => mkAuthUser (user_role u) policy (scram_salt u) (scram_salted_password u)
  | ReadOnly => u
  end.
Definition with_readwrite_allowlist (self : AuthConfig) (targets : list WriteTarget) : AuthConfig :=
  let policy := policy_only targets in
  match mode self with
  | Trust | EdgePreauthenticated =>
      mkAuthConfig (mode self) (users self) policy (read_policy self) (maintenance_user self)
        (role_catalog self)
  | Password =>
      mkAuthConfig (mode self) (restrict_user policy <$> users self) (trust_write_policy self)
        (read_policy self) (maintenance_user self) (role_catalog self)
  end.

(** [AuthConfig::with_read_allowlist] *)
Definition with_read_allowlist (self : AuthConfig) (targets : list WriteTarget) : AuthConfig :=
  mkAuthConfig (mode self) (users self) (trust_write_policy self) (policy_only targets)
    (maintenance_user self) (role_catalog self).

(** The [name.filter(p).ok_or(e)] of [start_role_session]. *)
Definition filter_name (p : str -> bool) (name : option str) (e : AuthError) : result AuthError str :=
  match name with
  | Some n => if p n then Ok n else Err e
  | None => Err e
  end.

Definition contains_user (self : AuthConfig) (name : str) : bool :=
  bool_decide (is_Some (users self !! name)).

(** [AuthConfig::start_role_session] *)
Definition start_role_session (self : AuthConfig) (name : option str)
    : result AuthError (RoleSessionState RoleCatalog) :=
  user ← match mode self with
         | Trust => Ok (default (lit "postgres") name)
         | Password => filter_name (contains_user self) name MissingPasswordUser
         | EdgePreauthenticated =>
             filter_name (allows_preauthenticated_login self) name NotPreauthenticated
         end;
  map_err RoleSessionRefused (new_session user (role_catalog self)).

(** [name.is_some_and(p)] *)
Definition is_some_and {A} (o : option A) (p : A -> bool) : bool :=
  match o with Some a => p a | None => false end.

(** [AuthConfig::role_for_user] (and [role_for_client], which passes the client's name) *)
Definition role_for_user (self : AuthConfig) (name : option str) : AccessRole :=
  match mode self with
  | Trust => ReadWrite
  | Password => match (n ← name; users self !! n) with
                | Some u => user_role u
                | None => ReadOnly
                end
  | EdgePreauthenticated =>
      if is_some_and name (allows_preauthenticated_login self) then ReadWrite else ReadOnly
  end.

(** [AuthConfig::allows_write] *)
Definition allows_write (self : AuthConfig) (name : option str) (target : option (str * str)) : bool :=
  match mode self with
  | Trust => policy_allows (trust_write_policy self) target
  | Password =>
      is_some_and (n ← name; users self !! n) (fun user =>
        bool_decide (user_role user = ReadWrite) && policy_allows (write_policy user) target)
  | EdgePreauthenticated =>
      is_some_and name (allows_preauthenticated_login self)
      && policy_allows (trust_write_policy self) target
  end.

(** [AuthConfig::allows_read] *)
Definition allows_read (self : AuthConfig) (name : option str) (target : str * str) : bool :=
  let known_identity :=
    match mode self with
    | Trust => true
    | Password => is_some_and name (contains_user self)
    | EdgePreauthenticated => is_some_and name (allows_preauthenticated_login self)
    end in
  known_identity && policy_allows (read_policy self) (Some target).

(** [AuthConfig::allows_maintenance] *)
Definition allows_maintenance (self : AuthConfig) (name : option str) (target : str * str) : bool :=
  bool_decide (maintenance_user self = name) && allows_write self name (Some target).

(** [normalize_identifier_part], [parse_table_target], [parse_table_allowlist] *)
Definition normalize_identifier_part (label : string) (raw : str) : result AuthError str :=
  let part := trim_quotes (trim raw) in
  _ ← ensure (negb (bool_decide (part = []))) (EmptyIdentifier label);
  _ ← ensure (negb (has_control part)) (ControlIdentifier label);
  Ok part.

Definition is_public_schema (schema : str) : bool :=
  eq_ignore_ascii_case schema (lit "public") || eq_ignore_ascii_case schema (lit "main").

Definition parse_table_target (label : string) (raw : str) : result AuthError WriteTarget :=
  parts ← collect (normalize_identifier_part label) (split_on x2e raw);
  table ← match parts with
          | [table] => Ok table
          | [schema; table] =>
              if is_public_schema schema then Ok table else Err (UnsupportedTarget label raw)
          | [catalog; schema; table] =>
              if eq_ignore_ascii_case catalog (lit "quackgis") && is_public_schema schema
              then Ok table else Err (UnsupportedTarget label raw)
          | _ => Err (UnsupportedTarget label raw)
          end;
  Ok (mkWriteTarget (lit "main") table).

Definition parse_table_allowlist (label : string) (raw : str) : result AuthError (list WriteTarget) :=
  targets ← try_fold (fun targets entry =>
    let entry := trim entry in
    _ ← ensure (negb (bool_decide (entry = []))) (EmptyAllowlistEntry label);
    target ← parse_table_target label entry;
    Ok (targets ++ [target])) (split_on x2c raw) [];
  _ ← ensure (negb (bool_decide (targets = []))) (EmptyAllowlist label);
  Ok (sort_dedup targets).

(** ** The configurations the constructors can build *)
Inductive built (kdf : str -> list byte -> list byte) : AuthConfig -> Prop :=
  | built_trust : built kdf trust
  | built_password n1 n2 u p ro c : password kdf n1 n2 u p ro = Ok c -> built kdf c
  | built_edge cat c : catalog_wf cat -> edge_preauthenticated cat = Ok c -> built kdf c
  | built_roles c cat c' : built kdf c -> catalog_wf cat -> with_role_catalog c cat = Ok c' -> built kdf c'
  | built_maintenance c u c' : built kdf c -> with_maintenance_user c u = Ok c' -> built kdf c'
  | built_write_list c ts : built kdf c -> built kdf (with_readwrite_allowlist c ts)
  | built_read_list c ts : built kdf c -> built kdf (with_read_allowlist c ts).

(** The invariant of a built configuration. *)
Record config_wf (c : AuthConfig) : Prop := {
  cfg_trust : mode c = Trust -> users c = ∅ /\ role_catalog c = None;
  cfg_edge : mode c = EdgePreauthenticated -> users c = ∅ /\
    exists cat, role_catalog c = Some cat /\ catalog_wf cat /\ login_roles cat <> ∅;
  cfg_password : mode c = Password -> users c <> ∅ /\
    forall cat, role_catalog c = Some cat -> catalog_wf cat /\ dom (users c) = login_roles cat;
  cfg_maintenance : forall u, maintenance_user c = Some u ->
    match mode c with
    | Trust => True
    | Password => exists au, users c !! u = Some au /\ user_role au = ReadWrite
    | EdgePreauthenticated => allows_preauthenticated_login c u = true
    end }.

(** ** Lemmas *)

Lemma sort_dedup_elem t ts : t ∈ sort_dedup ts <-> t ∈ ts.
Proof. unfold sort_dedup. by rewrite dedup_elem, sort_by_perm. Qed.

Lemma policy_only_allows ts schema table :
  policy_allows (policy_only ts) (Some (schema, table)) = true <->
  exists t, t ∈ ts /\ ascii_ci (target_schema t) schema /\ ascii_ci (target_table t) table.
Proof.
  unfold policy_only. simpl. rewrite existsb_elem. setoid_rewrite sort_dedup_elem.
  setoid_rewrite andb_true_iff. by setoid_rewrite eq_ignore_ascii_case_true.
Qed.

Lemma login_roles_elem cat n :
  catalog_wf cat -> n ∈ login_roles cat <-> exists r, role cat n = Some r /\ role_login r = true.
Proof.
  intros Hwf. unfold login_roles. rewrite elem_of_list_to_set, list_elem_of_fmap.
  setoid_rewrite list_elem_of_In. setoid_rewrite filter_In. setoid_rewrite <- list_elem_of_In.
  setoid_rewrite (wf_index cat Hwf). split; intros (r & ?); exists r; naive_solver.
Qed.

Lemma preauthenticated_elem c cat n :
  mode c = EdgePreauthenticated -> role_catalog c = Some cat -> catalog_wf cat ->
  allows_preauthenticated_login c n = true <-> n ∈ login_roles cat.
Proof.
  intros Hm Hc Hwf. unfold allows_preauthenticated_login.
  rewrite Hm, bool_decide_eq_true_2, Hc, login_roles_elem by done. simpl.
  destruct (role cat n); naive_solver.
Qed.

Lemma password_wf kdf n1 n2 u p ro c : password kdf n1 n2 u p ro = Ok c -> config_wf c.
Proof.
  unfold password. intros Hp. inv_ok.
  destruct ro as [[ru rp]|]; inv_ok; split; simpl; try done;
    intros _; (split; [apply insert_non_empty | done]).
Qed.

Lemma edge_wf cat c : catalog_wf cat -> edge_preauthenticated cat = Ok c -> config_wf c.
Proof.
  unfold edge_preauthenticated. intros Hwf He. inv_ok. split; try done. intros _.
  split; [done|]. exists cat. split_and!; [done | done |]. apply existsb_elem in H as (r & Hr & Hl).
  intros Hempty. apply (not_elem_of_empty (C := gset str) (role_name r)). rewrite <- Hempty.
  apply login_roles_elem; [done|]. exists r. by rewrite (wf_index cat Hwf).
Qed.

Lemma restrict_user_role policy u : user_role (restrict_user policy u) = user_role u.
Proof. unfold restrict_user. by destruct (user_role u) eqn:?. Qed.

Lemma built_wf kdf c : built kdf c -> config_wf c.
Proof.
  induction 1 as [|? ? ? ? ? ? ?|? ? ? ?|c cat c' _ [Ht He Hp Hm] Hwf H|c u c' _ [Ht He Hp Hm] H
                 |c ts _ [Ht He Hp Hm]|c ts _ [Ht He Hp Hm]].
  - by split.
  - by eapply password_wf.
  - by eapply edge_wf.
  - unfold with_role_catalog in H. inv_ok. bool_prop. split; simpl; try congruence.
    + intros _. split; [by apply Hp|]. intros ? [= <-]. done.
    + intros u Hu. apply Hm in Hu. destruct (mode c); done.
  - unfold with_maintenance_user in H. inv_ok. split; simpl; try done. intros ? [= <-].
    unfold allows_preauthenticated_login in *. simpl in *. destruct (mode c); [done| |done]. destruct (users c !! u) as [au|]; [|done].
    bool_prop. eauto.
  - unfold with_readwrite_allowlist. destruct (mode c) eqn:Hmode.
    + split; simpl; rewrite ?Hmode; by auto.
    + split; simpl; rewrite ?Hmode; try done.
      * intros _. rewrite dom_fmap_L. destruct (Hp eq_refl) as [Hne Hd]. split; [|done].
        by rewrite fmap_empty_iff.
      * intros u Hu. apply Hm in Hu as (au & Hau & Hrole).
        exists (restrict_user (policy_only ts) au). rewrite lookup_fmap, Hau. split; [done|].
        by rewrite restrict_user_role.
    + split; simpl; rewrite ?Hmode; try done; auto. intros u Hu. apply Hm in Hu.
      unfold allows_preauthenticated_login in *. by rewrite Hmode in Hu.
  - split; simpl; auto.
Qed.

Lemma new_session_ok user cat :
  (exists st, new_session user cat = Ok st) <->
  forall c, cat = Some c -> exists r, role c user = Some r /\ role_login r = true.
Proof.
  unfold new_session. simpl. destruct cat as [c|]; simpl; [|split; [done|eauto]].
  split.
  - intros [st Hst] ? [= <-]. inv_ok. eauto.
  - intros Hc. destruct (Hc c eq_refl) as (r & -> & Hr). simpl. rewrite Hr. simpl. eauto.
Qed.

Lemma new_session_user user cat (st : RoleSessionState RoleCatalog) :
  new_session user cat = Ok st -> session_user (session st) = user /\ catalog st = cat.
Proof. unfold new_session. intros H. by inv_ok. Qed.

Lemma map_err_is_ok {E F A} (f : E -> F) (m : result E A) :
  (exists a, map_err f m = Ok a) <-> exists a, m = Ok a.
Proof. by setoid_rewrite map_err_ok. Qed.

Lemma restricted_user_allows (ts : list WriteTarget) (n : str) (us : gmap str AuthUser) target :
  is_some_and ((restrict_user (policy_only ts) <$> us) !! n) (fun user =>
    bool_decide (user_role user = ReadWrite) && policy_allows (write_policy user) target) =
  is_some_and (us !! n) (fun user =>
    bool_decide (user_role user = ReadWrite) && policy_allows (policy_only ts) target).
Proof.
  rewrite lookup_fmap. destruct (us !! n) as [u|]; simpl; [|done].
  rewrite restrict_user_role. unfold restrict_user. by destruct (user_role u).
Qed.

Lemma allows_write_restricted c n ts target :
  allows_write (with_readwrite_allowlist c ts) n target =
  bool_decide (role_for_user c n = ReadWrite) && policy_allows (policy_only ts) target.
Proof.
  unfold allows_write, with_readwrite_allowlist, role_for_user.
  destruct (mode c) eqn:Hm; simpl; [done| |].
  - destruct n as [n|]; simpl; [|done]. rewrite restricted_user_allows.
    by destruct (users c !! n).
  - destruct n as [n|]; simpl; [|done]. unfold allows_preauthenticated_login. rewrite Hm. simpl.
    by destruct (match _ ≫= _ with Some _ => _ | None => _ end).
Qed.

Lemma normalize_identifier_part_ok label raw part :
  normalize_identifier_part label raw = Ok part -> part <> [] /\ has_control part = false.
Proof. unfold normalize_identifier_part. intros H. inv_ok. by bool_prop. Qed.

Definition public_target (t : WriteTarget) : Prop :=
  target_schema t = lit "main" /\ target_table t <> [] /\ has_control (target_table t) = false.

Lemma parse_table_target_ok label raw t : parse_table_target label raw = Ok t -> public_target t.
Proof.
  unfold parse_table_target. intros H. apply bind_ok in H as (parts & Hc & H).
  apply bind_ok in H as (table & Ht & [= <-]). apply collect_ok in Hc.
  assert (table ∈ parts) as Hin.
  { destruct parts as [|p1 [|p2 [|p3 [|]]]]; inv_ok; set_solver. }
  split; [done|]. simpl. apply list_elem_of_lookup in Hin as [i Hi].
  eapply Forall2_lookup_r in Hc as (raw' & _ & Hn); [|done].
  by eapply normalize_identifier_part_ok.
Qed.

(** ** Properties *)

Definition sample_kdf (password : str) (salt : list byte) : list byte := salt ++ password.
Definition sample_auth : AuthConfig :=
  mkAuthConfig Password
    {[lit "alice" := mkAuthUser ReadWrite PolicyAll (lit "n1") (lit "n1pw")]}
    PolicyAll PolicyAll None None.
Definition sample_auth_roles : AuthConfig :=
  mkAuthConfig Password
    {[lit "alice" := mkAuthUser ReadWrite PolicyAll (lit "n1") (lit "n1pw")]}
    PolicyAll PolicyAll None (Some sample_catalog).

Lemma sample_auth_built : built sample_kdf sample_auth_roles.
Proof.
  eapply (built_roles _ sample_auth sample_catalog).
  - eapply (built_password _ (lit "n1") [] (lit "alice") (lit "pw") None). vm_compute. reflexivity.
  - exact (try_from_wf _ _ sample_catalog_ok).
  - vm_compute. reflexivity.
Qed.

(** Every configuration built by the constructors keeps the modes apart:
    trust mode has neither users nor roles; with a role catalog, the password users
    are exactly the LOGIN roles; the preauthenticated mode has a catalog with a
    LOGIN role; and the maintenance user is a read-write identity of the mode. *)
Theorem auth_config_invariant kdf c : built kdf c -> config_wf c.
Proof. apply built_wf. Qed.

Lemma auth_config_invariant_witness :
  dom (users sample_auth_roles) = login_roles sample_catalog.
Proof.
  destruct (auth_config_invariant sample_kdf sample_auth_roles sample_auth_built) as [_ _ Hp _].
  exact (proj2 (proj2 (Hp eq_refl) sample_catalog eq_refl)).
Defined.

(** A login starts a role session exactly for the identities of the mode, as
    the name it was given: any name in trust mode, the configured users in password
    mode, the LOGIN roles of the catalog in preauthenticated mode; an authenticated
    password user is never refused by the role catalog. *)
Theorem start_role_session_iff_login kdf c n :
  built kdf c ->
  (exists st, start_role_session c (Some n) = Ok st /\ session_user (session st) = n) <->
  match mode c with
  | Trust => True
  | Password => n ∈ dom (users c)
  | EdgePreauthenticated => exists cat, role_catalog c = Some cat /\ n ∈ login_roles cat
  end.
Proof.
  intros [Ht He Hp _]%built_wf. unfold start_role_session, filter_name, contains_user.
  assert (forall cat, (exists st, map_err RoleSessionRefused (new_session n cat) = Ok st /\
            session_user (session st) = n) <->
          forall c', cat = Some c' -> exists r, role c' n = Some r /\ role_login r = true) as Hnew.
  { intros cat. rewrite <- new_session_ok. split; [intros (st & Hst & _) | intros [st Hst]];
      exists st; [by eapply map_err_ok|]. split; [by apply map_err_ok|].
      by apply new_session_user in Hst as [? _]. }
  destruct (mode c) eqn:Hm; simpl.
  - destruct (Ht eq_refl) as [_ ->]. rewrite Hnew. naive_solver.
  - rewrite elem_of_dom. case_bool_decide as Hin; simpl; [|naive_solver].
    rewrite Hnew. split; [done|]. intros _ cat Hcat. destruct (Hp eq_refl) as [_ Hd].
    destruct (Hd cat Hcat) as [Hwf Hdom]. apply login_roles_elem; [done|].
    rewrite <- Hdom. by apply elem_of_dom.
  - destruct (He eq_refl) as (_ & cat & Hcat & Hwf & _).
    pose proof (preauthenticated_elem c cat n Hm Hcat Hwf) as Hpre. rewrite Hcat.
    destruct (allows_preauthenticated_login c n); simpl.
    + rewrite Hnew. split; intros _; [exists cat; split; [done|]; by apply Hpre|].
      intros ? [= <-]. apply login_roles_elem; [done|]. by apply Hpre.
    + split; [naive_solver|]. intros (? & [= <-] & Hin%Hpre). done.
Qed.

Lemma start_role_session_iff_login_witness :
  exists st, start_role_session sample_auth_roles (Some (lit "alice")) = Ok st /\
             session_user (session st) = lit "alice".
Proof.
  apply (start_role_session_iff_login sample_kdf sample_auth_roles (lit "alice") sample_auth_built).
  simpl. apply elem_of_dom. eexists. vm_compute. reflexivity.
Defined.

(** Once a read-write allowlist is set, a write is allowed exactly for an
    identity with the read-write role on a listed table (ASCII case ignored);
    statements without a known target are never allowed, and maintenance needs the
    maintenance identity as well. *)
Theorem readwrite_allowlist_enforced c ts n :
  let c' := with_readwrite_allowlist c ts in
  (forall schema table,
     allows_write c' n (Some (schema, table)) = true <->
     role_for_user c n = ReadWrite /\
     exists t, t ∈ ts /\ ascii_ci (target_schema t) schema /\ ascii_ci (target_table t) table) /\
  allows_write c' n None = false /\
  (forall target, allows_maintenance c' n target = true ->
     maintenance_user c' = n /\ allows_write c' n (Some target) = true).
Proof.
  intros c'. split_and!.
  - intros schema table. unfold c'. rewrite allows_write_restricted, andb_true_iff,
      bool_decide_eq_true, policy_only_allows. done.
  - unfold c'. rewrite allows_write_restricted. simpl. by rewrite andb_false_r.
  - unfold allows_maintenance. intros target H. bool_prop. done.
Qed.

(** A parsed allowlist is not empty, lists only non-empty table names without
    control characters in the [main] schema, and lists the target of every
    comma-separated entry. *)
Theorem parse_table_allowlist_targets label raw ts :
  parse_table_allowlist label raw = Ok ts ->
  ts <> [] /\ Forall public_target ts /\
  forall entry, entry ∈ split_on x2c raw ->
    exists t, parse_table_target label (trim entry) = Ok t /\ t ∈ ts.
Proof.
  unfold parse_table_allowlist. intros H. apply bind_ok in H as (out & Hf & H). inv_ok. bool_prop.
  loop_inv Hf (fun done out => Forall public_target out /\
    forall entry, entry ∈ done -> exists t, parse_table_target label (trim entry) = Ok t /\ t ∈ out).
  - destruct Hf as [Hall Hent]. split_and!.
    + intros Hnil. destruct out as [|t out]; [done|].
      apply (not_elem_of_nil t). rewrite <- Hnil. apply sort_dedup_elem. by left.
    + rewrite Forall_forall in Hall |- *. intros t Ht. by apply Hall, (sort_dedup_elem t out).
    + intros entry (t & Ht & Hin)%Hent. exists t. by rewrite sort_dedup_elem.
  - by split; [|intros ? ?%not_elem_of_nil].
  - intros done e s s' _ [Hall Hent] Hs. inv_ok. split.
    + apply Forall_app; split; [done|]. constructor; [|constructor].
      by eapply parse_table_target_ok.
    + intros entry [Hd| ->%list_elem_of_singleton]%elem_of_app.
      * destruct (Hent _ Hd) as (t & ? & ?). exists t. rewrite elem_of_app. auto.
      * eexists. split; [done|]. rewrite elem_of_app, list_elem_of_singleton. auto.
Qed.

Lemma parse_table_allowlist_targets_witness :
  parse_table_allowlist "write" (lit "roads, quackgis.main.places,Public.roads") =
    Ok [mkWriteTarget (lit "main") (lit "places"); mkWriteTarget (lit "main") (lit "roads")] /\
  Forall public_target [mkWriteTarget (lit "main") (lit "places");
                        mkWriteTarget (lit "main") (lit "roads")].
Proof.
  assert (parse_table_allowlist "write" (lit "roads, quackgis.main.places,Public.roads") =
    Ok [mkWriteTarget (lit "main") (lit "places"); mkWriteTarget (lit "main") (lit "roads")]) as Hp
    by (vm_compute; reflexivity).
  split; [exact Hp|]. exact (proj1 (proj2 (parse_table_allowlist_targets _ _ _ Hp))).
Defined.
