(* ===== verification/StatementPolicy.v ===== *)
(** * Structural authorization of statements ([quackgis-server/src/statement_policy.rs])

    [authorize_statement] decides on the parsed statement: a statement that is not
    known to be read-only needs write permission on its target, and the tables a
    query reads need read permission.  The syntax tree is [sqlparser]'s; the types
    below keep what the code inspects.  Three things come from [sqlparser] as data:
    the [Display] text of each name part, the expressions [visit_expressions]
    reports for a query ([visited]), and the statement nested in a query body. *)

From S2P Require Import Prelude Reachability RoleCatalog RoleSession Auth.

(** ** Syntax *)

Inductive ObjectNamePart :=
  | Identifier (value text : str)
  | NameFunction (text : str).
Definition part_to_string (p : ObjectNamePart) : str :=
  match p with Identifier _ text => text | NameFunction text => text end.
Abbreviation ObjectName := (list ObjectNamePart).

(** A data-modifying statement as the body of a query ([WITH ... DELETE ...]). *)
Inductive DmlKind := DmlInsert | DmlUpdate | DmlDelete | DmlMerge.

Inductive Query :=
  | mkQuery (with_ctes : list (str * Query)) (visited : list Expr) (body : SetExpr)
with SetExpr :=
  | SetSelect (from : list TableWithJoins)
  | SetQuery (query : Query)
  | SetOperation (lhs rhs : SetExpr)
  | SetDml (kind : DmlKind) (table : ObjectName)
  | SetOther
with TableWithJoins :=
  | mkTableWithJoins (relation : TableFactor) (joins : list TableFactor)
with TableFactor :=
  | FactorTable (name : ObjectName)
  | FactorFunction (name : ObjectName)
  | FactorDerived (subquery : Query)
  | FactorNestedJoin (table_with_joins : TableWithJoins)
  | FactorPivot (table : TableFactor)
  | FactorUnpivot (table : TableFactor)
  | FactorMatchRecognize (table : TableFactor)
  | FactorOther
with Expr :=
  | InSubquery (subquery : Query)
  | Exists (subquery : Query)
  | Subquery (subquery : Query)
  | ExprOther.

Inductive CommentObject := CommentTable | CommentColumn | CommentOther.
Inductive ObjectType := ObjectTable | ObjectOther.
Inductive TableObject := TableName (name : ObjectName) | TableObjectOther.

Inductive Statement :=
  | StQuery (query : Query)
  | StSet | StShowVariable | StShowStatus | StDeallocate | StDeclare | StClose
  | StDiscard | StReset | StExplainTable | StCommit | StRollback
  | StStartTransaction (statements : list Statement)
  | StExplain (statement : Statement)
  | StPrepare (statement : Statement)
  | StFetch (into : option ObjectName)
  | StCopy (to : bool)
  | StCreateTable (name : ObjectName)
  | StComment (object_type : CommentObject) (object_name : ObjectName)
  | StInsert (table : TableObject) (source : option Query)
  | StDelete (from : list TableWithJoins) (using_ : bool) (tables : list ObjectName)
  | StDrop (object_type : ObjectType) (names : list ObjectName)
      (cascade restrict purge temporary has_table : bool)
  | StUpdate (table : TableWithJoins) (visited : list Expr)
  | StOther.

(** ** Names *)

Record TableKey := mkTableKey { key_schema : str; key_table : str }.
#[export] Instance table_key_eq_dec : EqDecision TableKey.
Proof. solve_decision. Defined.
Definition table_key_compare (a b : TableKey) : comparison :=
  then_compare (str_compare (key_schema a) (key_schema b))
               (str_compare (key_table a) (key_table b)).

Definition part_text (p : ObjectNamePart) : str := trim_quotes (part_to_string p).

(** [table_name_parts] *)
Definition table_name_parts (name : ObjectName) : option (str * str) :=
  match map part_text name with
  | [catalog; schema; table] =>
      if eq_ignore_ascii_case catalog (lit "quackgis") && is_public_schema schema
      then Some (lit "main", table) else None
  | [schema; table] => if is_public_schema schema then Some (lit "main", table) else None
  | [table] => Some (lit "main", table)
  | _ => None
  end.

(** [object_name_last] *)
Definition object_name_last (name : ObjectName) : option str := part_text <$> last name.

Definition last_is_one_of (name : ObjectName) (names : list str) : bool :=
  is_some_and (object_name_last name) (fun n => bool_decide (to_ascii_lowercase n ∈ names)).

(** [maintained_information_schema_name] *)
Definition maintained_information_schema_name (name : ObjectName) : bool :=
  bool_decide (length name = 2%nat) &&
  last_is_one_of name (map lit ["schemata"; "tables"; "columns"; "table_privileges";
    "role_table_grants"; "column_privileges"; "role_column_grants"]%string).

(** [unqualified_pg_catalog_name] *)
Definition unqualified_pg_catalog_name (name : ObjectName) : bool :=
  bool_decide (length name = 1%nat) &&
  last_is_one_of name (map lit ["pg_namespace"; "pg_database"; "pg_proc"; "pg_type"; "pg_class";
    "pg_attribute"; "pg_attrdef"; "pg_description"; "pg_constraint"; "pg_index"; "pg_am";
    "pg_range"; "pg_collation"; "pg_roles"; "pg_auth_members"; "geometry_columns";
    "spatial_ref_sys"]%string).

(** [sensitive_metadata_name] *)
Definition sensitive_metadata_name (name : ObjectName) : bool :=
  last_is_one_of name (map lit ["ducklake_snapshots"; "ducklake_table_info";
    "ducklake_list_files"; "ducklake_table_changes"; "ducklake_table_deletions"]%string).

(** [comment_target_parts], [insert_target_parts], [table_factor_parts],
    [delete_target_parts], [update_target_parts] *)
Definition comment_target_parts (object_type : CommentObject) (name : ObjectName)
    : option (str * str) :=
  match object_type with
  | CommentTable => table_name_parts name
  | CommentColumn =>
      if bool_decide (2 <= length name)%nat then table_name_parts (removelast name) else None
  | CommentOther => None
  end.
Definition insert_target_parts (table : TableObject) : option (str * str) :=
  match table with TableName name => table_name_parts name | TableObjectOther => None end.
Definition table_factor_parts (factor : TableFactor) : option (str * str) :=
  match factor with FactorTable name => table_name_parts name | _ => None end.
Definition delete_target_parts (from : list TableWithJoins) (using_ : bool)
    (tables : list ObjectName) : option (str * str) :=
  match from with
  | [mkTableWithJoins relation _] =>
      if using_ || negb (bool_decide (length tables = 0%nat)) then None
      else table_factor_parts relation
  | _ => None
  end.
Definition update_target_parts (table : TableWithJoins) : option (str * str) :=
  match table with
  | mkTableWithJoins relation [] => table_factor_parts relation
  | _ => None
  end.

(** ** Classification of statements *)

(** [statement_allowed_for_readonly] *)
Fixpoint statement_allowed_for_readonly (statement : Statement) : bool :=
  match statement with
  | StQuery _ | StSet | StShowVariable | StShowStatus | StDeallocate | StDeclare | StClose
  | StDiscard | StReset | StExplainTable | StCommit | StRollback => true
  | StStartTransaction statements => forallb statement_allowed_for_readonly statements
  | StExplain statement | StPrepare statement => statement_allowed_for_readonly statement
  | StFetch into => is_none into
  | StCopy to => to
  | _ => false
  end.

(** [write_target] *)
Definition write_target (statement : Statement) : option TableKey :=
  parts ← match statement with
          | StCreateTable name => table_name_parts name
          | StComment object_type object_name => comment_target_parts object_type object_name
          | StInsert table _ => insert_target_parts table
          | StDelete from using_ tables => delete_target_parts from using_ tables
          | StDrop ObjectTable [name] false false false false false => table_name_parts name
          | StUpdate table _ => update_target_parts table
          | _ => None
          end;
  Some (mkTableKey (fst parts) (snd parts)).

Inductive TableWritePrivilege := Create | OnTable (privilege : TablePrivilege).

(** [required_write_privilege] *)
Definition required_write_privilege (statement : Statement) : option TableWritePrivilege :=
  match statement with
  | StCreateTable _ | StComment _ _ | StDrop _ _ _ _ _ _ _ => Some Create
  | StInsert _ _ => Some (OnTable TableInsert)
  | StUpdate _ _ => Some (OnTable TableUpdate)
  | StDelete _ _ _ => Some (OnTable TableDelete)
  | _ => None
  end.

(** ** The tables a statement reads *)

Record ReadTargets := mkReadTargets {
  read_tables : list TableKey;
  sensitive_metadata : bool;
  maintained_information_schema : bool }.
Definition no_targets : ReadTargets := mkReadTargets [] false false.

(** [collect_name_target] *)
Definition is_cte_name (name : ObjectName) (ctes : gset str) : bool :=
  match name with
  | [Identifier value _] => bool_decide (to_ascii_lowercase value ∈ ctes)
  | _ => false
  end.
Definition name_schema (name : ObjectName) : str :=
  let raw := if bool_decide (2 <= length name)%nat
             then match name !! (length name - 2)%nat with
                  | Some part => part_to_string part
                  | None => []
                  end
             else [] in
  to_ascii_lowercase (trim_quotes raw).
Definition collect_name_target (name : ObjectName) (ctes : gset str) (targets : ReadTargets)
    : ReadTargets :=
  if is_cte_name name ctes then targets
  else
    let schema := name_schema name in
    if bool_decide (schema = lit "information_schema") && maintained_information_schema_name name
    then mkReadTargets (read_tables targets) (sensitive_metadata targets) true
    else if bool_decide (schema = lit "information_schema") || sensitive_metadata_name name
    then mkReadTargets (read_tables targets) true (maintained_information_schema targets)
    else if negb (bool_decide (schema = lit "pg_catalog" \/ schema = lit "quackgis_pg_catalog"))
            && negb (unqualified_pg_catalog_name name)
    then match table_name_parts name with
         | Some (schema, table) =>
             mkReadTargets (read_tables targets ++ [mkTableKey schema table])
               (sensitive_metadata targets) (maintained_information_schema targets)
         | None => targets
         end
    else targets.

(** [collect_query_targets], [collect_set_targets], [collect_table_targets]; the
    inner loops over joins are [collect_joined_targets]. *)
Fixpoint collect_query_targets (query : Query) (targets : ReadTargets) : ReadTargets :=
  match query with
  | mkQuery with_ctes visited body =>
      let ctes := list_to_set (map (fun cte => to_ascii_lowercase (fst cte)) with_ctes) in
      let targets := foldl (fun targets '(_, q) => collect_query_targets q targets)
                       targets with_ctes in
      let targets := foldl (fun targets e => collect_expression_targets e targets)
                       targets visited in
      collect_set_targets body ctes targets
  end
with collect_expression_targets (expression : Expr) (targets : ReadTargets) : ReadTargets :=
  match expression with
  | InSubquery subquery | Exists subquery | Subquery subquery =>
      collect_query_targets subquery targets
  | ExprOther => targets
  end
with collect_set_targets (expr : SetExpr) (ctes : gset str) (targets : ReadTargets) : ReadTargets :=
  match expr with
  | SetSelect from =>
      foldl (fun targets table => collect_joined_targets table ctes targets) targets from
  | SetQuery query => collect_query_targets query targets
  | SetOperation lhs rhs =>
      collect_set_targets rhs ctes (collect_set_targets lhs ctes targets)
  | _ => targets
  end
with collect_joined_targets (table : TableWithJoins) (ctes : gset str) (targets : ReadTargets)
    : ReadTargets :=
  match table with
  | mkTableWithJoins relation joins =>
      foldl (fun targets join => collect_table_targets join ctes targets)
        (collect_table_targets relation ctes targets) joins
  end
with collect_table_targets (factor : TableFactor) (ctes : gset str) (targets : ReadTargets)
    : ReadTargets :=
  match factor with
  | FactorTable name => collect_name_target name ctes targets
  | FactorFunction name =>
      if sensitive_metadata_name name
      then mkReadTargets (read_tables targets) true (maintained_information_schema targets)
      else targets
  | FactorDerived subquery => collect_query_targets subquery targets
  | FactorNestedJoin table_with_joins => collect_joined_targets table_with_joins ctes targets
  | FactorPivot table | FactorUnpivot table | FactorMatchRecognize table =>
      collect_table_targets table ctes targets
  | FactorOther => targets
  end.

(** [read_targets] *)
Definition read_targets (statement : Statement) : ReadTargets :=
  let targets := match statement with
                 | StQuery query => collect_query_targets query no_targets
                 | StInsert _ (Some source) => collect_query_targets source no_targets
                 | _ => no_targets
                 end in
  mkReadTargets (dedup (sort_by table_key_compare (read_tables targets)))
    (sensitive_metadata targets) (maintained_information_schema targets).

(** ** Authorization *)

(** The [Unauthorized] errors, one per message. *)
Inductive Denial :=
  | DeniedReadOnly
  | DeniedWriteAllowlist (target : option TableKey)
  | DeniedRolePrivilege (required : option TableWritePrivilege) (target : option TableKey)
  | DeniedMetadata
  | DeniedReadAllowlist (target : TableKey)
  | DeniedSelect (target : TableKey)
  | DeniedCopyReadOnly
  | DeniedCopyAllowlist (schema table : str)
  | DeniedCopyPrivilege (schema table : str).

(** The two denial counters ([AtomicU64]). *)
Record Counters := mkCounters { writes_denied : Z; reads_denied : Z }.

(** [record_denial] *)
Definition record_denial (write : bool) (k : Counters) : Counters :=
  if write then mkCounters (wrapping_add (writes_denied k) 1) (reads_denied k)
  else mkCounters (writes_denied k) (wrapping_add (reads_denied k) 1).

Definition key_pair (k : TableKey) : str * str := (key_schema k, key_table k).

Definition or_else {A} (a b : option A) : option A :=
  match a with Some x => Some x | None => b end.

(** The role test of a write in [authorize_statement]. *)
Definition role_allows_write (catalog : RoleCatalog) (statement : Statement)
    (role : str) (target : TableKey) : bool :=
  match required_write_privilege statement with
  | Some Create => can_create_configured_table catalog role (key_schema target) (key_table target)
  | Some (OnTable privilege) =>
      allows_table_operation catalog role (key_schema target) (key_table target) privilege
  | None => false
  end.

(** The first half of [authorize_statement]: writes. *)
Definition authorize_write (auth : AuthConfig) (session_user effective_role : option str)
    (statement : Statement) : result Denial unit :=
  if statement_allowed_for_readonly statement then Ok tt
  else
    let target := write_target statement in
    if negb (allows_write auth session_user (key_pair <$> target)) then
      match role_for_user auth session_user with
      | ReadOnly => Err DeniedReadOnly
      | ReadWrite => Err (DeniedWriteAllowlist target)
      end
    else match role_catalog auth with
         | None => Ok tt
         | Some catalog =>
             let allowed := match effective_role, target with
                            | Some role, Some target => role_allows_write catalog statement role target
                            | _, _ => false
                            end in
             if allowed then Ok tt
             else Err (DeniedRolePrivilege (required_write_privilege statement) target)
         end.

(** The second half: the metadata test, then the loop over the tables read. *)
Definition authorize_table_read (auth : AuthConfig) (session_user effective_role : option str)
    (target : TableKey) : result Denial unit :=
  _ ← ensure (negb (is_restricted (read_policy auth)
                    && negb (allows_read auth session_user (key_pair target))))
        (DeniedReadAllowlist target);
  match role_catalog auth with
  | None => Ok tt
  | Some catalog =>
      ensure (is_some_and effective_role (fun role =>
                allows_table_operation catalog role (key_schema target) (key_table target) TableSelect))
        (DeniedSelect target)
  end.
Definition authorize_read (auth : AuthConfig) (session_user effective_role : option str)
    (statement : Statement) : result Denial unit :=
  if is_restricted (read_policy auth) || negb (is_none (role_catalog auth)) then
    let targets := read_targets statement in
    if sensitive_metadata targets
       || (maintained_information_schema targets && is_none (role_catalog auth))
    then Err DeniedMetadata
    else try_fold (fun _ target => authorize_table_read auth session_user effective_role target)
           (read_tables targets) tt
  else Ok tt.

(** [authorize_statement], with the denial counters it updates. *)
Definition authorize_statement (auth : AuthConfig) (session_user effective_role : option str)
    (statement : Statement) (k : Counters) : Counters * result Denial unit :=
  let effective_role := or_else effective_role session_user in
  match authorize_write auth session_user effective_role statement with
  | Err e => (record_denial true k, Err e)
  | Ok _ =>
      match authorize_read auth session_user effective_role statement with
      | Err e => (record_denial false k, Err e)
      | Ok _ => (k, Ok tt)
      end
  end.

(** [authorize_copy_target] *)
Definition authorize_copy_target (auth : AuthConfig) (session_user effective_role : option str)
    (schema table : str) (k : Counters) : Counters * result Denial unit :=
  let outer_allowed := allows_write auth session_user (Some (schema, table)) in
  let role_allowed := is_none_or (role_catalog auth) (fun catalog =>
    is_some_and (or_else effective_role session_user) (fun role =>
      allows_table_operation catalog role schema table TableInsert)) in
  if outer_allowed && role_allowed then (k, Ok tt)
  else (record_denial true k,
        if outer_allowed then Err (DeniedCopyPrivilege schema table)
        else match role_for_user auth session_user with
             | ReadOnly => Err DeniedCopyReadOnly
             | ReadWrite => Err (DeniedCopyAllowlist schema table)
             end).

(** ** Specification: where a query mentions a relation

    [T name ctes] and [F name] say which table and function names count; [ctes]
    are the common table expressions in scope at the name. *)
Definition expression_query (e : Expr) : option Query :=
  match e with InSubquery q | Exists q | Subquery q => Some q | ExprOther => None end.
Definition cte_names (with_ctes : list (str * Query)) : gset str :=
  list_to_set (map (fun cte => to_ascii_lowercase (fst cte)) with_ctes).

Section occurs.
Context (T : ObjectName -> gset str -> Prop) (F : ObjectName -> Prop).

Inductive query_occurs : Query -> Prop :=
  | occurs_cte with_ctes visited body alias q :
      (alias, q) ∈ with_ctes -> query_occurs q -> query_occurs (mkQuery with_ctes visited body)
  | occurs_expression with_ctes visited body e q :
      e ∈ visited -> expression_query e = Some q -> query_occurs q ->
      query_occurs (mkQuery with_ctes visited body)
  | occurs_body with_ctes visited body :
      set_occurs body (cte_names with_ctes) -> query_occurs (mkQuery with_ctes visited body)
with set_occurs : SetExpr -> gset str -> Prop :=
  | occurs_select from table ctes :
      table ∈ from -> joined_occurs table ctes -> set_occurs (SetSelect from) ctes
  | occurs_set_query q ctes : query_occurs q -> set_occurs (SetQuery q) ctes
  | occurs_left l r ctes : set_occurs l ctes -> set_occurs (SetOperation l r) ctes
  | occurs_right l r ctes : set_occurs r ctes -> set_occurs (SetOperation l r) ctes
with joined_occurs : TableWithJoins -> gset str -> Prop :=
  | occurs_relation f joins ctes :
      factor_occurs f ctes -> joined_occurs (mkTableWithJoins f joins) ctes
  | occurs_join f joins j ctes :
      j ∈ joins -> factor_occurs j ctes -> joined_occurs (mkTableWithJoins f joins) ctes
with factor_occurs : TableFactor -> gset str -> Prop :=
  | occurs_table name ctes : T name ctes -> factor_occurs (FactorTable name) ctes
  | occurs_function name ctes : F name -> factor_occurs (FactorFunction name) ctes
  | occurs_derived q ctes : query_occurs q -> factor_occurs (FactorDerived q) ctes
  | occurs_nested t ctes : joined_occurs t ctes -> factor_occurs (FactorNestedJoin t) ctes
  | occurs_pivot f ctes : factor_occurs f ctes -> factor_occurs (FactorPivot f) ctes
  | occurs_unpivot f ctes : factor_occurs f ctes -> factor_occurs (FactorUnpivot f) ctes
  | occurs_match f ctes : factor_occurs f ctes -> factor_occurs (FactorMatchRecognize f) ctes.
End occurs.

(** A name that denotes the table [k] of the served schema. *)
Definition user_table (k : TableKey) (name : ObjectName) (ctes : gset str) : Prop :=
  is_cte_name name ctes = false /\ sensitive_metadata_name name = false /\
  unqualified_pg_catalog_name name = false /\ table_name_parts name = Some (key_pair k).

Definition query_reads (q : Query) (k : TableKey) : Prop :=
  query_occurs (user_table k) (fun _ => False) q.

(** A name of an unfiltered metadata relation. *)
Definition sensitive_name (name : ObjectName) (ctes : gset str) : Prop :=
  is_cte_name name ctes = false /\
  ((name_schema name = lit "information_schema" /\ maintained_information_schema_name name = false) \/
   (name_schema name <> lit "information_schema" /\ sensitive_metadata_name name = true)).

Definition query_reads_sensitive (q : Query) : Prop :=
  query_occurs sensitive_name (fun name => sensitive_metadata_name name = true) q.

(** A name of one of the [information_schema] relations that are filtered by role. *)
Definition information_schema_name (name : ObjectName) (ctes : gset str) : Prop :=
  is_cte_name name ctes = false /\ name_schema name = lit "information_schema" /\
  maintained_information_schema_name name = true.

Definition query_reads_information_schema (q : Query) : Prop :=
  query_occurs information_schema_name (fun _ => False) q.

(** The query whose tables a statement reads as the policy sees it *)
Definition read_query (st : Statement) : option Query :=
  match st with StQuery q => Some q | StInsert _ source => source | _ => None end.

(** ** Induction over the syntax *)

Section syntax_ind.
Context (PQ : Query -> Prop) (PE : Expr -> Prop) (PS : SetExpr -> Prop)
  (PJ : TableWithJoins -> Prop) (PF : TableFactor -> Prop).
Hypotheses
  (HQ : forall w v b, Forall (fun cte => PQ (snd cte)) w -> Forall PE v -> PS b -> PQ (mkQuery w v b))
  (HE1 : forall q, PQ q -> PE (InSubquery q)) (HE2 : forall q, PQ q -> PE (Exists q))
  (HE3 : forall q, PQ q -> PE (Subquery q)) (HE4 : PE ExprOther)
  (HS1 : forall from, Forall PJ from -> PS (SetSelect from)) (HS2 : forall q, PQ q -> PS (SetQuery q))
  (HS3 : forall l r, PS l -> PS r -> PS (SetOperation l r)) (HS4 : forall k t, PS (SetDml k t))
  (HS5 : PS SetOther)
  (HJ : forall f joins, PF f -> Forall PF joins -> PJ (mkTableWithJoins f joins))
  (HF1 : forall n, PF (FactorTable n)) (HF2 : forall n, PF (FactorFunction n))
  (HF3 : forall q, PQ q -> PF (FactorDerived q)) (HF4 : forall t, PJ t -> PF (FactorNestedJoin t))
  (HF5 : forall f, PF f -> PF (FactorPivot f)) (HF6 : forall f, PF f -> PF (FactorUnpivot f))
  (HF7 : forall f, PF f -> PF (FactorMatchRecognize f)) (HF8 : PF FactorOther).

Fixpoint query_syntax_ind (q : Query) : PQ q :=
  match q with
  | mkQuery w v b =>
      HQ w v b
        ((fix go l := match l return Forall (fun cte => PQ (snd cte)) l with
                      | [] => Forall_nil_2 _
                      | cte :: l => Forall_cons_2 _ _ _ (query_syntax_ind (snd cte)) (go l)
                      end) w)
        ((fix go l := match l return Forall PE l with
                      | [] => Forall_nil_2 _
                      | e :: l => Forall_cons_2 _ _ _ (expr_syntax_ind e) (go l)
                      end) v)
        (set_syntax_ind b)
  end
with expr_syntax_ind (e : Expr) : PE e :=
  match e with
  | InSubquery q => HE1 q (query_syntax_ind q)
  | Exists q => HE2 q (query_syntax_ind q)
  | Subquery q => HE3 q (query_syntax_ind q)
  | ExprOther => HE4
  end
with set_syntax_ind (s : SetExpr) : PS s :=
  match s with
  | SetSelect from =>
      HS1 from ((fix go l := match l return Forall PJ l with
                             | [] => Forall_nil_2 _
                             | t :: l => Forall_cons_2 _ _ _ (joined_syntax_ind t) (go l)
                             end) from)
  | SetQuery q => HS2 q (query_syntax_ind q)
  | SetOperation l r => HS3 l r (set_syntax_ind l) (set_syntax_ind r)
  | SetDml k t => HS4 k t
  | SetOther => HS5
  end
with joined_syntax_ind (t : TableWithJoins) : PJ t :=
  match t with
  | mkTableWithJoins f joins =>
      HJ f joins (factor_syntax_ind f)
        ((fix go l := match l return Forall PF l with
                      | [] => Forall_nil_2 _
                      | j :: l => Forall_cons_2 _ _ _ (factor_syntax_ind j) (go l)
                      end) joins)
  end
with factor_syntax_ind (f : TableFactor) : PF f :=
  match f with
  | FactorTable n => HF1 n
  | FactorFunction n => HF2 n
  | FactorDerived q => HF3 q (query_syntax_ind q)
  | FactorNestedJoin t => HF4 t (joined_syntax_ind t)
  | FactorPivot f => HF5 f (factor_syntax_ind f)
  | FactorUnpivot f => HF6 f (factor_syntax_ind f)
  | FactorMatchRecognize f => HF7 f (factor_syntax_ind f)
  | FactorOther => HF8
  end.
End syntax_ind.

(** ** The collectors find exactly the occurrences *)

Lemma foldl_obs (obs : ReadTargets -> Prop) {X} (f : ReadTargets -> X -> ReadTargets)
    (P : X -> Prop) l t :
  Forall (fun x => forall t, obs (f t x) <-> obs t \/ P x) l ->
  obs (foldl f t l) <-> obs t \/ exists x, x ∈ l /\ P x.
Proof.
  intros Hall. revert t. induction Hall as [|x l Hx _ IH]; intros t; simpl.
  - split; [by left|]. intros [?|(x & ?%not_elem_of_nil & _)]; done.
  - rewrite IH, Hx. setoid_rewrite elem_of_cons. naive_solver.
Qed.

(** A syntax node with one way, or no way, to contain an occurrence. *)
Ltac one_occurrence :=
  split; (intros [?|Hocc]; [by left | right]); [by constructor | by inversion Hocc].
Ltac no_occurrence := split; [by left | intros [?|Hocc]; [done | by inversion Hocc]].

Section collect_spec.
Context (obs : ReadTargets -> Prop) (T : ObjectName -> gset str -> Prop) (F : ObjectName -> Prop).
Hypothesis name_spec : forall n ctes t, obs (collect_name_target n ctes t) <-> obs t \/ T n ctes.
Hypothesis function_spec : forall n ctes t,
  obs (collect_table_targets (FactorFunction n) ctes t) <-> obs t \/ F n.

Lemma collect_query_spec q t : obs (collect_query_targets q t) <-> obs t \/ query_occurs T F q.
Proof using name_spec function_spec.
  revert t. revert q. apply (query_syntax_ind
    (fun q => forall t, obs (collect_query_targets q t) <-> obs t \/ query_occurs T F q)
    (fun e => forall t, obs (collect_expression_targets e t) <->
       obs t \/ exists q, expression_query e = Some q /\ query_occurs T F q)
    (fun s => forall ctes t, obs (collect_set_targets s ctes t) <-> obs t \/ set_occurs T F s ctes)
    (fun j => forall ctes t, obs (collect_joined_targets j ctes t) <-> obs t \/ joined_occurs T F j ctes)
    (fun f => forall ctes t, obs (collect_table_targets f ctes t) <-> obs t \/ factor_occurs T F f ctes)).
  - intros w v b Hw Hv Hb t. cbn [collect_query_targets].
    rewrite Hb, (foldl_obs obs _ (fun e => exists q, expression_query e = Some q /\ query_occurs T F q)) by done.
    rewrite (foldl_obs obs _ (fun cte => query_occurs T F (snd cte))).
    2:{ eapply Forall_impl; [exact Hw|]. by intros []. }
    split.
    + intros [[[?|([a q] & ? & ?)]|(e & ? & q & ? & ?)]|?]; [by left|right..];
        [by eapply occurs_cte | by eapply occurs_expression | by apply occurs_body].
    + intros [?|Ho]; [auto|]. inversion Ho; subst; [left; left; right; by eexists (_, _) | | auto].
      left; right. eauto.
  - intros q IH t. simpl. rewrite IH. naive_solver.
  - intros q IH t. simpl. rewrite IH. naive_solver.
  - intros q IH t. simpl. rewrite IH. naive_solver.
  - intros t. simpl. naive_solver.
  - intros from Hfrom ctes t. simpl.
    rewrite (foldl_obs obs _ (fun j => joined_occurs T F j ctes)).
    2:{ eapply Forall_impl; [exact Hfrom|]. auto. }
    split; (intros [?|H]; [by left | right]).
    + destruct H as (j & ? & ?). by eapply occurs_select.
    + inversion H; subst. eauto.
  - intros q IH ctes t. simpl. rewrite IH. one_occurrence.
  - intros l r IHl IHr ctes t. simpl. rewrite IHr, IHl. split.
    + intros [[?|?]|?]; [by left | right; by apply occurs_left | right; by apply occurs_right].
    + intros [?|H]; [auto|]. inversion H; subst; auto.
  - intros k n ctes t. simpl. no_occurrence.
  - intros ctes t. simpl. no_occurrence.
  - intros f joins IHf IHj ctes t. simpl. rewrite (foldl_obs obs _ (fun f => factor_occurs T F f ctes)).
    2:{ eapply Forall_impl; [exact IHj|]. auto. }
    rewrite IHf. split.
    + intros [[?|?]|(j & ? & ?)]; [by left | right; by apply occurs_relation | right; by eapply occurs_join].
    + intros [?|H]; [auto|]. inversion H; subst; eauto.
  - intros n ctes t. simpl. rewrite name_spec. one_occurrence.
  - intros n ctes t. rewrite function_spec. one_occurrence.
  - intros q IH ctes t. simpl. rewrite IH. one_occurrence.
  - intros q IH ctes t. simpl. rewrite IH. one_occurrence.
  - intros q IH ctes t. simpl. rewrite IH. one_occurrence.
  - intros q IH ctes t. simpl. rewrite IH. one_occurrence.
  - intros q IH ctes t. simpl. rewrite IH. one_occurrence.
  - intros ctes t. simpl. no_occurrence.
Qed.
End collect_spec.

(** ** Names *)

Lemma name_schema_served name parts :
  table_name_parts name = Some parts ->
  name_schema name = [] \/ name_schema name = lit "public" \/ name_schema name = lit "main".
Proof.
  unfold table_name_parts, name_schema, is_public_schema.
  assert (forall s, eq_ignore_ascii_case s (lit "public") || eq_ignore_ascii_case s (lit "main") = true ->
            to_ascii_lowercase s = lit "public" \/ to_ascii_lowercase s = lit "main") as Hlow.
  { intros s H. bool_prop. by destruct H as [H|H]; apply eq_ignore_ascii_case_true in H; [left|right]. }
  destruct name as [|p1 [|p2 [|p3 [|]]]]; simpl; try done; [by left| |];
    destruct (_ && _) eqn:Hc || destruct (_ || _) eqn:Hc; try done; intros _; right; apply Hlow;
    [exact Hc | by apply andb_true_iff in Hc as [_ Hc]].
Qed.

Lemma collect_name_tables k n ctes t :
  k ∈ read_tables (collect_name_target n ctes t) <-> k ∈ read_tables t \/ user_table k n ctes.
Proof.
  unfold collect_name_target, user_table. pose proof (name_schema_served n) as Hs.
  destruct (is_cte_name n ctes); [naive_solver|].
  destruct (table_name_parts n) as [[schema table]|]; [|by repeat case_match; naive_solver].
  rewrite !(bool_decide_eq_false_2 _) by (destruct (Hs _ eq_refl) as [ -> | [ -> | -> ] ]; naive_solver).
  simpl. destruct (sensitive_metadata_name n), (unqualified_pg_catalog_name n); simpl; try naive_solver.
  rewrite elem_of_app, list_elem_of_singleton. destruct k as [s' t']. unfold key_pair; simpl.
  naive_solver.
Qed.

Lemma collect_name_sensitive n ctes t :
  sensitive_metadata (collect_name_target n ctes t) = true <->
  sensitive_metadata t = true \/ sensitive_name n ctes.
Proof.
  unfold collect_name_target, sensitive_name.
  destruct (is_cte_name n ctes); [naive_solver|].
  destruct (decide (name_schema n = lit "information_schema")) as [Hi|Hi].
  - rewrite (bool_decide_eq_true_2 _ Hi). destruct (maintained_information_schema_name n); simpl; naive_solver.
  - rewrite (bool_decide_eq_false_2 _ Hi). simpl.
    destruct (sensitive_metadata_name n); simpl; [naive_solver|].
    destruct (negb _ && negb _); [|naive_solver]. destruct (table_name_parts n) as [[]|]; naive_solver.
Qed.

Lemma collect_name_maintained n ctes t :
  maintained_information_schema (collect_name_target n ctes t) = true <->
  maintained_information_schema t = true \/ information_schema_name n ctes.
Proof.
  unfold collect_name_target, information_schema_name.
  destruct (is_cte_name n ctes); [naive_solver|].
  destruct (decide (name_schema n = lit "information_schema")) as [Hi|Hi].
  - rewrite (bool_decide_eq_true_2 _ Hi). destruct (maintained_information_schema_name n); simpl; naive_solver.
  - rewrite (bool_decide_eq_false_2 _ Hi). simpl.
    destruct (sensitive_metadata_name n); simpl; [naive_solver|].
    destruct (negb _ && negb _); [|naive_solver]. destruct (table_name_parts n) as [[]|]; naive_solver.
Qed.

Lemma query_tables_spec q k :
  k ∈ read_tables (collect_query_targets q no_targets) <-> query_reads q k.
Proof.
  rewrite (collect_query_spec (fun t => k ∈ read_tables t) (user_table k) (fun _ => False)).
  - simpl. rewrite elem_of_nil. unfold query_reads. tauto.
  - intros. apply collect_name_tables.
  - intros n ctes t. simpl. destruct (sensitive_metadata_name n); simpl; tauto.
Qed.

Lemma query_sensitive_spec q :
  sensitive_metadata (collect_query_targets q no_targets) = true <-> query_reads_sensitive q.
Proof.
  rewrite (collect_query_spec (fun t => sensitive_metadata t = true) sensitive_name
             (fun name => sensitive_metadata_name name = true)).
  - simpl. unfold query_reads_sensitive. naive_solver.
  - intros. apply collect_name_sensitive.
  - intros n ctes t. simpl. destruct (sensitive_metadata_name n); simpl; naive_solver.
Qed.

Lemma query_maintained_spec q :
  maintained_information_schema (collect_query_targets q no_targets) = true <->
  query_reads_information_schema q.
Proof.
  rewrite (collect_query_spec (fun t => maintained_information_schema t = true)
             information_schema_name (fun _ => False)).
  - simpl. unfold query_reads_information_schema. naive_solver.
  - intros. apply collect_name_maintained.
  - intros n ctes t. simpl. destruct (sensitive_metadata_name n); simpl; tauto.
Qed.

(** The tables of a statement are those of the query it is, or inserts from. *)
Lemma read_targets_tables st k :
  k ∈ read_tables (read_targets st) <-> exists q, read_query st = Some q /\ query_reads q k.
Proof.
  assert (forall t, k ∈ dedup (sort_by table_key_compare (read_tables t)) <-> k ∈ read_tables t) as Hd
    by (intros; by rewrite dedup_elem, sort_by_perm).
  destruct st; unfold read_targets; cbn [read_tables read_query]; rewrite Hd; try (split; [by intros ?%not_elem_of_nil|naive_solver]).
  - rewrite query_tables_spec. naive_solver.
  - case_match; [rewrite query_tables_spec|]; split; try naive_solver. by intros ?%not_elem_of_nil.
Qed.
Lemma read_targets_metadata st :
  (sensitive_metadata (read_targets st) = true <-> exists q, read_query st = Some q /\ query_reads_sensitive q) /\
  (maintained_information_schema (read_targets st) = true <->
     exists q, read_query st = Some q /\ query_reads_information_schema q).
Proof.
  destruct st; unfold read_targets; cbn; try naive_solver.
  - setoid_rewrite query_sensitive_spec. setoid_rewrite query_maintained_spec. naive_solver.
  - case_match; [setoid_rewrite query_sensitive_spec; setoid_rewrite query_maintained_spec|]; naive_solver.
Qed.

(** ** Authorization *)

Lemma authorize_statement_ok auth su er st k k' :
  authorize_statement auth su er st k = (k', Ok tt) <->
  k' = k /\ authorize_write auth su (or_else er su) st = Ok tt /\
  authorize_read auth su (or_else er su) st = Ok tt.
Proof.
  unfold authorize_statement.
  destruct (authorize_write _ _ _ _) as [[]|]; [|naive_solver].
  destruct (authorize_read _ _ _ _) as [[]|]; naive_solver.
Qed.

(** ** Properties *)

Definition sample_name (s : string) : ObjectName := [Identifier (lit s) (lit s)].
Definition sample_select (s : string) : Query :=
  mkQuery [] [] (SetSelect [mkTableWithJoins (FactorTable (sample_name s)) []]).
Definition sample_counters : Counters := mkCounters 0 0.

(** A COPY target is authorized exactly when the login identity may write it
    and, with a role catalog, the effective role may insert into it. *)
Theorem copy_authorized_iff auth su er schema table k :
  authorize_copy_target auth su er schema table k = (k, Ok tt) <->
  allows_write auth su (Some (schema, table)) = true /\
  forall catalog, role_catalog auth = Some catalog -> exists role, or_else er su = Some role /\
    allows_table_operation catalog role schema table TableInsert = true.
Proof.
  unfold authorize_copy_target. destruct (allows_write _ _ _); simpl.
  - destruct (role_catalog auth) as [c|]; simpl; [|naive_solver].
    destruct (or_else er su) as [r|]; simpl; [|naive_solver].
    destruct (allows_table_operation c r schema table TableInsert) eqn:?; (split; [try done|]).
    + intros _. split; [done|]. intros ? [= <-]. eauto.
    + done.
    + intros [_ H]. destruct (H c eq_refl) as (? & [= <-] & ?). congruence.
  - destruct (role_for_user auth su); naive_solver.
Qed.

(** Every refused statement or COPY advances exactly one of the two denial
    counters by one, and an authorized one leaves both. *)
Theorem denials_counted auth su er st schema table k :
  (let '(k', r) := authorize_statement auth su er st k in
   match r with
   | Ok _ => k' = k
   | Err _ => k' = record_denial true k \/ k' = record_denial false k
   end) /\
  (let '(k', r) := authorize_copy_target auth su er schema table k in
   match r with Ok _ => k' = k | Err _ => k' = record_denial true k end).
Proof.
  split.
  - unfold authorize_statement. destruct (authorize_write _ _ _ _); [|by left].
    destruct (authorize_read _ _ _ _); [done | by right].
  - unfold authorize_copy_target. destruct (_ && _); [done|].
    destruct (allows_write _ _ _); [done|]. by destruct (role_for_user auth su).
Qed.

(** Three statements that no configuration refuses.  A data-modifying statement
    that is the body of a query ([WITH ... DELETE], [WITH ... INSERT],
    [WITH ... UPDATE]) passes also for a read-only identity and without any grant: the
    read-only list accepts all queries, and the collector skips such bodies.  The
    subqueries of an UPDATE are never checked against the read policy and SELECT
    grants, and a query on a table path outside the served schema is skipped instead
    of being refused. *)
Theorem policy_gaps auth su er kind table updated visited k :
  authorize_statement auth su er (StQuery (mkQuery [] [] (SetDml kind table))) k = (k, Ok tt) /\
  authorize_read auth su er (StUpdate updated visited) = Ok tt /\
  authorize_statement auth su er
    (StQuery (mkQuery [] [] (SetSelect [mkTableWithJoins (FactorTable
       [Identifier (lit "other") (lit "other"); Identifier (lit "secret") (lit "secret")]) []])))
    k = (k, Ok tt).
Proof.
  split_and!.
  - apply authorize_statement_ok. split_and!; [done | done |].
    unfold authorize_read. destruct (_ || _); [|done]. simpl. done.
  - unfold authorize_read. destruct (_ || _); [|done]. simpl. done.
  - apply authorize_statement_ok. split_and!; [done | done |].
    unfold authorize_read. destruct (_ || _); [|done]. vm_compute. done.
Qed.
