(* ===== verification/PolicyOutcomes.v ===== *)
(** * Who may read and write ([quackgis-server/src/statement_policy.rs])

    What [authorize_statement] answers, against a specification that shares none of
    its decisions: which user the mode accepts, which allowlist applies and what it
    lists, which role holds which right (by the relations of [RoleCatalog]), which
    statements change data, and which table each of them writes. *)

From S2P Require Import Prelude Reachability RoleCatalog RoleSession Auth StatementPolicy.

(** ** Users and allowlists *)

(** No list, or a list with the table in it. *)
Inductive listed : TablePolicy -> str * str -> Prop :=
  | listed_all key : listed PolicyAll key
  | listed_only targets t schema table :
      t ∈ targets -> ascii_ci (target_schema t) schema -> ascii_ci (target_table t) table ->
      listed (PolicyOnly targets) (schema, table).

Definition login_role (auth : AuthConfig) (name : str) : Prop :=
  exists c r, role_catalog auth = Some c /\ role c name = Some r /\ role_login r = true.

(** [writer auth user policy]: the user may write what the policy lists. *)
Inductive writer (auth : AuthConfig) : option str -> TablePolicy -> Prop :=
  | writer_trusted user : mode auth = Trust -> writer auth user (trust_write_policy auth)
  | writer_configured name u :
      mode auth = Password -> users auth !! name = Some u -> user_role u = ReadWrite ->
      writer auth (Some name) (write_policy u)
  | writer_preauthenticated name :
      mode auth = EdgePreauthenticated -> login_role auth name ->
      writer auth (Some name) (trust_write_policy auth).

Inductive reader (auth : AuthConfig) : option str -> Prop :=
  | reader_trusted user : mode auth = Trust -> reader auth user
  | reader_configured name :
      mode auth = Password -> is_Some (users auth !! name) -> reader auth (Some name)
  | reader_preauthenticated name :
      mode auth = EdgePreauthenticated -> login_role auth name -> reader auth (Some name).

Lemma policy_allows_listed policy key : policy_allows policy (Some key) = true <-> listed policy key.
Proof.
  destruct key as [schema table], policy as [|targets]; simpl; [split; [constructor|done]|].
  rewrite existsb_elem. setoid_rewrite andb_true_iff. setoid_rewrite eq_ignore_ascii_case_true.
  split; [intros (t & ? & ? & ?); by econstructor|]. intros H. inversion H; subst. eauto.
Qed.
Lemma policy_allows_target policy target :
  policy_allows policy target = true <->
  policy = PolicyAll \/ exists key, target = Some key /\ listed policy key.
Proof.
  destruct target as [key|]; [rewrite policy_allows_listed|].
  - split; [eauto|]. intros [->|(? & [= <-] & ?)]; [constructor|done].
  - destruct policy; simpl; split; auto; [done|]. by intros [?|(? & ? & _)].
Qed.
Lemma preauthenticated_login auth name : mode auth = EdgePreauthenticated ->
  allows_preauthenticated_login auth name = true <-> login_role auth name.
Proof.
  intros Hm. unfold allows_preauthenticated_login, login_role. rewrite Hm. simpl.
  destruct (role_catalog auth) as [c|]; simpl; [|split; [done|]; by intros (? & ? & ? & _)].
  destruct (role c name) as [r|] eqn:Hr.
  - split; [eauto 10|]. intros (? & ? & [= <-] & ? & ?). congruence.
  - split; [done|]. intros (? & ? & [= <-] & ? & _). congruence.
Qed.
Lemma allows_write_iff auth user target :
  allows_write auth user target = true <->
  exists policy, writer auth user policy /\ policy_allows policy target = true.
Proof.
  unfold allows_write. destruct (mode auth) eqn:Hm.
  - split; [eauto using writer_trusted|]. intros (p & H & ?). inversion H; congruence.
  - destruct user as [name|]; simpl; [|split; [done|]; intros (p & H & ?); inversion H; congruence].
    destruct (users auth !! name) as [u|] eqn:Hu; simpl.
    + rewrite andb_true_iff, bool_decide_eq_true. split; [intros []; eauto using writer_configured|].
      intros (p & H & ?). inversion H; simplify_eq; [congruence|by split|congruence].
    + split; [done|]. intros (p & H & ?). inversion H; congruence.
  - destruct user as [name|]; simpl; [|split; [done|]; intros (p & H & ?); inversion H; congruence].
    rewrite andb_true_iff, preauthenticated_login by done. split.
    + intros []. eauto using writer_preauthenticated.
    + intros (p & H & ?). inversion H; simplify_eq; [congruence|congruence|by split].
Qed.
Lemma allows_read_iff auth user key :
  allows_read auth user key = true <-> reader auth user /\ listed (read_policy auth) key.
Proof.
  unfold allows_read. rewrite andb_true_iff, policy_allows_listed. apply and_iff_compat_r.
  destruct (mode auth) eqn:Hm.
  - split; [by constructor|done].
  - unfold is_some_and, contains_user. destruct user as [name|]; [rewrite bool_decide_eq_true|]; split; intros H; try done.
    + by constructor 2.
    + inversion H; congruence.
    + inversion H; congruence.
  - unfold is_some_and. destruct user as [name|]; [rewrite preauthenticated_login by done|]; split; intros H; try done.
    + by constructor 3.
    + inversion H; congruence.
    + inversion H; congruence.
Qed.

(** ** Roles *)

(** USAGE of the schema, granted to PUBLIC or to a role that this one inherits *)
Inductive schema_usable (c : RoleCatalog) (r schema : str) : Prop :=
  | usable_by_public g :
      g ∈ schema_grants c -> ascii_ci (schema_grant_schema g) schema ->
      SchemaUsage ∈ schema_grant_privileges g -> schema_grant_role g = None ->
      public_name r \/ known c r -> schema_usable c r schema
  | usable_by_grant g n :
      g ∈ schema_grants c -> ascii_ci (schema_grant_schema g) schema ->
      SchemaUsage ∈ schema_grant_privileges g -> schema_grant_role g = Some n ->
      ~ public_name r -> inherits c r n -> schema_usable c r schema.
Definition role_may (c : RoleCatalog) (r : str) (key : TableKey) (p : TablePrivilege) : Prop :=
  schema_usable c r (key_schema key) /\ table_authorized c r (key_schema key) (key_table key) p.
(** The configured owner of a table, or a role that inherits it, creates, comments and drops it. *)
Definition role_owns (c : RoleCatalog) (r : str) (key : TableKey) : Prop :=
  schema_usable c r (key_schema key) /\
  exists o, o ∈ table_owners c /\ ascii_ci (owner_schema o) (key_schema key) /\
    ascii_ci (owner_table o) (key_table key) /\ inherits c r (owner_role o).

Lemma schema_usable_iff c r schema :
  has_schema_privilege c r schema SchemaUsage = true <-> schema_usable c r schema.
Proof.
  rewrite has_schema_privilege_spec. split.
  - intros (Hk & g & ? & ? & ? & [?|(n & ? & ? & ?)]); [by eapply usable_by_public|by eapply usable_by_grant].
  - intros [g|g n]; (split; [eauto using inherits_known|]); exists g; eauto 10.
Qed.
Lemma role_may_iff c r key p :
  allows_table_operation c r (key_schema key) (key_table key) p = true <-> role_may c r key p.
Proof.
  unfold allows_table_operation, role_may. by rewrite andb_true_iff, schema_usable_iff, has_table_privilege_authorized.
Qed.
Lemma role_owns_iff c r key :
  can_create_configured_table c r (key_schema key) (key_table key) = true <-> role_owns c r key.
Proof. unfold can_create_configured_table, role_owns. by rewrite andb_true_iff, schema_usable_iff, owns_table_spec. Qed.

(** ** What a query reads *)

(** Read permission on one table *)
Definition read_permitted (auth : AuthConfig) (session_user effective_role : option str)
    (key : TableKey) : Prop :=
  (is_restricted (read_policy auth) = true ->
     reader auth session_user /\ listed (read_policy auth) (key_pair key)) /\
  (forall catalog, role_catalog auth = Some catalog ->
     exists role, effective_role = Some role /\ role_may catalog role key TableSelect).

(** Permission for everything a query reads: no relation of the catalogs that is not filtered
    by role, no filtered one either when there are no roles, and only permitted tables *)
Definition query_permitted (auth : AuthConfig) (session_user effective_role : option str)
    (q : Query) : Prop :=
  ~ query_reads_sensitive q /\
  (role_catalog auth = None -> ~ query_reads_information_schema q) /\
  forall key, query_reads q key -> read_permitted auth session_user effective_role key.

Definition reads_checked (auth : AuthConfig) : Prop :=
  is_restricted (read_policy auth) = true \/ is_Some (role_catalog auth).

Lemma authorize_table_read_ok auth su er key :
  authorize_table_read auth su er key = Ok tt <-> read_permitted auth su er key.
Proof.
  unfold authorize_table_read, read_permitted. rewrite <- allows_read_iff. setoid_rewrite <- role_may_iff.
  destruct (is_restricted _), (allows_read _ _ _); simpl;
    (destruct (role_catalog auth) as [c|]; [rewrite ?ensure_ok|]); unfold is_some_and;
    destruct er; naive_solver.
Qed.

Lemma authorize_read_ok auth su er st :
  authorize_read auth su er st = Ok tt <->
  (reads_checked auth -> forall q, read_query st = Some q -> query_permitted auth su er q).
Proof.
  unfold authorize_read, reads_checked, query_permitted.
  destruct (is_restricted (read_policy auth) || negb (is_none (role_catalog auth))) eqn:Hc.
  2:{ apply orb_false_iff in Hc as [H1 H2%negb_false_iff]. split; [|done]. intros _ [?|[c Hr]]; [congruence|by rewrite Hr in H2]. }
  assert (is_restricted (read_policy auth) = true \/ is_Some (role_catalog auth)) as Hr.
  { apply orb_true_iff in Hc as [?|?%negb_true_iff%is_none_false]; auto. }
  destruct (read_targets_metadata st) as [Hs Hm].
  cbv zeta. destruct (sensitive_metadata (read_targets st)) eqn:Hst; cbn [orb].
  { split; [done|]. destruct (proj1 Hs eq_refl) as (q & Hq & Hq'). intros Hp. by destruct (Hp Hr q Hq). }
  destruct (maintained_information_schema (read_targets st) && is_none (role_catalog auth)) eqn:Hmt.
  { apply andb_true_iff in Hmt as [Hmt Hn]. destruct (proj1 Hm Hmt) as (q & Hq & Hq'). split; [done|]. intros Hp.
    destruct (Hp Hr q Hq) as (_ & Hi & _). destruct Hi; [|done]. by destruct (role_catalog auth). }
  rewrite try_fold_unit, Forall_forall. setoid_rewrite read_targets_tables. setoid_rewrite authorize_table_read_ok.
  split.
  - intros Ht _ q Hq. split_and!; [|intros Hn|eauto].
    + intros Hq'. pose proof (proj2 Hs (ex_intro _ q (conj Hq Hq'))). congruence.
    + intros Hq'. rewrite Hn, (proj2 Hm (ex_intro _ q (conj Hq Hq'))) in Hmt. done.
  - intros Hp key (q & Hq & Hk). by eapply Hp.
Qed.

(** ** What a statement writes *)

(** The statements that are not reads or session commands, alone or inside another statement; a
    query counts as a read whatever its body. *)
Inductive changes_data : Statement -> Prop :=
  | changes_create name : changes_data (StCreateTable name)
  | changes_comment object name : changes_data (StComment object name)
  | changes_insert table source : changes_data (StInsert table source)
  | changes_delete from using_ tables : changes_data (StDelete from using_ tables)
  | changes_drop object names cascade restrict purge temporary has_table :
      changes_data (StDrop object names cascade restrict purge temporary has_table)
  | changes_update table visited : changes_data (StUpdate table visited)
  | changes_copy : changes_data (StCopy false)
  | changes_fetch into : changes_data (StFetch (Some into))
  | changes_other : changes_data StOther
  | changes_begin statements st :
      st ∈ statements -> changes_data st -> changes_data (StStartTransaction statements)
  | changes_explain st : changes_data st -> changes_data (StExplain st)
  | changes_prepare st : changes_data st -> changes_data (StPrepare st).

(** Induction over statements, with the statements that others hold *)
Lemma statement_nested_ind (P : Statement -> Prop) :
  (forall statements, Forall P statements -> P (StStartTransaction statements)) ->
  (forall st, P st -> P (StExplain st)) -> (forall st, P st -> P (StPrepare st)) ->
  (forall st, (match st with StStartTransaction _ | StExplain _ | StPrepare _ => False | _ => True end) -> P st) ->
  forall st, P st.
Proof.
  intros Hb He Hp Ho. fix IH 1. intros st. destruct st; try (by apply Ho).
  - apply Hb. induction statements; constructor; auto.
  - by apply He.
  - by apply Hp.
Qed.
Lemma changes_data_iff st : statement_allowed_for_readonly st = false <-> changes_data st.
Proof.
  split.
  - induction st as [statements IH|st IH|st IH|st Hst] using statement_nested_ind; cbn.
    + intros H. assert (exists st, st ∈ statements /\ changes_data st) as (st & ? & ?); [|by eapply changes_begin].
      induction IH as [|st statements Hx _ IHs]; [done|]. setoid_rewrite elem_of_cons.
      apply andb_false_iff in H as [?%Hx|(? & ? & ?)%IHs]; eauto.
    + intros ?%IH. by constructor.
    + intros ?%IH. by constructor.
    + destruct st as [ | | | | | | | | | | | | | | |[into|]|[|]| | | | | | |]; try done; intros _; constructor.
  - induction 1 as [| | | | | | | | |statements st Hin _ IH| |]; try done. cbn.
    apply not_true_iff_false. intros Hall. rewrite forallb_forall in Hall.
    specialize (Hall st (proj1 (list_elem_of_In _ _) Hin)). congruence.
Qed.

(** The names of a table of the served schema: its name alone, in the schema public or main, or in
    that schema of the catalog quackgis *)
Definition served_schema (p : ObjectNamePart) : Prop :=
  ascii_ci (part_text p) (lit "public") \/ ascii_ci (part_text p) (lit "main").
Inductive names_table : ObjectName -> str -> Prop :=
  | names_alone t : names_table [t] (part_text t)
  | names_in_schema s t : served_schema s -> names_table [s; t] (part_text t)
  | names_in_catalog c s t :
      ascii_ci (part_text c) (lit "quackgis") -> served_schema s -> names_table [c; s; t] (part_text t).

Lemma names_table_iff name parts :
  table_name_parts name = Some parts <-> exists t, names_table name t /\ parts = (lit "main", t).
Proof.
  assert (forall p, is_public_schema (part_text p) = true <-> served_schema p) as Hp.
  { intros p. unfold is_public_schema, served_schema. by rewrite orb_true_iff, !eq_ignore_ascii_case_true. }
  assert (forall p, eq_ignore_ascii_case (part_text p) (lit "quackgis") = true <-> ascii_ci (part_text p) (lit "quackgis")) as Hq
    by (intros; apply eq_ignore_ascii_case_true).
  unfold table_name_parts. destruct name as [|a [|b [|c [|d name]]]]; cbn [map].
  - split; [done|]. intros (? & H & _). inversion H.
  - split; [intros [= <-]; eauto using names_alone|]. intros (t & Ht & ->). by inversion Ht.
  - destruct (is_public_schema (part_text a)) eqn:Ha.
    + split; [intros [= <-]; eexists; split; [constructor|done]; by apply Hp|]. intros (t & Ht & ->). by inversion Ht.
    + split; [done|]. intros (t & Ht & _). inversion Ht as [|? ? Hs|]; subst. apply Hp in Hs. congruence.
  - destruct (eq_ignore_ascii_case (part_text a) (lit "quackgis") && is_public_schema (part_text b)) eqn:Ha.
    + apply andb_true_iff in Ha as [?%Hq ?%Hp]. split; [intros [= <-]; eexists; split; [by constructor|done]|].
      intros (t & Ht & ->). by inversion Ht.
    + split; [done|]. intros (t & Ht & _). inversion Ht as [| |? ? ? Hc Hs]; subst. apply Hq in Hc. apply Hp in Hs. by rewrite Hc, Hs in Ha.
  - split; [done|]. intros (? & H & _). inversion H.
Qed.

(** [writes st table right]: the statement writes one table of the served schema, and needs this
    right on it. *)
Inductive writes : Statement -> str -> TableWritePrivilege -> Prop :=
  | writes_create name t : names_table name t -> writes (StCreateTable name) t Create
  | writes_comment name t : names_table name t -> writes (StComment CommentTable name) t Create
  | writes_comment_column name column t :
      names_table name t -> writes (StComment CommentColumn (name ++ [column])) t Create
  | writes_drop name t :
      names_table name t -> writes (StDrop ObjectTable [name] false false false false false) t Create
  | writes_insert name source t :
      names_table name t -> writes (StInsert (TableName name) source) t (OnTable TableInsert)
  | writes_update name visited t :
      names_table name t ->
      writes (StUpdate (mkTableWithJoins (FactorTable name) []) visited) t (OnTable TableUpdate)
  | writes_delete name joins t :
      names_table name t ->
      writes (StDelete [mkTableWithJoins (FactorTable name) joins] false []) t (OnTable TableDelete).

Definition served_table (t : str) : TableKey := mkTableKey (lit "main") t.

(** The name of the table a statement writes, with the right it needs *)
Lemma writes_name st t right : writes st t right <->
  exists name, names_table name t /\
    match st with
    | StCreateTable n => n = name /\ right = Create
    | StComment CommentTable n => n = name /\ right = Create
    | StComment CommentColumn n => (exists column, n = name ++ [column]) /\ right = Create
    | StDrop ObjectTable [n] false false false false false => n = name /\ right = Create
    | StInsert (TableName n) _ => n = name /\ right = OnTable TableInsert
    | StUpdate (mkTableWithJoins (FactorTable n) []) _ => n = name /\ right = OnTable TableUpdate
    | StDelete [mkTableWithJoins (FactorTable n) _] false [] => n = name /\ right = OnTable TableDelete
    | _ => False
    end.
Proof.
  split; [intros []; eauto|]. intros (name & Hn & H).
  repeat case_match; try done; destruct H as [H ->]; try subst name; try (by constructor).
  destruct H as [column ->]. by constructor.
Qed.
Lemma names_table_not_empty t : ~ names_table [] t.
Proof. inversion 1. Qed.
(** A column is named by the name of its table and one more part. *)
Lemma comment_column_target name parts : comment_target_parts CommentColumn name = Some parts <->
  exists table column, name = table ++ [column] /\ table_name_parts table = Some parts.
Proof.
  unfold comment_target_parts. destruct name as [|p name _] using rev_ind; [by split; [done|intros ([] & ? & [=] & _)]|].
  rewrite removelast_last, length_app. case_bool_decide as Hl; cbn in Hl.
  - split; [eauto|]. by intros (table & column & [-> _]%app_inj_tail & ?).
  - assert (name = []) as -> by (destruct name; [done|cbn in Hl; lia]).
    split; [done|]. intros ([|? table] & column & He & Ht); [done|]. by apply (f_equal length) in He; rewrite !length_app in He; cbn in He; lia.
Qed.

(** The code's target and right are those. *)
Lemma write_target_writes st key right :
  write_target st = Some key /\ required_write_privilege st = Some right <->
  exists t, writes st t right /\ key = served_table t.
Proof.
  set (named := fun parts : str * str => Some (mkTableKey parts.1 parts.2)).
  assert (Hparts : forall parts, named parts = Some key <-> parts = key_pair key).
  { intros [schema table]. unfold named, key_pair. destruct key. naive_solver. }
  assert (Hyes : forall name r, (table_name_parts name ≫= named) = Some key /\ Some r = Some right <->
    exists t, (exists name', names_table name' t /\ name = name' /\ right = r) /\ key = served_table t).
  { intros name r. rewrite bind_Some. setoid_rewrite Hparts. setoid_rewrite names_table_iff. destruct key as [schema table]. unfold key_pair, served_table. naive_solver. }
  assert (Hno : forall X : Prop, (None ≫= named) = Some key /\ X <->
    exists t, (exists name : ObjectName, names_table name t /\ False) /\ key = served_table t) by (intros; cbn; naive_solver).
  setoid_rewrite writes_name. unfold write_target. fold named.
  destruct st as [| | | | | | | | | | | | | | | | | |[]|[]|[|[[] joins] [|]] [] []|[] [|? []] [] [] [] [] []|[[] []]|]; try apply Hno; try apply Hyes.
  rewrite bind_Some. setoid_rewrite Hparts. setoid_rewrite comment_column_target. setoid_rewrite names_table_iff.
  destruct key as [schema table]. unfold key_pair, served_table. cbn. naive_solver.
Qed.
Lemma write_target_right st key : write_target st = Some key -> is_Some (required_write_privilege st).
Proof. by destruct st. Qed.

(** ** Write permission *)

Definition role_may_write (c : RoleCatalog) (r : str) (key : TableKey) (right : TableWritePrivilege) : Prop :=
  match right with Create => role_owns c r key | OnTable p => role_may c r key p end.

(** The user writes what its policy lists (a statement that writes no one table of the served schema,
    only without a list); with roles, the effective role holds the right the statement needs. *)
Definition write_permitted (auth : AuthConfig) (session_user effective_role : option str)
    (st : Statement) : Prop :=
  (exists policy, writer auth session_user policy /\
     (policy = PolicyAll \/
      exists table right, writes st table right /\ listed policy (key_pair (served_table table)))) /\
  (forall catalog, role_catalog auth = Some catalog ->
     exists role table right, effective_role = Some role /\ writes st table right /\
       role_may_write catalog role (served_table table) right).

Lemma write_target_some st key : write_target st = Some key <->
  exists table right, writes st table right /\ key = served_table table.
Proof.
  split.
  - intros Ht. destruct (write_target_right _ _ Ht) as [right Hr].
    destruct (proj1 (write_target_writes st key right) (conj Ht Hr)) as (t & ? & ?). eauto.
  - intros (t & right & Hw & ->). apply (proj2 (write_target_writes st _ right)). eauto.
Qed.
Lemma writes_unique st t t' right right' : writes st t right -> writes st t' right' -> t = t'.
Proof.
  intros H1 H2. assert (write_target st = Some (served_table t) /\ write_target st = Some (served_table t')) as [? ?]
    by (split; apply write_target_some; eauto). unfold served_table in *. congruence.
Qed.
Lemma role_allows_write_iff c st r t right : writes st t right ->
  role_allows_write c st r (served_table t) = true <-> role_may_write c r (served_table t) right.
Proof.
  intros Hw. destruct (proj2 (write_target_writes st (served_table t) right)) as [_ Hr]; [eauto|].
  unfold role_allows_write, role_may_write. rewrite Hr. destruct right; [apply role_owns_iff|apply role_may_iff].
Qed.

Lemma authorize_write_ok auth su er st :
  authorize_write auth su er st = Ok tt <-> (changes_data st -> write_permitted auth su er st).
Proof.
  unfold authorize_write. rewrite <- changes_data_iff. destruct (statement_allowed_for_readonly st); [done|].
  assert (allows_write auth su (key_pair <$> write_target st) = true <-> exists policy, writer auth su policy /\
     (policy = PolicyAll \/ exists table right, writes st table right /\ listed policy (key_pair (served_table table)))) as Hl.
  { rewrite allows_write_iff. setoid_rewrite policy_allows_target. setoid_rewrite fmap_Some.
    setoid_rewrite write_target_some. naive_solver. }
  cbv zeta. destruct (allows_write _ _ _); cbn [negb].
  2:{ split; [by case_match|]. intros Hp. destruct (Hp eq_refl) as [Hw _]. by apply Hl in Hw. }
  unfold write_permitted. destruct (role_catalog auth) as [c|]; [|naive_solver].
  destruct er as [r|], (write_target st) as [key|] eqn:Ht; cbn;
    try (split; [done|intros Hp; destruct (proj2 (Hp eq_refl) c eq_refl) as (? & t & right & ? & Hw & _)]; try done).
  - apply write_target_some in Ht as (t & right & Hw & ->). pose proof (role_allows_write_iff c st r t right Hw) as Hr.
    destruct (role_allows_write c st r (served_table t)) eqn:Ha.
    + split; [|done]. intros _ _. split; [by apply Hl|]. intros ? [= <-]. exists r, t, right. split_and!; [done|done|by apply Hr].
    + split; [done|]. intros Hp. destruct (proj2 (Hp eq_refl) c eq_refl) as (r' & t' & right' & [= <-] & Hw' & Hr').
      apply (role_allows_write_iff c st r t' right' Hw') in Hr'.
      by rewrite (writes_unique _ _ _ _ _ Hw' Hw), Ha in Hr'.
  - by rewrite (proj2 (write_target_some st (served_table t))) in Ht by eauto.
Qed.

(** ** Properties *)



(** ** Examples *)



(** Without roles, an allowlist alone refuses even the filtered relations. *)
Definition sample_information_schema : Query :=
  mkQuery [] [] (SetSelect [mkTableWithJoins (FactorTable
    [Identifier (lit "information_schema") (lit "information_schema"); Identifier (lit "tables") (lit "tables")]) []]).
Theorem information_schema_needs_roles :
  (authorize_statement (with_read_allowlist trust [mkWriteTarget (lit "main") (lit "roads")]) None None
     (StQuery sample_information_schema) sample_counters).2 = Err DeniedMetadata /\
  (authorize_statement sample_auth_roles (Some (lit "alice")) None
     (StQuery sample_information_schema) sample_counters).2 = Ok tt.
Proof. split; vm_compute; reflexivity. Qed.
