(* ===== verification/CopyText.v ===== *)
(** * Incremental COPY text decoding ([quackgis-server/src/pgwire_server/copy_text.rs])

    [CopyTextDecoder] receives the bytes of a text COPY in chunks, splits them into
    rows and fields kept as ranges over one buffer, and turns full batches of rows
    into Arrow arrays.  Indices are [nat] ([usize]); a [FieldRange] holds [u32]
    values.  A Rust panic ([expect], slice or index out of range) is the error
    [Panic].  Arrow ([RecordBatch::try_new], [get_array_memory_size]), [chrono],
    [rust_decimal] and the float parsers are parameters. *)

From S2P Require Import Prelude.

Definition MAX_BATCHES_PER_COPY_CHUNK : nat := 128.

Definition tab : byte := x09.
Definition newline : byte := x0a.
Definition carriage_return : byte := x0d.
Definition backslash : byte := x5c.
Definition null_marker : list byte := [backslash; x4e].
Definition end_marker : list byte := [backslash; x2e].

Record CopyBatchLimits := mkCopyBatchLimits {
  max_rows : nat;
  max_bytes : Z;
  max_row_bytes : Z }.

(** The errors, by the message of the source. *)
Inductive CopyError :=
  | LimitsNotPositive
  | DataAfterEndMarker
  | RowTooLarge (row : nat)
  | TooManyBatches
  | TooManyColumns (row : nat)
  | WrongColumnCount (row columns : nat)
  | RowExceedsBatchLimit
  | BatchBuildFailed
  | UnsupportedType
  | InvalidUtf8
  | InvalidValue (label : string)
  | DecimalScaleNegative
  | DecimalScaleOverflow
  | DecimalValueOverflow
  | DecimalExceedsScale
  | DecimalExceedsPrecision
  | DateOutOfRange
  | HexPrefixRequired
  | InvalidHex
  | EndsWithBackslash
  | InvalidHexEscape
  | Panic.

(** ** Rows *)

Record FieldRange := mkFieldRange { range_start : Z; range_end : Z }.
Definition NULL : FieldRange := mkFieldRange u32_max u32_max.
Definition is_null (r : FieldRange) : bool := range_start r =? u32_max.

(** [u32::try_from(n).expect(...)] *)
Definition u32_expect (n : nat) : result CopyError Z :=
  if Z.of_nat n <=? u32_max then Ok (Z.of_nat n) else Err Panic.

(** [FieldRange::new] *)
Definition field_range (start stop : nat) : result CopyError FieldRange :=
  s ← u32_expect start; e ← u32_expect stop; Ok (mkFieldRange s e).

Record CopyRows := mkCopyRows {
  data : list byte;
  fields : list FieldRange;
  row_ends : list nat;
  columns : nat }.

(** [CopyRows::new], [len], [is_empty] *)
Definition new_rows (cols : nat) : CopyRows := mkCopyRows [] [] [0%nat] cols.
Definition rows_len (self : CopyRows) : nat := length (row_ends self) - 1.
Definition rows_is_empty (self : CopyRows) : bool := Nat.eqb (rows_len self) 0.

(** [&data[start..end]] *)
Definition slice (bytes : list byte) (start stop : Z) : result CopyError (list byte) :=
  if (start <=? stop) && (stop <=? len bytes)
  then Ok (take (Z.to_nat (stop - start)) (drop (Z.to_nat start) bytes))
  else Err Panic.

(** [&data[start..]] *)
Definition tail_from (bytes : list byte) (start : nat) : result CopyError (list byte) :=
  if (start <=? length bytes)%nat then Ok (drop start bytes) else Err Panic.

(** [CopyRows::value] *)
Definition value (self : CopyRows) (row column : nat) : result CopyError (option (list byte)) :=
  range ← ok_or (fields self !! (row * columns self + column)%nat) Panic;
  if is_null range then Ok None
  else Some <$> slice (data self) (range_start range) (range_end range).

(** [CopyRows::split_off]: the rows kept in [self], and the rows returned. *)
Definition shift_range (offset : Z) (r : FieldRange) : FieldRange :=
  if is_null r then r else mkFieldRange (range_start r - offset) (range_end r - offset).
Definition split_off (self : CopyRows) (row : nat) : result CopyError (CopyRows * CopyRows) :=
  byte_offset ← ok_or (row_ends self !! row) Panic;
  _ ← ensure ((byte_offset <=? length (data self))
              && (row * columns self <=? length (fields self)))%nat Panic;
  field_offset ← u32_expect byte_offset;
  Ok (mkCopyRows (take byte_offset (data self)) (take (row * columns self) (fields self))
        (take row (row_ends self) ++ [byte_offset]) (columns self),
      mkCopyRows (drop byte_offset (data self))
        (map (shift_range field_offset) (drop (row * columns self) (fields self)))
        (map (fun e => (e - byte_offset)%nat) (drop row (row_ends self))) (columns self)).

(** ** Field values *)

(** [field_text] *)
Definition field_text (v : list byte) : result CopyError str :=
  if bool_decide (is_Some (utf8_decode v)) then Ok v else Err InvalidUtf8.

(** [hex_nibble] *)
Definition hex_nibble (b : byte) : option Z :=
  if in_range 48 57 b then Some (bz b - 48)
  else if in_range 97 102 b then Some (bz b - 97 + 10)
  else if in_range 65 70 b then Some (bz b - 65 + 10)
  else None.

(** [take_while(p).count()] over at most [n] bytes *)
Fixpoint count_while (p : byte -> bool) (n : nat) (s : list byte) : nat :=
  match n, s with
  | S n', b :: rest => if p b then S (count_while p n' rest) else O
  | _, _ => O
  end.

(** [u8::from_str_radix(text, radix).expect(...)] of validated digits *)
Definition digits_value (radix : Z) (s : list byte) : Z :=
  foldl (fun acc b => acc * radix + default 0 (hex_nibble b)) 0 s.
Definition u8_from_digits (radix : Z) (s : list byte) : result CopyError byte :=
  let v := digits_value radix s in
  if v <=? 255 then Ok (zb v) else Err Panic.

Definition is_octal (b : byte) : bool := in_range 48 55 b.

(** The loop of [decode_copy_field]; every round consumes at least one byte. *)
Definition simple_escape (b : byte) : byte :=
  match b with
  | x62 => x08 | x66 => x0c | x6e => x0a | x72 => x0d | x74 => x09 | x76 => x0b
  | b => b
  end.
Fixpoint decode_loop (fuel : nat) (raw : list byte) : result CopyError (list byte) :=
  match fuel with
  | O => Err Panic
  | S fuel =>
    match raw with
    | [] => Ok []
    | b :: rest =>
      if negb (bool_decide (b = backslash))
      then out ← decode_loop fuel rest; Ok (b :: out)
      else
        match rest with
        | [] => Err EndsWithBackslash
        | escaped :: after =>
          if bool_decide (escaped = x78) then
            let digits := count_while is_ascii_hexdigit 2 after in
            if Nat.eqb digits 0 then Err InvalidHexEscape
            else c ← u8_from_digits 16 (take digits after);
                 out ← decode_loop fuel (drop digits after); Ok (c :: out)
          else if is_octal escaped then
            let digits := count_while is_octal 3 rest in
            c ← u8_from_digits 8 (take digits rest);
            out ← decode_loop fuel (drop digits rest); Ok (c :: out)
          else out ← decode_loop fuel after; Ok (simple_escape escaped :: out)
        end
    end
  end.

(** [decode_copy_field] *)
Definition decode_copy_field (raw : list byte) (preserve_single_hex : bool)
    : result CopyError (list byte) :=
  if preserve_single_hex && bool_decide (take 2 raw = [backslash; x78])
     && forallb is_ascii_hexdigit (drop 2 raw) then Ok raw
  else if negb (bool_decide (backslash ∈ raw)) then Ok raw
  else decode_loop (S (length raw)) raw.

(** [i64::checked_*] *)
Definition in_i64 (z : Z) : bool := (i64_min <=? z) && (z <=? i64_max).
Definition checked_i64 (z : Z) : option Z := if in_i64 z then Some z else None.

(** [parse_integer] *)
Definition split_sign (v : list byte) : bool * list byte :=
  match v with
  | x2d :: digits => (true, digits)
  | x2b :: digits => (false, digits)
  | _ => (false, v)
  end.
Definition digit_step (negative : bool) (parsed : Z) (digit : byte) : option Z :=
  p ← checked_i64 (parsed * 10);
  checked_i64 (if negative then p - (bz digit - 48) else p + (bz digit - 48)).
Definition parse_integer (v : list byte) (label : string) : result CopyError Z :=
  let '(negative, digits) := split_sign v in
  _ ← ensure (negb (bool_decide (digits = [])) && forallb is_ascii_digit digits)
        (InvalidValue label);
  try_fold (fun parsed digit => ok_or (digit_step negative parsed digit) (InvalidValue label))
    digits 0.

(** [iN::try_from] of the narrower integer columns *)
Definition narrow (lo hi : Z) (label : string) (z : Z) : result CopyError Z :=
  ensure ((lo <=? z) && (z <=? hi)) (InvalidValue label) ;; Ok z.

(** [parse_bool] *)
Definition parse_bool (v : list byte) : result CopyError bool :=
  text ← field_text v;
  let lower := to_ascii_lowercase text in
  if bool_decide (lower ∈ map lit ["t"; "true"; "1"; "y"; "yes"; "on"]%string) then Ok true
  else if bool_decide (lower ∈ map lit ["f"; "false"; "0"; "n"; "no"; "off"]%string) then Ok false
  else Err (InvalidValue "Boolean").

(** [parse_hex_into]; [decoded] is cleared first, so the result is returned. *)
Fixpoint hex_pairs (hex : list byte) : result CopyError (list byte) :=
  match hex with
  | high :: low :: rest =>
      h ← ok_or (hex_nibble high) InvalidHex;
      l ← ok_or (hex_nibble low) InvalidHex;
      out ← hex_pairs rest;
      Ok (zb (Z.lor (Z.shiftl h 4) l) :: out)
  | _ => Ok []
  end.
Definition parse_hex_into (v : list byte) (allow_postgis_hex : bool) : result CopyError (list byte) :=
  hex ← (if bool_decide (take 2 v = [backslash; x78]) then Ok (drop 2 v)
         else if allow_postgis_hex then Ok v else Err HexPrefixRequired);
  _ ← ensure (Nat.even (length hex)) InvalidHex;
  hex_pairs hex.

(** [i128] arithmetic of [parse_decimal] *)
Definition i128_max : Z := 170141183460469231731687303715884105727.
Definition i128_min : Z := -170141183460469231731687303715884105728.
Definition checked_i128 (z : Z) : option Z :=
  if (i128_min <=? z) && (z <=? i128_max) then Some z else None.
Definition checked_pow10 (n : Z) : option Z := checked_i128 (10 ^ n).

(** [mantissa.unsigned_abs().to_string().len()] *)
Fixpoint decimal_digits_aux (fuel : nat) (n : Z) : Z :=
  match fuel with
  | O => 1
  | S fuel => if n <? 10 then 1 else 1 + decimal_digits_aux fuel (n / 10)
  end.
Definition decimal_digits (n : Z) : Z := decimal_digits_aux 40 n.

(** The part of [parse_decimal] after the parse: rescaling and the precision test. *)
Definition rescale_decimal (mantissa source_scale precision scale : Z) : result CopyError Z :=
  target_scale ← (if 0 <=? scale then Ok scale else Err DecimalScaleNegative);
  mantissa ←
    (if source_scale <? target_scale then
       factor ← ok_or (checked_pow10 (target_scale - source_scale)) DecimalScaleOverflow;
       ok_or (checked_i128 (mantissa * factor)) DecimalValueOverflow
     else if target_scale <? source_scale then
       divisor ← ok_or (checked_pow10 (source_scale - target_scale)) DecimalScaleOverflow;
       _ ← ensure (Z.rem mantissa divisor =? 0) DecimalExceedsScale;
       Ok (Z.quot mantissa divisor)
     else Ok mantissa);
  _ ← ensure (negb (precision <? decimal_digits (Z.abs mantissa))) DecimalExceedsPrecision;
  Ok mantissa.

(** ** Arrays and batches *)

Inductive DataType :=
  | Boolean | Int16 | Int32 | Int64 | Float32 | Float64
  | Decimal128 (precision scale : Z) | Date32 | TimestampMicrosecond | Utf8 | Binary
  | OtherType.

(** A column: its type, and whether it is a spatial field. *)
Record Field := mkField { data_type : DataType; spatial : bool }.

Inductive Value (Float : Type) :=
  | VBool (b : bool) | VInt (z : Z) | VFloat (f : Float) | VDecimal (z : Z)
  | VDate (days : Z) | VTimestamp (micros : Z) | VText (s : str) | VBinary (b : list byte).
Arguments VBool {Float}. Arguments VInt {Float}. Arguments VFloat {Float}.
Arguments VDecimal {Float}. Arguments VDate {Float}. Arguments VTimestamp {Float}.
Arguments VText {Float}. Arguments VBinary {Float}.

(** What the decoder uses of other libraries: the float parsers, [rust_decimal]
    (mantissa and scale), [chrono] (days and microseconds since the epoch), and
    Arrow's checks and memory accounting of arrays. *)
Class CopyRuntime (Float : Type) := {
  parse_f32 : str -> option Float;
  parse_f64 : str -> option Float;
  parse_rust_decimal : str -> option (Z * Z);
  parse_naive_date : str -> option Z;
  parse_naive_datetime : str -> option Z;
  with_precision_and_scale : list (option Z) -> Z -> Z -> bool;
  try_new : list (list (option (Value Float))) -> bool;
  get_array_memory_size : list (list (option (Value Float))) -> Z }.

Section batches.
Context {Float : Type} `{CopyRuntime Float}.
Abbreviation Value := (Value Float).
Abbreviation Array := (list (option Value)).

(** [typed_values]: the column's fields, unescaped and parsed. *)
Definition column_values {T} (rows : CopyRows) (column : nat) (binary : bool)
    (parse : list byte -> result CopyError T) : result CopyError (list (option T)) :=
  collect (fun row =>
    v ← value rows row column;
    match v with
    | None => Ok None
    | Some raw => decoded ← decode_copy_field raw binary; Some <$> parse decoded
    end) (seq 0 (rows_len rows)).

Definition parse_with {T} (f : str -> option T) (label : string) (v : list byte)
    : result CopyError T :=
  text ← field_text v; ok_or (f text) (InvalidValue label).

(** [parse_decimal], [parse_date], [parse_timestamp] *)
Definition parse_decimal (precision scale : Z) (v : list byte) : result CopyError Z :=
  d ← parse_with parse_rust_decimal "Decimal128" v;
  rescale_decimal (fst d) (snd d) precision scale.
Definition parse_date (v : list byte) : result CopyError Z :=
  days ← parse_with parse_naive_date "Date32" v;
  _ ← ensure ((-2147483648 <=? days) && (days <=? 2147483647)) DateOutOfRange; Ok days.
Definition parse_timestamp (v : list byte) : result CopyError Z :=
  parse_with parse_naive_datetime "Timestamp" v.

Definition as_values {T} (f : T -> Value) (l : list (option T)) : Array := map (fmap f) l.

(** [copy_array] *)
Definition copy_array (field : Field) (rows : CopyRows) (column : nat) : result CopyError Array :=
  match data_type field with
  | Boolean => as_values VBool <$> column_values rows column false parse_bool
  | Int16 => as_values VInt <$> column_values rows column false
               (fun v => z ← parse_integer v "Int16"; narrow (-32768) 32767 "Int16" z)
  | Int32 => as_values VInt <$> column_values rows column false
               (fun v => z ← parse_integer v "Int32"; narrow (-2147483648) 2147483647 "Int32" z)
  | Int64 => as_values VInt <$> column_values rows column false (fun v => parse_integer v "Int64")
  | Float32 => as_values VFloat <$> column_values rows column false (parse_with parse_f32 "Float32")
  | Float64 => as_values VFloat <$> column_values rows column false (parse_with parse_f64 "Float64")
  | Decimal128 precision scale =>
      values ← column_values rows column false (parse_decimal precision scale);
      _ ← ensure (with_precision_and_scale values precision scale) (InvalidValue "Decimal128");
      Ok (as_values VDecimal values)
  | Date32 => as_values VDate <$> column_values rows column false parse_date
  | TimestampMicrosecond => as_values VTimestamp <$> column_values rows column false parse_timestamp
  | Utf8 => as_values VText <$> column_values rows column false field_text
  | Binary => as_values VBinary <$> column_values rows column true
                (fun v => parse_hex_into v (spatial field))
  | OtherType => Err UnsupportedType
  end.

(** [build_batch] *)
Definition build_batch (schema : list Field) (rows : CopyRows) : result CopyError (list Array) :=
  arrays ← collect (fun '(column, field) => copy_array field rows column)
             (imap (fun column field => (column, field)) schema);
  _ ← ensure (try_new arrays) BatchBuildFailed;
  Ok arrays.

(** [bounded_batches]; each recursive call has fewer rows, so the number of rows
    is enough fuel. *)
Fixpoint bounded_batches (fuel : nat) (schema : list Field) (rows : CopyRows) (limit : Z)
    : result CopyError (list (list Array)) :=
  match fuel with
  | O => Err Panic
  | S fuel =>
      batch ← build_batch schema rows;
      if get_array_memory_size batch <=? limit then Ok [batch]
      else if Nat.eqb (rows_len rows) 1 then Err RowExceedsBatchLimit
      else
        '(lower, upper) ← split_off rows (rows_len rows / 2);
        batches ← bounded_batches fuel schema lower limit;
        more ← bounded_batches fuel schema upper limit;
        Ok (batches ++ more)
  end.

(** ** The decoder *)

Record CopyTextDecoder := mkDecoder {
  schema : list Field;
  limits : CopyBatchLimits;
  rows : CopyRows;
  field_start : nat;
  row_fields : nat;
  row_bytes : Z;
  batch_bytes : Z;
  row_number : nat;
  terminated : bool }.

(** [CopyTextDecoder::new] *)
Definition new_decoder (fs : list Field) (l : CopyBatchLimits) : result CopyError CopyTextDecoder :=
  _ ← ensure (negb (Nat.eqb (max_rows l) 0 || (max_bytes l =? 0) || (max_row_bytes l =? 0)))
        LimitsNotPositive;
  Ok (mkDecoder fs l (new_rows (length fs)) 0 0 0 0 1 false).

Definition with_data (self : CopyTextDecoder) (d : list byte) : CopyTextDecoder :=
  mkDecoder (schema self) (limits self)
    (mkCopyRows d (fields (rows self)) (row_ends (rows self)) (columns (rows self)))
    (field_start self) (row_fields self) (row_bytes self) (batch_bytes self) (row_number self)
    (terminated self).

(** [add_row_bytes] *)
Definition add_row_bytes (self : CopyTextDecoder) (bytes : Z) : result CopyError CopyTextDecoder :=
  let total := saturating_add (row_bytes self) bytes in
  _ ← ensure (negb (max_row_bytes (limits self) <? total)) (RowTooLarge (row_number self));
  Ok (mkDecoder (schema self) (limits self) (rows self) (field_start self) (row_fields self)
        total (batch_bytes self) (row_number self) (terminated self)).

(** [extend_field] *)
Definition extend_field (self : CopyTextDecoder) (d : list byte) : result CopyError CopyTextDecoder :=
  self ← add_row_bytes self (len d);
  Ok (with_data self (data (rows self) ++ d)).

(** [finish_field] *)
Definition finish_field (self : CopyTextDecoder) : result CopyError CopyTextDecoder :=
  _ ← ensure (negb (length (schema self) <=? row_fields self)%nat) (TooManyColumns (row_number self));
  current ← tail_from (data (rows self)) (field_start self);
  '(d, range) ←
    (if bool_decide (current = null_marker)
     then Ok (take (field_start self) (data (rows self)), NULL)
     else range ← field_range (field_start self) (length (data (rows self)));
          Ok (data (rows self), range));
  Ok (mkDecoder (schema self) (limits self)
        (mkCopyRows d (fields (rows self) ++ [range]) (row_ends (rows self)) (columns (rows self)))
        (length d) (S (row_fields self)) (row_bytes self) (batch_bytes self) (row_number self)
        (terminated self)).

(** [finish_row] *)
Definition finish_row (self : CopyTextDecoder) : result CopyError CopyTextDecoder :=
  self ← finish_field self;
  _ ← ensure (Nat.eqb (row_fields self) (length (schema self)))
        (WrongColumnCount (row_number self) (row_fields self));
  let r := rows self in
  Ok (mkDecoder (schema self) (limits self)
        (mkCopyRows (data r) (fields r) (row_ends r ++ [length (data r)]) (columns r))
        (length (data r)) 0 0 (saturating_add (batch_bytes self) (row_bytes self))
        (S (row_number self)) (terminated self)).

(** [should_flush] *)
Definition should_flush (self : CopyTextDecoder) : bool :=
  (max_rows (limits self) <=? rows_len (rows self))%nat
  || (max_bytes (limits self) <=? batch_bytes self).

(** [flush] *)
Definition flush (self : CopyTextDecoder) : result CopyError (CopyTextDecoder * list (list Array)) :=
  if rows_is_empty (rows self) then Ok (self, [])
  else
    batches ← bounded_batches (rows_len (rows self)) (schema self) (rows self)
                (max_bytes (limits self));
    Ok (mkDecoder (schema self) (limits self) (new_rows (length (schema self))) 0
          (row_fields self) (row_bytes self) 0 (row_number self) (terminated self), batches).

(** [memchr2(b'\t', b'\n', remaining)]: the bytes before the delimiter, the
    delimiter, and what follows it. *)
Fixpoint memchr2 (remaining : list byte) : option (list byte * byte * list byte) :=
  match remaining with
  | [] => None
  | b :: rest =>
      if bool_decide (b = tab) || bool_decide (b = newline) then Some ([], b, rest)
      else match memchr2 rest with
           | Some (before, d, after) => Some (b :: before, d, after)
           | None => None
           end
  end.

(** The carriage return before a newline, if it belongs to the current field. *)
Definition strip_cr (self : CopyTextDecoder) : CopyTextDecoder :=
  if (field_start self <? length (data (rows self)))%nat
     && bool_decide (last (data (rows self)) = Some carriage_return)
  then with_data self (take (length (data (rows self)) - 1) (data (rows self)))
  else self.

(** One newline in [push]: [None] marks the end marker. *)
Definition end_line (self : CopyTextDecoder)
    : result CopyError (option (CopyTextDecoder * list (list Array)) * CopyTextDecoder) :=
  let self := strip_cr self in
  marked ← (if Nat.eqb (row_fields self) 0
            then current ← tail_from (data (rows self)) (field_start self);
                 Ok (bool_decide (current = end_marker))
            else Ok false);
  if (marked : bool)
  then Ok (None, mkDecoder (schema self) (limits self)
              (rows (with_data self (take (field_start self) (data (rows self)))))
              (field_start self) (row_fields self) 0 (batch_bytes self) (row_number self) true)
  else
    self ← finish_row self;
    flushed ← (if should_flush self then flush self else Ok (self, []));
    Ok (Some flushed, self).

(** The [while offset < data.len()] loop of [push].  The end marker continues the
    loop without advancing [offset], as the source does. *)
Fixpoint push_loop (fuel : nat) (self : CopyTextDecoder) (remaining : list byte)
    (batches : list (list Array)) : result CopyError (CopyTextDecoder * list (list Array)) :=
  match fuel with
  | O => Err Panic
  | S fuel =>
    match remaining with
    | [] => Ok (self, batches)
    | _ :: _ =>
      if terminated self then Err DataAfterEndMarker
      else
        match memchr2 remaining with
        | None => self ← extend_field self remaining; Ok (self, batches)
        | Some (before, delimiter, after) =>
            self ← extend_field self before;
            self ← add_row_bytes self 1;
            if bool_decide (delimiter = tab) then
              self ← finish_field self; push_loop fuel self after batches
            else
              '(outcome, marked) ← end_line self;
              match outcome with
              | None => push_loop fuel marked remaining batches
              | Some (self, flushed) =>
                  let batches := batches ++ flushed in
                  _ ← ensure (length batches <=? MAX_BATCHES_PER_COPY_CHUNK)%nat TooManyBatches;
                  push_loop fuel self after batches
              end
        end
    end
  end.

(** [CopyTextDecoder::push] *)
Definition push (self : CopyTextDecoder) (chunk : list byte)
    : result CopyError (CopyTextDecoder * list (list Array)) :=
  if terminated self && negb (bool_decide (chunk = [])) then Err DataAfterEndMarker
  else push_loop (S (S (length chunk))) self chunk [].

(** [CopyTextDecoder::finish] *)
Definition finish (self : CopyTextDecoder) : result CopyError (CopyTextDecoder * list (list Array)) :=
  self ← (if negb (terminated self)
             && ((field_start self <? length (data (rows self)))%nat || (0 <? row_fields self)%nat)
          then finish_row self else Ok self);
  flush self.
End batches.
