(* ===== verification/CopyRowFacts.v ===== *)
(** * Facts about COPY rows and field values

    The buffer of [CopyText.CopyRows] represents a list of rows of cells: this file
    defines that representation ([rows_of]) and shows that [value] reads the cell
    and [split_off] splits the list.  It also relates the field parsers (escapes,
    integers, hex, decimals) to what they mean. *)

From S2P Require Import Prelude CopyText.

(** ** Cells and their layout *)

(** A cell is NULL or raw bytes. *)
Abbreviation cell := (option (list byte)).
Definition cell_bytes (c : cell) : list byte := default [] c.
Definition cells_bytes (cs : list cell) : list byte := concat (map cell_bytes cs).

Fixpoint layout (offset : nat) (cs : list cell) : list FieldRange :=
  match cs with
  | [] => []
  | None :: rest => NULL :: layout offset rest
  | Some b :: rest =>
      mkFieldRange (Z.of_nat offset) (Z.of_nat (offset + length b))
        :: layout (offset + length b) rest
  end.

Fixpoint ends (offset : nat) (complete : list (list cell)) : list nat :=
  match complete with
  | [] => [offset]
  | row :: rest => offset :: ends (offset + length (cells_bytes row)) rest
  end.

(** The buffer that holds [complete] rows of [cols] cells. *)
Definition rows_of (cols : nat) (complete : list (list cell)) : CopyRows :=
  mkCopyRows (cells_bytes (concat complete)) (layout 0 (concat complete)) (ends 0 complete) cols.

(** Every row has one cell per column, and the buffer fits [u32] offsets. *)
Definition rows_ok (cols : nat) (complete : list (list cell)) : Prop :=
  Forall (fun row => length row = cols) complete /\ len (cells_bytes (concat complete)) < u32_max.

Lemma cells_bytes_app xs ys : cells_bytes (xs ++ ys) = cells_bytes xs ++ cells_bytes ys.
Proof. unfold cells_bytes. by rewrite map_app, concat_app. Qed.

Lemma layout_app xs ys o :
  layout o (xs ++ ys) = layout o xs ++ layout (o + length (cells_bytes xs)) ys.
Proof.
  revert o; induction xs as [|[b|] xs IH]; intros o; simpl; [by rewrite Nat.add_0_r| |].
  - rewrite IH. change (cells_bytes (Some b :: xs)) with (b ++ cells_bytes xs).
    rewrite length_app. by rewrite Nat.add_assoc.
  - by rewrite IH.
Qed.

Lemma cells_bytes_snoc xs c : cells_bytes (xs ++ [c]) = cells_bytes xs ++ cell_bytes c.
Proof. rewrite cells_bytes_app. unfold cells_bytes at 2. simpl. by rewrite app_nil_r. Qed.

Lemma layout_snoc xs c o :
  layout o (xs ++ [c]) = layout o xs ++ layout (o + length (cells_bytes xs)) [c].
Proof. apply layout_app. Qed.

Lemma layout_length o cs : length (layout o cs) = length cs.
Proof. revert o; induction cs as [|[b|] cs IH]; intros o; simpl; auto. Qed.

Lemma ends_length o complete : length (ends o complete) = S (length complete).
Proof. revert o; induction complete as [|r c IH]; intros o; simpl; [done|]. by rewrite IH. Qed.

Lemma ends_app o xs ys :
  ends o (xs ++ ys) = take (length xs) (ends o (xs ++ ys)) ++
                      ends (o + length (cells_bytes (concat xs))) ys.
Proof.
  revert o; induction xs as [|r xs IH]; intros o; simpl; [by rewrite Nat.add_0_r|].
  f_equal. rewrite IH at 1. f_equal. rewrite cells_bytes_app, length_app. f_equal. lia.
Qed.

Lemma ends_snoc o xs row :
  ends o (xs ++ [row]) = ends o xs ++ [(o + length (cells_bytes (concat (xs ++ [row]))))%nat].
Proof.
  revert o; induction xs as [|r xs IH]; intros o; simpl; [by rewrite app_nil_r|].
  rewrite IH. rewrite cells_bytes_app, length_app. by rewrite Nat.add_assoc.
Qed.

Lemma take_ends o xs ys :
  take (length xs) (ends o (xs ++ ys)) ++ [(o + length (cells_bytes (concat xs)))%nat] = ends o xs.
Proof.
  revert o; induction xs as [|r xs IH]; intros o; simpl; [by rewrite Nat.add_0_r|].
  f_equal. rewrite cells_bytes_app, length_app, Nat.add_assoc. apply IH.
Qed.

Lemma ends_lookup o complete i :
  (i <= length complete)%nat ->
  ends o complete !! i = Some (o + length (cells_bytes (concat (take i complete))))%nat.
Proof.
  revert o i; induction complete as [|r c IH]; intros o [|i] Hi; simpl in *; try lia;
    [by rewrite Nat.add_0_r | by rewrite Nat.add_0_r |].
  rewrite IH by lia. rewrite cells_bytes_app, length_app. by rewrite Nat.add_assoc.
Qed.

Lemma rows_len_of cols complete : rows_len (rows_of cols complete) = length complete.
Proof. unfold rows_len, rows_of. simpl. rewrite ends_length. lia. Qed.

Lemma is_null_new o b : Z.of_nat o < u32_max -> is_null (mkFieldRange (Z.of_nat o) b) = false.
Proof. intros H. unfold is_null. simpl. apply Z.eqb_neq. lia. Qed.

(** Reading the range laid out for the cell after [pre]. *)
Lemma slice_middle (pre b post : list byte) :
  slice (pre ++ b ++ post) (Z.of_nat (length pre)) (Z.of_nat (length pre + length b)) = Ok b.
Proof.
  unfold slice, len. rewrite !length_app.
  replace ((_ <=? _) && (_ <=? _)) with true by (symmetry; apply andb_true_iff; rewrite !Z.leb_le; lia).
  rewrite Nat2Z.id, drop_app_length, <- Nat2Z.inj_sub, Nat2Z.id by lia.
  replace (length pre + length b - length pre)%nat with (length b) by lia.
  by rewrite take_app_length.
Qed.

Lemma layout_value d o cs i c :
  cs !! i = Some c -> Z.of_nat (o + length (cells_bytes cs)) < u32_max -> length d = o ->
  exists range, layout o cs !! i = Some range /\
    forall post, (if is_null range then Ok None
     else Some <$> slice (d ++ cells_bytes cs ++ post) (range_start range) (range_end range)) = Ok c.
Proof.
  revert d o i; induction cs as [|x cs IH]; intros d o [|i] Hi Hu Hd; simplify_eq/=.
  - destruct c as [b|]; simpl; eexists; (split; [done|]); intros post.
    + change (cells_bytes (Some b :: cs)) with (b ++ cells_bytes cs) in *.
      rewrite length_app in Hu. rewrite is_null_new by lia. simpl.
      rewrite <- app_assoc, slice_middle. done.
    + done.
  - destruct x as [b|]; simpl.
    + change (cells_bytes (Some b :: cs)) with (b ++ cells_bytes cs) in *.
      rewrite length_app in Hu.
      destruct (IH (d ++ b) (length d + length b)%nat i Hi) as (range & ? & Hr);
        [lia | by rewrite length_app |].
      exists range. split; [done|]. intros post. rewrite <- (Hr post). by rewrite <- !app_assoc.
    + apply (IH d (length d) i Hi); done.
Qed.

Lemma concat_lookup_uniform {A} (cols : nat) (xss : list (list A)) i j xs :
  Forall (fun xs => length xs = cols) xss -> xss !! i = Some xs -> (j < cols)%nat ->
  concat xss !! (i * cols + j)%nat = xs !! j.
Proof.
  intros Hall. revert i; induction Hall as [|ys xss Hys _ IH]; intros [|i] Hi Hj; simplify_eq/=.
  - rewrite lookup_app_l by lia. done.
  - rewrite lookup_app_r by lia. rewrite <- IH with (i := i) by done. f_equal. lia.
Qed.

(** [value] reads the cell. *)
Lemma value_rows_of cols complete row column cells c :
  rows_ok cols complete -> complete !! row = Some cells -> cells !! column = Some c ->
  value (rows_of cols complete) row column = Ok c.
Proof.
  intros [Hall Hu] Hrow Hcol. unfold value, rows_of. simpl.
  assert (length cells = cols) as Hlen by (by eapply Forall_lookup_1 in Hall).
  assert (column < cols)%nat by (apply lookup_lt_Some in Hcol; lia).
  pose proof (concat_lookup_uniform cols complete row column cells Hall Hrow ltac:(done)) as Hl.
  rewrite Hcol in Hl.
  destruct (layout_value [] 0 (concat complete) _ c Hl) as (range & -> & Hr); [done | done |].
  simpl. specialize (Hr []). by rewrite app_nil_r in Hr.
Qed.

Lemma layout_shift k o cs :
  Z.of_nat (k + o + length (cells_bytes cs)) < u32_max ->
  map (shift_range (Z.of_nat k)) (layout (k + o) cs) = layout o cs.
Proof.
  revert o; induction cs as [|[b|] cs IH]; intros o Hu; simpl; [done| |].
  - change (cells_bytes (Some b :: cs)) with (b ++ cells_bytes cs) in Hu. rewrite length_app in Hu.
    f_equal.
    + unfold shift_range. rewrite is_null_new by lia. simpl. f_equal; lia.
    + rewrite <- Nat.add_assoc. apply IH. lia.
  - f_equal. by apply IH.
Qed.

Lemma ends_shift k o complete :
  map (fun e => (e - k)%nat) (ends (k + o) complete) = ends o complete.
Proof.
  revert o; induction complete as [|r c IH]; intros o; simpl; [by f_equal; lia|].
  f_equal; [lia|]. rewrite <- Nat.add_assoc. apply IH.
Qed.

Lemma concat_take_length {A} (cols : nat) (xss : list (list A)) n :
  Forall (fun xs => length xs = cols) xss -> (n <= length xss)%nat ->
  length (concat (take n xss)) = (n * cols)%nat.
Proof.
  intros Hall. revert n; induction Hall as [|xs xss Hxs _ IH]; intros [|n] Hn; simpl in *; try lia.
  rewrite length_app, IH by lia. lia.
Qed.

(** [split_off] splits the rows. *)
Lemma split_off_rows_of cols complete n :
  rows_ok cols complete -> (n <= length complete)%nat ->
  split_off (rows_of cols complete) n =
    Ok (rows_of cols (take n complete), rows_of cols (drop n complete)).
Proof.
  intros [Hall Hu] Hn. unfold split_off, rows_of; simpl.
  rewrite ends_lookup by done. simpl.
  set (lo := take n complete). set (hi := drop n complete).
  assert (complete = lo ++ hi) as Hsplit by (symmetry; apply take_drop).
  assert (length (concat lo) = (n * cols)%nat) as Hlo by (by apply concat_take_length).
  assert (length lo = n) as Hlen by (unfold lo; rewrite length_take; lia).
  rewrite Hsplit, concat_app, cells_bytes_app in Hu |- *. rewrite layout_app.
  unfold len in Hu. rewrite length_app in Hu.
  replace ((_ <=? _)%nat && _) with true.
  2:{ symmetry. apply andb_true_iff. rewrite !Nat.leb_le, !length_app, layout_length. lia. }
  simpl. unfold u32_expect. replace (_ <=? u32_max) with true by (symmetry; apply Z.leb_le; lia).
  simpl. rewrite take_app_length, drop_app_length.
  rewrite take_app_length', drop_app_length' by (rewrite layout_length; lia).
  rewrite (ends_app 0 lo hi), Hlen. simpl.
  rewrite drop_app_length' by (rewrite length_take, ends_length, length_app; lia).
  rewrite take_app_length' by (rewrite length_take, ends_length, length_app; lia).
  f_equal. f_equal; f_equal.
  - rewrite <- Hlen. apply (take_ends 0).
  - pose proof (layout_shift (length (cells_bytes (concat lo))) 0 (concat hi)) as Hs.
    rewrite Nat.add_0_r in Hs. apply Hs. lia.
  - pose proof (ends_shift (length (cells_bytes (concat lo))) 0 hi) as Hs.
    by rewrite Nat.add_0_r in Hs.
Qed.
