(* ===== verification/CopyValues.v ===== *)
(** * COPY field values

    What the field parsers of [CopyText] compute: integers within the bounds of
    [i64], the COPY escapes, hexadecimal bytes and rescaled decimals. *)

From S2P Require Import Prelude CopyText.

(** ** Specification *)

(** The number a digit string denotes. *)
Definition number_from (start : Z) (digits : list byte) : Z :=
  foldl (fun acc d => acc * 10 + (bz d - 48)) start digits.
Definition signed (negative : bool) (n : Z) : Z := if negative then - n else n.

(** PostgreSQL's output escaping of a COPY field. *)
Definition escape_byte (b : byte) : list byte :=
  match b with
  | x08 => [backslash; x62] | x0c => [backslash; x66] | x0a => [backslash; x6e]
  | x0d => [backslash; x72] | x09 => [backslash; x74] | x0b => [backslash; x76]
  | x5c => [backslash; backslash]
  | b => [b]
  end.
Definition escape (s : list byte) : list byte := concat (map escape_byte s).

(** An octal escape whose value does not fit a byte, anywhere in the field. *)
Definition octal_overflow (raw : list byte) : Prop :=
  exists before rest, raw = before ++ backslash :: rest /\
    255 < digits_value 8 (take (count_while is_octal 3 rest) rest).

(** Lowercase hexadecimal output of bytes. *)
Definition hex_digit (n : Z) : byte := if n <? 10 then zb (48 + n) else zb (87 + n).
Definition hex_encode (bs : list byte) : list byte :=
  concat (map (fun b => [hex_digit (bz b / 16); hex_digit (bz b mod 16)]) bs).

(** ** Integers *)

Lemma number_from_ge start digits :
  0 <= start -> Forall (fun d => is_ascii_digit d = true) digits -> start <= number_from start digits.
Proof.
  intros Hs Hd. revert start Hs. induction Hd as [|d ds Hd _ IH]; intros start Hs; [done|].
  unfold number_from in *; simpl. unfold is_ascii_digit, in_range in Hd. bool_prop.
  etrans; [|apply IH; lia]. lia.
Qed.

Lemma checked_i64_some z w : checked_i64 z = Some w <-> w = z /\ i64_min <= z <= i64_max.
Proof.
  unfold checked_i64, in_i64. destruct (_ && _) eqn:Hb; split.
  - intros [= <-]. bool_prop. lia.
  - by intros [-> _].
  - done.
  - intros [_ ?]. apply andb_false_iff in Hb. rewrite !Z.leb_gt in Hb. lia.
Qed.

Lemma parse_digits negative label digits n z :
  0 <= n -> Forall (fun d => is_ascii_digit d = true) digits ->
  i64_min <= signed negative n <= i64_max ->
  try_fold (fun parsed digit => ok_or (digit_step negative parsed digit) (InvalidValue label))
    digits (signed negative n) = Ok z <->
  z = signed negative (number_from n digits) /\ i64_min <= z <= i64_max.
Proof.
  intros Hn Hd. revert n Hn. induction Hd as [|d ds Hd Hds IH]; intros n Hn Hr; cbn [try_fold].
  { unfold number_from; simpl. split; [intros [= <-]; done | by intros [-> _]]. }
  assert (0 <= bz d - 48 <= 9) as Hdig.
  { unfold is_ascii_digit, in_range in Hd. bool_prop. lia. }
  pose proof (number_from_ge (n * 10 + (bz d - 48)) ds ltac:(lia) Hds) as Hge.
  change (number_from n (d :: ds)) with (number_from (n * 10 + (bz d - 48)) ds).
  assert (forall p, digit_step negative (signed negative n) d = Some p <->
    p = signed negative (n * 10 + (bz d - 48)) /\
    i64_min <= signed negative (n * 10 + (bz d - 48)) <= i64_max) as Hstep.
  { intros p. unfold digit_step. rewrite bind_Some. setoid_rewrite checked_i64_some.
    unfold signed, i64_min, i64_max in *. destruct negative; split.
    - intros (x & [-> ?] & -> & ?). lia.
    - intros [-> ?]. exists (- n * 10). lia.
    - intros (x & [-> ?] & -> & ?). lia.
    - intros [-> ?]. exists (n * 10). lia. }
  rewrite bind_ok. setoid_rewrite ok_or_ok. setoid_rewrite Hstep. split.
  - intros (p & [-> Hp] & Hf). by apply IH in Hf; [|lia|].
  - intros [-> Hz].
    assert (i64_min <= signed negative (n * 10 + (bz d - 48)) <= i64_max) as Hp.
    { unfold signed, i64_min, i64_max in *. destruct negative; lia. }
    eexists. split; [done|]. apply IH; [lia | done | done].
Qed.

Lemma parse_integer_spec v label z :
  parse_integer v label = Ok z <->
  let '(negative, digits) := split_sign v in
  digits <> [] /\ Forall (fun d => is_ascii_digit d = true) digits /\
  z = signed negative (number_from 0 digits) /\ i64_min <= z <= i64_max.
Proof.
  unfold parse_integer. destruct (split_sign v) as [negative digits].
  assert (negb (bool_decide (digits = [])) && forallb is_ascii_digit digits = true <->
          digits <> [] /\ Forall (fun d => is_ascii_digit d = true) digits) as Hc.
  { rewrite andb_true_iff, negb_true_iff, bool_decide_eq_false, forallb_forall, Forall_forall.
    by setoid_rewrite list_elem_of_In. }
  pose proof (parse_digits negative label digits 0 z) as Hp.
  replace (signed negative 0) with 0 in Hp by (by destruct negative).
  assert (i64_min <= 0 <= i64_max) by done. rewrite bind_ok. split.
  - intros ([] & [? Hd]%ensure_ok%Hc & Hf). apply Hp in Hf; [tauto | lia | done | done].
  - intros (? & Hd & Hz). exists tt. split; [by apply ensure_ok, Hc|].
    apply Hp; [lia | done | done | done].
Qed.

(** ** Escapes *)

Lemma decode_escape_byte fuel b rest :
  decode_loop (S fuel) (escape_byte b ++ rest) = (out ← decode_loop fuel rest; Ok (b :: out)).
Proof. destruct b; reflexivity. Qed.

Lemma escape_cons b s : escape (b :: s) = escape_byte b ++ escape s.
Proof. done. Qed.

Lemma decode_loop_escape s fuel : (length s < fuel)%nat -> decode_loop fuel (escape s) = Ok s.
Proof.
  revert fuel. induction s as [|b s IH]; intros [|fuel] Hf; simpl in Hf; try lia; [done|].
  rewrite escape_cons, decode_escape_byte, IH by lia. done.
Qed.

Lemma escape_length s : (length s <= length (escape s))%nat.
Proof.
  induction s as [|b s IH]; [done|]. rewrite escape_cons, length_app. simpl.
  assert (1 <= length (escape_byte b))%nat by (destruct b; simpl; lia). lia.
Qed.

Lemma escape_no_backslash s : backslash ∉ escape s -> escape s = s.
Proof.
  induction s as [|b s IH]; [done|]. rewrite escape_cons, not_elem_of_app. intros [Hb Hs].
  rewrite IH by done. destruct b; try reflexivity; exfalso; apply Hb; set_solver.
Qed.

Lemma decode_copy_field_escape s : decode_copy_field (escape s) false = Ok s.
Proof.
  unfold decode_copy_field. cbn [andb]. case_bool_decide as Hb; cbn [negb].
  - apply decode_loop_escape. pose proof (escape_length s). lia.
  - by rewrite escape_no_backslash.
Qed.

(** Escaped fields contain no delimiter and are no marker. *)
Lemma escape_delimiters s b :
  b ∈ escape s -> b <> tab /\ b <> newline /\ b <> carriage_return.
Proof.
  induction s as [|c s IH]; [by intros ?%not_elem_of_nil|].
  rewrite escape_cons, elem_of_app. intros [Hc|?]; [|by apply IH].
  destruct c; simpl in Hc; rewrite ?elem_of_cons, elem_of_nil in Hc; naive_solver.
Qed.

Lemma escape_markers s : escape s <> null_marker /\ escape s <> end_marker.
Proof.
  destruct s as [|b s]; [done|]. rewrite escape_cons.
  destruct b; simpl; try done; split; intros [=].
Qed.

Lemma count_while_bound p n s : (count_while p n s <= n)%nat.
Proof. revert s; induction n as [|n IH]; intros [|b s]; simpl; [lia..|]. destruct (p b); [|lia]. specialize (IH s). lia. Qed.

Lemma hex_nibble_range b n : hex_nibble b = Some n -> 0 <= n <= 15.
Proof.
  unfold hex_nibble, in_range. repeat case_match; intros [= <-]; bool_prop; lia.
Qed.

Lemma hex_two_digits s : (length s <= 2)%nat -> digits_value 16 s <= 255.
Proof.
  unfold digits_value. assert (forall b, 0 <= default 0 (hex_nibble b) <= 15) as Hn.
  { intros b. destruct (hex_nibble b) eqn:Hb; simpl; [by eapply hex_nibble_range | lia]. }
  destruct s as [|a [|b [|]]]; simpl; intros; try lia; pose proof (Hn a); try lia.
  pose proof (Hn b). lia.
Qed.

(** The decoder panics on octal overflow only; in particular it has fuel enough. *)
Lemma decode_loop_panic fuel raw :
  (length raw < fuel)%nat -> decode_loop fuel raw = Err Panic -> octal_overflow raw.
Proof.
  assert (forall pre raw, octal_overflow raw -> octal_overflow (pre ++ raw)) as Hext.
  { intros pre r (before & rest & -> & ?). exists (pre ++ before), rest. by rewrite <- app_assoc. }
  revert raw. induction fuel as [|fuel IH]; intros raw Hf; [lia|]. cbn [decode_loop].
  destruct raw as [|b rest]; [done|]. simpl in Hf. case_bool_decide as Hb; cbn [negb].
  2:{ destruct (decode_loop fuel rest) eqn:Hd; [done|]. intros [= ->].
      apply (Hext [b]), IH; [lia | done]. }
  subst b. destruct rest as [|e after] eqn:Hrest; [done|].
  assert (forall n, decode_loop fuel (drop n after) = Err Panic ->
                    octal_overflow (backslash :: e :: after)) as Hrec.
  { intros n Hd. rewrite <- (take_drop n after). apply (Hext (backslash :: e :: take n after)), IH;
      [|done]. rewrite length_drop. simpl in Hf. lia. }
  case_bool_decide.
  - destruct (Nat.eqb _ 0); [done|]. unfold u8_from_digits.
    rewrite (proj2 (Z.leb_le _ _)).
    2:{ apply hex_two_digits. rewrite length_take. pose proof (count_while_bound is_ascii_hexdigit 2 after). lia. }
    simpl. destruct (decode_loop fuel (drop _ after)) eqn:Hd; [done|]. intros [= ->]. by eapply Hrec.
  - destruct (is_octal e) eqn:He.
    + set (n := count_while is_octal 3 (e :: after)). unfold u8_from_digits.
      destruct (_ <=? 255) eqn:Hle; simpl.
      * destruct (decode_loop fuel (drop n (e :: after))) eqn:Hd; [done|]. intros [= ->].
        assert (exists m, n = S m) as [m Hm] by (unfold n; cbn [count_while]; rewrite He; eauto).
        rewrite Hm in Hd. by apply (Hrec m).
      * intros _. exists [], (e :: after). split; [done|]. bool_prop. fold n. lia.
    + destruct (decode_loop fuel after) eqn:Hd; [done|]. intros [= ->]. by apply (Hrec 0%nat).
Qed.

(** ** Hexadecimal bytes *)

Lemma hex_nibble_digit n : 0 <= n < 16 -> hex_nibble (hex_digit n) = Some n.
Proof.
  intros Hn. assert (n ∈ seqZ 0 16) as Hin by (apply elem_of_seqZ; lia).
  vm_compute in Hin. repeat (apply elem_of_cons in Hin as [->|Hin]; [reflexivity|]).
  by apply elem_of_nil in Hin.
Qed.

Lemma hex_pairs_encode bs : hex_pairs (hex_encode bs) = Ok bs.
Proof.
  induction bs as [|b bs IH]; [done|].
  change (hex_encode (b :: bs)) with
    (hex_digit (bz b / 16) :: hex_digit (bz b mod 16) :: hex_encode bs).
  cbn [hex_pairs]. pose proof (bz_range b).
  rewrite !hex_nibble_digit by (Z.div_mod_to_equations; lia). simpl. rewrite IH. simpl.
  do 2 f_equal. rewrite <- (zb_bz b) at 3. f_equal. destruct b; reflexivity.
Qed.

Lemma hex_encode_length bs : length (hex_encode bs) = (2 * length bs)%nat.
Proof. induction bs as [|b bs IH]; [done|]. change (hex_encode (b :: bs)) with
    (hex_digit (bz b / 16) :: hex_digit (bz b mod 16) :: hex_encode bs). simpl. lia. Qed.

(** ** Decimals *)

Lemma decimal_digits_bound fuel n :
  0 <= n < 10 ^ (Z.of_nat fuel + 1) ->
  1 <= decimal_digits_aux fuel n /\ n < 10 ^ decimal_digits_aux fuel n.
Proof.
  revert n. induction fuel as [|fuel IH]; intros n Hn; [simpl in *; lia|]. cbn [decimal_digits_aux].
  destruct (Z.ltb_spec n 10); [simpl; lia|].
  destruct (IH (n / 10)) as [H1 H2].
  { split; [apply Z.div_pos; lia|]. apply Z.div_lt_upper_bound; [lia|].
    replace (10 * 10 ^ (Z.of_nat fuel + 1)) with (10 ^ (Z.of_nat (S fuel) + 1)); [lia|].
    rewrite Nat2Z.inj_succ, Z.add_succ_l, Z.pow_succ_r by lia. done. }
  split; [lia|]. rewrite Z.add_comm, Z.pow_add_r by lia.
  assert (n < 10 * (n / 10) + 10) by (Z.div_mod_to_equations; lia). nia.
Qed.

Lemma checked_i128_some z w : checked_i128 z = Some w <-> w = z /\ i128_min <= z <= i128_max.
Proof.
  unfold checked_i128. destruct (_ && _) eqn:Hb; split.
  - intros [= <-]. bool_prop. lia.
  - by intros [-> _].
  - done.
  - intros [_ ?]. apply andb_false_iff in Hb. rewrite !Z.leb_gt in Hb. lia.
Qed.

(** The rescaled mantissa denotes the same number and fits the precision. *)
Lemma rescale_decimal_exact m source p scale r :
  i128_min <= m <= i128_max -> 0 <= source ->
  rescale_decimal m source p scale = Ok r ->
  0 <= scale /\ r * 10 ^ source = m * 10 ^ scale /\ Z.abs r < 10 ^ p.
Proof.
  intros Hm Hs. unfold rescale_decimal. intros H.
  apply bind_ok in H as (t & Ht & H). destruct (Z.leb_spec 0 scale); [|done].
  injection Ht as <-. apply bind_ok in H as (x & Hx & H).
  apply bind_ok in H as ([] & Hdig%ensure_ok & [= <-]). bool_prop.
  enough (x * 10 ^ source = m * 10 ^ scale /\ i128_min <= x <= i128_max) as [He Hb].
  { split_and!; [done | done |].
    destruct (decimal_digits_bound 40 (Z.abs x)) as [H1 H2].
    { split; [lia|]. change (10 ^ (Z.of_nat 40 + 1)) with (10 ^ 41).
      unfold i128_min, i128_max in Hb. lia. }
    eapply Z.lt_le_trans; [exact H2|]. apply Z.pow_le_mono_r; [lia|].
    unfold decimal_digits in *. lia. }
  destruct (Z.ltb_spec source scale); inv_ok.
  { apply checked_i128_some in Hx as [-> ?]. split; [|done].
    match goal with Hp : checked_pow10 _ = Some _ |- _ => apply checked_i128_some in Hp as [-> _] end.
    rewrite <- Z.mul_assoc, <- Z.pow_add_r by lia. do 2 f_equal. lia. }
  2:{ bool_prop. by replace source with scale by lia. }
  match goal with Hp : checked_pow10 _ = Some _ |- _ => apply checked_i128_some in Hp as [-> _] end.
  bool_prop. set (d := 10 ^ (source - scale)) in *.
  assert (0 < d) by (apply Z.pow_pos_nonneg; lia).
  pose proof (Z.quot_rem' m d) as Hqr.
  assert (m = d * Z.quot m d) as Hq by lia. split.
  - replace (10 ^ source) with (d * 10 ^ scale); [rewrite Hq at 2; ring|].
    unfold d. rewrite <- Z.pow_add_r by lia. f_equal. lia.
  - unfold i128_min, i128_max in *. nia.
Qed.

(** ** Properties *)

(** [parse_integer] accepts exactly an optional sign followed by ASCII digits
    whose value fits [i64], both bounds included, and returns that value; no
    intermediate overflow refuses a number in range. *)
Theorem parse_integer_iff_i64 v label z :
  parse_integer v label = Ok z <->
  let '(negative, digits) := split_sign v in
  digits <> [] /\ Forall (fun d => is_ascii_digit d = true) digits /\
  z = signed negative (number_from 0 digits) /\ i64_min <= z <= i64_max.
Proof. apply parse_integer_spec. Qed.

(** Field values survive the COPY text format: decoding PostgreSQL's escaping
    of any bytes gives them back, the escaped text has no delimiter and is neither
    the NULL nor the end marker, and bytea values written as [\x] hex decode to
    the same bytes. *)
Theorem copy_field_round_trip s allow :
  decode_copy_field (escape s) false = Ok s /\
  (forall b, b ∈ escape s -> b <> tab /\ b <> newline /\ b <> carriage_return) /\
  escape s <> null_marker /\ escape s <> end_marker /\
  parse_hex_into (backslash :: x78 :: hex_encode s) allow = Ok s.
Proof.
  split_and!; [apply decode_copy_field_escape | apply escape_delimiters | apply escape_markers
              | apply escape_markers |].
  unfold parse_hex_into. simpl. rewrite drop_0, hex_encode_length.
  replace (Nat.even _) with true by (symmetry; apply Nat.even_spec; by exists (length s)).
  simpl. apply hex_pairs_encode.
Qed.

(** Decoding a field panics only on an octal escape above [\377], and it does
    on [\777] ([u8::from_str_radix(...).expect(...)]): every other malformed field
    is refused with an error. *)
Theorem decode_copy_field_panics_on_octal_overflow :
  (forall raw binary, decode_copy_field raw binary = Err Panic -> octal_overflow raw) /\
  decode_copy_field (lit "\777") false = Err Panic.
Proof.
  split; [|reflexivity]. intros raw binary. unfold decode_copy_field.
  destruct (_ && _); [done|]. destruct (negb _); [done|]. apply decode_loop_panic. lia.
Qed.

(** An accepted decimal is rescaled without rounding: the result at the
    column's scale denotes exactly the parsed number and has at most the column's
    precision in digits. *)
Theorem decimal_rescaling_exact m source p scale r :
  i128_min <= m <= i128_max -> 0 <= source ->
  rescale_decimal m source p scale = Ok r ->
  0 <= scale /\ r * 10 ^ source = m * 10 ^ scale /\ Z.abs r < 10 ^ p.
Proof. apply rescale_decimal_exact. Qed.

Lemma decimal_rescaling_exact_witness :
  rescale_decimal 12500 4 5 2 = Ok 125 /\ 125 * 10 ^ 4 = 12500 * 10 ^ 2.
Proof.
  assert (rescale_decimal 12500 4 5 2 = Ok 125) as Hr by reflexivity.
  split; [exact Hr|].
  exact (proj1 (proj2 (decimal_rescaling_exact 12500 4 5 2 125
           ltac:(vm_compute; split; discriminate) ltac:(lia) Hr))).
Defined.
