(* ===== verification/CopyDecoder.v ===== *)
(** * The COPY decoder refines a byte-wise specification

    [feed] is the decoder of [CopyText] driven one byte at a time; [push] over any
    chunk computes the same ([push_feed]), so the chunk boundaries do not matter.
    [spec_feed] is what the rows mean, without buffers, limits or batches; [repr]
    relates a decoder to the rows, cells and bytes it holds. *)

From S2P Require Import Prelude CopyText CopyRowFacts CopyValues.

(** ** Specification *)

Definition to_cell (raw : list byte) : cell :=
  if bool_decide (raw = null_marker) then None else Some raw.
Definition strip_return (raw : list byte) : list byte :=
  if bool_decide (last raw = Some carriage_return) then take (length raw - 1) raw else raw.

(** The rows completed by [chunk], and the cells and bytes of the row begun. *)
Fixpoint spec_feed (chunk : list byte) (partial : list cell) (current : list byte)
    : list (list cell) * list cell * list byte :=
  match chunk with
  | [] => ([], partial, current)
  | b :: rest =>
      if bool_decide (b = tab) then spec_feed rest (partial ++ [to_cell current]) []
      else if bool_decide (b = newline) then
        let '(complete, p, c) := spec_feed rest [] [] in
        ((partial ++ [to_cell (strip_return current)]) :: complete, p, c)
      else spec_feed rest partial (current ++ [b])
  end.

(** Limits for which the [u32] field ranges cannot overflow. *)
Definition limits_ok (l : CopyBatchLimits) : Prop :=
  0 < max_bytes l /\ 0 < max_row_bytes l /\ max_bytes l + max_row_bytes l <= u32_max.

Section decoder.
Context {Float : Type} `{CopyRuntime Float}.
Abbreviation Batch := (list (list (option (Value Float)))).

(** One byte of input. *)
Definition step_byte (self : CopyTextDecoder) (b : byte)
    : result CopyError (CopyTextDecoder * list Batch) :=
  if terminated self then Err DataAfterEndMarker
  else if bool_decide (b = tab) then
    self ← add_row_bytes self 1; self ← finish_field self; Ok (self, [])
  else if bool_decide (b = newline) then
    self ← add_row_bytes self 1;
    '(outcome, _) ← end_line self;
    match outcome with None => Err DataAfterEndMarker | Some r => Ok r end
  else self ← extend_field self [b]; Ok (self, []).

Definition feed_step (s : CopyTextDecoder * list Batch) (b : byte)
    : result CopyError (CopyTextDecoder * list Batch) :=
  '(d, out) ← step_byte (fst s) b; Ok (d, snd s ++ out).
Definition feed (self : CopyTextDecoder) (chunk : list byte)
    : result CopyError (CopyTextDecoder * list Batch) :=
  try_fold feed_step chunk (self, []).

(** A batch delivered for a group of rows. *)
Definition batch_of (fs : list Field) (limit : Z) (group : list (list cell)) (batch : Batch) : Prop :=
  group <> [] /\ build_batch fs (rows_of (length fs) group) = Ok batch /\
  get_array_memory_size batch <= limit.

(** The decoder holds [complete] rows, then [partial] cells and [current] bytes. *)
Record repr (d : CopyTextDecoder) (complete : list (list cell)) (partial : list cell)
    (current : list byte) : Prop := {
  repr_rows : rows d = mkCopyRows (cells_bytes (concat complete ++ partial) ++ current)
      (layout 0 (concat complete ++ partial)) (ends 0 complete) (length (schema d));
  repr_start : field_start d = length (cells_bytes (concat complete ++ partial));
  repr_fields : row_fields d = length partial;
  repr_width : Forall (fun row => length row = length (schema d)) complete;
  repr_bytes : len (cells_bytes (concat complete ++ partial) ++ current)
      <= batch_bytes d + row_bytes d;
  repr_row_bytes : 0 <= row_bytes d <= max_row_bytes (limits d);
  repr_batch_bytes : 0 <= batch_bytes d < u32_max;
  repr_limits : limits_ok (limits d);
  repr_open : terminated d = false }.

(** ** Batches *)

Lemma bounded_batches_spec fuel fs limit complete :
  rows_ok (length fs) complete -> complete <> [] -> (length complete <= fuel)%nat ->
  match bounded_batches fuel fs (rows_of (length fs) complete) limit with
  | Ok batches => exists groups, concat groups = complete /\
      Forall2 (batch_of fs limit) groups batches
  | Err e => exists before group after, complete = before ++ group ++ after /\ group <> [] /\
      (build_batch fs (rows_of (length fs) group) = Err e \/
       e = RowExceedsBatchLimit /\ length group = 1%nat /\
       exists b, build_batch fs (rows_of (length fs) group) = Ok b /\ limit < get_array_memory_size b)
  end.
Proof.
  revert complete. induction fuel as [|fuel IH]; intros complete Hok Hne Hf.
  { destruct complete; simpl in *; [done | lia]. }
  cbn [bounded_batches]. rewrite rows_len_of.
  assert (forall m, (2 <= m -> 1 <= m / 2 < m)%nat) as Hdiv.
  { intros m Hm. pose proof (Nat.div_str_pos m 2 ltac:(lia)).
    pose proof (Nat.div_lt m 2 ltac:(lia) ltac:(lia)). lia. }
  set (n := (length complete / 2)%nat) in *. destruct (build_batch fs _) as [batch|e] eqn:Hb; simpl.
  2:{ exists [], complete, []. rewrite app_nil_r. auto. }
  destruct (Z.leb_spec (get_array_memory_size batch) limit) as [Hle|Hgt].
  { exists [complete]. split; [by rewrite concat_cons, app_nil_r|]. by constructor; [|constructor]. }
  destruct (Nat.eqb_spec (length complete) 1) as [H1|H1].
  { exists [], complete, []. rewrite app_nil_r. eauto 10. }
  assert (2 <= length complete)%nat as Hlen by (destruct complete as [|? [|]]; simpl in *; done || lia).
  assert (1 <= n < length complete)%nat as Hhalf by (by apply Hdiv).
  rewrite split_off_rows_of by (done || lia). simpl.
  destruct Hok as [Hw Hu].
  assert (len (cells_bytes (concat (take n complete))) + len (cells_bytes (concat (drop n complete)))
          = len (cells_bytes (concat complete))) as Hsum.
  { rewrite <- len_app, <- cells_bytes_app, <- concat_app. by rewrite take_drop. }
  pose proof (len_nonneg (cells_bytes (concat (take n complete)))).
  pose proof (len_nonneg (cells_bytes (concat (drop n complete)))).
  assert (rows_ok (length fs) (take n complete)) as Hlo by (split; [by apply Forall_take | lia]).
  assert (rows_ok (length fs) (drop n complete)) as Hhi by (split; [by apply Forall_drop | lia]).
  assert (take n complete <> []) as Hlo' by (intros E; apply (f_equal length) in E;
    rewrite length_take in E; simpl in E; lia).
  assert (drop n complete <> []) as Hhi' by (intros E; apply (f_equal length) in E;
    rewrite length_drop in E; simpl in E; lia).
  pose proof (IH (take n complete) Hlo Hlo' ltac:(rewrite length_take; lia)) as IHlo.
  pose proof (IH (drop n complete) Hhi Hhi' ltac:(rewrite length_drop; lia)) as IHhi.
  destruct (bounded_batches fuel fs (rows_of _ (take n complete)) limit) as [b1|e1]; simpl.
  2:{ destruct IHlo as (bf & g & af & Heq & ? & ?). exists bf, g, (af ++ drop n complete).
      split; [|done]. rewrite <- (take_drop n complete), Heq at 1. by rewrite <- !app_assoc. }
  destruct (bounded_batches fuel fs (rows_of _ (drop n complete)) limit) as [b2|e2]; simpl.
  2:{ destruct IHhi as (bf & g & af & Heq & ? & ?). exists (take n complete ++ bf), g, af.
      split; [|done]. rewrite <- (take_drop n complete), Heq at 1. by rewrite <- !app_assoc. }
  destruct IHlo as (g1 & Hg1 & ?), IHhi as (g2 & Hg2 & ?). exists (g1 ++ g2).
  split; [by rewrite concat_app, Hg1, Hg2, take_drop | by apply Forall2_app].
Qed.

(** ** Operations on the representation *)

Lemma add_row_bytes_ok (d d' : CopyTextDecoder) n :
  0 <= row_bytes d -> 0 <= n -> max_row_bytes (limits d) <= u32_max ->
  add_row_bytes d n = Ok d' <->
  row_bytes d + n <= max_row_bytes (limits d) /\
  d' = mkDecoder (schema d) (limits d) (rows d) (field_start d) (row_fields d)
         (row_bytes d + n) (batch_bytes d) (row_number d) (terminated d).
Proof.
  intros Hr Hn Hm. unfold add_row_bytes, saturating_add, u32_max, u64_max in *.
  rewrite bind_ok. setoid_rewrite ensure_ok. setoid_rewrite negb_true_iff. setoid_rewrite Z.ltb_ge.
  split.
  - intros ([] & ? & [= <-]). split; [lia|]. by rewrite Z.min_l by lia.
  - intros [? ->]. exists tt. split; [lia|]. by rewrite Z.min_l by lia.
Qed.

Lemma add_row_bytes_fits (d : CopyTextDecoder) n :
  0 <= row_bytes d -> 0 <= n -> max_row_bytes (limits d) <= u32_max ->
  row_bytes d + n <= max_row_bytes (limits d) -> exists d', add_row_bytes d n = Ok d'.
Proof. intros. eexists. by apply add_row_bytes_ok. Qed.

Lemma repr_limit d C P c : repr d C P c -> max_row_bytes (limits d) <= u32_max.
Proof. intros [_ _ _ _ _ _ _ Hl _]. destruct Hl as (? & ? & ?). lia. Qed.

Lemma repr_extend d d' C P c b :
  repr d C P c -> extend_field d b = Ok d' -> repr d' C P (c ++ b) /\
  schema d' = schema d /\ limits d' = limits d /\ batch_bytes d' = batch_bytes d.
Proof.
  intros Hr He. pose proof (repr_limit _ _ _ _ Hr) as Hlim. destruct Hr as [H1 H2 H3 H4 H5 H6 H7 H8 H9].
  unfold extend_field in He. apply bind_ok in He as (d1 & Ha & [= <-]).
  apply add_row_bytes_ok in Ha as [Hle ->]; [|lia | apply len_nonneg | done].
  split; [|done]. split; simpl; try done.
  - rewrite H1. simpl. by rewrite app_assoc.
  - rewrite app_assoc, len_app. pose proof (len_nonneg b). lia.
  - pose proof (len_nonneg b). lia.
Qed.

Lemma repr_delimiter d d' C P c :
  repr d C P c -> add_row_bytes d 1 = Ok d' -> repr d' C P c /\
  schema d' = schema d /\ limits d' = limits d /\ batch_bytes d' = batch_bytes d.
Proof.
  intros Hr Ha. pose proof (repr_limit _ _ _ _ Hr) as Hlim. destruct Hr as [H1 H2 H3 H4 H5 H6 H7 H8 H9].
  apply add_row_bytes_ok in Ha as [Hle ->]; [|lia | lia | done].
  split; [|done]. split; simpl; try done; lia.
Qed.

Lemma repr_current d C P c :
  repr d C P c -> tail_from (data (rows d)) (field_start d) = Ok c /\
  drop (field_start d) (data (rows d)) = c /\ take (field_start d) (data (rows d)) =
    cells_bytes (concat C ++ P).
Proof.
  intros [H1 H2 _ _ _ _ _ _ _]. unfold tail_from. rewrite H1, H2. simpl.
  rewrite drop_app_length, take_app_length.
  destruct (Nat.leb_spec (length (cells_bytes (concat C ++ P)))
              (length (cells_bytes (concat C ++ P) ++ c))); [done|].
  rewrite length_app in *. lia.
Qed.

Lemma repr_finish_field d d' C P c :
  repr d C P c -> finish_field d = Ok d' ->
  repr d' C (P ++ [to_cell c]) [] /\ (length P < length (schema d))%nat /\
  schema d' = schema d /\ limits d' = limits d /\ batch_bytes d' = batch_bytes d /\
  row_bytes d' = row_bytes d.
Proof.
  intros Hr Hf. destruct (repr_current _ _ _ _ Hr) as (Hcur & _ & Htake).
  destruct Hr as [H1 H2 H3 H4 H5 H6 H7 H8 H9]. unfold finish_field in Hf. rewrite Hcur in Hf.
  apply bind_ok in Hf as ([] & Hlt%ensure_ok & Hf). apply bind_ok in Hf as (c' & [= <-] & Hf).
  apply bind_ok in Hf as ([dat range] & Hcell & [= <-]).
  apply negb_true_iff, Nat.leb_gt in Hlt. rewrite H3 in Hlt.
  unfold to_cell.
  destruct (decide (c = null_marker)) as [->|Hne].
  - rewrite bool_decide_eq_true_2 in Hcell |- * by done. injection Hcell as <- <-.
    rewrite Htake. split; [|done]. split; simpl; try done.
    + rewrite H1. simpl. by rewrite app_assoc, cells_bytes_snoc, layout_snoc, !app_nil_r.
    + by rewrite app_assoc, cells_bytes_snoc, app_nil_r.
    + rewrite length_app. simpl. lia.
    + rewrite app_assoc, cells_bytes_snoc, !app_nil_r. rewrite len_app in H5.
      pose proof (len_nonneg null_marker). lia.
  - rewrite bool_decide_eq_false_2 in Hcell |- * by done.
    apply bind_ok in Hcell as (rg & Hrg & [= <- <-]).
    unfold field_range, u32_expect in Hrg. inv_ok.
    split; [|done]. split; simpl; try done.
    + rewrite H1, H2. simpl. by rewrite app_assoc, cells_bytes_snoc, layout_snoc, !app_nil_r, length_app.
    + rewrite H1. simpl. by rewrite app_assoc, cells_bytes_snoc.
    + rewrite length_app. simpl. lia.
    + by rewrite app_assoc, cells_bytes_snoc, app_nil_r.
Qed.

Lemma last_app_some {A} (l k : list A) : k <> [] -> last (l ++ k) = last k.
Proof. intros Hk. rewrite last_app. by destruct (last k) eqn:E; [|apply last_None in E]. Qed.

Lemma repr_strip d C P c :
  repr d C P c -> repr (strip_cr d) C P (strip_return c) /\
  schema (strip_cr d) = schema d /\ limits (strip_cr d) = limits d /\
  batch_bytes (strip_cr d) = batch_bytes d.
Proof.
  intros Hr. split; [|by unfold strip_cr; case_match].
  pose proof Hr as [H1 H2 H3 H4 H5 H6 H7 H8 H9]. unfold strip_cr, strip_return.
  rewrite H2, H1. simpl. destruct c as [|b c'] eqn:Hc.
  { rewrite app_nil_r. rewrite Nat.ltb_irrefl. simpl. done. }
  rewrite <- Hc in *. assert (c <> []) as Hne by (by subst).
  rewrite last_app_some by done.
  assert (1 <= length c)%nat by (subst; simpl; lia).
  rewrite (proj2 (Nat.ltb_lt _ _)) by (rewrite length_app; lia). simpl.
  case_bool_decide; [|done]. rewrite take_app_ge by (rewrite length_app; lia).
  split; simpl; try done.
  - rewrite H1. simpl. do 2 f_equal. rewrite length_app. f_equal. lia.
  - rewrite len_app in H5 |- *. unfold len in *. rewrite length_take. lia.
Qed.

Lemma repr_finish_row d d' C P c :
  repr d C P c -> batch_bytes d < max_bytes (limits d) -> finish_row d = Ok d' ->
  repr d' (C ++ [P ++ [to_cell c]]) [] [] /\
  schema d' = schema d /\ limits d' = limits d /\ row_bytes d' = 0.
Proof.
  intros Hr Hb Hf. unfold finish_row in Hf. apply bind_ok in Hf as (d1 & Hd1 & Hf).
  eapply repr_finish_field in Hd1 as (Hr1 & _ & Hs & Hl & Hbb & Hrb); [|done].
  destruct Hr1 as [H1 H2 H3 H4 H5 H6 H7 H8 H9].
  apply bind_ok in Hf as ([] & Hw%ensure_ok & [= <-]). apply Nat.eqb_eq in Hw.
  split; [|done]. rewrite app_nil_r in *. destruct H8 as (? & ? & ?).
  assert (saturating_add (batch_bytes d1) (row_bytes d1) = batch_bytes d1 + row_bytes d1) as Hsat.
  { unfold saturating_add, u32_max, u64_max in *. rewrite Z.min_l; [done|]. lia. }
  assert (concat (C ++ [P ++ [to_cell c]]) = concat C ++ P ++ [to_cell c]) as Hcc.
  { rewrite concat_app. simpl. by rewrite app_nil_r. }
  split; simpl; rewrite ?Hsat, ?app_nil_r, ?Hcc; try done.
  - rewrite H1. simpl. by rewrite ends_snoc, Hcc.
  - by rewrite H1.
  - apply Forall_app; split; [done|]. constructor; [|constructor]. by rewrite <- H3.
  - lia.
  - rewrite <- Hl in Hb. lia.
  - rewrite Hbb, Hl in *. lia.
Qed.

Lemma repr_flush d d' C out :
  repr d C [] [] -> batch_bytes d + row_bytes d < u32_max -> C <> [] -> flush d = Ok (d', out) ->
  repr d' [] [] [] /\ schema d' = schema d /\ limits d' = limits d /\ batch_bytes d' = 0 /\
  exists groups, concat groups = C /\
    Forall2 (batch_of (schema d) (max_bytes (limits d))) groups out.
Proof.
  intros [H1 H2 H3 H4 H5 H6 H7 H8 H9] Hsum Hne Hf. rewrite !app_nil_r in *.
  assert (rows d = rows_of (length (schema d)) C) as Hrows by done.
  unfold flush, rows_is_empty in Hf. rewrite Hrows, rows_len_of in Hf.
  destruct (Nat.eqb_spec (length C) 0) as [E|_]; [by apply nil_length_inv in E|].
  apply bind_ok in Hf as (batches & Hbb & [= <- <-]). split_and!; try done.
  - split; simpl; try done. unfold len. simpl. lia.
  - assert (rows_ok (length (schema d)) C) as Hok.
    { split; [done | lia]. }
    pose proof (bounded_batches_spec (length C) (schema d) (max_bytes (limits d)) C Hok Hne ltac:(lia)) as Hs.
    by rewrite Hbb in Hs.
Qed.

Lemma repr_end_line d C P c r m :
  repr d C P c -> batch_bytes d < max_bytes (limits d) -> end_line d = Ok (Some r, m) ->
  exists groups rest,
    C ++ [P ++ [to_cell (strip_return c)]] = concat groups ++ rest /\
    Forall2 (batch_of (schema d) (max_bytes (limits d))) groups (snd r) /\
    repr (fst r) rest [] [] /\ batch_bytes (fst r) < max_bytes (limits (fst r)) /\
    schema (fst r) = schema d /\ limits (fst r) = limits d.
Proof.
  intros Hr Hb He. unfold end_line in He. destruct (repr_strip _ _ _ _ Hr) as (Hr0 & Hs0 & Hl0 & Hb0).
  set (d0 := strip_cr d) in *. apply bind_ok in He as (marked & _ & He).
  destruct marked; [by inv_ok|]. apply bind_ok in He as (d1 & Hd1 & He).
  eapply repr_finish_row in Hd1 as (Hr1 & Hs1 & Hl1 & Hrb); [|done | by rewrite Hb0, Hl0].
  rewrite Hs0 in Hs1. rewrite Hl0 in Hl1. set (row := P ++ [to_cell (strip_return c)]) in *.
  apply bind_ok in He as ([d2 out] & Hfl & [= <- _]). simpl.
  unfold should_flush in Hfl. destruct (_ || _) eqn:Hsf.
  - eapply repr_flush in Hfl as (Hr2 & Hs2 & Hl2 & Hb2 & groups & Hg & Hf);
      [| done | pose proof (repr_batch_bytes _ _ _ _ Hr1); lia | by destruct C].
    exists groups, []. rewrite app_nil_r, Hg, Hs2, Hl2, Hs1, Hl1.
    rewrite Hs1, Hl1 in Hf. destruct (repr_limits _ _ _ _ Hr) as (? & _).
    split_and!; try done. by rewrite Hb2.
  - injection Hfl as <- <-. exists [], (C ++ [row]). simpl. split_and!; try done.
    apply orb_false_iff in Hsf as [_ ?]. by apply Z.leb_gt.
Qed.

(** The invariant between two bytes. *)
Definition open_repr (d : CopyTextDecoder) (C : list (list cell)) (P : list cell) (c : list byte)
    : Prop := repr d C P c /\ batch_bytes d < max_bytes (limits d).

Lemma step_byte_refines d C P c b d' out :
  open_repr d C P c -> step_byte d b = Ok (d', out) ->
  let '(new, P', c') := spec_feed [b] P c in
  exists groups rest, C ++ new = concat groups ++ rest /\
    Forall2 (batch_of (schema d) (max_bytes (limits d))) groups out /\
    open_repr d' rest P' c' /\ schema d' = schema d /\ limits d' = limits d.
Proof.
  intros [Hr Hb] Hs. unfold step_byte in Hs. rewrite (repr_open _ _ _ _ Hr) in Hs. cbn [spec_feed].
  case_bool_decide; [|case_bool_decide].
  - apply bind_ok in Hs as (d1 & Hd1 & Hs). apply bind_ok in Hs as (d2 & Hd2 & [= <- <-]).
    eapply repr_delimiter in Hd1 as (Hr1 & Hs1 & Hl1 & Hb1); [|done].
    eapply repr_finish_field in Hd2 as (Hr2 & _ & Hs2 & Hl2 & Hb2 & _); [|done].
    exists [], C. rewrite app_nil_r. unfold open_repr. rewrite Hb2, Hb1, Hl2, Hl1, Hs2, Hs1. done.
  - apply bind_ok in Hs as (d1 & Hd1 & Hs). apply bind_ok in Hs as ([outcome m] & He & Hs).
    destruct outcome as [r|]; [injection Hs as -> | done].
    eapply repr_delimiter in Hd1 as (Hr1 & Hs1 & Hl1 & Hb1); [|done].
    eapply repr_end_line in He as (groups & rest & Hg1 & Hg2 & Hg3 & Hg4 & Hg5 & Hg6);
      [|done | by rewrite Hb1, Hl1]. rewrite Hs1, Hl1 in *.
    exists groups, rest. by split_and!.
  - apply bind_ok in Hs as (d1 & Hd1 & [= <- <-]).
    eapply repr_extend in Hd1 as (Hr1 & Hs1 & Hl1 & Hb1); [|done].
    exists [], C. rewrite app_nil_r. unfold open_repr. rewrite Hb1, Hl1, Hs1. done.
Qed.

Lemma spec_feed_cons b chunk P c :
  spec_feed (b :: chunk) P c =
  let '(new, P', c') := spec_feed [b] P c in
  let '(new', P'', c'') := spec_feed chunk P' c' in (new ++ new', P'', c'').
Proof.
  cbn [spec_feed]. case_bool_decide; [|case_bool_decide];
    destruct (spec_feed chunk _ _) as [[? ?] ?]; done.
Qed.

Lemma feed_refines chunk d out0 C P c d' out :
  open_repr d C P c -> try_fold feed_step chunk (d, out0) = Ok (d', out) ->
  let '(new, P', c') := spec_feed chunk P c in
  exists groups rest out1, out = out0 ++ out1 /\ C ++ new = concat groups ++ rest /\
    Forall2 (batch_of (schema d) (max_bytes (limits d))) groups out1 /\
    open_repr d' rest P' c' /\ schema d' = schema d /\ limits d' = limits d.
Proof.
  revert d out0 C P c. induction chunk as [|b chunk IH]; intros d out0 C P c Hr Hf.
  { injection Hf as <- <-. exists [], C, []. rewrite !app_nil_r. by split_and!. }
  cbn [try_fold] in Hf. apply bind_ok in Hf as ([d1 o1] & Hs & Hf).
  unfold feed_step in Hs. apply bind_ok in Hs as ([d1' ob] & Hs & [= <- <-]). cbn [fst snd] in Hs, Hf.
  pose proof (step_byte_refines _ _ _ _ _ _ _ Hr Hs) as Hstep. rewrite spec_feed_cons.
  destruct (spec_feed [b] P c) as [[new1 P1] c1].
  destruct Hstep as (g1 & rest1 & H1 & H2 & H3 & H4 & H5).
  pose proof (IH _ _ _ _ _ H3 Hf) as Hrec. destruct (spec_feed chunk P1 c1) as [[new2 P2] c2].
  destruct Hrec as (g2 & rest2 & out2 & -> & H6 & H7 & H8 & H9 & H10). rewrite H4, H5 in *.
  exists (g1 ++ g2), rest2, (ob ++ out2). rewrite <- app_assoc. split_and!; try done.
  - rewrite app_assoc, H1, concat_app, <- !app_assoc. by rewrite H6.
  - by apply Forall2_app.
Qed.

Lemma feed_step_eq (d : CopyTextDecoder) out b :
  feed_step (d, out) b = ('(d1, o1) ← step_byte d b; Ok (d1, out ++ o1)).
Proof. done. Qed.

Lemma feed_acc chunk (d : CopyTextDecoder) out :
  try_fold feed_step chunk (d, out) = ('(d', out') ← feed d chunk; Ok (d', out ++ out')).
Proof.
  unfold feed. revert d out. induction chunk as [|b chunk IH]; intros d out; cbn [try_fold].
  { simpl. by rewrite app_nil_r. }
  rewrite !feed_step_eq. destruct (step_byte d b) as [[d1 o1]|e]; simpl; [|done].
  rewrite (IH d1 (out ++ o1)), (IH d1 o1). destruct (try_fold feed_step chunk (d1, [])) as [[d2 o2]|];
    simpl; [by rewrite app_assoc | done].
Qed.

Lemma feed_app (d : CopyTextDecoder) a b :
  feed d (a ++ b) = ('(d1, o1) ← feed d a; '(d2, o2) ← feed d1 b; Ok (d2, o1 ++ o2)).
Proof.
  unfold feed at 1. rewrite try_fold_app. fold (feed d a).
  destruct (feed d a) as [[d1 o1]|]; simpl; [apply feed_acc | done].
Qed.

(** ** Whole chunks *)

Lemma extend_field_eq (d : CopyTextDecoder) x :
  0 <= row_bytes d -> max_row_bytes (limits d) <= u32_max ->
  extend_field d x =
  if row_bytes d + len x <=? max_row_bytes (limits d)
  then Ok (mkDecoder (schema d) (limits d)
             (mkCopyRows (data (rows d) ++ x) (fields (rows d)) (row_ends (rows d)) (columns (rows d)))
             (field_start d) (row_fields d) (row_bytes d + len x) (batch_bytes d) (row_number d)
             (terminated d))
  else Err (RowTooLarge (row_number d)).
Proof.
  intros Hr Hm. unfold extend_field, add_row_bytes, saturating_add, u32_max, u64_max in *.
  pose proof (len_nonneg x). destruct (Z.leb_spec (row_bytes d + len x) (max_row_bytes (limits d))).
  - rewrite Z.min_l by lia. rewrite (proj2 (Z.ltb_ge _ _)) by lia. done.
  - rewrite (proj2 (Z.ltb_lt _ _)) by lia. done.
Qed.

Lemma extend_field_app (d : CopyTextDecoder) x y :
  0 <= row_bytes d -> max_row_bytes (limits d) <= u32_max ->
  extend_field d (x ++ y) = (d1 ← extend_field d x; extend_field d1 y).
Proof.
  intros Hr Hm. pose proof (len_nonneg x). pose proof (len_nonneg y).
  rewrite !extend_field_eq, len_app by done.
  destruct (Z.leb_spec (row_bytes d + len x) (max_row_bytes (limits d))); simpl.
  - rewrite extend_field_eq by (simpl; lia). simpl. rewrite Z.add_assoc, <- app_assoc. done.
  - rewrite (proj2 (Z.leb_gt _ _)) by lia. done.
Qed.

Lemma extend_field_nil (d : CopyTextDecoder) :
  0 <= row_bytes d <= max_row_bytes (limits d) -> max_row_bytes (limits d) <= u32_max ->
  extend_field d [] = Ok d.
Proof.
  intros Hr Hm. rewrite extend_field_eq by lia. unfold len; simpl. rewrite Z.add_0_r.
  rewrite (proj2 (Z.leb_le _ _)) by lia. rewrite app_nil_r. by destruct d as [? ? [] ? ? ? ? ? ?].
Qed.

Definition no_delimiter (s : list byte) : Prop := Forall (fun b => b <> tab /\ b <> newline) s.

Lemma feed_plain before d C P c out :
  no_delimiter before -> open_repr d C P c ->
  try_fold feed_step before (d, out) = (d' ← extend_field d before; Ok (d', out)).
Proof.
  intros Hn. revert d c. induction Hn as [|b before [Ht Hnl] _ IH]; intros d c [Hr Hb].
  { rewrite extend_field_nil; [done | apply (repr_row_bytes _ _ _ _ Hr) | by eapply repr_limit]. }
  pose proof (repr_limit _ _ _ _ Hr) as Hlim. pose proof (repr_row_bytes _ _ _ _ Hr) as Hrb.
  change (b :: before) with ([b] ++ before) at 2.
  rewrite (extend_field_app d [b] before) by (done || lia). cbn [try_fold].
  unfold feed_step, step_byte. cbn [fst snd]. rewrite (repr_open _ _ _ _ Hr).
  rewrite !bool_decide_eq_false_2 by done.
  destruct (extend_field d [b]) as [d1|e] eqn:Hd1; simpl; [|done]. rewrite app_nil_r.
  eapply repr_extend in Hd1 as (Hr1 & Hs1 & Hl1 & Hb1); [|done].
  eapply IH. split; [done|]. by rewrite Hb1, Hl1.
Qed.

Lemma memchr2_spec s :
  match memchr2 s with
  | None => no_delimiter s
  | Some (before, delimiter, after) =>
      s = before ++ delimiter :: after /\ no_delimiter before /\
      (delimiter = tab \/ delimiter = newline)
  end.
Proof.
  induction s as [|b s IH]; simpl; [constructor|].
  case_bool_decide; simpl; [split_and!; [by subst | constructor | by left]|].
  case_bool_decide; simpl; [split_and!; [by subst | constructor | by right]|].
  destruct (memchr2 s) as [[[before delimiter] after]|]; [|by constructor].
  destruct IH as (-> & ? & ?). split_and!; [done | by constructor | done].
Qed.

Lemma push_loop_feed fuel d remaining bs C P c d' bs' :
  open_repr d C P c -> (length remaining + 1 < fuel)%nat ->
  (length bs <= MAX_BATCHES_PER_COPY_CHUNK)%nat ->
  push_loop fuel d remaining bs = Ok (d', bs') <->
  try_fold feed_step remaining (d, bs) = Ok (d', bs') /\
  (length bs' <= MAX_BATCHES_PER_COPY_CHUNK)%nat.
Proof.
  revert d remaining bs C P c. induction fuel as [|fuel IH]; intros d remaining bs C P c Hr Hf Hbs; [lia|].
  cbn [push_loop]. destruct remaining as [|b0 rem] eqn:Hrem; [naive_solver|]. rewrite <- Hrem in *.
  assert (length remaining <> 0)%nat as Hlen by (by rewrite Hrem). clear b0 rem Hrem.
  rewrite (repr_open _ _ _ _ (proj1 Hr)). pose proof (memchr2_spec remaining) as Hm.
  destruct (memchr2 remaining) as [[[before delimiter] after]|].
  2:{ rewrite (feed_plain _ _ _ _ _ _ Hm Hr). destruct (extend_field d remaining); simpl; naive_solver. }
  destruct Hm as (Heq & Hn & Hd). replace (try_fold feed_step remaining (d, bs))
    with (try_fold feed_step (before ++ delimiter :: after) (d, bs)) by (by rewrite Heq).
  rewrite try_fold_app, (feed_plain _ _ _ _ _ _ Hn Hr).
  assert (length after + 1 < fuel)%nat as Hfa.
  { rewrite Heq, length_app in Hf. simpl in Hf. lia. }
  destruct (extend_field d before) as [d1|e] eqn:Hd1; simpl; [|naive_solver].
  pose proof (repr_extend _ _ _ _ _ _ (proj1 Hr) Hd1) as (Hr1 & Hs1 & Hl1 & Hb1).
  assert (open_repr d1 C P (c ++ before)) as Ho1 by (split; [done | by rewrite Hb1, Hl1; apply Hr]).
  pose proof (step_byte_refines d1 C P (c ++ before) delimiter) as Hstep.
  cbn [try_fold].
  rewrite feed_step_eq. unfold step_byte in *. rewrite (repr_open _ _ _ _ Hr1) in *.
  destruct (add_row_bytes d1 1) as [d2|e]; simpl in *.
  2:{ destruct Hd as [-> | ->]; simpl; by split; [|intros [? _]]. }
  destruct Hd as [-> | ->]; simpl in *.
  - destruct (finish_field d2) as [d3|e]; simpl in *; [|by split; [|intros [? _]]]. rewrite app_nil_r.
    destruct (Hstep d3 [] Ho1 eq_refl) as (g & rest & _ & _ & Ho3 & _). by eapply IH.
  - destruct (end_line d2) as [[[[d3 out]|] marked]|e] eqn:He; simpl in *; [| |by split; [|intros [? _]]].
    + destruct (Hstep d3 out Ho1 eq_refl) as (g & rest & _ & _ & Ho3 & _).
      destruct (Nat.leb_spec (length (bs ++ out)) MAX_BATCHES_PER_COPY_CHUNK) as [Hle|Hgt]; simpl.
      * by eapply IH.
      * split; [done|]. intros [Hfeed Hle]. pose proof (feed_refines _ _ _ _ _ _ _ _ Ho3 Hfeed) as Href.
        destruct (spec_feed after [] []) as [[? ?] ?]. destruct Href as (? & ? & out1 & -> & _).
        rewrite length_app in Hle. lia.
    + split; [|by intros [? _]]. destruct fuel as [|fuel]; [lia|]. cbn [push_loop].
      assert (terminated marked = true) as ->.
      { unfold end_line in He. apply bind_ok in He as ([|] & _ & He); [by injection He as <-|].
        inv_ok. }
      destruct remaining; done.
Qed.

Lemma push_feed d chunk C P c d' bs :
  open_repr d C P c ->
  push d chunk = Ok (d', bs) <->
  feed d chunk = Ok (d', bs) /\ (length bs <= MAX_BATCHES_PER_COPY_CHUNK)%nat.
Proof.
  intros Hr. unfold push, feed. rewrite (repr_open _ _ _ _ (proj1 Hr)). cbn [andb].
  apply (push_loop_feed _ _ _ _ C P c); [done | lia | simpl; lia].
Qed.

(** At a row boundary, [finish] delivers all rows held. *)
Lemma finish_delivers d C d' out :
  open_repr d C [] [] -> finish d = Ok (d', out) ->
  exists groups, concat groups = C /\
    Forall2 (batch_of (schema d) (max_bytes (limits d))) groups out.
Proof.
  intros [Hr Hb] Hf. unfold finish in Hf.
  assert (field_start d = length (data (rows d))) as Hfs.
  { rewrite (repr_start _ _ _ _ Hr), (repr_rows _ _ _ _ Hr). simpl. by rewrite !app_nil_r. }
  rewrite (repr_open _ _ _ _ Hr), Hfs, Nat.ltb_irrefl, (repr_fields _ _ _ _ Hr) in Hf. simpl in Hf.
  destruct C as [|row C].
  - unfold flush, rows_is_empty, rows_len in Hf. rewrite (repr_rows _ _ _ _ Hr) in Hf. simpl in Hf.
    injection Hf as <- <-. exists []. split; [done | constructor].
  - pose proof (repr_row_bytes _ _ _ _ Hr). destruct (repr_limits _ _ _ _ Hr) as (? & ? & ?).
    eapply (repr_flush d d' (row :: C) out) in Hf as (_ & _ & _ & _ & Hg); [done | done | lia | done].
Qed.

Lemma new_decoder_repr fs l d : new_decoder fs l = Ok d -> limits_ok l -> open_repr d [] [] [].
Proof.
  unfold new_decoder. intros Hn Hl. inv_ok. destruct Hl as (? & ? & ?).
  split; [split; simpl; try done; unfold len, u32_max in *; simpl; lia | done].
Qed.
End decoder.

(** ** The text of rows *)

Definition encode_cell (c : cell) : list byte :=
  match c with None => null_marker | Some s => escape s end.
Fixpoint encode_row (row : list cell) : list byte :=
  match row with
  | [] => []
  | [c] => encode_cell c ++ [newline]
  | c :: rest => encode_cell c ++ tab :: encode_row rest
  end.
Definition encode_rows (rs : list (list cell)) : list byte := concat (map encode_row rs).

Definition raw_row (row : list cell) : list cell := map (fmap escape) row.

Lemma encode_cell_plain c : no_delimiter (encode_cell c).
Proof.
  destruct c as [s|]; simpl; [|repeat constructor; done].
  apply Forall_forall. intros b Hb. apply escape_delimiters in Hb. naive_solver.
Qed.

Lemma spec_feed_plain s rest P c :
  no_delimiter s -> spec_feed (s ++ rest) P c = spec_feed rest P (c ++ s).
Proof.
  intros Hs. revert c. induction Hs as [|b s [? ?] _ IH]; intros c; [by rewrite app_nil_r|].
  cbn [spec_feed app]. rewrite !bool_decide_eq_false_2 by done. rewrite IH. by rewrite <- app_assoc.
Qed.

Lemma to_cell_encode c : to_cell (encode_cell c) = fmap escape c.
Proof.
  unfold to_cell. destruct c as [s|]; simpl; [|done].
  rewrite bool_decide_eq_false_2; [done|]. apply escape_markers.
Qed.

Lemma strip_return_encode c : strip_return (encode_cell c) = encode_cell c.
Proof.
  unfold strip_return. case_bool_decide as Hl; [|done]. exfalso.
  destruct c as [s|]; [|done]. apply last_Some_elem_of, escape_delimiters in Hl. naive_solver.
Qed.

Lemma spec_feed_row row rest P :
  row <> [] -> spec_feed (encode_row row ++ rest) P [] =
  let '(complete, p, c) := spec_feed rest [] [] in ((P ++ raw_row row) :: complete, p, c).
Proof.
  revert P. induction row as [|x [|y row] IH]; intros P Hne; [done| |].
  - cbn [encode_row]. rewrite <- app_assoc, spec_feed_plain by apply encode_cell_plain.
    cbn [spec_feed app]. rewrite bool_decide_eq_false_2, bool_decide_eq_true_2 by done.
    rewrite strip_return_encode, to_cell_encode. done.
  - change (encode_row (x :: y :: row)) with (encode_cell x ++ tab :: encode_row (y :: row)).
    rewrite <- app_assoc, spec_feed_plain by apply encode_cell_plain.
    cbn [app]. cbn [spec_feed]. rewrite bool_decide_eq_true_2, to_cell_encode by done.
    rewrite IH by done. destruct (spec_feed rest [] []) as [[? ?] ?]. by rewrite <- app_assoc.
Qed.

Lemma spec_feed_rows rs :
  Forall (fun row => row <> []) rs -> spec_feed (encode_rows rs) [] [] = (map raw_row rs, [], []).
Proof.
  induction 1 as [|row rs Hrow _ IH]; [done|].
  change (encode_rows (row :: rs)) with (encode_row row ++ encode_rows rs).
  rewrite spec_feed_row, IH by done. done.
Qed.

(** ** Properties *)

#[local] Instance sample_runtime : CopyRuntime unit := {
  parse_f32 _ := None; parse_f64 _ := None; parse_rust_decimal _ := None;
  parse_naive_date _ := None; parse_naive_datetime _ := None;
  with_precision_and_scale _ _ _ := true; try_new _ := true;
  get_array_memory_size arrays := Z.of_nat (foldl (fun n a => n + 16 * length a) 0 arrays)%nat }.

Definition sample_fields : list Field := [mkField Int64 false; mkField Utf8 false].
Definition sample_limits : CopyBatchLimits := mkCopyBatchLimits 2 64 32.
Definition sample_decoder : CopyTextDecoder :=
  mkDecoder sample_fields sample_limits (new_rows 2) 0 0 0 0 1 false.
Definition sample_rows : list (list cell) :=
  [[Some (lit "1"); Some (lit "a")]; [Some (lit "2"); None]; [Some (lit "3"); Some (lit "c")]].

Lemma sample_decoder_open : open_repr sample_decoder [] [] [].
Proof.
  apply (new_decoder_repr sample_fields sample_limits); [reflexivity|].
  unfold limits_ok, u32_max. simpl. lia.
Qed.

(** C28: nothing is lost, reordered or invented between the wire and the batches:
    when a chunk is accepted, the rows held before it and the rows it completes are,
    in order, the rows of the batches delivered and the rows still held, and each
    batch is the build of its rows within the batch byte limit. *)
Theorem push_delivers_rows {Float} `{CopyRuntime Float} (d : CopyTextDecoder) C P c chunk d'
    (batches : list (list (list (option (Value Float))))) :
  open_repr d C P c -> push d chunk = Ok (d', batches) ->
  let '(new, P', c') := spec_feed chunk P c in
  exists groups rest, C ++ new = concat groups ++ rest /\
    Forall2 (batch_of (schema d) (max_bytes (limits d))) groups batches /\
    open_repr d' rest P' c'.
Proof.
  intros Hr [Hf _]%(push_feed d chunk C P c); [|done].
  pose proof (feed_refines _ _ _ _ _ _ _ _ Hr Hf) as Href.
  destruct (spec_feed chunk P c) as [[new P'] c'].
  destruct Href as (groups & rest & out & -> & ? & ? & ? & _). by exists groups, rest.
Qed.

Lemma push_delivers_rows_witness :
  exists d' batches, push sample_decoder (encode_rows sample_rows) = Ok (d', batches) /\
    length batches = 1%nat /\
    exists groups rest, map raw_row sample_rows = concat groups ++ rest /\
      Forall2 (batch_of sample_fields 64) groups batches /\ open_repr d' rest [] [].
Proof.
  assert (exists r, push sample_decoder (encode_rows sample_rows) = Ok r /\
            length (snd r) = 1%nat) as ([d' batches] & Hp & Hl)
    by (eexists; split; [vm_compute; reflexivity | reflexivity]).
  exists d', batches. split; [exact Hp|]. split; [exact Hl|].
  pose proof (push_delivers_rows sample_decoder [] [] [] _ _ _ sample_decoder_open Hp) as Hd.
  rewrite spec_feed_rows in Hd by (repeat constructor; done). exact Hd.
Defined.

(** The chunk boundaries do not matter: pushing [a ++ b] gives the state and
    batches of pushing [a] and then [b], and conversely two accepted pushes whose
    batches fit the per-chunk limit are accepted as one chunk with the same result. *)
Theorem push_chunking {Float} `{CopyRuntime Float} (d : CopyTextDecoder) C P c a b :
  open_repr d C P c ->
  (forall d2 (bs : list (list (list (option (Value Float))))), push d (a ++ b) = Ok (d2, bs) ->
     exists d1 bs1 bs2, push d a = Ok (d1, bs1) /\ push d1 b = Ok (d2, bs2) /\ bs = bs1 ++ bs2) /\
  (forall d1 (bs1 : list (list (list (option (Value Float))))) d2 bs2,
     push d a = Ok (d1, bs1) -> push d1 b = Ok (d2, bs2) ->
     (length (bs1 ++ bs2) <= MAX_BATCHES_PER_COPY_CHUNK)%nat ->
     push d (a ++ b) = Ok (d2, bs1 ++ bs2)).
Proof.
  intros Hr. split.
  - intros d2 bs [Hf Hlen]%(push_feed _ _ C P c); [|done]. rewrite feed_app in Hf.
    apply bind_ok in Hf as ([d1 o1] & Ha & Hf). apply bind_ok in Hf as ([d2' o2] & Hb & [= -> <-]).
    rewrite length_app in Hlen. pose proof (feed_refines _ _ _ _ _ _ _ _ Hr Ha) as Href.
    destruct (spec_feed a P c) as [[new P'] c']. destruct Href as (g & rest & ? & _ & _ & _ & Hr1 & _).
    exists d1, o1, o2. split_and!; [| |done].
    + apply (push_feed _ _ C P c); [done | split; [done | lia]].
    + apply (push_feed _ _ rest P' c'); [done | split; [done | lia]].
  - intros d1 bs1 d2 bs2 [Ha _]%(push_feed _ _ C P c) Hb Hlen; [|done].
    pose proof (feed_refines _ _ _ _ _ _ _ _ Hr Ha) as Href.
    destruct (spec_feed a P c) as [[new P'] c']. destruct Href as (g & rest & ? & _ & _ & _ & Hr1 & _).
    apply (push_feed _ _ rest P' c') in Hb as [Hb _]; [|done].
    apply (push_feed _ _ C P c); [done|]. split; [|done]. by rewrite feed_app, Ha; simpl; rewrite Hb.
Qed.

Lemma push_chunking_witness :
  exists d1 bs1 d2 bs2,
    push sample_decoder (lit "1") = Ok (d1, bs1) /\
    push d1 (drop 1 (encode_rows sample_rows)) = Ok (d2, bs2) /\
    push sample_decoder (encode_rows sample_rows) = Ok (d2, bs1 ++ bs2).
Proof.
  assert (exists r, push sample_decoder (lit "1" ++ drop 1 (encode_rows sample_rows)) = Ok r)
    as ([d2 bs] & Hp) by (eexists; vm_compute; reflexivity).
  destruct (proj1 (push_chunking sample_decoder [] [] [] (lit "1")
              (drop 1 (encode_rows sample_rows)) sample_decoder_open) d2 bs Hp)
    as (d1 & bs1 & bs2 & H1 & H2 & H3).
  exists d1, bs1, d2, bs2. split; [exact H1|]. split; [exact H2|]. rewrite <- H3. exact Hp.
Defined.

(** C31: rows written in the COPY text format come back: when a fresh decoder
    accepts the text of [rs] (cells escaped, NULL as [\N]) and then finishes, the
    batches of both calls are the builds of consecutive groups of rows whose cells,
    taken together in order, are exactly the escaped cells of [rs]. *)
Theorem copy_rows_round_trip {Float} `{CopyRuntime Float} fs l d rs d' d''
    (batches more : list (list (list (option (Value Float))))) :
  new_decoder fs l = Ok d -> limits_ok l -> Forall (fun row => row <> []) rs ->
  push d (encode_rows rs) = Ok (d', batches) -> finish d' = Ok (d'', more) ->
  exists groups, map raw_row rs = concat groups /\
    Forall2 (batch_of fs (max_bytes l)) groups (batches ++ more).
Proof.
  intros Hn Hl Hrs Hp Hfin. pose proof (new_decoder_repr _ _ _ Hn Hl) as Hr.
  assert (schema d = fs /\ limits d = l) as [Hs Hlim] by (unfold new_decoder in Hn; by inv_ok).
  apply (push_feed _ _ [] [] []) in Hp as [Hf _]; [|done].
  pose proof (feed_refines _ _ _ _ _ _ _ _ Hr Hf) as Href. rewrite spec_feed_rows in Href by done.
  destruct Href as (groups & rest & out & -> & Heq & ? & Hr' & Hs' & Hl').
  eapply finish_delivers in Hfin as (groups' & Hg' & ?); [|done]. rewrite Hs', Hl', Hs, Hlim in *.
  exists (groups ++ groups'). split; [by rewrite concat_app, Hg' | by apply Forall2_app].
Qed.

Lemma copy_rows_round_trip_witness :
  exists d' d'' batches more, push sample_decoder (encode_rows sample_rows) = Ok (d', batches) /\
    finish d' = Ok (d'', more) /\ length (batches ++ more) = 2%nat /\
    exists groups, map raw_row sample_rows = concat groups /\
      Forall2 (batch_of sample_fields 64) groups (batches ++ more).
Proof.
  assert (exists r s, push sample_decoder (encode_rows sample_rows) = Ok r /\
            finish (fst r) = Ok s /\ length (snd r ++ snd s) = 2%nat)
    as ([d' batches] & [d'' more] & Hp & Hf & Hl).
  { eexists _, _. split; [vm_compute; reflexivity|]. split; [vm_compute; reflexivity | reflexivity]. }
  exists d', d'', batches, more. split; [exact Hp|]. split; [exact Hf|]. split; [exact Hl|].
  refine (copy_rows_round_trip sample_fields sample_limits sample_decoder sample_rows d' d'' batches more
            eq_refl _ _ Hp Hf); [unfold limits_ok, u32_max; simpl; lia | repeat constructor; done].
Defined.

(** C40: [bounded_batches] splits a non-empty list of rows into consecutive groups
    whose batches are within the byte limit; it fails only when the rows of some
    group do not build or when a single row is over the limit, never by running
    out of rows to split. *)
Theorem bounded_batches_partition {Float} `{CopyRuntime Float} fs limit complete :
  rows_ok (length fs) complete -> complete <> [] ->
  match bounded_batches (length complete) fs (rows_of (length fs) complete) limit with
  | Ok batches => exists groups, concat groups = complete /\
      Forall2 (batch_of fs limit) groups batches
  | Err e => exists before group after, complete = before ++ group ++ after /\ group <> [] /\
      (build_batch fs (rows_of (length fs) group) = Err e \/
       e = RowExceedsBatchLimit /\ length group = 1%nat /\
       exists b, build_batch fs (rows_of (length fs) group) = Ok b /\
                 limit < get_array_memory_size b)
  end.
Proof. intros Hok Hne. by apply bounded_batches_spec. Qed.

Lemma bounded_batches_partition_witness :
  match bounded_batches 3 sample_fields (rows_of 2 sample_rows) 40 with
  | Ok batches => length batches = 3%nat /\ exists groups, concat groups = sample_rows /\
      Forall2 (batch_of sample_fields 40) groups batches
  | Err _ => False
  end.
Proof.
  assert (rows_ok 2 sample_rows) as Hok by (split; [repeat constructor | vm_compute; reflexivity]).
  pose proof (bounded_batches_partition sample_fields 40 sample_rows Hok ltac:(discriminate)) as Hb.
  cbn [length sample_fields sample_rows] in Hb.
  destruct (bounded_batches 3 sample_fields (rows_of 2 sample_rows) 40) as [batches|e] eqn:He.
  - split; [|exact Hb]. vm_compute in He. injection He as <-. reflexivity.
  - vm_compute in He. discriminate He.
Defined.

(** The end-of-data marker is never accepted: at the start of a row, a chunk
    that is exactly the marker line is refused as data after the end marker,
    because the loop continues without advancing past the line; so no accepted
    push ever leaves a decoder terminated. *)
Theorem end_marker_always_refused {Float} `{CopyRuntime Float} (d : CopyTextDecoder) C :
  open_repr d C [] [] -> row_bytes d + 3 <= max_row_bytes (limits d) ->
  push d (end_marker ++ [newline]) = (Err DataAfterEndMarker
    : result _ (_ * list (list (list (option (Value Float)))))) /\
  (forall chunk d' (bs : list (list (list (option (Value Float))))),
     push d chunk = Ok (d', bs) -> terminated d' = false).
Proof.
  intros [Hr Hb] Hroom. pose proof (repr_limit _ _ _ _ Hr) as Hlim.
  pose proof (repr_row_bytes _ _ _ _ Hr) as Hrb. split.
  - unfold push. rewrite (repr_open _ _ _ _ Hr). cbn [andb].
    change (length (end_marker ++ [newline])) with 3%nat. cbn [push_loop app end_marker].
    rewrite (repr_open _ _ _ _ Hr).
    change (memchr2 [backslash; x2e; newline]) with (Some ([backslash; x2e], newline, @nil byte)).
    cbv beta iota. destruct (extend_field d [backslash; x2e]) as [d1|e] eqn:Hd1; simpl.
    2:{ rewrite extend_field_eq in Hd1 by lia. unfold len in Hd1; simpl in Hd1.
        rewrite (proj2 (Z.leb_le _ _)) in Hd1 by lia. done. }
    assert (row_bytes d1 = row_bytes d + 2) as Hrb1.
    { rewrite extend_field_eq in Hd1 by lia. destruct (_ <=? _); [by injection Hd1 as <- | done]. }
    eapply repr_extend in Hd1 as (Hr1 & _ & Hl1 & _); [|done]. simpl in Hr1.
    destruct (add_row_bytes d1 1) as [d2|e] eqn:Hd2; simpl.
    2:{ destruct (add_row_bytes_fits d1 1) as [d2 ?]; [lia | lia | by rewrite Hl1 | | congruence].
        rewrite Hrb1, Hl1. lia. }
    eapply repr_delimiter in Hd2 as (Hr2 & _); [|done].
    destruct (repr_strip _ _ _ _ Hr2) as (Hr3 & _). change (strip_return end_marker) with end_marker in Hr3.
    destruct (repr_current _ _ _ _ Hr3) as (Hcur & _ & _).
    unfold end_line. rewrite (repr_fields _ _ _ _ Hr3). simpl. rewrite Hcur. reflexivity.
  - intros chunk d' bs [Hf _]%(push_feed _ _ C [] []); [|done].
    pose proof (feed_refines _ _ _ _ _ _ _ _ (conj Hr Hb) Hf) as Href.
    destruct (spec_feed chunk [] []) as [[? ?] ?]. destruct Href as (? & ? & ? & _ & _ & _ & [Hr' _] & _).
    apply (repr_open _ _ _ _ Hr').
Qed.

Lemma end_marker_always_refused_witness :
  push sample_decoder (end_marker ++ [newline]) = Err DataAfterEndMarker.
Proof.
  exact (proj1 (end_marker_always_refused sample_decoder [] sample_decoder_open
                  ltac:(vm_compute; discriminate))).
Defined.
