(* ===== verification/CopySession.v ===== *)
(** * COPY sessions ([quackgis-server/src/pgwire_server/duckdb.rs])

    A COPY runs on two tasks.  The session task decodes the client's data
    ([on_copy_data], [on_copy_done], [on_copy_fail]) and sends batches over a channel of
    capacity two; the worker ingests what [CopyBatchReader] yields and succeeds only after
    [Finish].  Cancel requests, the statement deadline, errors and a dropped session abort the
    input by setting a flag and then trying to wake the reader ([CopyCancellation]).

    One step is one atomic action of one of them.  The reader's channel is never closed: the
    worker's own guards hold a sender. *)

From S2P Require Import Prelude CopyText CopyRowFacts CopyValues CopyDecoder.
#[local] Open Scope Z_scope.

Section copy_session.
Context {Float : Type} `{CopyRuntime Float}.
Abbreviation Batch := (list (list (option (Value Float)))).

(** [CopyBatchMessage] *)
Inductive CopyBatchMessage := BatchMessage (b : Batch) | Finish | Abort.

(** What the client is told *)
Inductive CopyFailure :=
  | NoActiveCopy
  | ChunkTooLarge
  | DecodeFailed (e : CopyError)
  | IngestAborted
  | WorkerFailed
  | CopyAborted.
Inductive Reply := CommandComplete (rows : Z) | ErrorReply (e : CopyFailure).

(** [CopyRequest], less the handles that its place in the session stands for *)
Record CopyRequest := mkCopyRequest {
  request_decoder : CopyTextDecoder;
  request_rows : Z;
  request_bytes : Z;
  request_batches : Z;
  max_chunk_bytes : Z }.

(** The session task: where it is in its handler.  [permit] is a reserved slot of the channel. *)
Inductive Task :=
  | Ready
  | SendingData (permit : bool) (batches : list Batch)
  | SendingRest (permit : bool) (batches : list Batch) (r : CopyRequest)
  | SendingFinish (permit : bool) (r : CopyRequest)
  | AwaitingWorker (r : CopyRequest)
  (* [cleanup_aborted_copy] *)
  | AbortStore (e : CopyFailure)
  | AbortWake (e : CopyFailure)
  | AbortJoin (e : CopyFailure)
  (* [CopyRequest::drop] of an unfinished request *)
  | DropStore (e : option CopyFailure)
  | DropWake (e : option CopyFailure)
  | Gone.

(** The worker: before [CopyBatchReader::next] looks at the flag, waiting for a message, after
    the end of the input, and done.  [ingested] are the batches it was given. *)
Inductive Worker :=
  | Check (ingested : list Batch)
  | Recv (ingested : list Batch)
  | Ended (ingested : list Batch)
  | WorkerOk (ingested : list Batch)
  | WorkerErr.

(** [input], [produced] and [input_done] record the data accepted, the batches it gave and
    whether the client finished it; [metric] is what was recorded of this COPY. *)
Record System := mkSystem {
  request : option CopyRequest;
  task : Task;
  queue : list CopyBatchMessage;
  aborted : bool;
  worker : Worker;
  pending_wakes : nat;
  metric : option bool;
  replies : list Reply;
  input : list byte;
  produced : list Batch;
  input_done : bool }.

Definition set_task (t : Task) (y : System) : System :=
  mkSystem (request y) t (queue y) (aborted y) (worker y) (pending_wakes y) (metric y) (replies y) (input y) (produced y) (input_done y).
Definition set_request (r : option CopyRequest) (t : Task) (y : System) : System :=
  mkSystem r t (queue y) (aborted y) (worker y) (pending_wakes y) (metric y) (replies y) (input y) (produced y) (input_done y).
Definition set_queue (q : list CopyBatchMessage) (y : System) : System :=
  mkSystem (request y) (task y) q (aborted y) (worker y) (pending_wakes y) (metric y) (replies y) (input y) (produced y) (input_done y).
Definition set_aborted (y : System) : System :=
  mkSystem (request y) (task y) (queue y) true (worker y) (pending_wakes y) (metric y) (replies y) (input y) (produced y) (input_done y).
Definition set_worker (w : Worker) (y : System) : System :=
  mkSystem (request y) (task y) (queue y) (aborted y) w (pending_wakes y) (metric y) (replies y) (input y) (produced y) (input_done y).
Definition set_wakes (n : nat) (y : System) : System :=
  mkSystem (request y) (task y) (queue y) (aborted y) (worker y) n (metric y) (replies y) (input y) (produced y) (input_done y).
(** [metrics_recorded.compare_exchange(false, true)] *)
Definition record (completed : bool) (y : System) : System :=
  mkSystem (request y) (task y) (queue y) (aborted y) (worker y) (pending_wakes y)
    (Some (default completed (metric y))) (replies y) (input y) (produced y) (input_done y).
Definition reply (r : Reply) (y : System) : System :=
  mkSystem (request y) (task y) (queue y) (aborted y) (worker y) (pending_wakes y) (metric y) (replies y ++ [r])
    (input y) (produced y) (input_done y).
Definition take_input (data : list byte) (batches : list Batch) (last : bool) (y : System) : System :=
  mkSystem (request y) (task y) (queue y) (aborted y) (worker y) (pending_wakes y) (metric y) (replies y)
    (input y ++ data) (produced y ++ batches) last.

(** ** The channel *)

Definition CAPACITY : nat := 2.
Definition holds_permit (t : Task) : nat :=
  match t with SendingData true _ | SendingRest true _ _ | SendingFinish true _ => 1 | _ => 0 end.
Definition has_room (y : System) : bool := (length (queue y) + holds_permit (task y) <? CAPACITY)%nat.
(** The receiver is dropped when the worker ends. *)
Definition stopped (w : Worker) : bool := match w with WorkerOk _ | WorkerErr => true | _ => false end.
Definition push_message (m : CopyBatchMessage) (y : System) : System :=
  if stopped (worker y) then y else set_queue (queue y ++ [m]) y.
(** [wake.try_send(Abort)] *)
Definition try_wake (y : System) : System := if has_room y then push_message Abort y else y.

(** ** The session task *)

Definition num_rows (b : Batch) : Z := match b with column :: _ => len column | [] => 0 end.
Definition total_rows (bs : list Batch) : Z := foldr (fun b n => num_rows b + n) 0 bs.
(** [decode_copy_data] *)
Definition count_batches (d : CopyTextDecoder) (bytes : Z) (batches : list Batch) (r : CopyRequest) : CopyRequest :=
  mkCopyRequest d (saturating_add (request_rows r) (total_rows batches)) (saturating_add (request_bytes r) bytes)
    (saturating_add (request_batches r) (len batches)) (max_chunk_bytes r).
Definition decode_copy_data (r : CopyRequest) (data : list byte) : result CopyFailure (CopyRequest * list Batch) :=
  _ ← ensure (negb (max_chunk_bytes r <? len data)) ChunkTooLarge;
  '(d, batches) ← map_err DecodeFailed (push (request_decoder r) data);
  Ok (count_batches d (len data) batches r, batches).

(** [on_copy_data], up to its first [send] *)
Definition on_copy_data (data : list byte) (y : System) : System :=
  match request y with
  | None => reply (ErrorReply NoActiveCopy) y
  | Some r =>
      match decode_copy_data r data with
      | Err e => set_request None (AbortStore e) y
      | Ok (r, batches) => take_input data batches false (set_request (Some r) (SendingData false batches) y)
      end
  end.
(** [on_copy_done], up to its first [send] *)
Definition on_copy_done (y : System) : System :=
  match request y with
  | None => reply (ErrorReply NoActiveCopy) y
  | Some r =>
      match CopyText.finish (request_decoder r) with
      | Err e => set_request None (AbortStore (DecodeFailed e)) y
      | Ok (d, batches) => take_input [] batches true (set_request None (SendingRest false batches (count_batches d 0 batches r)) y)
      end
  end.
(** [on_copy_fail] *)
Definition on_copy_fail (y : System) : System :=
  match request y with
  | None => reply (ErrorReply CopyAborted) y
  | Some _ => set_request None (AbortStore CopyAborted) y
  end.

(** One message of a [send] loop: fail when the receiver is gone, else reserve a slot, then send. *)
Definition send_one (permit : bool) (m : CopyBatchMessage) (reserved sent : Task) (y : System) : option System :=
  if permit then Some (set_task sent (push_message m y))
  else if stopped (worker y) then Some (set_request None (AbortStore IngestAborted) y)
  else if has_room y then Some (set_task reserved y) else None.
(** The rest of each handler *)
Definition task_step (y : System) : option System :=
  match task y with
  | Ready | Gone => None
  | SendingData _ [] => Some (set_task Ready y)
  | SendingData p (b :: bs) => send_one p (BatchMessage b) (SendingData true (b :: bs)) (SendingData false bs) y
  | SendingRest _ [] r => Some (set_task (SendingFinish false r) y)
  | SendingRest p (b :: bs) r => send_one p (BatchMessage b) (SendingRest true (b :: bs) r) (SendingRest false bs r) y
  | SendingFinish p r => send_one p Finish (SendingFinish true r) (AwaitingWorker r) y
  | AwaitingWorker r =>
      match worker y with
      | WorkerOk _ => Some (set_task Ready (reply (CommandComplete (request_rows r)) (record true y)))
      | WorkerErr => Some (set_task (DropStore (Some WorkerFailed)) y)
      | _ => None
      end
  | AbortStore e => Some (set_task (AbortWake e) (set_aborted y))
  | AbortWake e => Some (set_task (AbortJoin e) (try_wake y))
  | AbortJoin e => if stopped (worker y) then Some (set_task Ready (reply (ErrorReply e) (record false y))) else None
  | DropStore e => Some (set_task (DropWake e) (set_aborted y))
  | DropWake e =>
      let y := record false (try_wake y) in
      Some (match e with Some e => set_task Ready (reply (ErrorReply e) y) | None => set_task Gone y end)
  end.
(** The session is dropped where its task waits; an unfinished request is dropped with it. *)
Definition drop_task (y : System) : option System :=
  match task y with
  | Ready | SendingData _ _ => Some (if bool_decide (request y = None) then set_task Gone y else set_request None (DropStore None) y)
  | SendingRest _ _ _ | SendingFinish _ _ | AwaitingWorker _ | AbortJoin _ => Some (set_task (DropStore None) y)
  | AbortStore _ | AbortWake _ | DropStore _ | DropWake _ | Gone => None
  end.

(** ** The worker *)

Definition stop_worker (w : Worker) (y : System) : System := set_queue [] (set_worker w y).
Definition fail_worker (y : System) : System := record false (stop_worker WorkerErr y).
(** [CopyBatchReader::next] and the end of [execute] *)
Definition worker_step (y : System) : option System :=
  match worker y with
  | Check l => Some (if aborted y then fail_worker y else set_worker (Recv l) y)
  | Recv l =>
      match queue y with
      | [] => None
      | BatchMessage b :: q => Some (set_worker (Check (l ++ [b])) (set_queue q y))
      | Finish :: q => Some (set_worker (Ended l) (set_queue q y))
      | Abort :: _ => Some (fail_worker y)
      end
  | Ended l => Some (stop_worker (WorkerOk l) y)
  | WorkerOk _ | WorkerErr => None
  end.
(** The engine fails outside the reader. *)
Definition worker_fail (y : System) : option System :=
  match worker y with Check _ | Ended _ => Some (fail_worker y) | _ => None end.

(** ** Steps *)

Inductive Choice :=
  | ClientData (data : list byte)
  | ClientDone
  | ClientFail
  | TaskRun
  | TaskDrop
  | WorkerRun
  | WorkerFail
  (* [CopyCancellation::cancel] from a cancel request or the deadline: the flag, then the wake *)
  | Cancel
  | CancelWake.
Definition is_ready (t : Task) : bool := match t with Ready => true | _ => false end.
Definition step (c : Choice) (y : System) : option System :=
  match c with
  | ClientData data => if is_ready (task y) then Some (on_copy_data data y) else None
  | ClientDone => if is_ready (task y) then Some (on_copy_done y) else None
  | ClientFail => if is_ready (task y) then Some (on_copy_fail y) else None
  | TaskRun => task_step y
  | TaskDrop => drop_task y
  | WorkerRun => worker_step y
  | WorkerFail => worker_fail y
  | Cancel => Some (set_wakes (S (pending_wakes y)) (set_aborted y))
  | CancelWake => match pending_wakes y with O => None | S n => Some (set_wakes n (try_wake y)) end
  end.
Fixpoint run (cs : list Choice) (y : System) : option System :=
  match cs with [] => Some y | c :: cs => y ← step c y; run cs y end.

(** [begin_copy], once it has its permit and its operation: a session holds one COPY at a time. *)
Definition begin_copy (existing : option CopyRequest) (fields : list Field) (l : CopyBatchLimits) : option System :=
  if bool_decide (existing = None) then
    match new_decoder fields l with
    | Ok d => Some (mkSystem (Some (mkCopyRequest d 0 0 0 (max_bytes l))) Ready [] false (Check []) 0 None [] [] [] false)
    | Err _ => None
    end
  else None.
End copy_session.
