(* ===== verification/CopyOutcomes.v ===== *)
(** * What a COPY session guarantees

    The worker is told that the input ended only when it was given every batch of the client's
    data, and the client is told that COPY completed only when the worker succeeded.  An
    aborted reader is never left waiting. *)

From S2P Require Import Prelude CopyText CopyRowFacts CopyValues CopyDecoder CopySession.
#[local] Open Scope Z_scope.

(** The rows of a whole COPY stream *)
Definition stream_rows (data : list byte) : list (list cell) :=
  let '(rows, partial, current) := spec_feed data [] [] in
  rows ++ (if bool_decide (partial = [] /\ current = []) then [] else [partial ++ [to_cell current]]).

Section outcomes.
Context {Float : Type} `{CopyRuntime Float}.
Abbreviation Batch := (list (list (option (Value Float)))).
Abbreviation System := (System (Float := Float)).

(** ** Decoding *)

Definition delivers (fs : list Field) (limit : Z) (rows : list (list cell)) (bs : list Batch) : Prop :=
  exists groups, concat groups = rows /\ Forall2 (batch_of fs limit) groups bs.
(** A decoder in the middle of a stream, and the batches it gave so far *)
Definition decoding (fs : list Field) (l : CopyBatchLimits) (data : list byte) (d : CopyTextDecoder) (bs : list Batch) : Prop :=
  schema d = fs /\ limits d = l /\
  exists given held partial current, spec_feed data [] [] = (given ++ held, partial, current) /\
    delivers fs (max_bytes l) given bs /\ open_repr d held partial current.

Lemma spec_feed_app a b partial current :
  spec_feed (a ++ b) partial current =
    let '(r1, p1, c1) := spec_feed a partial current in
    let '(r2, p2, c2) := spec_feed b p1 c1 in (r1 ++ r2, p2, c2).
Proof using.
  revert partial current. induction a as [|x a IH]; intros partial current.
  - cbn. by destruct (spec_feed b partial current) as [[? ?] ?].
  - cbn [app]. rewrite spec_feed_cons, (spec_feed_cons x a). destruct (spec_feed [x] partial current) as [[r0 p0] c0].
    rewrite IH. destruct (spec_feed a p0 c0) as [[r1 p1] c1]. destruct (spec_feed b p1 c1) as [[r2 p2] c2]. by rewrite app_assoc.
Qed.
Lemma delivers_app fs limit r1 r2 bs1 bs2 : delivers fs limit r1 bs1 -> delivers fs limit r2 bs2 -> delivers fs limit (r1 ++ r2) (bs1 ++ bs2).
Proof using.
  intros (g1 & <- & H1) (g2 & <- & H2). exists (g1 ++ g2). split; [by rewrite concat_app|by apply Forall2_app].
Qed.

Lemma decoding_new fs l d : new_decoder fs l = Ok d -> limits_ok l -> decoding fs l [] d [].
Proof using.
  intros Hn Hl. assert (schema d = fs /\ limits d = l) as [Hs Hlim] by (unfold new_decoder in Hn; by inv_ok).
  split; [done|]. split; [done|]. exists [], [], [], []. split_and!; [done|by exists []|]. by eapply new_decoder_repr.
Qed.
Lemma decoding_push fs l data d bs chunk d' bs' :
  decoding fs l data d bs -> push d chunk = Ok (d', bs') -> decoding fs l (data ++ chunk) d' (bs ++ bs').
Proof using.
  intros (Hs & Hl & given & held & partial & current & Hf & Hd & Hr) Hp. apply (push_feed _ _ held partial current) in Hp as [Hp _]; [|done].
  pose proof (feed_refines _ _ _ _ _ _ _ _ Hr Hp) as Href. unfold decoding. rewrite spec_feed_app, Hf.
  destruct (spec_feed chunk partial current) as [[new p] c]. destruct Href as (groups & rest & out & -> & Heq & Hg & Hr' & Hs' & Hl').
  split; [congruence|]. split; [congruence|]. exists (given ++ concat groups), rest, p, c. split; [by rewrite <- !app_assoc, Heq|].
  split; [|done]. apply delivers_app; [done|]. exists groups. by rewrite Hs, Hl in Hg.
Qed.

(** [finish], also in the middle of a row *)
Lemma finish_partial d C P c d' (out : list Batch) :
  open_repr d C P c -> finish d = Ok (d', out) ->
  delivers (schema d) (max_bytes (limits d)) (C ++ (if bool_decide (P = [] /\ c = []) then [] else [P ++ [to_cell c]])) out.
Proof using.
  intros Hr Hf. case_bool_decide as Hpc.
  { destruct Hpc as [-> ->]. rewrite app_nil_r. by eapply finish_delivers in Hf. }
  destruct Hr as [Hr Hb]. unfold finish in Hf. rewrite (repr_open _ _ _ _ Hr) in Hf.
  assert (Hopen : (field_start d <? length (data (rows d)))%nat || (0 <? row_fields d)%nat = true).
  { rewrite (repr_start _ _ _ _ Hr), (repr_fields _ _ _ _ Hr), (repr_rows _ _ _ _ Hr). cbn [data]. rewrite length_app.
    destruct P as [|x P]; [|by rewrite orb_true_r]. destruct c as [|x c]; [by destruct Hpc|]. apply orb_true_iff. left. cbn [length].
    apply Nat.ltb_lt. lia. }
  rewrite Hopen in Hf. cbn [negb andb] in Hf. apply bind_ok in Hf as (d1 & Hd1 & Hf).
  eapply repr_finish_row in Hd1 as (Hr1 & Hs1 & Hl1 & Hrb); [|done..]. destruct (repr_limits _ _ _ _ Hr1) as (? & ? & ?).
  pose proof (repr_batch_bytes _ _ _ _ Hr1). eapply repr_flush in Hf as (_ & _ & _ & _ & groups & Hg & Hf); [|done|lia|by destruct C].
  exists groups. by rewrite Hg, <- Hs1, <- Hl1.
Qed.
Lemma decoding_finish fs l data d bs d' bs' :
  decoding fs l data d bs -> finish d = Ok (d', bs') -> delivers fs (max_bytes l) (stream_rows data) (bs ++ bs').
Proof using.
  intros (Hs & Hl & given & held & partial & current & Hf & Hd & Hr) Hfin. unfold stream_rows. rewrite Hf, <- app_assoc.
  apply delivers_app; [done|]. eapply finish_partial in Hfin; [|exact Hr]. by rewrite Hs, Hl in Hfin.
Qed.

(** ** Control *)

Definition waking (t : Task (Float := Float)) : bool := match t with AbortWake _ | DropWake _ => true | _ => false end.
Definition after_done (t : Task (Float := Float)) : bool :=
  match t with SendingRest _ _ _ | SendingFinish _ _ | AwaitingWorker _ => true | _ => false end.
Definition before_done (t : Task (Float := Float)) : bool := match t with Ready | SendingData _ _ => true | _ => false end.
Definition aborting (t : Task (Float := Float)) : bool := match t with AbortWake _ | AbortJoin _ | DropWake _ => true | _ => false end.

Definition sending_task (t : Task (Float := Float)) : bool :=
  match t with SendingData _ _ | SendingRest _ _ _ | SendingFinish _ _ | AwaitingWorker _ => true | _ => false end.

Ltac fields := split; cbn; try done; try (by intros ? [?|?]).

Record control (y : System) : Prop := {
  c_request : is_Some (request y) -> before_done (task y) = true /\ input_done y = false;
  c_sending : forall p bs, task y = SendingData p bs -> is_Some (request y);
  c_done : after_done (task y) = true -> input_done y = true;
  c_idle : task y = Ready -> request y = None -> stopped (worker y) = true;
  c_gone : task y = Gone -> stopped (worker y) = true \/ aborted y = true;
  c_drop : forall e, task y = DropStore (Some e) \/ task y = DropWake (Some e) -> stopped (worker y) = true;
  c_aborting : aborting (task y) = true -> aborted y = true;
  c_pending : (0 < pending_wakes y)%nat -> aborted y = true;
  c_room : (length (queue y) + holds_permit (task y) <= CAPACITY)%nat;
  c_closed : stopped (worker y) = true -> queue y = [];
  c_abort : Abort ∈ queue y -> aborted y = true;
  c_wake : forall l, aborted y = true -> worker y = Recv l -> queue y = [] -> (0 < pending_wakes y)%nat \/ waking (task y) = true }.

Lemma control_push m y y' :
  control y -> y' = push_message m y -> (length (queue y) + 1 + holds_permit (task y) <= CAPACITY)%nat -> (m = Abort -> aborted y = true) -> control y'.
Proof using.
  intros Hc -> Hroom Hm. unfold push_message. destruct (stopped (worker y)) eqn:Hs; [exact Hc|]. destruct Hc. fields.
  - rewrite length_app. cbn. lia.
  - rewrite Hs. done.
  - intros [Ha|Ha]%elem_of_app; [auto|]. apply list_elem_of_singleton in Ha. auto.
  - intros l _ _ Hq. by destruct (queue y).
Qed.

Lemma control_client c y y' :
  control y -> task y = Ready -> match c with ClientData _ | ClientDone | ClientFail => True | _ => False end -> step c y = Some y' -> control y'.
Proof using.
  intros Hc Ht Hk Hs. pose proof (c_room _ Hc) as Hroom. rewrite Ht in Hroom. cbn in Hroom.
  assert (Hreply : forall r, control (reply r y)) by (intros r; destruct Hc; by split).
  assert (Habort : forall e, control (set_request None (AbortStore e) y)).
  { intros e. destruct Hc. fields. intros l Ha Hw Hq. destruct (c_wake0 l Ha Hw Hq) as [?|Hx]; [by left|]. by rewrite Ht in Hx. }
  destruct c as [data| | | | | | | |]; try done; cbn in Hs; rewrite Ht in Hs; injection Hs as <-.
  - unfold on_copy_data. destruct (request y) as [r|] eqn:Hr; [|done]. destruct (decode_copy_data r data) as [[r' bs]|e]; [|done].
    destruct Hc. fields. intros l Ha Hw Hq. destruct (c_wake0 l Ha Hw Hq) as [?|Hx]; [by left|]. by rewrite Ht in Hx.
  - unfold on_copy_done. destruct (request y) as [r|] eqn:Hr; [|done]. destruct (finish (request_decoder r)) as [[d bs]|e]; [|done].
    destruct Hc. fields. intros l Ha Hw Hq. destruct (c_wake0 l Ha Hw Hq) as [?|Hx]; [by left|]. by rewrite Ht in Hx.
  - unfold on_copy_fail. by destruct (request y).
Qed.

(** Moving to a task that waits for nobody *)
Lemma control_task t y :
  control y -> (is_Some (request y) -> before_done t = true) -> (forall p bs, t = SendingData p bs -> is_Some (request y)) ->
  (after_done t = true -> input_done y = true) -> (t = Ready -> request y = None -> stopped (worker y) = true) ->
  (t = Gone -> stopped (worker y) = true \/ aborted y = true) ->
  (forall e, t = DropStore (Some e) \/ t = DropWake (Some e) -> stopped (worker y) = true) -> (aborting t = true -> aborted y = true) ->
  (length (queue y) + holds_permit t <= CAPACITY)%nat ->
  (waking (task y) = true -> waking t = true \/ queue y <> [] \/ stopped (worker y) = true) -> control (set_task t y).
Proof using.
  intros [] Hreq Hsd Had Hid Hgo Hdr Hab Hroom Hwk. fields.
  - intros Hr. split; [by apply Hreq|by apply c_request0].
  - intros l Ha Hw Hq. destruct (c_wake0 l Ha Hw Hq) as [?|Hx]; [by left|]. destruct (Hwk Hx) as [?|[?|Hst]]; [by right|done|].
    by rewrite Hw in Hst.
Qed.
Lemma control_reply r y : control y -> control (reply r y).
Proof using. intros []. by split. Qed.
Lemma control_record b y : control y -> control (record b y).
Proof using. intros []. by split. Qed.
(** A failed wake-up finds a message in the channel. *)
Lemma try_wake_spec y : control y -> aborted y = true ->
  control (try_wake y) /\ (queue (try_wake y) <> [] \/ stopped (worker y) = true) /\
  exists q, try_wake y = set_queue q y /\ (q = queue y \/ q = queue y ++ [Abort]).
Proof using.
  intros Hc Ha. unfold try_wake, has_room. pose proof (c_room _ Hc) as Hr.
  assert (Hp : (holds_permit (task y) <= 1)%nat) by (destruct (task y) as [|[] ?|[] ? ?|[] ?| | | | | | |]; cbn; lia).
  destruct (Nat.ltb_spec (length (queue y) + holds_permit (task y)) CAPACITY) as [Hlt|Hge].
  - split; [eapply control_push; [exact Hc|reflexivity|lia|done]|].
    unfold push_message. destruct (stopped (worker y)) eqn:Hs; [split; [by right|]; exists (queue y); split; [by destruct y|by left]|].
    split; [left; cbn; by destruct (queue y)|]. exists (queue y ++ [Abort]). auto.
  - split; [done|]. split; [left|exists (queue y); split; [by destruct y|by left]].
    destruct (queue y); [cbn in Hge; unfold CAPACITY in Hge; lia|done].
Qed.

Lemma set_task_push t m (y : System) : set_task t (push_message m y) = push_message m (set_task t y).
Proof using. unfold push_message. cbn. by destruct (stopped (worker y)). Qed.
Lemma control_send p m reserved sent y y' :
  control y -> send_one p m reserved sent y = Some y' -> m <> Abort -> holds_permit (task y) = (if p then 1 else 0)%nat ->
  waking (task y) = false -> (forall t, t = reserved \/ t = sent -> before_done t = before_done (task y) /\ after_done t = after_done (task y) /\
    sending_task t = true /\ ((exists p bs, t = SendingData p bs) -> exists p bs, task y = SendingData p bs)) ->
  holds_permit reserved = 1%nat -> holds_permit sent = 0%nat -> control y'.
Proof using.
  intros Hc Hs Hm Hp Hw Ht Hres Hsent. pose proof (c_room _ Hc) as Hroom.
  assert (Hmove : forall t z, t = reserved \/ t = sent -> control z -> task z = task y -> request z = request y -> input_done z = input_done y ->
    (length (queue z) + holds_permit t <= CAPACITY)%nat -> control (set_task t z)).
  { intros t z Htt Hz Htask Hreq Hin Hl. destruct (Ht t Htt) as (Hb & Ha & Hst & Hsd). apply control_task; try done; try (by destruct t).
    - rewrite Hb, <- Htask. intros Hr. by apply (c_request _ Hz).
    - intros p0 bs Heq. rewrite Hreq. destruct Hsd as (p1 & bs1 & Heq1); [by eauto|]. by eapply (c_sending _ Hc).
    - rewrite Ha, Hin. apply (c_done _ Hc).
    - intros e [-> | ->]; done.
    - by rewrite Htask, Hw. }
  unfold send_one in Hs. destruct p.
  - injection Hs as <-. rewrite set_task_push. rewrite Hp in Hroom. eapply (control_push m (set_task sent y)); [|done| |by intros ->].
    + apply Hmove; auto. lia.
    + cbn. rewrite Hsent. lia.
  - destruct (stopped (worker y)) eqn:Hst; [injection Hs as <-|].
    { destruct Hc. fields; [lia|]. intros l _ Hwk. by rewrite Hwk in Hst. }
    unfold has_room in Hs. destruct (Nat.ltb_spec (length (queue y) + holds_permit (task y)) CAPACITY); [|done]. injection Hs as <-.
    apply Hmove; auto. rewrite Hres. lia.
Qed.

Lemma control_store t y : control y -> before_done (task y) = false -> waking t = true ->
  (forall e, t = DropWake (Some e) -> stopped (worker y) = true) -> control (set_task t (set_aborted y)).
Proof using.
  intros [] Hb Hw Hd. assert (Hnr : ~ is_Some (request y)) by (intros Hr; destruct (c_request0 Hr); congruence).
  assert (Hq : (length (queue y) + 0 <= CAPACITY)%nat) by lia. destruct t; try done; fields; try (by auto); by intros ? [?|?]; eauto.
Qed.
(** After the wake-up the reader finds a message, or has ended. *)
Lemma control_wake t y : control y -> aborted y = true -> before_done (task y) = false ->
  match t with AbortJoin _ | Gone => True | Ready => stopped (worker y) = true | _ => False end -> control (set_task t (try_wake y)).
Proof using.
  intros Hc Ha Hb Ht. destruct (try_wake_spec y Hc Ha) as (Hc' & Hq & q & Heq & _). rewrite Heq in *. cbn in Hq.
  assert (Hnr : ~ is_Some (request y)) by (intros Hx; destruct (c_request _ Hc Hx); congruence).
  pose proof (c_room _ Hc') as Hroom. cbn in Hroom. destruct t; try done; apply control_task; cbn; try done; auto; try lia; by intros ? [?|?].
Qed.

Lemma control_task_step y y' : control y -> task_step y = Some y' -> control y'.
Proof using.
  intros Hc Hs. pose proof (c_room _ Hc) as Hroom.
  assert (Hl : (length (queue y) + 0 <= CAPACITY)%nat) by lia. unfold task_step in Hs. destruct (task y) as [|p bs|p bs r|p r|r|e|e|e|e|e|] eqn:Ht; try done.
  - destruct bs as [|b bs].
    + injection Hs as <-. apply control_task; try done; [|by intros ? [?|?]|by rewrite Ht]. intros _ Hr.
      destruct (c_sending _ Hc _ _ Ht) as [r Hr']. by rewrite Hr in Hr'.
    + eapply control_send; [exact Hc|exact Hs|done|by rewrite Ht; destruct p|by rewrite Ht| |done|done]. rewrite Ht.
      intros t [->| ->]; split_and!; try done; by eauto.
  - destruct bs as [|b bs].
    + injection Hs as <-. apply control_task; try done; [| |by intros ? [?|?]|by rewrite Ht].
      * intros Hr. by destruct (c_request _ Hc Hr) as [Hb _]; rewrite Ht in Hb.
      * intros _. apply (c_done _ Hc). by rewrite Ht.
    + eapply control_send; [exact Hc|exact Hs|done|by rewrite Ht; destruct p|by rewrite Ht| |done|done]. rewrite Ht.
      intros t [->| ->]; split_and!; try done; by intros (? & ? & ?).
  - eapply control_send; [exact Hc|exact Hs|done|by rewrite Ht; destruct p|by rewrite Ht| |done|done]. rewrite Ht.
    intros t [->| ->]; split_and!; try done; by intros (? & ? & ?).
  - assert (Hnr : ~ is_Some (request y)) by (intros Hr; by destruct (c_request _ Hc Hr) as [Hb _]; rewrite Ht in Hb).
    destruct (worker y) eqn:Hw; try done; injection Hs as <-.
    + apply control_task; cbn; try done; [by apply control_reply, control_record|by rewrite Hw|by intros ? [?|?]|by rewrite Ht].
    + apply control_task; cbn; try done; [by rewrite Hw|by rewrite Ht].
  - injection Hs as <-. apply control_store; [done|by rewrite Ht|done|done].
  - injection Hs as <-. apply control_wake; try done; [|by rewrite Ht]. apply (c_aborting _ Hc). by rewrite Ht.
  - destruct (stopped (worker y)) eqn:Hw; [injection Hs as <-|done].
    apply control_task; cbn; try done; [by apply control_reply, control_record|by rewrite Ht].
  - injection Hs as <-. apply control_store; [done|by rewrite Ht|done|]. intros e' [= ->]. eapply (c_drop _ Hc). by left.
  - assert (Ha : aborted y = true) by (apply (c_aborting _ Hc); by rewrite Ht).
    destruct e as [e|]; injection Hs as <-.
    + change (control (reply (ErrorReply e) (record false (set_task Ready (try_wake y))))). apply control_reply, control_record, control_wake; try done; [by rewrite Ht|].
      eapply (c_drop _ Hc). by right.
    + change (control (record false (set_task Gone (try_wake y)))). apply control_record, control_wake; try done. by rewrite Ht.
Qed.

Lemma control_drop y y' : control y -> drop_task y = Some y' -> control y'.
Proof using.
  intros Hc Hs. pose proof (c_room _ Hc) as Hroom. assert (Hl : (length (queue y) + 0 <= CAPACITY)%nat) by lia.
  unfold drop_task in Hs. destruct (task y) as [|p bs|p bs r|p r|r|e|e|e|e|e|] eqn:Ht; try done; injection Hs as <-.
  3-6: (apply control_task; cbn; try done; [|by intros ? [?|?]|by rewrite Ht]; intros Hr; by destruct (c_request _ Hc Hr) as [Hb _]; rewrite Ht in Hb).
  1-2: case_bool_decide as Hr;
    [apply control_task; cbn; try done; [by rewrite Hr; intros []| |by intros ? [?|?]|by rewrite Ht]; intros _
    |destruct Hc; fields; auto; intros l Ha Hw Hq; destruct (c_wake0 l Ha Hw Hq) as [?|Hx]; [by left|by rewrite Ht in Hx]].
  - left. by apply (c_idle _ Hc).
  - by destruct (c_sending _ Hc _ _ Ht); congruence.
Qed.

Lemma control_worker y y' : control y -> worker_step y = Some y' \/ worker_fail y = Some y' -> control y'.
Proof using.
  intros Hc Hs. assert (Hl : (holds_permit (task y) <= CAPACITY)%nat) by (pose proof (c_room _ Hc); lia).
  assert (Hfail : control (fail_worker y)) by (apply control_record; destruct Hc; fields; auto; by intros ?%elem_of_nil).
  destruct Hs as [Hs|Hs]; unfold worker_step, worker_fail in Hs; destruct (worker y) as [l|l|l|l|] eqn:Hw; try done; try (by injection Hs as <-).
  - injection Hs as <-. destruct (aborted y) eqn:Ha; [done|]. destruct Hc. fields; rewrite ?Hw in *; auto. congruence.
  - destruct (queue y) as [|[b| |] q] eqn:Hq; try done; injection Hs as <-; [..|done].
    + destruct Hc. rewrite Hw, Hq in *. fields; auto; try (cbn in *; lia). intros Hin. apply c_abort0. by apply list_elem_of_further.
    + destruct Hc. rewrite Hw, Hq in *. fields; auto; try (cbn in *; lia). intros Hin. apply c_abort0. by apply list_elem_of_further.
  - injection Hs as <-. destruct Hc. fields; auto. by intros ?%elem_of_nil.
Qed.

Lemma control_step c y y' : control y -> step c y = Some y' -> control y'.
Proof using.
  intros Hc Hs. destruct c as [data| | | | | | | |]; cbn [step] in Hs.
  1-3: destruct (is_ready (task y)) eqn:Hr; [|done]; assert (Ht : task y = Ready) by (by destruct (task y)).
  - apply (control_client (ClientData data) y); [done..|]. cbn [step]. by rewrite Hr.
  - apply (control_client ClientDone y); [done..|]. cbn [step]. by rewrite Hr.
  - apply (control_client ClientFail y); [done..|]. cbn [step]. by rewrite Hr.
  - by eapply control_task_step.
  - by eapply control_drop.
  - eapply control_worker; [exact Hc|by left].
  - eapply control_worker; [exact Hc|by right].
  - injection Hs as <-. destruct Hc. fields; auto. intros l _ _ _. left. lia.
  - destruct (pending_wakes y) as [|n] eqn:Hn; [done|]. injection Hs as <-.
    assert (Ha : aborted y = true) by (apply (c_pending _ Hc); lia). destruct (try_wake_spec y Hc Ha) as (Hc' & Hq & q & Heq & _).
    rewrite Heq in *. cbn in Hq. destruct Hc'. fields; auto. intros l _ Hw Hempty. cbn in *. destruct Hq as [Hq|Hst]; [done|by rewrite Hw in Hst].
Qed.

(** ** Batches on their way *)

Definition batches_of (q : list (CopyBatchMessage (Float := Float))) : list Batch :=
  omap (fun m => match m with BatchMessage b => Some b | _ => None end) q.
Definition remaining (t : Task (Float := Float)) : list Batch :=
  match t with SendingData _ bs | SendingRest _ bs _ => bs | _ => [] end.
Definition ingested (w : Worker (Float := Float)) : list Batch :=
  match w with Check l | Recv l | Ended l | WorkerOk l => l | WorkerErr => [] end.
Definition reading (w : Worker (Float := Float)) : bool := match w with Check _ | Recv _ => true | _ => false end.
Definition ended (w : Worker (Float := Float)) : bool := match w with Ended _ | WorkerOk _ => true | _ => false end.
(** The request has more to send. *)
Definition sending (y : System) : bool :=
  bool_decide (is_Some (request y)) || match task y with SendingRest _ _ _ | SendingFinish _ _ => true | _ => false end.

#[local] Arguments batches_of : simpl never.
#[local] Arguments sending : simpl never.

Record flow (y : System) : Prop := {
  f_flow : sending y = true -> reading (worker y) = true ->
    Finish ∉ queue y /\ ingested (worker y) ++ batches_of (queue y) ++ remaining (task y) = produced y;
  f_open : sending y = true -> ended (worker y) = false;
  f_finish : reading (worker y) = true -> Finish ∈ queue y ->
    input_done y = true /\ ingested (worker y) ++ batches_of (queue y) = produced y;
  f_last : forall q1 q2, queue y = q1 ++ Finish :: q2 -> batches_of q2 = [];
  f_ended : ended (worker y) = true -> input_done y = true /\ ingested (worker y) = produced y;
  f_await : forall r, task y = AwaitingWorker r -> reading (worker y) = true -> Finish ∈ queue y }.

Lemma batches_of_app q1 q2 : batches_of (q1 ++ q2) = batches_of q1 ++ batches_of q2.
Proof using. apply omap_app. Qed.

(** An action that stops sending *)
Lemma flow_quiet y y' :
  flow y -> queue y' = queue y -> worker y' = worker y -> produced y' = produced y -> input_done y' = input_done y ->
  sending y' = false -> (forall r, task y' <> AwaitingWorker r) -> flow y'.
Proof using.
  intros [] Hq Hw Hp Hd Hs Ht. split; rewrite ?Hq, ?Hw, ?Hp, ?Hd, ?Hs; try done. intros r Hr. by destruct (Ht r).
Qed.
(** A wake-up *)
Lemma flow_wake y : flow y -> flow (try_wake y).
Proof using.
  intros Hf. unfold try_wake, push_message. destruct (has_room y); [|done]. destruct (stopped (worker y)); [done|].
  assert (Hb : batches_of (queue y ++ [Abort]) = batches_of (queue y)) by (rewrite batches_of_app; apply app_nil_r).
  assert (Hfin : Finish ∈ queue y ++ [Abort] <-> Finish ∈ queue y).
  { rewrite elem_of_app, list_elem_of_singleton. naive_solver. }
  destruct Hf. split; cbn; rewrite ?Hb; try done.
  - intros Hs Hr. rewrite Hfin. by apply f_flow0.
  - rewrite Hfin. done.
  - intros q1 q2 Hq. destruct q2 as [|m q2 _] using rev_ind; [done|]. rewrite app_comm_cons, app_assoc in Hq.
    apply app_inj_tail in Hq as [Hq <-]. rewrite batches_of_app, (f_last0 _ _ Hq). done.
  - intros r Hr Hx. rewrite Hfin. by eapply f_await0.
Qed.
Lemma flow_worker y y' : control y -> flow y -> worker_step y = Some y' \/ worker_fail y = Some y' -> flow y'.
Proof using.
  intros Hc Hf Hs. assert (Hfail : flow (fail_worker y)).
  { destruct Hf. split; cbn; try done. intros q1 q2 Hq. by destruct q1. }
  destruct Hs as [Hs|Hs]; unfold worker_step, worker_fail in Hs; destruct (worker y) as [l|l|l|l|] eqn:Hw; try done; try (by injection Hs as <-).
  - injection Hs as <-. destruct (aborted y); [done|]. destruct Hf. rewrite Hw in *. by split.
  - destruct (queue y) as [|[b| |] q] eqn:Hq; try done; injection Hs as <-; [..|done].
    + destruct Hf. rewrite Hw, Hq in *. split; cbn in *; try done.
      * intros Hs' _. destruct (f_flow0 Hs' eq_refl) as [Hn He]. split; [intros Hin; apply Hn; by apply list_elem_of_further|].
        by rewrite <- app_assoc.
      * intros _ Hin. destruct (f_finish0 eq_refl) as [Hd He]; [by apply list_elem_of_further|]. split; [done|]. by rewrite <- app_assoc.
      * intros q1 q2 ->. by apply (f_last0 (BatchMessage b :: q1)).
      * intros r Hr _. pose proof (f_await0 r Hr eq_refl) as Hin. by apply elem_of_cons in Hin as [?|?].
    + destruct Hf. rewrite Hw, Hq in *. assert (Hin : Finish ∈ Finish :: q) by apply list_elem_of_here.
      destruct (f_finish0 eq_refl Hin) as [Hd He]. assert (Hb : batches_of q = []) by (by apply (f_last0 [])).
      assert (Hns : sending y = false) by (destruct (sending y) eqn:Hx; [|done]; by destruct (f_flow0 eq_refl eq_refl)).
      split; cbn in *; rewrite ?Hns; try done.
      * by unfold sending in *; cbn in *; rewrite Hns.
      * intros q1 q2 ->. by apply (f_last0 (Finish :: q1)).
      * intros _. split; [done|]. change (batches_of (Finish :: q)) with (batches_of q) in He. by rewrite Hb, app_nil_r in He.
  - injection Hs as <-. destruct Hf. rewrite Hw in *. split; cbn in *; try done. intros q1 q2 Hq. by destruct q1.
Qed.

(** New batches *)
Lemma flow_input data bs last r t y :
  flow y -> is_Some (request y) -> remaining (task y) = [] -> remaining t = bs ->
  (is_Some r \/ exists p q, t = SendingRest p bs q) -> (forall q, t <> AwaitingWorker q) ->
  flow (take_input data bs last (set_request r t y)).
Proof using.
  intros [] Hr Hrem Ht Hs Haw. assert (Hsend : sending y = true) by (unfold sending; by rewrite bool_decide_eq_true_2).
  split; cbn; try done.
  - intros _ Hw. destruct (f_flow0 Hsend Hw) as [Hn He]. split; [done|]. rewrite Hrem, app_nil_r in He. by rewrite Ht, <- He, <- app_assoc.
  - intros _. by apply f_open0.
  - intros Hw Hin. by destruct (f_flow0 Hsend Hw).
  - intros Hw. rewrite f_open0 in Hw; done.
  - intros q Hq. by destruct (Haw q).
Qed.
Lemma flow_push_batch b t y :
  flow y -> control y -> sending y = true -> remaining (task y) = b :: remaining t -> sending (set_task t y) = true ->
  (forall q, t <> AwaitingWorker q) -> flow (set_task t (push_message (BatchMessage b) y)).
Proof using.
  intros [] Hc Hs Hrem Hs' Ht. unfold push_message. destruct (stopped (worker y)) eqn:Hst.
  { split; cbn; try done; [|by auto|by intros q Hq; destruct (Ht q)]. intros _ Hw. by destruct (worker y). }
  split; cbn; try done.
  - intros _ Hw. destruct (f_flow0 Hs Hw) as [Hn He]. split; [set_solver|]. by rewrite batches_of_app, <- He, Hrem, <- app_assoc.
  - intros _. by apply f_open0.
  - intros Hw Hin. destruct (f_flow0 Hs Hw) as [Hn _]. set_solver.
  - intros q1 q2 Hq. assert (Hin : Finish ∈ queue y ++ [BatchMessage b]) by (rewrite Hq; set_solver).
    destruct (reading (worker y)) eqn:Hw; [destruct (f_flow0 Hs eq_refl) as [Hn _]; set_solver|].
    pose proof (f_open0 Hs). by destruct (worker y).
  - intros q Hq. by destruct (Ht q).
Qed.
Lemma flow_push_finish r y :
  flow y -> control y -> task y = SendingFinish true r -> flow (set_task (AwaitingWorker r) (push_message Finish y)).
Proof using.
  intros [] Hc Ht. assert (Hs : sending y = true) by (unfold sending; rewrite Ht; apply orb_true_r).
  assert (Hd : input_done y = true) by (apply (c_done _ Hc); by rewrite Ht).
  assert (Hnr : request y = None).
  { destruct (request y) eqn:Hr; [|done]. destruct (c_request _ Hc) as [Hb _]; [by rewrite Hr|]. by rewrite Ht in Hb. }
  assert (Hoff : forall z : System, request z = None -> task z = AwaitingWorker r -> sending z = false) by (intros z H1 H2; unfold sending; by rewrite H1, H2).
  unfold push_message. destruct (stopped (worker y)) eqn:Hst.
  { split; cbn; try done; [by rewrite Hoff|by rewrite Hoff|]. intros q _ Hw. by destruct (worker y). }
  assert (Hread : reading (worker y) = true) by (pose proof (f_open0 Hs); by destruct (worker y)).
  destruct (f_flow0 Hs Hread) as [Hn He]. rewrite Ht in He. cbn in He. rewrite app_nil_r in He.
  split; cbn; try done; [by rewrite Hoff|by rewrite Hoff|..].
  - intros _ _. split; [done|]. by rewrite batches_of_app, app_nil_r.
  - intros q1 q2 Hq. destruct q2 as [|m q2 _] using rev_ind; [done|]. exfalso. apply Hn. rewrite app_comm_cons, app_assoc in Hq.
    apply app_inj_tail in Hq as [-> _]. set_solver.
  - intros _ _ _. set_solver.
Qed.

Lemma not_sending (y : System) : request y = None -> match task y with SendingRest _ _ _ | SendingFinish _ _ => False | _ => True end -> sending y = false.
Proof using. unfold sending. intros -> Ht. by destruct (task y). Qed.
Lemma no_request y : control y -> before_done (task y) = false -> request y = None.
Proof using. intros Hc Hb. destruct (request y) eqn:Hr; [|done]. destruct (c_request _ Hc) as [Hx _]; [by rewrite Hr|congruence]. Qed.
(** Tasks that have the same batches to send *)
Lemma flow_move t y : flow y -> remaining t = remaining (task y) -> sending (set_task t y) = sending y -> (forall r, t <> AwaitingWorker r) -> flow (set_task t y).
Proof using. intros [] Ht Hs Hr. split; cbn; rewrite ?Ht, ?Hs; try done. intros r ->. by destruct (Hr r). Qed.

Lemma flow_send p b bs t y y' :
  flow y -> control y -> sending y = true -> remaining (task y) = b :: bs -> remaining (t true (b :: bs)) = b :: bs -> remaining (t false bs) = bs ->
  (forall p bs, sending (set_task (t p bs) y) = true) -> (forall p bs r, t p bs <> AwaitingWorker r) ->
  send_one p (BatchMessage b) (t true (b :: bs)) (t false bs) y = Some y' -> flow y'.
Proof using.
  intros Hf Hc Hs Hrem Ht Ht' Hst Haw. unfold send_one. destruct p; [intros [= <-]; apply flow_push_batch; auto; by rewrite Ht'|].
  destruct (stopped (worker y)); [intros [= <-]; by eapply flow_quiet|]. destruct (has_room y); [|done]. intros [= <-].
  apply flow_move; auto; by rewrite ?Ht, ?Hrem, ?Hst, ?Hs.
Qed.

Lemma flow_task_step y y' : control y -> flow y -> task_step y = Some y' -> flow y'.
Proof using.
  intros Hc Hf Hs. unfold task_step in Hs. destruct (task y) as [|p bs|p bs r|p r|r|e|e|e|e|e|] eqn:Ht; try done.
  - assert (Hr : is_Some (request y)) by (by eapply (c_sending _ Hc)).
    assert (Hsd : forall z : System, request z = request y -> sending z = true) by (intros z Hz; unfold sending; by rewrite Hz, bool_decide_eq_true_2).
    destruct bs as [|b bs].
    + injection Hs as <-. apply flow_move; [done|by rewrite Ht|by rewrite !Hsd|done].
    + eapply (flow_send p b bs SendingData); eauto; by rewrite ?Ht.
  - assert (Hsd : sending y = true) by (unfold sending; rewrite Ht; apply orb_true_r). destruct bs as [|b bs].
    + injection Hs as <-. apply flow_move; [done|by rewrite Ht|by rewrite Hsd; unfold sending; apply orb_true_r|done].
    + eapply (flow_send p b bs (fun p bs => SendingRest p bs r)); eauto; try (by rewrite ?Ht). intros p' bs'. unfold sending. apply orb_true_r.
  - unfold send_one in Hs. destruct p; [injection Hs as <-; by apply flow_push_finish|].
    destruct (stopped (worker y)); [injection Hs as <-; by eapply flow_quiet|]. destruct (has_room y); [|done]. injection Hs as <-.
    apply flow_move; [done|by rewrite Ht| |done]. unfold sending. cbn. by rewrite Ht, !orb_true_r.
  - assert (Hr : request y = None) by (apply no_request; [done|by rewrite Ht]).
    destruct (worker y); try done; injection Hs as <-; (eapply flow_quiet; [exact Hf|done..| |done]); by apply not_sending.
  - injection Hs as <-. eapply flow_quiet; [exact Hf|done..| |done]. apply not_sending; [|done].
    apply (no_request y); [done|by rewrite Ht].
  - injection Hs as <-. eapply flow_quiet; [exact (flow_wake _ Hf)|done..| |done]. apply not_sending; [|done]. cbn. unfold try_wake, push_message.
    repeat case_match; cbn; apply (no_request y); try done; by rewrite Ht.
  - destruct (stopped (worker y)); [injection Hs as <-|done]. eapply flow_quiet; [exact Hf|done..| |done]. apply not_sending; [|done].
    apply (no_request y); [done|by rewrite Ht].
  - injection Hs as <-. eapply flow_quiet; [exact Hf|done..| |done]. apply not_sending; [|done].
    apply (no_request y); [done|by rewrite Ht].
  - assert (Hr : request (try_wake y) = None).
    { unfold try_wake, push_message. repeat case_match; cbn; apply (no_request y); try done; by rewrite Ht. }
    destruct e as [e|]; injection Hs as <-; (eapply flow_quiet; [exact (flow_wake _ Hf)|done..| |done]); by apply not_sending.
Qed.
Lemma flow_step c y y' : control y -> flow y -> step c y = Some y' -> flow y'.
Proof using.
  intros Hc Hf Hs. destruct c as [data| | | | | | | |]; cbn [step] in Hs.
  1-3: destruct (is_ready (task y)) eqn:Hr; [|done]; assert (Ht : task y = Ready) by (by destruct (task y)); injection Hs as <-.
  - unfold on_copy_data. destruct (request y) as [r|] eqn:Hreq; [|destruct Hf; by split].
    destruct (decode_copy_data r data) as [[r' bs]|e]; [|by eapply flow_quiet]. apply flow_input; try done; try (by rewrite ?Hreq, ?Ht); by left.
  - unfold on_copy_done. destruct (request y) as [r|] eqn:Hreq; [|destruct Hf; by split].
    destruct (finish (request_decoder r)) as [[d bs]|e]; [|by eapply flow_quiet]. apply flow_input; try done; try (by rewrite ?Hreq, ?Ht).
    right. by eexists _, _.
  - unfold on_copy_fail. destruct (request y) as [r|] eqn:Hreq; [by eapply flow_quiet|destruct Hf; by split].
  - by eapply flow_task_step.
  - unfold drop_task in Hs. destruct (task y) as [|p bs|p bs r|p r|r|e|e|e|e|e|] eqn:Ht; try done; injection Hs as <-.
    1-2: case_bool_decide; (eapply flow_quiet; [exact Hf|done..| |done]); by apply not_sending.
    all: (eapply flow_quiet; [exact Hf|done..| |done]); apply not_sending; [|done]; apply (no_request y); [done|by rewrite Ht].
  - eapply flow_worker; [exact Hc|exact Hf|by left].
  - eapply flow_worker; [exact Hc|exact Hf|by right].
  - injection Hs as <-. destruct Hf. by split.
  - destruct (pending_wakes y) as [|n]; [done|]. injection Hs as <-. pose proof (flow_wake _ Hf) as []. by split.
Qed.

(** ** What was decoded and what is told *)

Definition held_request (t : Task (Float := Float)) : option CopyRequest :=
  match t with SendingRest _ _ r | SendingFinish _ r | AwaitingWorker r => Some r | _ => None end.
#[local] Arguments total_rows : simpl never.
Definition counted (y : System) : Z := Z.min (total_rows (produced y)) u64_max.

Section facts.
Context (fs : list Field) (l : CopyBatchLimits).

Record facts (y : System) : Prop := {
  d_rows : forall r, request y = Some r \/ held_request (task y) = Some r -> request_rows r = counted y;
  d_decoding : forall r, request y = Some r -> decoding fs l (input y) (request_decoder r) (produced y);
  d_done : input_done y = true -> delivers fs (max_bytes l) (stream_rows (input y)) (produced y);
  d_reply : forall n, CommandComplete n ∈ replies y -> (exists bs, worker y = WorkerOk bs) /\ n = counted y;
  d_metric : metric y = Some true -> exists bs, worker y = WorkerOk bs }.

Lemma total_rows_nonneg (bs : list Batch) : 0 <= total_rows bs.
Proof using.
  induction bs as [|b bs IH]; [done|]. change (0 <= num_rows b + total_rows bs).
  assert (0 <= num_rows b) by (destruct b; cbn; [lia|apply len_nonneg]). lia.
Qed.
Lemma total_rows_app (a b : list Batch) : total_rows (a ++ b) = total_rows a + total_rows b.
Proof using. induction a as [|x a IH]; [done|]. change (num_rows x + total_rows (a ++ b) = num_rows x + total_rows a + total_rows b). lia. Qed.
Lemma counted_more (a b : list Batch) : saturating_add (Z.min (total_rows a) u64_max) (total_rows b) = Z.min (total_rows (a ++ b)) u64_max.
Proof using. rewrite total_rows_app. pose proof (total_rows_nonneg b). unfold saturating_add. lia. Qed.

(** Actions that touch neither the data nor the answers *)
Lemma facts_same y y' :
  facts y -> input y' = input y -> produced y' = produced y -> input_done y' = input_done y -> replies y' = replies y -> 
  (metric y' = metric y \/ metric y' = Some (default false (metric y))) ->
  (forall bs, worker y = WorkerOk bs -> worker y' = WorkerOk bs) -> (forall r, request y' = Some r -> request y = Some r) ->
  (forall r, held_request (task y') = Some r -> held_request (task y) = Some r) -> facts y'.
Proof using.
  intros [] Hi Hp Hd Hr Hm Hw Hq Ht. unfold counted in *. split; unfold counted; rewrite ?Hi, ?Hp, ?Hd, ?Hr; try done.
  - intros r [Hx|Hx]; apply d_rows0; auto.
  - intros r Hx. by apply d_decoding0, Hq.
  - intros n Hn. destruct (d_reply0 n Hn) as [[bs Hb] ->]. split; [|done]. exists bs. by apply Hw.
  - intros Hx. assert (Hy : metric y = Some true) by (destruct Hm as [Hm|Hm]; rewrite Hm in Hx; [done|]; by destruct (metric y) as [[]|]).
    destruct (d_metric0 Hy) as [bs Hb]. exists bs. by apply Hw.
Qed.

Lemma facts_error e y : facts y -> facts (reply (ErrorReply e) y).
Proof using.
  intros []. split; cbn; try done. intros n [Hn|Hn]%elem_of_app; [by apply d_reply0|]. by apply list_elem_of_singleton in Hn.
Qed.

Lemma facts_input c y y' : control y -> flow y -> facts y -> task y = Ready ->
  (exists data, c = ClientData data) \/ c = ClientDone \/ c = ClientFail -> step c y = Some y' -> facts y'.
Proof using.
  intros Hc Hf Hd Ht Hcl Hs. assert (Hopen : forall r, request y = Some r -> input_done y = false /\ ended (worker y) = false).
  { intros r Hr. split; [apply (c_request _ Hc); by rewrite Hr|]. apply (f_open _ Hf). unfold sending. by rewrite Hr. }
  assert (Hold : forall r, request y = Some r -> (forall n, CommandComplete n ∉ replies y) /\ metric y <> Some true).
  { intros r Hr. destruct (Hopen r Hr) as [_ He]. split; [intros n Hn; destruct (d_reply _ Hd n Hn) as [[bs Hb] _]; by rewrite Hb in He|].
    intros Hm. destruct (d_metric _ Hd Hm) as [bs Hb]. by rewrite Hb in He. }
  assert (Hreply : forall e, facts (reply (ErrorReply e) y)) by (intros e; by apply facts_error).
  destruct Hcl as [[data ->]|[->| ->]]; cbn in Hs; rewrite Ht in Hs; injection Hs as <-.
  - unfold on_copy_data. destruct (request y) as [r|] eqn:Hr; [|by apply Hreply].
    destruct (decode_copy_data r data) as [[r' bs]|e] eqn:Hdec; [|by eapply facts_same; eauto].
    unfold decode_copy_data in Hdec. apply bind_ok in Hdec as (? & _ & Hdec). apply bind_ok in Hdec as ([d bs'] & Hp%map_err_ok & [= <- <-]).
    destruct (Hopen r eq_refl) as [Hin _]. destruct (Hold r eq_refl) as [Hno Hmet]. split; cbn; try done.
    + intros r' [[= <-]|?]; [|done]. cbn. unfold counted. cbn. rewrite <- counted_more. by rewrite (d_rows _ Hd r (or_introl Hr)).
    + intros r' [= <-]. cbn. eapply decoding_push; [by apply (d_decoding _ Hd)|exact Hp].
    + intros n Hn. by destruct (Hno n).
  - unfold on_copy_done. destruct (request y) as [r|] eqn:Hr; [|by apply Hreply].
    destruct (finish (request_decoder r)) as [[d bs]|e] eqn:Hfin; [|by eapply facts_same; eauto].
    destruct (Hold r eq_refl) as [Hno Hmet]. split; cbn; try done.
    + intros r' [?|[= <-]]; [done|]. cbn. unfold counted. cbn. rewrite <- counted_more. by rewrite (d_rows _ Hd r (or_introl Hr)).
    + intros _. rewrite app_nil_r. eapply decoding_finish; [by apply (d_decoding _ Hd)|exact Hfin].
    + intros n Hn. by destruct (Hno n).
  - unfold on_copy_fail. destruct (request y) as [r|] eqn:Hr; [|by apply Hreply]. eapply facts_same; eauto; done.
Qed.

Lemma facts_send p m reserved sent y y' :
  facts y -> send_one p m reserved sent y = Some y' -> held_request reserved = held_request (task y) -> held_request sent = held_request (task y) ->
  facts y'.
Proof using.
  intros Hd Hs Hr Ht. unfold send_one in Hs. destruct p; [injection Hs as <-|].
  { unfold push_message. destruct (stopped (worker y)); eapply facts_same; eauto; cbn; by rewrite Ht. }
  destruct (stopped (worker y)); [injection Hs as <-; by eapply facts_same; eauto|]. destruct (has_room y); [|done]. injection Hs as <-.
  eapply facts_same; eauto. cbn. by rewrite Hr.
Qed.
Lemma facts_wake y : facts y -> facts (try_wake y).
Proof using. intros Hd. unfold try_wake, push_message. repeat case_match; try done. by eapply facts_same; eauto. Qed.
Lemma facts_task_step y y' : control y -> facts y -> task_step y = Some y' -> facts y'.
Proof using.
  intros Hc Hd Hs. unfold task_step in Hs. destruct (task y) as [|p bs|p bs r|p r|r|e|e|e|e|e|] eqn:Ht; try done.
  - destruct bs; [injection Hs as <-; by eapply facts_same; eauto|]. eapply facts_send; [exact Hd|exact Hs|by rewrite Ht..].
  - destruct bs; [injection Hs as <-; eapply facts_same; eauto; cbn; by rewrite Ht|]. eapply facts_send; [exact Hd|exact Hs|by rewrite Ht..].
  - eapply facts_send; [exact Hd|exact Hs|by rewrite Ht..].
  - destruct (worker y) as [| | |bs|] eqn:Hw; try done; injection Hs as <-; [|by eapply facts_same; eauto].
    pose proof (d_rows _ Hd r) as Hr. rewrite Ht in Hr. destruct Hd. split; cbn; try done.
    + intros r' [Hx|?]; [|done]. apply d_rows0. by left.
    + intros n [Hn|Hn]%elem_of_app; [by apply d_reply0|]. apply list_elem_of_singleton in Hn. injection Hn as ->. split; [by exists bs|].
      apply Hr. by right.
    + intros _. by exists bs.
  - injection Hs as <-. by eapply facts_same; eauto.
  - injection Hs as <-. eapply facts_same; [exact (facts_wake _ Hd)|eauto..]. done.
  - destruct (stopped (worker y)); [injection Hs as <-|done]. eapply facts_same; [apply (facts_error e y Hd)|cbn; eauto..]. done.
  - injection Hs as <-. by eapply facts_same; eauto.
  - destruct e as [e|]; injection Hs as <-.
    + eapply facts_same; [exact (facts_error e _ (facts_wake _ Hd))|cbn; eauto..]. done.
    + eapply facts_same; [exact (facts_wake _ Hd)|cbn; eauto..]. done.
Qed.
Lemma facts_step c y y' : control y -> flow y -> facts y -> step c y = Some y' -> facts y'.
Proof using.
  intros Hc Hf Hd Hs. destruct c as [data| | | | | | | |].
  - apply (facts_input (ClientData data) y); eauto. cbn in Hs. by destruct (task y).
  - apply (facts_input ClientDone y); eauto. cbn in Hs. by destruct (task y).
  - apply (facts_input ClientFail y); eauto. cbn in Hs. by destruct (task y).
  - by eapply facts_task_step.
  - cbn [step] in Hs. unfold drop_task in Hs. destruct (task y); try done; injection Hs as <-; try case_bool_decide; eapply facts_same; eauto; done.
  - cbn [step] in Hs. unfold worker_step in Hs. destruct (worker y) as [b|b|b|b|] eqn:Hw; try done.
    + injection Hs as <-. destruct (aborted y); eapply facts_same; eauto; by rewrite Hw.
    + destruct (queue y) as [|[x| |] q]; try done; injection Hs as <-; eapply facts_same; eauto; by rewrite Hw.
    + injection Hs as <-. eapply facts_same; eauto. by rewrite Hw.
  - cbn [step] in Hs. unfold worker_fail in Hs. destruct (worker y) as [b|b|b|b|] eqn:Hw; try done; injection Hs as <-; eapply facts_same; eauto; by rewrite Hw.
  - injection Hs as <-. by eapply facts_same; eauto.
  - cbn [step] in Hs. destruct (pending_wakes y); [done|]. injection Hs as <-. eapply facts_same; [exact (facts_wake _ Hd)|eauto..].
Qed.
End facts.

(** ** Whole runs *)

Lemma run_invariant fs l cs (y0 y : System) :
  begin_copy None fs l = Some y0 -> limits_ok l -> run cs y0 = Some y -> control y /\ flow y /\ facts fs l y.
Proof using.
  intros Hb Hl Hr. assert (H0 : control y0 /\ flow y0 /\ facts fs l y0).
  { unfold begin_copy in Hb. cbn in Hb. destruct (new_decoder fs l) as [d|] eqn:Hd; [|done]. injection Hb as <-. split_and!.
    - fields; try (unfold CAPACITY; lia); by intros ?%elem_of_nil.
    - split; cbn; try done; [split; [apply not_elem_of_nil|done]|by intros _ ?%elem_of_nil|by intros []].
    - split; cbn; try done.
      + intros r [[= <-]|?]; done.
      + intros r [= <-]. cbn. by apply decoding_new.
      + by intros n ?%elem_of_nil. }
  clear Hb. revert y0 Hr H0. induction cs as [|c cs IH]; intros y0 Hr (Hc & Hf & Hd); [by injection Hr as <-|].
  cbn in Hr. apply bind_Some in Hr as (y1 & Hs & Hr). apply (IH y1 Hr).
  split; [by eapply control_step|]. split; [by eapply flow_step|by eapply facts_step].
Qed.

Lemma column_values_length {T} (rs : CopyRows) column binary (parse : list byte -> result CopyError T) vs :
  column_values rs column binary parse = Ok vs -> length vs = rows_len rs.
Proof using. unfold column_values. intros Hx%collect_ok%Forall2_length. by rewrite length_seq in Hx. Qed.
Lemma copy_array_length field rs column a : copy_array (Float := Float) field rs column = Ok a -> length a = rows_len rs.
Proof using.
  assert (Hmap : forall T (f : T -> Value Float) (m : result CopyError (list (option T))), (forall vs, m = Ok vs -> length vs = rows_len rs) ->
    as_values f <$> m = Ok a -> length a = rows_len rs).
  { intros T f [vs|] Hm; [|done]. intros [= <-]. unfold as_values. rewrite length_map. by apply Hm. }
  unfold copy_array. destruct (data_type field); try done; try (apply Hmap; intros vs; apply column_values_length).
  intros Hx. apply bind_ok in Hx as (vs & Hv & Hx). apply bind_ok in Hx as (? & _ & [= <-]). unfold as_values. rewrite length_map.
  by eapply column_values_length.
Qed.
Lemma batch_rows fs limit group (b : Batch) : fs <> [] -> batch_of fs limit group b -> num_rows b = len group.
Proof using.
  intros Hne (_ & Hb & _). unfold build_batch in Hb. apply bind_ok in Hb as (arrays & Hc%collect_ok & Hb). apply bind_ok in Hb as (? & _ & [= <-]).
  destruct fs as [|f fs]; [done|]. cbn in Hc. inversion Hc as [|x0 a xs arrays2 Ha Hrest]; subst. cbn. unfold len.
  by rewrite (copy_array_length _ _ _ _ Ha), rows_len_of.
Qed.
Lemma delivers_rows fs limit rs (bs : list Batch) : fs <> [] -> delivers fs limit rs bs -> total_rows bs = len rs.
Proof using.
  intros Hne (groups & <- & Hf). induction Hf as [|g b groups bs Hb Hbs IH]; [done|]. cbn [concat]. rewrite len_app.
  change (total_rows (b :: bs)) with (num_rows b + total_rows bs). by rewrite IH, (batch_rows _ _ _ _ Hne Hb).
Qed.

Ltac internal := repeat (apply List.Forall_cons; [by auto|]); apply List.Forall_nil.
Lemma aborted_moves y : control y -> aborted y = true -> exists cs y',
  (length cs <= 2)%nat /\ Forall (fun c => c = WorkerRun \/ c = CancelWake \/ c = TaskRun) cs /\ run cs y = Some y' /\ stopped (worker y') = true.
Proof using.
  intros Hc Ha. assert (Hone : forall c z z', c = WorkerRun \/ c = CancelWake \/ c = TaskRun -> step c y = Some z -> worker_step z = Some z' ->
    stopped (worker z') = true -> exists cs y', (length cs <= 2)%nat /\ Forall (fun c => c = WorkerRun \/ c = CancelWake \/ c = TaskRun) cs /\
      run cs y = Some y' /\ stopped (worker y') = true).
  { intros c z z' Hk Hs Hw Hst. exists [c; WorkerRun], z'. split_and!; [done|internal| |done]. cbn. by rewrite Hs; cbn; rewrite Hw. }
  assert (Hwoken : forall z, queue z = [Abort] -> worker z = worker y -> (exists b, worker y = Recv b) ->
    exists z', worker_step z = Some z' /\ stopped (worker z') = true).
  { intros z Hq Hw [b Hb]. exists (fail_worker z). unfold worker_step. by rewrite Hw, Hb, Hq. }
  destruct (worker y) as [b|b|b|b|] eqn:Hw.
  - exists [WorkerRun], (fail_worker y). split_and!; [cbn; lia|internal| |done]. cbn. unfold worker_step. by rewrite Hw, Ha.
  - destruct (queue y) as [|m q] eqn:Hq.
    + destruct (c_wake _ Hc b Ha Hw Hq) as [Hp|Ht].
      * assert (Hroom : has_room y = true).
        { unfold has_room. rewrite Hq. destruct (task y) as [|[] ?|[] ? ?|[] ?| | | | | | |]; done. }
        destruct (pending_wakes y) as [|n] eqn:Hn; [lia|].
        destruct (Hwoken (set_wakes n (try_wake y))) as (z' & Hz & Hst); [| |by exists b|].
        { unfold try_wake, push_message. rewrite Hroom, Hw. cbn. by rewrite Hq. }
        { unfold try_wake, push_message. by rewrite Hroom, Hw. }
        eapply (Hone CancelWake); [by auto| |exact Hz|exact Hst]. cbn. by rewrite Hn.
      * assert (Hroom : has_room y = true) by (unfold has_room; rewrite Hq; by destruct (task y)).
        assert (Hpush : queue (try_wake y) = [Abort] /\ worker (try_wake y) = Recv b).
        { unfold try_wake, push_message. rewrite Hroom, Hw. cbn. by rewrite Hq. }
        destruct Hpush as [Hp1 Hp2]. destruct (task y) as [| | | | | |e| | |[e|]|] eqn:Htask; try done.
        -- destruct (Hwoken (set_task (AbortJoin e) (try_wake y))) as (z' & Hz & Hst); [done|done|by exists b|].
           eapply (Hone TaskRun); [by auto| |exact Hz|exact Hst]. cbn. unfold task_step. by rewrite Htask.
        -- destruct (Hwoken (set_task Ready (reply (ErrorReply e) (record false (try_wake y))))) as (z' & Hz & Hst); [done|done|by exists b|].
           eapply (Hone TaskRun); [by auto| |exact Hz|exact Hst]. cbn. unfold task_step. by rewrite Htask.
        -- destruct (Hwoken (set_task Gone (record false (try_wake y)))) as (z' & Hz & Hst); [done|done|by exists b|].
           eapply (Hone TaskRun); [by auto| |exact Hz|exact Hst]. cbn. unfold task_step. by rewrite Htask.
    + assert (Hr : exists z z', step WorkerRun y = Some z /\ (stopped (worker z) = true \/ worker_step z = Some z' /\ stopped (worker z') = true)).
      { cbn. unfold worker_step. rewrite Hw, Hq. destruct m as [x| |]; [eexists _, _; split; [done|]; right; cbn; split; [by rewrite Ha|done]|eexists _, _; split; [done|]; right; by split|eexists _, y; split; [done|]; by left]. }
      destruct Hr as (z & z' & Hs & [Hst|[Hz Hst]]); [|by apply (Hone WorkerRun z z'); auto].
      exists [WorkerRun], z. split_and!; [cbn; lia|internal| |done]. cbn [run]. by rewrite Hs.
  - exists [WorkerRun], (stop_worker (WorkerOk b) y). split_and!; [cbn; lia|internal| |done]. cbn. unfold worker_step. by rewrite Hw.
  - exists [], y. split_and!; [cbn; lia|constructor|done|by rewrite Hw].
  - exists [], y. split_and!; [cbn; lia|constructor|done|by rewrite Hw].
Qed.
End outcomes.

(** C29: A COPY is ingested whole or not at all, and its answer is true.  Whatever the client
    sends, however the session, the worker and cancellations interleave: the worker is told that
    the input ended only when the client finished it and the batches it was given are, in order,
    the builds of the rows of all data accepted; and the client is told that COPY completed, with
    their number, only when that worker has succeeded. *)
Theorem copy_completion_honest {Float} `{CopyRuntime Float} fs l cs (y0 y : System (Float := Float)) :
  begin_copy None fs l = Some y0 -> limits_ok l -> fs <> [] -> run cs y0 = Some y ->
  (forall bs, worker y = Ended bs \/ worker y = WorkerOk bs ->
     input_done y = true /\ delivers fs (max_bytes l) (stream_rows (input y)) bs) /\
  (forall n, CommandComplete n ∈ replies y ->
     (exists bs, worker y = WorkerOk bs) /\ n = Z.min (len (stream_rows (input y))) u64_max) /\
  (metric y = Some true -> exists bs, worker y = WorkerOk bs).
Proof.
  intros Hb Hl Hne Hr. destruct (run_invariant _ _ _ _ _ Hb Hl Hr) as (Hc & Hf & Hd).
  assert (Hend : forall bs, worker y = Ended bs \/ worker y = WorkerOk bs ->
    input_done y = true /\ bs = produced y /\ delivers fs (max_bytes l) (stream_rows (input y)) bs).
  { intros bs Hw. destruct (f_ended _ Hf) as [Hi Hp]; [by destruct Hw as [-> | ->]|]. assert (bs = produced y) as -> by (by destruct Hw as [Hw|Hw]; rewrite Hw in Hp).
    split_and!; [done..|]. by apply (d_done _ _ _ Hd). }
  split_and!.
  - intros bs Hw. by destruct (Hend bs Hw) as (? & _ & ?).
  - intros n Hn. destruct (d_reply _ _ _ Hd n Hn) as [[bs Hw] ->]. split; [by exists bs|]. unfold counted.
    destruct (Hend bs) as (_ & -> & Hdel); [by right|]. by rewrite (delivers_rows _ _ _ _ Hne Hdel).
  - apply (d_metric _ _ _ Hd).
Qed.

(** C30: Aborting a COPY always ends its worker: once the input is aborted, by an error, the
    client, a dropped session, a cancel request or the deadline, the worker is never left waiting
    for a message.  At most two more actions, none of them the client's, end it. *)
Theorem aborted_copy_ends {Float} `{CopyRuntime Float} fs l cs (y0 y : System (Float := Float)) :
  begin_copy None fs l = Some y0 -> limits_ok l -> run cs y0 = Some y -> aborted y = true ->
  exists cs' y', (length cs' <= 2)%nat /\ Forall (fun c => c = WorkerRun \/ c = CancelWake \/ c = TaskRun) cs' /\
    run cs' y = Some y' /\ stopped (worker y') = true.
Proof. intros Hb Hl Hr Ha. destruct (run_invariant _ _ _ _ _ Hb Hl Hr) as (Hc & _). by apply aborted_moves. Qed.

(** ** Examples *)

Module Example.
#[local] Existing Instance sample_runtime.
Abbreviation start := (mkSystem (Float := unit) (Some (mkCopyRequest sample_decoder 0 0 0 64)) Ready [] false (Check []) 0 None [] [] [] false).
(** Three rows in two batches, the second one sent once the client is done *)
Definition whole_copy : list Choice :=
  ClientData (encode_rows sample_rows) :: repeat TaskRun 3 ++ repeat WorkerRun 3 ++ ClientDone :: repeat TaskRun 5 ++ repeat WorkerRun 4 ++ [TaskRun].
(** A cancel request meets a worker that waits on an empty channel. *)
Definition cancelled_copy : list Choice :=
  ClientData (encode_rows sample_rows) :: repeat TaskRun 3 ++ repeat WorkerRun 3 ++ [Cancel].

Lemma start_limits : limits_ok sample_limits.
Proof. unfold limits_ok, u32_max. simpl. lia. Qed.
Lemma whole_copy_runs : exists y, run whole_copy start = Some y /\ CommandComplete 3 ∈ replies y.
Proof. eexists. split; [vm_compute; reflexivity|]. cbn. by left. Qed.
Lemma cancelled_copy_runs : exists y, run cancelled_copy start = Some y /\ aborted y = true /\ stopped (worker y) = false /\ queue y = [].
Proof. eexists. split; [vm_compute; reflexivity|]. done. Qed.

Lemma copy_completion_honest_witness : exists (y : System (Float := unit)) bs, run whole_copy start = Some y /\ worker y = WorkerOk bs /\
  Z.min (len (stream_rows (input y))) u64_max = 3 /\ delivers sample_fields 64 (stream_rows (input y)) bs.
Proof.
  destruct whole_copy_runs as (y & Hr & Hn). exists y.
  destruct (copy_completion_honest sample_fields sample_limits whole_copy start y eq_refl start_limits ltac:(discriminate) Hr) as (Hw & Hc & _).
  destruct (Hc _ Hn) as [[bs Hb] Hlen]. exists bs. split_and!; [exact Hr|exact Hb|exact (eq_sym Hlen)|]. exact (proj2 (Hw bs (or_intror Hb))).
Defined.
Lemma aborted_copy_ends_witness : exists y cs' y' : _, run (Float := unit) cancelled_copy start = Some y /\ stopped (worker y) = false /\
  (length cs' <= 2)%nat /\ run cs' y = Some y' /\ stopped (worker y') = true.
Proof.
  destruct cancelled_copy_runs as (y & Hr & Ha & Hw & _).
  destruct (aborted_copy_ends sample_fields sample_limits cancelled_copy start y eq_refl start_limits Hr Ha) as (cs' & y' & Hl & _ & Hrun & Hs).
  exists y, cs', y'. split_and!; [exact Hr|exact Hw|exact Hl|exact Hrun|exact Hs].
Defined.
End Example.
