(* ===== verification/Threads.v ===== *)
(** * Interleavings of atomic steps

    The shared-memory components ([lifecycle.rs], [execution_control.rs]) are
    programs over atomics and semaphores.  A system is a shared state and one local
    state per thread; a step lets one thread perform its next atomic action, which
    may also wake the others.  Executions are sequentially consistent. *)

From S2P Require Import Prelude.

Record Sys (S L : Type) := mkSys { shared : S; locals : list L }.
Arguments mkSys {S L} _ _.
Arguments shared {S L} _.
Arguments locals {S L} _.

(** A component: the next atomic action of a thread, by the choice it makes. *)
Class Component (S L C : Type) := {
  advance : C -> S -> L -> option (S * L);
  wakes : C -> S -> L -> bool;
  wake : L -> L }.

Section system.
Context {S L C : Type} `{!Component S L C}.

Definition sys_step (i : nat) (c : C) (y : Sys S L) : option (Sys S L) :=
  l ← locals y !! i;
  '(s, l') ← advance c (shared y) l;
  let ls := if wakes c (shared y) l then wake <$> locals y else locals y in
  Some (mkSys s (<[i := l']> ls)).

(** Executions: all of them, and those whose choices satisfy a predicate. *)
Definition moves (allowed : C -> bool) (y y' : Sys S L) : Prop :=
  exists i c, allowed c = true /\ sys_step i c y = Some y'.
Definition any : C -> bool := fun _ => true.
Definition steps : Sys S L -> Sys S L -> Prop := rtc (moves any).

(** A schedule, executed. *)
Fixpoint run (schedule : list (nat * C)) (y : Sys S L) : option (Sys S L) :=
  match schedule with
  | [] => Some y
  | (i, c) :: rest => y' ← sys_step i c y; run rest y'
  end.

Lemma run_steps schedule y y' : run schedule y = Some y' -> steps y y'.
Proof using.
  revert y. induction schedule as [|[i c] rest IH]; intros y; cbn [run].
  - intros [= ->]. apply rtc_refl.
  - intros (y1 & Hs & Hr)%bind_Some. eapply rtc_l; [exists i, c; split; [done | exact Hs] | by apply IH].
Qed.

(** An invariant is proved of a single atomic action. *)
Lemma invariant_moves allowed (I : Sys S L -> Prop) :
  (forall i c y y', allowed c = true -> I y -> sys_step i c y = Some y' -> I y') ->
  forall y y', I y -> rtc (moves allowed) y y' -> I y'.
Proof using.
  intros Hstep y y' HI Hr. induction Hr as [|y y1 y' (i & c & Ha & Hs) Hr IH]; [done|]. eauto.
Qed.

Lemma sys_step_inv i c y y' :
  sys_step i c y = Some y' ->
  exists l s l', locals y !! i = Some l /\ advance c (shared y) l = Some (s, l') /\
    y' = mkSys s (<[i := l']> (if wakes c (shared y) l then wake <$> locals y else locals y)).
Proof using.
  unfold sys_step. intros (l & Hl & H)%bind_Some. apply bind_Some in H as ([s l'] & Ha & [= <-]).
  eauto 10.
Qed.
End system.

(** ** Counting the threads in a phase *)

Section count.
Context {L : Type}.

Definition b2z (b : bool) : Z := if b then 1 else 0.
Fixpoint count (p : L -> bool) (ls : list L) : Z :=
  match ls with [] => 0 | l :: ls => b2z (p l) + count p ls end.

Lemma b2z_bounds b : 0 <= b2z b <= 1.
Proof using. destruct b; simpl; lia. Qed.

Lemma count_bounds p ls : 0 <= count p ls <= len ls.
Proof using.
  induction ls as [|l ls IH]; [done|]. rewrite len_cons. simpl. pose proof (b2z_bounds (p l)). lia.
Qed.

Lemma count_insert p ls i l l' :
  ls !! i = Some l -> count p (<[i := l']> ls) = count p ls - b2z (p l) + b2z (p l').
Proof using.
  revert i. induction ls as [|x ls IH]; intros [|i]; simpl; try done.
  - intros [= ->]. lia.
  - intros Hi. rewrite (IH _ Hi). lia.
Qed.

Lemma count_fmap p f ls : (forall l, p (f l) = p l) -> count p (f <$> ls) = count p ls.
Proof using. intros Hf. induction ls as [|l ls IH]; [done|]. rewrite fmap_cons. cbn [count]. by rewrite IH, Hf. Qed.

Lemma count_pos p ls i l : ls !! i = Some l -> p l = true -> 1 <= count p ls.
Proof using.
  revert i. induction ls as [|x ls IH]; intros [|i]; simpl; try done.
  - intros [= ->] ->. pose proof (count_bounds p ls). simpl. lia.
  - intros Hi Hp. pose proof (IH _ Hi Hp). pose proof (b2z_bounds (p x)). lia.
Qed.

Lemma count_zero p ls : count p ls = 0 -> Forall (fun l => p l = false) ls.
Proof using.
  induction ls as [|l ls IH]; [done|]. simpl. pose proof (b2z_bounds (p l)).
  pose proof (count_bounds p ls). intros Hz. constructor; [destruct (p l); simpl in *; [lia|done] | apply IH; lia].
Qed.

Lemma count_witness p ls : 0 < count p ls -> exists i l, ls !! i = Some l /\ p l = true.
Proof using.
  induction ls as [|l ls IH]; simpl; [lia|]. intros Hp. destruct (p l) eqn:Hl.
  - by exists O, l.
  - destruct IH as (i & x & Hi & Hx); [simpl in Hp; lia|]. by exists (S i), x.
Qed.

Lemma count_le p q ls : (forall l, p l = true -> q l = true) -> count p ls <= count q ls.
Proof using.
  intros Hpq. induction ls as [|l ls IH]; [done|]. simpl. specialize (Hpq l).
  destruct (p l); [rewrite Hpq by done; simpl; lia|]. pose proof (b2z_bounds (q l)). simpl. lia.
Qed.

Lemma count_split p q r ls :
  (forall l, b2z (p l) = b2z (q l) + b2z (r l)) -> count p ls = count q ls + count r ls.
Proof using. intros Hs. induction ls as [|l ls IH]; [done|]. simpl. rewrite (Hs l). lia. Qed.

Lemma count_complement p ls : count p ls + count (fun l => negb (p l)) ls = len ls.
Proof using.
  induction ls as [|l ls IH]; [done|]. rewrite len_cons. simpl. destruct (p l); simpl; lia.
Qed.

Lemma count_replicate p n l : p l = false -> count p (replicate n l) = 0.
Proof using. intros Hp. induction n as [|n IH]; [done|]. simpl. rewrite Hp, IH. done. Qed.
End count.
