(* ===== verification/Lifecycle.v ===== *)
(** * Readiness and transaction drain ([quackgis-server/src/lifecycle.rs])

    [RuntimeLifecycle] is three atomics and a [Notify].  Every atomic load, store,
    fetch-and-add and compare-exchange is one step of a thread, so that the races
    between starting, finishing, draining and waiting are those of the source. *)

From S2P Require Import Prelude Threads.

Inductive ReadinessState := Starting | Ready | StorageUnavailable | Draining.
#[export] Instance readiness_state_eq_dec : EqDecision ReadinessState.
Proof. solve_decision. Defined.

(** The [#[repr(u8)]] representation held by the [AtomicU8] *)
Definition as_u8 (r : ReadinessState) : Z :=
  match r with Starting => 0 | Ready => 1 | StorageUnavailable => 2 | Draining => 3 end.

Record RuntimeLifecycle := mkRuntimeLifecycle {
  accepting : bool;
  readiness_value : Z;
  active_transactions : Z }.
Definition default_lifecycle : RuntimeLifecycle := mkRuntimeLifecycle true (as_u8 Starting) 0.

(** [RuntimeLifecycle::readiness] *)
Definition readiness (s : RuntimeLifecycle) : ReadinessState :=
  let value := readiness_value s in
  if value =? as_u8 Ready then Ready
  else if value =? as_u8 StorageUnavailable then StorageUnavailable
  else if value =? as_u8 Draining then Draining
  else Starting.

(** Where a thread is between two atomic actions. *)
Inductive Pc :=
  | Outside                                         (** in no call, holding no transaction *)
  | StartChecked                                    (** [try_start_transaction], first check passed *)
  | StartAdded                                      (** ... and [fetch_add] done *)
  | Running                                         (** ... and [true] returned *)
  | Finishing                                       (** [transaction_finished] called *)
  | FinishNotify                                    (** ... and [fetch_sub] returned 1 *)
  | DrainStored                                     (** [begin_drain], [accepting] stored *)
  | DrainMarked                                     (** ... and [readiness] stored *)
  | DrainNotify                                     (** ... and [active_transactions] read as 0 *)
  | Updating (next : ReadinessState) (current : Z)  (** [update_readiness], [current] loaded *)
  | WaitTest                                        (** [wait_for_transactions], at the loop test *)
  | WaitLoaded                                      (** ... and a non-zero count read *)
  | WaitNotified                                    (** ... and [notified()] created *)
  | WaitDone.                                       (** [wait_for_transactions] returned *)

(** The calls a thread makes, the next action of the call it is in, and the two
    outcomes of a weak compare-exchange. *)
Inductive Choice :=
  | CallStart | CallFinish | CallDrain | CallUpdate (next : ReadinessState) | CallWait
  | Continue | SpuriousFailure.

Definition set_active (s : RuntimeLifecycle) (n : Z) : RuntimeLifecycle :=
  mkRuntimeLifecycle (accepting s) (readiness_value s) n.
Definition set_readiness (s : RuntimeLifecycle) (v : Z) : RuntimeLifecycle :=
  mkRuntimeLifecycle (accepting s) v (active_transactions s).
Definition set_accepting (s : RuntimeLifecycle) (b : bool) : RuntimeLifecycle :=
  mkRuntimeLifecycle b (readiness_value s) (active_transactions s).

Definition wrapping_sub (a b : Z) : Z := (a - b) mod (u64_max + 1).

(** [update_readiness]: the check of the loop and the compare-exchange. *)
Definition update_readiness (s : RuntimeLifecycle) (next : ReadinessState) (current : Z)
    (spurious : bool) : RuntimeLifecycle * Pc :=
  if current =? as_u8 Draining then (s, Outside)
  else if (readiness_value s =? current) && negb spurious then (set_readiness s (as_u8 next), Outside)
  else (s, Updating next (readiness_value s)).

(** The atomic actions of every method, in program order. *)
Definition lifecycle_advance (c : Choice) (s : RuntimeLifecycle) (pc : Pc)
    : option (RuntimeLifecycle * Pc) :=
  match pc, c with
  (* [try_start_transaction] *)
  | Outside, CallStart => Some (s, if accepting s then StartChecked else Outside)
  | StartChecked, Continue =>
      Some (set_active s (wrapping_add (active_transactions s) 1), StartAdded)
  | StartAdded, Continue => Some (s, if accepting s then Running else Finishing)
  (* [transaction_finished] *)
  | Running, CallFinish => Some (s, Finishing)
  | Finishing, Continue =>
      Some (set_active s (wrapping_sub (active_transactions s) 1),
            if active_transactions s =? 1 then FinishNotify else Outside)
  | FinishNotify, Continue => Some (s, Outside)
  (* [begin_drain] *)
  | Outside, CallDrain => Some (set_accepting s false, DrainStored)
  | DrainStored, Continue => Some (set_readiness s (as_u8 Draining), DrainMarked)
  | DrainMarked, Continue =>
      Some (s, if active_transactions s =? 0 then DrainNotify else Outside)
  | DrainNotify, Continue => Some (s, Outside)
  (* [mark_storage_ready], [mark_storage_unavailable] *)
  | Outside, CallUpdate next =>
      match next with
      | Ready | StorageUnavailable => Some (s, Updating next (readiness_value s))
      | _ => None
      end
  | Updating next current, Continue => Some (update_readiness s next current false)
  | Updating next current, SpuriousFailure => Some (update_readiness s next current true)
  (* [wait_for_transactions] *)
  | Outside, CallWait => Some (s, WaitTest)
  | WaitTest, Continue =>
      Some (s, if active_transactions s =? 0 then WaitDone else WaitLoaded)
  | WaitLoaded, Continue => Some (s, WaitNotified)
  | _, _ => None
  end.

(** [notify_waiters] sends every created [notified()] future back to the loop test. *)
Definition lifecycle_wakes (c : Choice) (s : RuntimeLifecycle) (pc : Pc) : bool :=
  match pc with FinishNotify | DrainNotify => true | _ => false end.
Definition lifecycle_wake (pc : Pc) : Pc :=
  match pc with WaitNotified => WaitTest | _ => pc end.

#[export] Instance lifecycle_component : Component RuntimeLifecycle Pc Choice :=
  {| advance := lifecycle_advance; wakes := lifecycle_wakes; wake := lifecycle_wake |}.

(** A process with [n] threads that has just started. *)
Definition lifecycle_init (n : nat) : Sys RuntimeLifecycle Pc :=
  mkSys default_lifecycle (replicate n Outside).

(** ** Invariant: the counter counts the threads between [fetch_add] and [fetch_sub] *)

Definition counted (pc : Pc) : bool :=
  match pc with StartAdded | Running | Finishing => true | _ => false end.
Definition is_running (pc : Pc) : bool := match pc with Running => true | _ => false end.

Definition lifecycle_inv (y : Sys RuntimeLifecycle Pc) : Prop :=
  active_transactions (shared y) = count counted (locals y) /\ len (locals y) <= u64_max.

Lemma wrapping_add_small a b : 0 <= a + b <= u64_max -> wrapping_add a b = a + b.
Proof. intros H. unfold wrapping_add. apply Z.mod_small. lia. Qed.
Lemma wrapping_sub_small a b : 0 <= a - b <= u64_max -> wrapping_sub a b = a - b.
Proof. intros H. unfold wrapping_sub. apply Z.mod_small. lia. Qed.

(** The threads after a step, seen through a predicate that waking preserves. *)
Lemma step_count (p : Pc -> bool) (b : bool) ls i l l' :
  (forall l, p (lifecycle_wake l) = p l) -> ls !! i = Some l ->
  count p (<[i := l']> (if b then lifecycle_wake <$> ls else ls))
  = count p ls - b2z (p l) + b2z (p l').
Proof.
  intros Hw Hl. destruct b; [|by apply count_insert].
  rewrite (count_insert _ _ _ (lifecycle_wake l)) by (by rewrite list_lookup_fmap, Hl).
  by rewrite count_fmap, Hw.
Qed.

Lemma counted_wake l : counted (lifecycle_wake l) = counted l.
Proof. by destruct l. Qed.

Lemma lifecycle_inv_step i c y y' :
  lifecycle_inv y -> sys_step i c y = Some y' -> lifecycle_inv y'.
Proof.
  intros [Ha Hn] (l & s & l' & Hl & Hadv & ->)%sys_step_inv. unfold lifecycle_inv. cbn [shared locals wakes wake].
  split.
  2:{ unfold len. rewrite length_insert. destruct (wakes c (shared y) l); [rewrite length_fmap|]; exact Hn. }
  change (@wake RuntimeLifecycle Pc Choice lifecycle_component) with lifecycle_wake. rewrite (step_count counted _ _ _ l) by (apply counted_wake || done).
  rewrite <-Ha. pose proof (count_bounds counted (locals y)) as Hb.
  pose proof (count_pos counted (locals y) i l Hl) as Hpos.
  assert (counted l = false -> count counted (locals y) < len (locals y)) as Hroom.
  { intros Hc. pose proof (count_complement counted (locals y)).
    pose proof (count_pos (fun x => negb (counted x)) (locals y) i l Hl (f_equal negb Hc)). lia. }
  cbn [advance lifecycle_component] in Hadv. unfold lifecycle_advance, update_readiness in Hadv.
  destruct l, c; simplify_eq; repeat (case_match; simplify_eq); cbn [counted b2z set_active set_readiness
    set_accepting active_transactions] in *; try lia.
  - rewrite wrapping_add_small; [lia|]. specialize (Hroom eq_refl). lia.
  - rewrite wrapping_sub_small; specialize (Hpos eq_refl); lia.
  - rewrite wrapping_sub_small; specialize (Hpos eq_refl); lia.
Qed.

Lemma lifecycle_reachable_inv n y :
  Z.of_nat n <= u64_max -> steps (lifecycle_init n) y -> lifecycle_inv y.
Proof.
  intros Hn Hr. refine (invariant_moves any lifecycle_inv _ _ _ _ Hr).
  - intros. eapply lifecycle_inv_step; eauto.
  - unfold lifecycle_inv, lifecycle_init, len. cbn [shared locals]. rewrite length_replicate.
    by rewrite count_replicate.
Qed.

(** ** Drain *)

(** [accepting] is never stored [true], and [readiness] never leaves [Draining]. *)
Lemma drain_step i c y y' :
  sys_step i c y = Some y' ->
  (accepting (shared y) = false -> accepting (shared y') = false) /\
  (readiness (shared y) = Draining -> readiness (shared y') = Draining).
Proof.
  intros (l & s & l' & Hl & Hadv & ->)%sys_step_inv. cbn [shared].
  cbn [advance lifecycle_component] in Hadv.
  assert (readiness (shared y) = Draining -> readiness_value (shared y) = 3) as Hv.
  { unfold readiness. cbn [as_u8]. repeat (case_match; try done). bool_prop. done. }
  unfold lifecycle_advance, update_readiness in Hadv.
  destruct l, c; simplify_eq; repeat (case_match; simplify_eq); (split; [done|]); try done;
    intros Hd; specialize (Hv Hd); bool_prop; cbn [as_u8] in *; try done; exfalso; lia.
Qed.

(** Once draining, a thread that is not counted can no longer start to run. *)
Definition drained (y : Sys RuntimeLifecycle Pc) : Prop :=
  accepting (shared y) = false /\ count is_running (locals y) = 0.

Lemma drained_step i c y y' : drained y -> sys_step i c y = Some y' -> drained y'.
Proof.
  intros [Ha Hr] Hs. split; [by apply (drain_step i c y y')|].
  apply sys_step_inv in Hs as (l & s & l' & Hl & Hadv & ->). cbn [locals].
  change (@wake RuntimeLifecycle Pc Choice lifecycle_component) with lifecycle_wake.
  rewrite (step_count is_running _ _ _ l) by (try done; by intros []).
  rewrite Hr. pose proof (count_pos is_running _ _ _ Hl) as Hp. rewrite Hr in Hp.
  cbn [advance lifecycle_component] in Hadv. unfold lifecycle_advance, update_readiness in Hadv.
  destruct l, c; simplify_eq; repeat (case_match; simplify_eq); try done; try congruence; exfalso; by specialize (Hp eq_refl).
Qed.

(** C36: a drain admits no straggler.  In every reachable state of any number of
    threads, the counter is exactly the number of threads between joining and
    leaving the drain set.  Once acceptance has been withdrawn and the count is
    zero, no transaction is running and none ever runs again, whatever the threads
    that had already passed the first check do; acceptance stays withdrawn, and a
    readiness of [Draining] is never overwritten by a storage probe. *)
Theorem drain_admits_no_straggler n y :
  Z.of_nat n <= u64_max -> steps (lifecycle_init n) y ->
  active_transactions (shared y) = count counted (locals y) /\
  (accepting (shared y) = false -> active_transactions (shared y) = 0 ->
   forall y', steps y y' ->
     accepting (shared y') = false /\ count is_running (locals y') = 0) /\
  (readiness (shared y) = Draining ->
   forall y', steps y y' -> readiness (shared y') = Draining).
Proof.
  intros Hn Hr. destruct (lifecycle_reachable_inv n y Hn Hr) as [Hc _]. split; [done|]. split.
  - intros Hacc Hz y' Hs. refine (invariant_moves any drained _ y y' _ Hs).
    + intros. eapply drained_step; eauto.
    + split; [done|]. pose proof (count_le is_running counted (locals y) ltac:(by intros [])).
      pose proof (count_bounds is_running (locals y)). lia.
  - intros Hd y' Hs. refine (invariant_moves any (fun y => readiness (shared y) = Draining) _ y y' Hd Hs).
    intros i c y1 y2 _ H1 H2. by apply (drain_step i c y1 y2 H2).
Qed.

(** Two threads: one passes the first check, the other drains; the first is refused. *)
Definition race_schedule : list (nat * Choice) :=
  [(0%nat, CallStart); (1%nat, CallDrain); (1%nat, Continue); (1%nat, Continue)].
Lemma drain_admits_no_straggler_witness :
  exists y, run race_schedule (lifecycle_init 2) = Some y /\
    forall y', steps y y' -> accepting (shared y') = false /\ count is_running (locals y') = 0.
Proof.
  eexists. split; [vm_compute; reflexivity|].
  eapply (drain_admits_no_straggler 2); [vm_compute; discriminate | | reflexivity | reflexivity].
  eapply (run_steps race_schedule). vm_compute. reflexivity.
Defined.

(** ** The wait *)

Definition not_drain (c : Choice) : bool := match c with CallDrain => false | _ => true end.

(** Nothing is active and nobody is about to notify, but thread [w] waits. *)
Definition quiet (pc : Pc) : bool :=
  match pc with
  | Outside | Updating _ _ | WaitTest | WaitLoaded | WaitNotified | WaitDone => true
  | _ => false
  end.
Definition stuck (w : nat) (y : Sys RuntimeLifecycle Pc) : Prop :=
  accepting (shared y) = false /\ active_transactions (shared y) = 0 /\
  locals y !! w = Some WaitNotified /\ Forall (fun pc => quiet pc = true) (locals y).

Lemma stuck_step w i c y y' :
  not_drain c = true -> stuck w y -> sys_step i c y = Some y' -> stuck w y'.
Proof.
  intros Hc (Ha & Hz & Hw & Hq) (l & s & l' & Hl & Hadv & ->)%sys_step_inv.
  assert (quiet l = true) as Hql by (rewrite Forall_forall in Hq; apply Hq; by eapply list_elem_of_lookup_2).
  assert (i <> w) as Hiw.
  { intros ->. rewrite Hw in Hl. injection Hl as <-. cbn in Hadv. destruct c; discriminate. }
  assert (wakes c (shared y) l = false) as -> by (by destruct l).
  assert (accepting s = false /\ active_transactions s = 0 /\ quiet l' = true) as (? & ? & ?).
  { cbn [advance lifecycle_component] in Hadv. unfold lifecycle_advance, update_readiness in Hadv.
    destruct l, c; simplify_eq; repeat (case_match; simplify_eq); try done; congruence. }
  unfold stuck. cbn [shared locals]. split_and!; [done | done | by rewrite list_lookup_insert_ne|].
  by apply Forall_insert.
Qed.

(** The wait can miss its wakeup.  [wait_for_transactions] reads the count
    before it creates the [notified()] future, and [notify_waiters] reaches only
    futures that exist: there is an execution of three threads (a transaction, a drain
    and a wait) after which the last transaction has finished and
    nothing is active, yet the waiter sleeps, and stays asleep in every continuation
    in which [begin_drain] is not called again. *)
Theorem wait_can_miss_wakeup :
  exists y, steps (lifecycle_init 3) y /\
    accepting (shared y) = false /\ active_transactions (shared y) = 0 /\
    locals y !! 1%nat = Some WaitNotified /\
    forall y', rtc (moves not_drain) y y' ->
      active_transactions (shared y') = 0 /\ locals y' !! 1%nat = Some WaitNotified.
Proof.
  pose (schedule := [(0%nat, CallStart); (0%nat, Continue); (0%nat, Continue);
    (2%nat, CallDrain); (2%nat, Continue); (2%nat, Continue);
    (1%nat, CallWait); (1%nat, Continue); (0%nat, CallFinish); (0%nat, Continue);
    (0%nat, Continue); (1%nat, Continue)]).
  destruct (run schedule (lifecycle_init 3)) as [y|] eqn:Hy; [|vm_compute in Hy; discriminate].
  exists y. split; [exact (run_steps schedule _ _ Hy)|].
  assert (stuck 1 y) as Hstuck.
  { vm_compute in Hy. injection Hy as <-. repeat split. by repeat constructor. }
  clear Hy. pose proof Hstuck as (Ha & Hz & Hw & _).
  split; [exact Ha|]. split; [exact Hz|]. split; [exact Hw|]. intros y' Hs.
  assert (stuck 1 y') as (_ & Hz' & Hw' & _); [|split; assumption].
  refine (invariant_moves not_drain (stuck 1) _ y y' Hstuck Hs).
  intros. eapply stuck_step; eauto.
Qed.
