(* ===== verification/Admission.v ===== *)
(** * Operation admission, blocking workers and cancellation
      ([quackgis-server/src/execution_control.rs])

    [AdmissionController] bounds queued and active operations with semaphores,
    [BlockingWorkerPool] reserves a worker for control operations, and
    [ActiveQueryRegistry] maps a backend key to the cancellation of its query.
    Semaphores are their available permits; an [await] on one is a step that is
    enabled when a permit is available.  The relaxed metric counters are updated in
    the step of the code they accompany; the gauges never leave the range the limits
    give them, so they are plain integers. *)

From S2P Require Import Prelude Threads.

Inductive OperationClass := Reader | Writer | Maintenance.
#[export] Instance operation_class_eq_dec : EqDecision OperationClass.
Proof. solve_decision. Defined.

Inductive AdmissionError := QueueFull | QueueTimeout | Closed.

(** A quantity per class: the three statics or semaphores selected by
    [class_active], [class_queued], [class_high_water] and [class_limit]. *)
Record PerClass := mkPerClass { reader : Z; writer : Z; maintenance : Z }.
Definition of_class (p : PerClass) (c : OperationClass) : Z :=
  match c with Reader => reader p | Writer => writer p | Maintenance => maintenance p end.
Definition set_class (p : PerClass) (c : OperationClass) (n : Z) : PerClass :=
  match c with
  | Reader => mkPerClass n (writer p) (maintenance p)
  | Writer => mkPerClass (reader p) n (maintenance p)
  | Maintenance => mkPerClass (reader p) (writer p) n
  end.
Definition add_class (p : PerClass) (c : OperationClass) (n : Z) : PerClass :=
  set_class p c (of_class p c + n).

Record AdmissionController := mkAdmissionController {
  active : Z;
  class_limits : PerClass;
  queue_slots : Z }.

(** The process-wide counters of the controller. *)
Record Gauges := mkGauges {
  ACTIVE : Z;
  QUEUED : Z;
  STARTED : Z;
  REJECTED : Z;
  QUEUE_TIMEOUTS : Z;
  CLASS_ACTIVE : PerClass;
  CLASS_QUEUED : PerClass;
  CLASS_HIGH_WATER : PerClass }.
Definition zero_class : PerClass := mkPerClass 0 0 0.
Definition zero_gauges : Gauges := mkGauges 0 0 0 0 0 zero_class zero_class zero_class.

Record Limits := mkLimits { max_active : Z; max_queued : Z; max_class : PerClass }.

(** [AdmissionController::new]; [None] is a failed assertion. *)
Definition new_controller (m : Limits) : option AdmissionController :=
  if (0 <? max_active m) && (0 <? max_queued m) && (0 <? reader (max_class m))
     && (0 <? writer (max_class m)) && (0 <? maintenance (max_class m))
  then Some (mkAdmissionController (max_active m) (max_class m) (max_queued m))
  else None.

(** An operation between two of its actions in [acquire], and after it. *)
Inductive Op :=
  | OpOutside
  | OpQueued (c : OperationClass)        (** queue slot and guard held *)
  | OpClass (c : OperationClass)         (** ... and the class permit *)
  | OpGranted (c : OperationClass)       (** ... and the global permit *)
  | OpActive (c : OperationClass)        (** [AdmissionPermit] returned *)
  | OpFailed (e : AdmissionError).       (** error returned *)

Inductive OpChoice :=
  | Acquire (c : OperationClass)  (** call [acquire] *)
  | Poll                          (** the awaited permit, or the code after the timeout *)
  | Elapse                        (** [queue_timeout] elapses while awaiting *)
  | Abandon                       (** the future of [acquire] is dropped *)
  | Release.                      (** the permit is dropped *)

Definition Shared : Type := AdmissionController * Gauges.

(** [AdmissionQueueGuard::new] and its [Drop] *)
Definition enqueue (g : Gauges) (c : OperationClass) (d : Z) : Gauges :=
  mkGauges (ACTIVE g) (QUEUED g + d) (STARTED g) (REJECTED g) (QUEUE_TIMEOUTS g) (CLASS_ACTIVE g)
    (add_class (CLASS_QUEUED g) c d) (CLASS_HIGH_WATER g).
(** The counters at the end of [acquire] ([update_high_water] keeps the maximum),
    and those of [Drop for AdmissionPermit] *)
Definition activate (g : Gauges) (c : OperationClass) : Gauges :=
  let active := add_class (CLASS_ACTIVE g) c 1 in
  mkGauges (ACTIVE g + 1) (QUEUED g) (wrapping_add (STARTED g) 1) (REJECTED g) (QUEUE_TIMEOUTS g) active
    (CLASS_QUEUED g)
    (set_class (CLASS_HIGH_WATER g) c (Z.max (of_class (CLASS_HIGH_WATER g) c) (of_class active c))).
Definition deactivate (g : Gauges) (c : OperationClass) : Gauges :=
  mkGauges (ACTIVE g - 1) (QUEUED g) (STARTED g) (REJECTED g) (QUEUE_TIMEOUTS g)
    (add_class (CLASS_ACTIVE g) c (-1)) (CLASS_QUEUED g) (CLASS_HIGH_WATER g).
Definition count_rejected (g : Gauges) : Gauges :=
  mkGauges (ACTIVE g) (QUEUED g) (STARTED g) (wrapping_add (REJECTED g) 1) (QUEUE_TIMEOUTS g)
    (CLASS_ACTIVE g) (CLASS_QUEUED g) (CLASS_HIGH_WATER g).
Definition count_timeout (g : Gauges) : Gauges :=
  mkGauges (ACTIVE g) (QUEUED g) (STARTED g) (REJECTED g) (wrapping_add (QUEUE_TIMEOUTS g) 1)
    (CLASS_ACTIVE g) (CLASS_QUEUED g) (CLASS_HIGH_WATER g).

(** Permits taken ([-1]) or returned ([+1]) *)
Definition slot (k : AdmissionController) (d : Z) : AdmissionController :=
  mkAdmissionController (active k) (class_limits k) (queue_slots k + d).
Definition class_permit (k : AdmissionController) (c : OperationClass) (d : Z) : AdmissionController :=
  mkAdmissionController (active k) (add_class (class_limits k) c d) (queue_slots k).
Definition global_permit (k : AdmissionController) (d : Z) : AdmissionController :=
  mkAdmissionController (active k + d) (class_limits k) (queue_slots k).

(** [AdmissionController::acquire] and the drop of its permit, action by action. *)
Definition admission_advance (ch : OpChoice) (s : Shared) (o : Op) : option (Shared * Op) :=
  let '(k, g) := s in
  match o, ch with
  | OpOutside, Acquire c | OpFailed _, Acquire c =>
      if 0 <? queue_slots k then Some ((slot k (-1), enqueue g c 1), OpQueued c)
      else Some ((k, count_rejected g), OpFailed QueueFull)
  | OpQueued c, Poll =>
      if 0 <? of_class (class_limits k) c then Some ((class_permit k c (-1), g), OpClass c) else None
  | OpClass c, Poll =>
      if 0 <? active k then Some ((global_permit k (-1), g), OpGranted c) else None
  | OpGranted c, Poll => Some ((slot k 1, activate (enqueue g c (-1)) c), OpActive c)
  | OpQueued c, Elapse => Some ((slot k 1, count_timeout (enqueue g c (-1))), OpFailed QueueTimeout)
  | OpClass c, Elapse =>
      Some ((slot (class_permit k c 1) 1, count_timeout (enqueue g c (-1))), OpFailed QueueTimeout)
  | OpQueued c, Abandon => Some ((slot k 1, enqueue g c (-1)), OpOutside)
  | OpClass c, Abandon => Some ((slot (class_permit k c 1) 1, enqueue g c (-1)), OpOutside)
  | OpActive c, Release => Some ((class_permit (global_permit k 1) c 1, deactivate g c), OpOutside)
  | _, _ => None
  end.

#[export] Instance admission_component : Component Shared Op OpChoice :=
  {| advance := admission_advance; wakes := fun _ _ _ => false; wake := id |}.

Definition admission_init (k : AdmissionController) (n : nat) : Sys Shared Op :=
  mkSys (k, zero_gauges) (replicate n OpOutside).

(** What an operation holds *)
Definition holds_slot (o : Op) : option OperationClass :=
  match o with OpQueued c | OpClass c | OpGranted c => Some c | _ => None end.
Definition holds_class (o : Op) : option OperationClass :=
  match o with OpClass c | OpGranted c | OpActive c => Some c | _ => None end.
Definition holds_global (o : Op) : option OperationClass :=
  match o with OpGranted c | OpActive c => Some c | _ => None end.
Definition is_active (o : Op) : option OperationClass :=
  match o with OpActive c => Some c | _ => None end.
Definition some (f : Op -> option OperationClass) (o : Op) : bool :=
  match f o with Some _ => true | None => false end.
Definition in_class (f : Op -> option OperationClass) (c : OperationClass) (o : Op) : bool :=
  match f o with Some d => bool_decide (d = c) | None => false end.

(** ** Invariant: permits are conserved and the gauges are exact *)

Record admission_inv (m : Limits) (y : Sys Shared Op) : Prop := {
  inv_slots : queue_slots (shared y).1 + count (some holds_slot) (locals y) = max_queued m;
  inv_global : active (shared y).1 + count (some holds_global) (locals y) = max_active m;
  inv_class : forall c, of_class (class_limits (shared y).1) c + count (in_class holds_class c) (locals y)
                        = of_class (max_class m) c;
  inv_available : 0 <= queue_slots (shared y).1 /\ 0 <= active (shared y).1 /\
                  forall c, 0 <= of_class (class_limits (shared y).1) c;
  inv_queued : QUEUED (shared y).2 = count (some holds_slot) (locals y);
  inv_active : ACTIVE (shared y).2 = count (some is_active) (locals y);
  inv_class_queued : forall c, of_class (CLASS_QUEUED (shared y).2) c = count (in_class holds_slot c) (locals y);
  inv_class_active : forall c, of_class (CLASS_ACTIVE (shared y).2) c = count (in_class is_active c) (locals y);
  inv_high_water : forall c, of_class (CLASS_ACTIVE (shared y).2) c <= of_class (CLASS_HIGH_WATER (shared y).2) c
                             <= of_class (max_class m) c }.

Lemma of_set_class p c d n :
  of_class (set_class p c n) d = if bool_decide (c = d) then n else of_class p d.
Proof. by destruct c, d. Qed.
Lemma of_add_class p c d n : of_class (add_class p c n) d = of_class p d + n * b2z (bool_decide (c = d)).
Proof. unfold add_class. rewrite of_set_class. case_bool_decide; subst; simpl; lia. Qed.

(** A class never has more active operations than permits. *)
Lemma count_active_le m y c :
  admission_inv m y -> count (in_class is_active c) (locals y) <= of_class (max_class m) c.
Proof.
  intros Hi. rewrite <-(inv_class _ _ Hi c). destruct (inv_available _ _ Hi) as (_ & _ & Hc).
  specialize (Hc c). pose proof (count_le (in_class is_active c) (in_class holds_class c) (locals y)
    ltac:(by intros [])). lia.
Qed.

(** Operations between their class permit and the return of [acquire] *)
Definition between (o : Op) : option OperationClass :=
  match o with OpClass c | OpGranted c => Some c | _ => None end.

Ltac intro_class := lazymatch goal with |- forall _ : OperationClass, _ => intros c' | _ => idtac end.
Ltac at_class :=
  match goal with
  | |- context [of_class _ ?d] =>
      repeat match goal with H : forall c : OperationClass, _ |- _ => specialize (H d) end
  | _ => idtac
  end.

Lemma admission_inv_step m i ch y y' :
  admission_inv m y -> sys_step i ch y = Some y' -> admission_inv m y'.
Proof.
  intros Hi (o & [k' g'] & o' & Ho & Hadv & ->)%sys_step_inv.
  pose proof (fun p l' => count_insert p (locals y) i o l' Ho) as Hcount.
  pose proof (fun c => count_split (in_class holds_class c) (in_class is_active c) (in_class between c) (locals y)
    (fun l => ltac:(destruct l; cbn; lia))) as Hsplit.
  assert (forall c, between o = Some c -> 1 <= count (in_class between c) (locals y)) as Hwait.
  { intros c Hc. apply (count_pos _ _ i o Ho). unfold in_class. rewrite Hc. by apply bool_decide_eq_true. }
  destruct Hi as [H1 H2 H3 (H4 & H5 & H6) H7 H8 H9 H10 H11].
  cbn [wakes admission_component].
  destruct y as [[k g] ls]. cbn [shared locals fst snd advance admission_component] in *.
  unfold admission_advance in Hadv.
  destruct o, ch; try discriminate; repeat (case_match; try discriminate); simplify_eq/=; bool_prop;
  constructor; cbn [shared locals fst snd];
    try (split_and!; [| |intros c']); intro_class; rewrite ?Hcount; at_class;
    cbn -[of_class add_class set_class Z.le Z.add Z.mul Z.sub Z.max bool_decide]; rewrite ?of_set_class, ?of_add_class; try case_bool_decide;
    subst; cbn [b2z] in *; try lia.
  specialize (Hwait eq_refl). rewrite bool_decide_eq_true_2 by done. cbn [b2z]. lia.
Qed.

Lemma new_controller_inv m k :
  new_controller m = Some k ->
  k = mkAdmissionController (max_active m) (max_class m) (max_queued m) /\
  0 < max_active m /\ 0 < max_queued m /\ forall c, 0 < of_class (max_class m) c.
Proof.
  unfold new_controller. case_match eqn:He; [|done]. intros [= <-]. bool_prop.
  split_and!; [done..|]. by intros [].
Qed.

Lemma admission_reachable m k n y :
  new_controller m = Some k -> steps (admission_init k n) y -> admission_inv m y.
Proof.
  intros Hk Hr. refine (invariant_moves any (admission_inv m) _ _ _ _ Hr).
  { intros. eapply admission_inv_step; eauto. }
  apply new_controller_inv in Hk as (-> & Ha & Hq & Hc).
  constructor; cbn [admission_init shared locals fst snd active class_limits queue_slots];
    try intros c; rewrite ?count_replicate by done; try lia; try (by destruct c); try reflexivity.
  - split_and!; [lia | lia | intros c; specialize (Hc c); lia].
  - specialize (Hc c). destruct c; cbn in *; lia.
Qed.

(** Which waiting operations can take a permit *)
Lemma poll_between (y : Sys Shared Op) i o c :
  0 < active (shared y).1 -> locals y !! i = Some o -> between o = Some c ->
  exists y', sys_step i Poll y = Some y'.
Proof.
  intros Hfree Ho Hb. unfold sys_step. rewrite Ho. cbn [mbind option_bind].
  destruct (shared y) as [k g]. cbn [fst] in Hfree.
  destruct o; try discriminate; cbn [advance admission_component admission_advance].
  - rewrite (proj2 (Z.ltb_lt _ _) Hfree). eexists. reflexivity.
  - eexists. reflexivity.
Qed.

Lemma poll_queued (y : Sys Shared Op) i c :
  0 < of_class (class_limits (shared y).1) c -> locals y !! i = Some (OpQueued c) ->
  exists y', sys_step i Poll y = Some y'.
Proof.
  intros Hfree Ho. unfold sys_step. rewrite Ho. cbn [mbind option_bind].
  destruct (shared y) as [k g]. cbn [fst] in Hfree.
  cbn [advance admission_component admission_advance]. rewrite (proj2 (Z.ltb_lt _ _) Hfree).
  eexists. reflexivity.
Qed.

(** Lock order: the class permit is taken before the global one, so an operation
    that waits while nobody is admitted waits for a permit that is available. *)
Lemma admission_progress m y :
  0 < max_active m -> (forall c, 0 < of_class (max_class m) c) -> admission_inv m y ->
  0 < count (some holds_slot) (locals y) -> count (some holds_global) (locals y) = 0 ->
  exists i o y', locals y !! i = Some o /\ some holds_slot o = true /\ sys_step i Poll y = Some y'.
Proof.
  intros Hpa Hpc Hi Hw Hnone. pose proof (inv_global _ _ Hi) as Hg.
  destruct (decide (0 < count (some between) (locals y))) as [Hb|Hb].
  - apply count_witness in Hb as (i & o & Ho & Hso).
    unfold some in Hso. destruct (between o) as [c|] eqn:Hbo; [|done].
    destruct (poll_between y i o c) as [y' Hy']; [lia|done|done|].
    exists i, o, y'. split_and!; [done | by destruct o | done].
  - apply count_witness in Hw as (i & o & Ho & Hso).
    pose proof (count_pos (some between) (locals y) i o Ho) as Hpos.
    assert (exists c, o = OpQueued c) as [c ->].
    { destruct o; try discriminate; [eauto|exfalso; specialize (Hpos eq_refl); lia..]. }
    destruct (poll_queued y i c) as [y' Hy']; [|done|by exists i, (OpQueued c), y'].
    pose proof (inv_class _ _ Hi c). specialize (Hpc c).
    pose proof (count_le (in_class holds_class c) (some holds_class) (locals y) ltac:(by intros [])).
    pose proof (count_split (some holds_class) (some is_active) (some between) (locals y)
      ltac:(by intros [])).
    pose proof (count_le (some is_active) (some holds_global) (locals y) ltac:(by intros [])). lia.
Qed.

(** C35: admission control is bounded, exact and does not deadlock.  In every
    reachable state of any number of operations: at most [max_active] operations are
    active, at most the class limit in each class, and at most [max_queued] are
    queued; the gauges equal those numbers and the high-water mark never exceeds the
    class limit; and whenever an operation waits while none is admitted, some waiting
    operation can take the permit it waits for. *)
Theorem admission_bounded m k n y :
  new_controller m = Some k -> steps (admission_init k n) y ->
  count (some is_active) (locals y) <= max_active m /\
  (forall c, count (in_class is_active c) (locals y) <= of_class (max_class m) c) /\
  count (some holds_slot) (locals y) <= max_queued m /\
  ACTIVE (shared y).2 = count (some is_active) (locals y) /\
  QUEUED (shared y).2 = count (some holds_slot) (locals y) /\
  (forall c, of_class (CLASS_HIGH_WATER (shared y).2) c <= of_class (max_class m) c) /\
  (0 < count (some holds_slot) (locals y) -> count (some holds_global) (locals y) = 0 ->
   exists i o y', locals y !! i = Some o /\ some holds_slot o = true /\
     sys_step i Poll y = Some y').
Proof.
  intros Hk Hr. pose proof (admission_reachable m k n y Hk Hr) as Hi.
  apply new_controller_inv in Hk as (_ & Hpa & _ & Hpc). destruct (inv_available _ _ Hi) as (Hq & Ha & _).
  pose proof (inv_slots _ _ Hi). pose proof (inv_global _ _ Hi) as Hg.
  pose proof (count_le (some is_active) (some holds_global) (locals y) ltac:(by intros [])).
  split_and!; [lia | intros c; by apply count_active_le | lia | apply Hi | apply Hi | intros c; apply Hi|].
  by apply (admission_progress m).
Qed.

(** Two readers and a writer on one slot each: the second reader waits. *)
Definition sample_limits : Limits := mkLimits 2 2 (mkPerClass 1 1 1).
Definition sample_schedule : list (nat * OpChoice) :=
  [(0%nat, Acquire Reader); (0%nat, Poll); (0%nat, Poll); (0%nat, Poll);
   (1%nat, Acquire Reader); (2%nat, Acquire Writer); (2%nat, Poll); (2%nat, Poll); (2%nat, Poll);
   (3%nat, Acquire Writer); (4%nat, Acquire Writer)].
Lemma admission_bounded_witness :
  exists k y, new_controller sample_limits = Some k /\
    run sample_schedule (admission_init k 5) = Some y /\
    locals y !! 4%nat = Some (OpFailed QueueFull) /\
    count (some is_active) (locals y) <= 2 /\ ACTIVE (shared y).2 = 2.
Proof.
  eexists _, _. split; [reflexivity|]. split; [vm_compute; reflexivity|]. split; [reflexivity|].
  split; [|reflexivity].
  eapply (admission_bounded sample_limits _ 5); [reflexivity|].
  eapply (run_steps sample_schedule). vm_compute. reflexivity.
Defined.

(** ** [BlockingWorkerPool] *)

Module Pool.

Record BlockingWorkerPool := mkPool { total : Z; regular : Z }.
Record PoolGauges := mkPoolGauges {
  BLOCKING_ACTIVE : Z;
  BLOCKING_REGULAR_ACTIVE : Z;
  BLOCKING_CONTROL_ACTIVE : Z;
  BLOCKING_QUEUED : Z;
  BLOCKING_HIGH_WATER : Z }.
Definition PoolShared : Type := BlockingWorkerPool * PoolGauges.

(** [BlockingWorkerPool::new]; [None] is a failed assertion. *)
Definition new_pool (max_workers : Z) : option BlockingWorkerPool :=
  if 2 <=? max_workers then Some (mkPool max_workers (max_workers - 1)) else None.

Inductive Job :=
  | JobOutside
  | JobWantsRegular        (** queue guard held, awaiting [regular] *)
  | JobHoldsRegular        (** ... and [regular] held, awaiting [total] *)
  | JobWantsTotal          (** control: queue guard held, awaiting [total] *)
  | JobWorking (control : bool).  (** [BlockingWorkerPermit] held by the worker *)

Inductive JobChoice := Request (control : bool) | PollJob | AbandonJob | Finish.

(** [BlockingQueueGuard] and the counters of [acquire] and of the permit's drop *)
Definition queue_job (g : PoolGauges) (d : Z) : PoolGauges :=
  mkPoolGauges (BLOCKING_ACTIVE g) (BLOCKING_REGULAR_ACTIVE g) (BLOCKING_CONTROL_ACTIVE g)
    (BLOCKING_QUEUED g + d) (BLOCKING_HIGH_WATER g).
Definition start_work (g : PoolGauges) (control : bool) : PoolGauges :=
  let active := BLOCKING_ACTIVE g + 1 in
  mkPoolGauges active (BLOCKING_REGULAR_ACTIVE g + b2z (negb control))
    (BLOCKING_CONTROL_ACTIVE g + b2z control) (BLOCKING_QUEUED g) (Z.max (BLOCKING_HIGH_WATER g) active).
Definition stop_work (g : PoolGauges) (control : bool) : PoolGauges :=
  mkPoolGauges (BLOCKING_ACTIVE g - 1) (BLOCKING_REGULAR_ACTIVE g - b2z (negb control))
    (BLOCKING_CONTROL_ACTIVE g - b2z control) (BLOCKING_QUEUED g) (BLOCKING_HIGH_WATER g).

(** [BlockingWorkerPool::acquire] for [spawn_regular]/[run_regular] ([control = false])
    and [run_control] ([control = true]), and the end of the spawned operation. *)
Definition pool_advance (ch : JobChoice) (s : PoolShared) (j : Job) : option (PoolShared * Job) :=
  let '(k, g) := s in
  match j, ch with
  | JobOutside, Request control =>
      Some ((k, queue_job g 1), if control then JobWantsTotal else JobWantsRegular)
  | JobWantsRegular, PollJob =>
      if 0 <? regular k then Some ((mkPool (total k) (regular k - 1), g), JobHoldsRegular) else None
  | JobHoldsRegular, PollJob =>
      if 0 <? total k
      then Some ((mkPool (total k - 1) (regular k), start_work (queue_job g (-1)) false), JobWorking false)
      else None
  | JobWantsTotal, PollJob =>
      if 0 <? total k
      then Some ((mkPool (total k - 1) (regular k), start_work (queue_job g (-1)) true), JobWorking true)
      else None
  | JobWantsRegular, AbandonJob | JobWantsTotal, AbandonJob => Some ((k, queue_job g (-1)), JobOutside)
  | JobHoldsRegular, AbandonJob =>
      Some ((mkPool (total k) (regular k + 1), queue_job g (-1)), JobOutside)
  | JobWorking control, Finish =>
      Some ((mkPool (total k + 1) (regular k + b2z (negb control)), stop_work g control), JobOutside)
  | _, _ => None
  end.

#[export] Instance pool_component : Component PoolShared Job JobChoice :=
  {| advance := pool_advance; wakes := fun _ _ _ => false; wake := id |}.

Definition pool_init (k : BlockingWorkerPool) (n : nat) : Sys PoolShared Job :=
  mkSys (k, mkPoolGauges 0 0 0 0 0) (replicate n JobOutside).

Definition working (j : Job) : bool := match j with JobWorking _ => true | _ => false end.
Definition working_on (control : bool) (j : Job) : bool :=
  match j with JobWorking c => Bool.eqb c control | _ => false end.
Definition holds_regular (j : Job) : bool :=
  match j with JobHoldsRegular | JobWorking false => true | _ => false end.
Definition waiting (j : Job) : bool :=
  match j with JobWantsRegular | JobHoldsRegular | JobWantsTotal => true | _ => false end.

Record pool_inv (max : Z) (y : Sys PoolShared Job) : Prop := {
  inv_total : total (shared y).1 + count working (locals y) = max;
  inv_regular : regular (shared y).1 + count holds_regular (locals y) = max - 1;
  inv_permits : 0 <= total (shared y).1 /\ 0 <= regular (shared y).1;
  inv_gauges : BLOCKING_ACTIVE (shared y).2 = count working (locals y) /\
               BLOCKING_REGULAR_ACTIVE (shared y).2 = count (working_on false) (locals y) /\
               BLOCKING_CONTROL_ACTIVE (shared y).2 = count (working_on true) (locals y) /\
               BLOCKING_QUEUED (shared y).2 = count waiting (locals y);
  inv_pool_high_water : BLOCKING_ACTIVE (shared y).2 <= BLOCKING_HIGH_WATER (shared y).2 <= max }.

Lemma pool_inv_step max i ch y y' :
  pool_inv max y -> sys_step i ch y = Some y' -> pool_inv max y'.
Proof.
  intros Hi (j & [k' g'] & j' & Hj & Hadv & ->)%sys_step_inv.
  pose proof (fun p l' => count_insert p (locals y) i j l' Hj) as Hcount.
  destruct Hi as [H1 H2 (H3 & H4) (H5 & H6 & H7 & H8) H9]. cbn [wakes pool_component].
  destruct y as [[k g] ls]. cbn [shared locals fst snd advance pool_component] in *.
  unfold pool_advance in Hadv.
  destruct j as [| | | |[]], ch as [[]| | |]; try discriminate; repeat (case_match; try discriminate);
    simplify_eq/=; bool_prop; constructor; cbn [shared locals fst snd]; rewrite ?Hcount;
    cbn -[Z.le Z.add Z.sub Z.max]; lia.
Qed.

Lemma pool_reachable max k n y :
  new_pool max = Some k -> steps (pool_init k n) y -> 2 <= max /\ pool_inv max y.
Proof.
  unfold new_pool. destruct (Z.leb_spec 2 max) as [Hm|]; [|done]. intros [= <-] Hr. split; [done|].
  refine (invariant_moves any (pool_inv max) _ _ _ _ Hr).
  { intros. eapply pool_inv_step; eauto. }
  constructor; cbn [pool_init shared locals fst snd total regular]; rewrite ?count_replicate by done; cbn -[Z.le]; lia.
Qed.

(** A job waits for a permit that is there: the total, or the regular one. *)
Lemma poll_total (y : Sys PoolShared Job) i j :
  0 < total (shared y).1 -> locals y !! i = Some j -> j = JobWantsTotal \/ j = JobHoldsRegular ->
  exists y', sys_step i PollJob y = Some y'.
Proof.
  intros Hfree Hj Hor. unfold sys_step. rewrite Hj. cbn [mbind option_bind].
  destruct (shared y) as [k g]. cbn [fst] in Hfree.
  destruct Hor as [-> | ->]; cbn [advance pool_component pool_advance];
    rewrite (proj2 (Z.ltb_lt _ _) Hfree); eexists; reflexivity.
Qed.

(** A blocking worker is reserved for control operations.  In every reachable
    state of any number of jobs, at most [max_workers] workers run and at most
    [max_workers - 1] of them regular ones, the gauges being exact; so a control
    operation (a cancellation, a deadline) that waits while no other control
    operation runs can always start at once, however many regular operations run or
    wait; and a regular operation that holds its regular permit can start whenever
    no control operation runs. *)
Theorem control_worker_reserved max k n y :
  new_pool max = Some k -> steps (pool_init k n) y ->
  count working (locals y) <= max /\ count (working_on false) (locals y) <= max - 1 /\
  BLOCKING_ACTIVE (shared y).2 = count working (locals y) /\
  BLOCKING_HIGH_WATER (shared y).2 <= max /\
  (count (working_on true) (locals y) = 0 ->
   forall i j, locals y !! i = Some j -> j = JobWantsTotal \/ j = JobHoldsRegular ->
     exists y', sys_step i PollJob y = Some y').
Proof.
  intros Hk Hr. destruct (pool_reachable max k n y Hk Hr) as [Hm Hi].
  pose proof (inv_total _ _ Hi). pose proof (inv_regular _ _ Hi).
  destruct (inv_permits _ _ Hi). destruct (inv_gauges _ _ Hi) as (Hg & _). pose proof (inv_pool_high_water _ _ Hi).
  pose proof (count_le (working_on false) holds_regular (locals y) ltac:(by intros [| | | |[]])).
  pose proof (count_split working (working_on false) (working_on true) (locals y) ltac:(by intros [| | | |[]])).
  split_and!; [lia | lia | done | lia|]. intros Hc i j Hj Hor. by apply (poll_total y i j); [lia|..].
Qed.

(** Both regular slots of a pool of three are busy and a third job waits; control runs. *)
Definition busy_schedule : list (nat * JobChoice) :=
  [(0%nat, Request false); (0%nat, PollJob); (0%nat, PollJob);
   (1%nat, Request false); (1%nat, PollJob); (1%nat, PollJob);
   (2%nat, Request false); (3%nat, Request true)].
Lemma control_worker_reserved_witness :
  exists k y, new_pool 3 = Some k /\ run busy_schedule (pool_init k 4) = Some y /\
    sys_step 2 PollJob y = None /\ exists y', sys_step 3 PollJob y = Some y'.
Proof.
  eexists _, _. split; [reflexivity|]. split; [vm_compute; reflexivity|]. split; [vm_compute; reflexivity|].
  eapply (control_worker_reserved 3 _ 4); [reflexivity | | reflexivity | reflexivity | by left].
  eapply (run_steps busy_schedule). vm_compute. reflexivity.
Defined.
End Pool.

(** ** [ActiveQueryRegistry] *)

Module Registry.
Section registry.
(** [Arc<dyn EngineCancellation>], its [cancel] and the engine's error *)
Context {Cancellation E : Type} (cancel_engine : Cancellation -> result E unit).

Definition QueryKey : Type := Z * list byte.
Record State := mkState {
  entries : gmap QueryKey Cancellation;
  entries_poisoned : bool;              (** [entries.lock()] fails *)
  CANCEL_REQUESTED : Z;
  CANCEL_COMPLETED : Z;
  CANCEL_FAILED : Z }.
Definition new_registry : State := mkState ∅ false 0 0 0.

Definition set_entries (s : State) (m : gmap QueryKey Cancellation) : State :=
  mkState m (entries_poisoned s) (CANCEL_REQUESTED s) (CANCEL_COMPLETED s) (CANCEL_FAILED s).
Definition set_cancels (s : State) (requested completed failed : Z) : State :=
  mkState (entries s) (entries_poisoned s) requested completed failed.

(** [ActiveQueryRegistry::register], returning the key of its guard, and
    [Drop for ActiveQueryGuard] *)
Definition register (s : State) (pid : Z) (secret : list byte) (c : Cancellation) : State * QueryKey :=
  let key := (pid, secret) in
  (if entries_poisoned s then s else set_entries s (<[key := c]> (entries s)), key).
Definition drop_guard (s : State) (key : QueryKey) : State :=
  if entries_poisoned s then s else set_entries s (delete key (entries s)).

(** [ActiveQueryRegistry::cancel] *)
Definition cancel (s : State) (pid : Z) (secret : list byte) : State * result E bool :=
  let requested := wrapping_add (CANCEL_REQUESTED s) 1 in
  match (if entries_poisoned s then None else entries s !! (pid, secret)) with
  | None => (set_cancels s requested (CANCEL_COMPLETED s) (CANCEL_FAILED s), Ok false)
  | Some c =>
      match cancel_engine c with
      | Ok _ => (set_cancels s requested (wrapping_add (CANCEL_COMPLETED s) 1) (CANCEL_FAILED s), Ok true)
      | Err e => (set_cancels s requested (CANCEL_COMPLETED s) (wrapping_add (CANCEL_FAILED s) 1), Err e)
      end
  end.

(** The life of a server: queries start and end, cancellations arrive. *)
Inductive Event :=
  | Started (pid : Z) (secret : list byte) (c : Cancellation)
  | Ended (pid : Z) (secret : list byte)
  | Cancelled (pid : Z) (secret : list byte).
Definition handle (s : State) (e : Event) : State :=
  match e with
  | Started pid secret c => (register s pid secret c).1
  | Ended pid secret => drop_guard s (pid, secret)
  | Cancelled pid secret => (cancel s pid secret).1
  end.
Definition handle_all (l : list Event) : State := fold_left handle l new_registry.

(** The query that runs for a key, from the history alone: the last start of that
    key that no end of it follows. *)
Definition track (key : QueryKey) (q : option Cancellation) (e : Event) : option Cancellation :=
  match e with
  | Started pid secret c => if bool_decide ((pid, secret) = key) then Some c else q
  | Ended pid secret => if bool_decide ((pid, secret) = key) then None else q
  | Cancelled _ _ => q
  end.
Definition running_query (key : QueryKey) (l : list Event) : option Cancellation :=
  fold_left (track key) l None.

Lemma handle_poison e s : entries_poisoned (handle s e) = entries_poisoned s.
Proof using.
  destruct e as [pid secret c|pid secret|pid secret]; cbn.
  - by destruct (entries_poisoned s) eqn:?.
  - unfold drop_guard. by destruct (entries_poisoned s) eqn:?.
  - unfold cancel. repeat case_match; done.
Qed.

Lemma handle_entries key l s q :
  entries_poisoned s = false -> entries s !! key = q ->
  entries_poisoned (fold_left handle l s) = false /\
  entries (fold_left handle l s) !! key = fold_left (track key) l q.
Proof using.
  revert s q. induction l as [|e l IH]; intros s q Hp Hq; [done|]. cbn [fold_left].
  apply IH; [by rewrite handle_poison|].
  destruct e as [pid secret c|pid secret|pid secret]; cbn.
  - rewrite Hp. cbn.
    case_bool_decide as Hk; [subst key; by rewrite lookup_insert_eq | by rewrite lookup_insert_ne].
  - unfold drop_guard. rewrite Hp. cbn.
    case_bool_decide as Hk; [subst key; by rewrite lookup_delete_eq | by rewrite lookup_delete_ne].
  - unfold cancel. repeat case_match; done.
Qed.

(** A cancellation request reaches exactly the query it names.  After any
    history of queries starting, ending and being cancelled, a request with a backend
    key cancels the query that currently runs under exactly that process id and
    secret, and reports [false] without touching any query when there is none; the
    entries are unchanged, and each request is counted once as requested and, when a
    query was found, once as completed or failed. *)
Theorem cancel_reaches_running_query l pid secret :
  let s := handle_all l in
  entries (cancel s pid secret).1 = entries s /\
  CANCEL_REQUESTED (cancel s pid secret).1 = wrapping_add (CANCEL_REQUESTED s) 1 /\
  match running_query (pid, secret) l with
  | None => (cancel s pid secret).2 = Ok false /\
            CANCEL_COMPLETED (cancel s pid secret).1 = CANCEL_COMPLETED s /\
            CANCEL_FAILED (cancel s pid secret).1 = CANCEL_FAILED s
  | Some c =>
      match cancel_engine c with
      | Ok _ => (cancel s pid secret).2 = Ok true /\
                CANCEL_COMPLETED (cancel s pid secret).1 = wrapping_add (CANCEL_COMPLETED s) 1
      | Err e => (cancel s pid secret).2 = Err e /\
                 CANCEL_FAILED (cancel s pid secret).1 = wrapping_add (CANCEL_FAILED s) 1
      end
  end.
Proof using.
  intros s. destruct (handle_entries (pid, secret) l new_registry None eq_refl eq_refl) as [Hp Hs].
  change (entries_poisoned s = false) in Hp.
  change (entries s !! (pid, secret) = running_query (pid, secret) l) in Hs.
  clearbody s. unfold cancel. rewrite Hp, Hs.
  destruct (running_query (pid, secret) l) as [c|]; [destruct (cancel_engine c)|]; repeat split.
Qed.
End registry.
End Registry.
