(* ===== verification/Storage.v ===== *)
(** * The storage session ([quackgis-server/src/duckdb_adbc_storage.rs])

    [DuckDbAdbcStorage] owns one native connection.  A transaction takes it out of its
    slot; a session whose native outcome is uncertain is quarantined with its slot
    empty; explicit transactions join the drain set of the lifecycle.  The native
    driver (ADBC, DuckDB) is a parameter: a world and the outcome of each call on it.
    The native work of an operation (the SQL it prepares and executes) is an argument
    of the operation; error messages are left out. *)

From S2P Require Import Prelude.

Inductive EngineErrorKind :=
  | InvalidQuery | Unsupported | NotFound | AlreadyExists | Constraint | Unauthorized | Cancelled
  | Timeout | Io | Busy | Internal | IndeterminateCommit | QuarantinedKind.
Inductive TransactionOutcome := NotApplicable | RolledBack | Committed | Indeterminate.
Inductive EngineTransactionState := Idle | Active | Quarantined.
#[export] Instance engine_transaction_state_eq_dec : EqDecision EngineTransactionState.
Proof. solve_decision. Defined.

(** [EngineError] less its message and vendor code *)
Record EngineError := mkEngineError {
  kind : EngineErrorKind;
  sqlstate : option str;
  transaction_outcome : TransactionOutcome }.
Definition new_error (k : EngineErrorKind) : EngineError := mkEngineError k None NotApplicable.
Definition with_transaction_outcome (e : EngineError) (o : TransactionOutcome) : EngineError :=
  mkEngineError (kind e) (sqlstate e) o.
Definition with_sqlstate (e : EngineError) (s : str) : EngineError :=
  mkEngineError (kind e) (Some s) (transaction_outcome e).
(** [anyhow_engine_error]: the errors raised with [bail!] and [anyhow!] *)
Definition anyhow : EngineError := new_error Internal.

Inductive BatchStreamState := StreamActive | Exhausted | StreamFailed.

(** An operation that has taken the connection and not finished. *)
Inductive Outstanding := StreamOpen (s : BatchStreamState) | UpdateOperation | IngestOperation.

(** [catch_unwind]: an operation returns, fails or panics. *)
Inductive Caught (A : Type) := Returned (a : A) | Failed (e : EngineError) | Panicked.
Arguments Returned {A} a.
Arguments Failed {A} e.
Arguments Panicked {A}.

(** Case analysis on the outcome of each native call of an operation *)
Ltac native_cases :=
  repeat match goal with
  | |- context [match ?x with _ => _ end] =>
      lazymatch x with
      | context [match _ with _ => _ end] => fail
      | _ => destruct x eqn:?
      end
  | p : prod _ _ |- _ => destruct p
  | r : result _ _ |- _ => destruct r
  | u : unit |- _ => destruct u
  end.
Ltac run_session := cbv -[wrapping_add Z.eqb] in *; native_cases; simplify_eq.

Section storage.
(** ** The native connection *)
Context {World : Type}.
Definition Native (A : Type) : Type := World -> result EngineError A * World.
Context (set_autocommit : bool -> Native unit) (native_commit native_rollback : Native unit).

(** [restore_autocommit] *)
Definition restore_autocommit : Native unit := set_autocommit true.

(** ** State *)

Record Config := mkConfig {
  catalog_identity_enabled : bool;
  connection_poisoned : bool;          (** the three mutexes, poisoned by a panic *)
  state_poisoned : bool;
  commit_lock_poisoned : bool }.

Record Session := mkSession {
  config : Config;
  world : World;
  slot : bool;                         (** [connection] holds [Some] *)
  state : EngineTransactionState;
  read_only : bool;
  joined : Z;                          (** this session's share of [active_transactions] *)
  accepting : bool;
  quarantines : Z;                     (** [metrics::connection_quarantined] *)
  outstanding : option Outstanding }.

Definition set_world (s : Session) (w : World) : Session :=
  mkSession (config s) w (slot s) (state s) (read_only s) (joined s) (accepting s) (quarantines s) (outstanding s).
Definition set_slot (s : Session) (b : bool) : Session :=
  mkSession (config s) (world s) b (state s) (read_only s) (joined s) (accepting s) (quarantines s) (outstanding s).
Definition set_read_only (s : Session) (b : bool) : Session :=
  mkSession (config s) (world s) (slot s) (state s) b (joined s) (accepting s) (quarantines s) (outstanding s).
Definition set_joined (s : Session) (n : Z) : Session :=
  mkSession (config s) (world s) (slot s) (state s) (read_only s) n (accepting s) (quarantines s) (outstanding s).
Definition set_outstanding (s : Session) (o : option Outstanding) : Session :=
  mkSession (config s) (world s) (slot s) (state s) (read_only s) (joined s) (accepting s) (quarantines s) o.
Definition set_accepting (s : Session) (b : bool) : Session :=
  mkSession (config s) (world s) (slot s) (state s) (read_only s) (joined s) b (quarantines s) (outstanding s).

(** ** Computations on the session *)

Definition M (A : Type) : Type := Session -> result EngineError A * Session.
Definition ret {A} (a : A) : M A := fun s => (Ok a, s).
Definition bindM {A B} (m : M A) (k : A -> M B) : M B := fun s =>
  match m s with (Ok a, s) => k a s | (Err e, s) => (Err e, s) end.
#[local] Notation "'let!' x := m 'in' k" := (bindM m (fun x => k))
  (at level 200, x name, m at level 100, k at level 200).
Definition fail {A} (e : EngineError) : M A := fun s => (Err e, s).
(** [match m { Ok(..) => .., Err(..) => .. }] and [let _ = m] *)
Definition attempt {A} (m : M A) : M (result EngineError A) := fun s => let '(r, s) := m s in (Ok r, s).
Definition gets {A} (f : Session -> A) : M A := fun s => (Ok (f s), s).
Definition modify (f : Session -> Session) : M unit := fun s => (Ok tt, f s).
Definition native {A} (n : Native A) : M A := fun s => let '(r, w) := n (world s) in (r, set_world s w).
Definition lift {A} (r : result EngineError A) : M A := fun s => (r, s).

(** [lifecycle.try_start_transaction] and [transaction_finished] *)
Definition try_start_transaction : M bool := fun s =>
  if accepting s then (Ok true, set_joined s (joined s + 1)) else (Ok false, s).
Definition transaction_finished : M unit := modify (fun s => set_joined s (joined s - 1)).

(** [transaction_state] *)
Definition transaction_state (s : Session) : EngineTransactionState :=
  if state_poisoned (config s) then Quarantined else state s.

(** [require_transaction_state] *)
Definition require_transaction_state (required : EngineTransactionState) : M unit := fun s =>
  if bool_decide (transaction_state s = required) then (Ok tt, s) else (Err anyhow, s).

(** [set_transaction_state] *)
Definition set_transaction_state (next : EngineTransactionState) : M unit := fun s =>
  if state_poisoned (config s) then (Err anyhow, s)
  else
    let quarantines :=
      if bool_decide (next = Quarantined) && negb (bool_decide (state s = Quarantined))
      then wrapping_add (quarantines s) 1 else quarantines s in
    let joined :=
      if bool_decide (state s = Active) && negb (bool_decide (next = Active))
      then joined s - 1 else joined s in
    let read_only := if bool_decide (next = Active) then read_only s else false in
    (Ok tt, mkSession (config s) (world s) (slot s) next read_only joined (accepting s) quarantines (outstanding s)).

(** [require_writable_transaction] *)
Definition require_writable_transaction : M unit := fun s =>
  if bool_decide (transaction_state s = Active) && read_only s
  then (Err (with_sqlstate (new_error Unauthorized) (lit "25006")), s)
  else (Ok tt, s).

(** [unavailable_connection_error] *)
Definition unavailable_connection_error (s : Session) : EngineError :=
  if bool_decide (transaction_state s = Quarantined) then new_error QuarantinedKind else new_error Busy.

(** [take_connection], [take_connection_engine] and [return_connection] *)
Definition take_connection : M unit := fun s =>
  if connection_poisoned (config s) then (Err anyhow, s)
  else if slot s then (Ok tt, set_slot s false) else (Err anyhow, s).
Definition take_connection_engine : M unit := fun s =>
  if connection_poisoned (config s) then (Err (new_error QuarantinedKind), s)
  else if slot s then (Ok tt, set_slot s false) else (Err (unavailable_connection_error s), s).
Definition return_connection : M unit := fun s =>
  if connection_poisoned (config s) then (Err anyhow, s)
  else if slot s then (Err anyhow, s) else (Ok tt, set_slot s true).

(** [with_connection] and [with_connection_engine] *)
Definition with_connection {A} (operation : Native A) : M A := fun s =>
  if connection_poisoned (config s) then (Err anyhow, s)
  else if slot s then native operation s else (Err anyhow, s).
Definition with_connection_engine {A} (operation : Native A) : M A := fun s =>
  if connection_poisoned (config s) then (Err (new_error QuarantinedKind), s)
  else if slot s then native operation s else (Err (unavailable_connection_error s), s).

(** [catalog_commit_guard] *)
Definition catalog_commit_guard : M unit := fun s =>
  if catalog_identity_enabled (config s) && commit_lock_poisoned (config s)
  then (Err anyhow, s) else (Ok tt, s).

(** Quarantine and fail, as after every uncertain native outcome: with
    [set_transaction_state(Quarantined)?] and with [let _ = ..]. *)
Definition quarantine {A} (e : EngineError) : M A :=
  let! _ := set_transaction_state Quarantined in fail e.
Definition quarantine_silently {A} (e : EngineError) : M A :=
  let! _ := attempt (set_transaction_state Quarantined) in fail e.

(** ** Explicit transactions *)

(** [begin_transaction_with_access] *)
Definition begin_transaction_with_access (ro : bool) : M unit :=
  let! _ := require_transaction_state Idle in
  let! started := try_start_transaction in
  if negb started then fail anyhow else
  let! disabled := attempt (with_connection (set_autocommit false)) in
  match disabled with
  | Err _ => let! _ := transaction_finished in fail anyhow
  | Ok _ =>
      let! _ := modify (fun s => set_read_only s ro) in
      let! activated := attempt (set_transaction_state Active) in
      match activated with
      | Err e => let! _ := modify (fun s => set_read_only s false) in let! _ := transaction_finished in fail e
      | Ok _ => ret tt
      end
  end.

(** [reconcile_catalog_identity_registry_on]: its statements, then a commit *)
Definition reconcile_catalog_identity_registry_on (statements : Native unit) : Native unit := fun w =>
  match statements w with
  | (Ok _, w) => native_commit w
  | (Err e, w) => (Err e, w)
  end.

(** The commit of [commit_transaction] and [transaction], from the commit lock to
    the restored autocommit mode; every failure quarantines. *)
Definition commit_and_restore (statements : Native unit) : M unit :=
  let! locked := attempt catalog_commit_guard in
  match locked with
  | Err _ => let! _ := attempt (native native_rollback) in quarantine anyhow
  | Ok _ =>
      let! committed := attempt (native native_commit) in
      match committed with
      | Err _ => quarantine anyhow
      | Ok _ =>
          let! identity := gets (fun s => catalog_identity_enabled (config s)) in
          let! reconciled :=
            (if identity then attempt (native (reconcile_catalog_identity_registry_on statements))
             else ret (Ok tt)) in
          match reconciled with
          | Err _ => let! _ := attempt (native native_rollback) in quarantine anyhow
          | Ok _ =>
              let! restored := attempt (native restore_autocommit) in
              match restored with Err _ => quarantine anyhow | Ok _ => ret tt end
          end
      end
  end.

(** [commit_transaction] *)
Definition commit_transaction (statements : Native unit) : M unit :=
  let! _ := require_transaction_state Active in
  let! _ := take_connection in
  let! _ := commit_and_restore statements in
  let! _ := return_connection in
  set_transaction_state Idle.

(** The rollback of [rollback_transaction] and of a failed [transaction] *)
Definition rollback_and_restore (e : EngineError) : M unit :=
  let! rolled_back := attempt (native native_rollback) in
  match rolled_back with
  | Err _ => quarantine e
  | Ok _ =>
      let! restored := attempt (native restore_autocommit) in
      match restored with Err _ => quarantine e | Ok _ => ret tt end
  end.

(** [rollback_transaction] *)
Definition rollback_transaction : M unit :=
  let! _ := require_transaction_state Active in
  let! _ := take_connection in
  let! _ := rollback_and_restore anyhow in
  let! _ := return_connection in
  set_transaction_state Idle.

(** ** [transaction] *)

Definition run_operation {A} (operation : World -> Caught A * World) : M (Caught A) := fun s =>
  let '(r, w) := operation (world s) in (Ok r, set_world s w).

(** The result of [transaction]; [None] is the resumed panic. *)
Definition transaction {A} (operation : World -> Caught A * World) (statements : Native unit)
    : M (option A) :=
  let! _ := require_transaction_state Idle in
  let! started := try_start_transaction in
  if negb started then fail anyhow else
  let! taken := attempt take_connection in
  match taken with
  | Err e => let! _ := transaction_finished in fail e
  | Ok _ =>
      let! disabled := attempt (native (set_autocommit false)) in
      match disabled with
      | Err _ => let! _ := return_connection in let! _ := transaction_finished in fail anyhow
      | Ok _ =>
          let! activated := attempt (set_transaction_state Active) in
          match activated with
          | Err e => let! _ := transaction_finished in fail e
          | Ok _ =>
              let! outcome := run_operation operation in
              match outcome with
              | Returned v =>
                  let! _ := commit_and_restore statements in
                  let! _ := return_connection in
                  let! _ := set_transaction_state Idle in
                  ret (Some v)
              | Failed e =>
                  let! _ := rollback_and_restore e in
                  let! _ := return_connection in
                  let! _ := set_transaction_state Idle in
                  fail e
              | Panicked =>
                  let! rolled_back := attempt (native native_rollback) in
                  let! restored := (if is_ok rolled_back then attempt (native restore_autocommit)
                              else ret (Err anyhow)) in
                  let! _ := (if is_ok restored
                       then let! _ := attempt return_connection in attempt (set_transaction_state Idle)
                       else attempt (set_transaction_state Quarantined)) in
                  ret None
              end
          end
      end
  end.

(** [rollback_write_probe], from the executed probe on and as a whole *)
Definition probe_and_roll_back (sql : Native (option Z)) : M unit :=
  let! operation := attempt (native sql) in
  let! rolled_back := attempt (native native_rollback) in
  match rolled_back with
  | Err _ => quarantine_silently (new_error QuarantinedKind)
  | Ok _ =>
      let! restored := attempt (native restore_autocommit) in
      match restored with
      | Err _ => quarantine_silently (new_error QuarantinedKind)
      | Ok _ =>
          let! returned := attempt return_connection in
          match returned with
          | Err _ => quarantine_silently anyhow
          | Ok _ =>
              let! idle := attempt (set_transaction_state Idle) in
              match idle with
              | Err _ => let! _ := transaction_finished in fail anyhow
              | Ok _ => let! _ := lift operation in ret tt
              end
          end
      end
  end.
Definition rollback_write_probe (sql : Native (option Z)) : M unit :=
  let! idle := attempt (require_transaction_state Idle) in
  match idle with
  | Err _ => fail anyhow
  | Ok _ =>
      let! started := try_start_transaction in
      if negb started then fail (new_error Busy) else
      let! taken := attempt take_connection_engine in
      match taken with
      | Err e => let! _ := transaction_finished in fail e
      | Ok _ =>
          let! disabled := attempt (native (set_autocommit false)) in
          match disabled with
          | Err e =>
              let! _ := attempt return_connection in let! _ := transaction_finished in fail e
          | Ok _ =>
              let! activated := attempt (set_transaction_state Active) in
              match activated with
              | Err _ =>
                  let! _ := attempt (native native_rollback) in
                  let! _ := attempt (native restore_autocommit) in
                  let! _ := attempt return_connection in
                  let! _ := transaction_finished in
                  fail anyhow
              | Ok _ => probe_and_roll_back sql
              end
          end
      end
  end.

(** ** Streams *)

(** [query_bound_stream_at_catalog_epoch]: [parameter_rows] is the row count of the
    parameters, [validated] the verdict of [validate_read_query_sql] on the query,
    [epoch] the expected epoch with its native lookup, [setup] the preparation and
    execution of the statement. *)
Definition query_bound_stream (parameter_rows : option Z) (validated : result EngineError unit)
    (epoch : option (Z * Native Z)) (setup : Native unit) : M unit :=
  if match parameter_rows with Some n => negb (n =? 1) | None => false end
  then fail (new_error InvalidQuery) else
  let! _ := lift validated in
  let! _ := take_connection_engine in
  let! _ := catalog_commit_guard in
  let! current :=
    (match epoch with
     | None => ret (Ok true)
     | Some (expected, lookup) =>
         let! found := attempt (native lookup) in
         ret (match found with Err e => Err e | Ok current => Ok (current =? expected) end)
     end) in
  match current with
  | Err e => let! _ := return_connection in fail e
  | Ok false => let! _ := return_connection in fail (new_error Unsupported)
  | Ok true =>
      let! prepared := attempt (native setup) in
      match prepared with
      | Ok _ => modify (fun s => set_outstanding s (Some (StreamOpen StreamActive)))
      | Err e => let! _ := attempt return_connection in fail e
      end
  end.

(** [EngineBatchStream::next_batch]: the reader's next item; [requested] is the
    cancellation flag at that moment. *)
Definition next_batch {B} (next : World -> option (result EngineError B) * World) (requested : bool)
    : M (option B) := fun s =>
  match outstanding s with
  | Some (StreamOpen _) =>
      let '(item, w) := next (world s) in
      let s := set_world s w in
      match item with
      | Some (Ok batch) => (Ok (Some batch), s)
      | Some (Err _) => (Err (new_error (if requested then Cancelled else Internal)),
                         set_outstanding s (Some (StreamOpen StreamFailed)))
      | None => (Ok None, set_outstanding s (Some (StreamOpen Exhausted)))
      end
  | _ => (Err anyhow, s)
  end.

(** [Drop for DuckDbBatchStream] *)
Definition drop_stream (requested : bool) : M unit := fun s =>
  match outstanding s with
  | Some (StreamOpen st) =>
      let s := set_outstanding s None in
      let clean := match st with Exhausted => negb requested | _ => false end in
      (let! returned := (if clean then attempt return_connection else ret (Err anyhow)) in
       if is_ok returned then ret tt
       else let! _ := attempt (set_transaction_state Quarantined) in ret tt) s
  | _ => (Ok tt, s)
  end.

(** ** Updates *)

(** [start_update_operation] and [start_ingest_operation] *)
Definition start_operation (o : Outstanding) : M unit :=
  let! _ := require_writable_transaction in
  let! _ := take_connection_engine in
  modify (fun s => set_outstanding s (Some o)).

(** The commit of an autonomous update, with the outcome each failure reports *)
Definition commit_update {A} (affected : A) (statements : Native unit) : M A :=
  let! locked := attempt catalog_commit_guard in
  match locked with
  | Err _ => let! _ := attempt (native native_rollback) in quarantine_silently (new_error QuarantinedKind)
  | Ok _ =>
      let! committed := attempt (native native_commit) in
      match committed with
      | Err _ => quarantine_silently (with_transaction_outcome (new_error IndeterminateCommit) Indeterminate)
      | Ok _ =>
          let! identity := gets (fun s => catalog_identity_enabled (config s)) in
          let! reconciled :=
            (if identity then attempt (native (reconcile_catalog_identity_registry_on statements))
             else ret (Ok tt)) in
          match reconciled with
          | Err _ =>
              let! _ := attempt (native native_rollback) in
              quarantine_silently (with_transaction_outcome (new_error QuarantinedKind) Committed)
          | Ok _ =>
              let! restored := attempt (native restore_autocommit) in
              match restored with
              | Err _ => quarantine_silently (with_transaction_outcome (new_error QuarantinedKind) Committed)
              | Ok _ =>
                  let! returned := attempt return_connection in
                  match returned with Err _ => fail (new_error QuarantinedKind) | Ok _ => ret affected end
              end
          end
      end
  end.

(** [native_rollback().is_ok() && restore_autocommit().is_ok()] *)
Definition cleaned_up : M bool :=
  let! rolled_back := attempt (native native_rollback) in
  if is_ok rolled_back then let! restored := attempt (native restore_autocommit) in ret (is_ok restored)
  else ret false.

(** The end of a cancelled update *)
Definition cancelled_update {A} (explicit_transaction : bool) : M A :=
  let! rolled_back := cleaned_up in
  let outcome := if rolled_back then RolledBack else Indeterminate in
  let error := with_transaction_outcome
    (new_error (if rolled_back then Cancelled else QuarantinedKind)) outcome in
  if explicit_transaction then quarantine_silently error
  else if rolled_back then
    let! returned := attempt return_connection in
    if is_ok returned then fail (with_transaction_outcome (new_error Cancelled) RolledBack)
    else quarantine_silently error
  else quarantine_silently error.

(** The end of a failed autonomous update *)
Definition failed_update {A} (e : EngineError) : M A :=
  let! clean := cleaned_up in
  let! returned := (if clean then attempt return_connection else ret (Err anyhow)) in
  if is_ok returned then fail e else quarantine_silently (new_error QuarantinedKind).

(** [DuckDbUpdateOperation::execute]: [body] prepares and executes the statement,
    [requested] is the cancellation flag loaded after it. *)
Definition update_execute {A} (body : Native A) (requested : bool) (statements : Native unit) : M A :=
  fun s => match outstanding s with
  | Some UpdateOperation =>
      (let! explicit_transaction := gets (fun s => bool_decide (transaction_state s = Active)) in
       let! disabled := (if explicit_transaction then ret (Ok tt)
                         else attempt (native (set_autocommit false))) in
       match disabled with
       | Err e => let! _ := attempt return_connection in fail e
       | Ok _ =>
           let! done := attempt (native body) in
           if requested then cancelled_update explicit_transaction
           else if explicit_transaction then
             let! returned := attempt return_connection in
             match returned with Err _ => fail (new_error QuarantinedKind) | Ok _ => lift done end
           else match done with
                | Ok affected => commit_update affected statements
                | Err e => failed_update e
                end
       end) (set_outstanding s None)
  | _ => (Err (new_error QuarantinedKind), s)
  end.

(** ** Ingestion *)

(** [DuckDbIngestOperation::execute]: the native lookup of the target schema, the
    layout check [bbox_publish_projection], the staged statements, and the
    cancellation flag before publication and at the end. *)
Definition ingest_execute {A S} (get_table_schema : Native S) (projection : S -> result EngineError unit)
    (create_stage ingest_reader : Native unit) (publish : Native A) (drop_stage : Native unit)
    (requested_before requested_after : bool) : M A :=
  fun s => match outstanding s with
  | Some IngestOperation =>
      (let! target_schema := native get_table_schema in
       match projection target_schema with
       | Err e =>
           let! returned := attempt return_connection in
           match returned with
           | Err _ => quarantine_silently (new_error QuarantinedKind)
           | Ok _ => fail e
           end
       | Ok _ =>
           let! result := attempt
             (let! _ := native create_stage in
              let! _ := native ingest_reader in
              let! _ := (if requested_before then fail (new_error Cancelled) else ret tt) in
              native publish) in
           let! cleanup := attempt (native drop_stage) in
           let! settled :=
             (if requested_after || negb (is_ok cleanup)
              then let! _ := attempt (set_transaction_state Quarantined) in ret (Ok tt)
              else let! returned := attempt return_connection in
                   match returned with
                   | Ok _ => ret (Ok tt)
                   | Err _ =>
                       let! _ := attempt (set_transaction_state Quarantined) in
                       ret (Err (new_error QuarantinedKind))
                   end) in
           match settled with
           | Err e => fail e
           | Ok _ =>
               if is_ok result then lift result
               else if requested_after then fail (new_error Cancelled)
               else if negb (is_ok cleanup) then fail (new_error QuarantinedKind)
               else lift result
           end
       end) (set_outstanding s None)
  | _ => (Err (new_error QuarantinedKind), s)
  end.

(** [Drop for DuckDbAdbcStorage] *)
Definition drop_storage : M unit :=
  let! st := gets transaction_state in
  if bool_decide (st = Active) then let! _ := attempt rollback_transaction in ret tt else ret tt.

(** ** Histories of calls *)

Inductive Call :=
  | Begin (ro : bool)
  | CommitTransaction (statements : Native unit)
  | RollbackTransaction
  | Transaction {A} (operation : World -> Caught A * World) (statements : Native unit)
  | WriteProbe (sql : Native (option Z))
  | WithConnection {A} (operation : Native A)
  | OpenStream (parameter_rows : option Z) (validated : result EngineError unit)
      (epoch : option (Z * Native Z)) (setup : Native unit)
  | NextBatch {B} (next : World -> option (result EngineError B) * World) (requested : bool)
  | DropStream (requested : bool)
  | StartUpdate
  | RunUpdate {A} (body : Native A) (requested : bool) (statements : Native unit)
  | StartIngest
  | RunIngest {A S} (get_table_schema : Native S) (projection : S -> result EngineError unit)
      (create_stage ingest_reader : Native unit) (publish : Native A) (drop_stage : Native unit)
      (requested_before requested_after : bool)
  | BeginDrain.

Definition call (c : Call) (s : Session) : Session :=
  match c with
  | Begin ro => (begin_transaction_with_access ro s).2
  | CommitTransaction st => (commit_transaction st s).2
  | RollbackTransaction => (rollback_transaction s).2
  | Transaction op st => (transaction op st s).2
  | WriteProbe sql => (rollback_write_probe sql s).2
  | WithConnection op => (with_connection_engine op s).2
  | OpenStream rows v e setup => (query_bound_stream rows v e setup s).2
  | NextBatch next r => (next_batch next r s).2
  | DropStream r => (drop_stream r s).2
  | StartUpdate => (start_operation UpdateOperation s).2
  | RunUpdate body r st => (update_execute body r st s).2
  | StartIngest => (start_operation IngestOperation s).2
  | RunIngest lookup proj create ingest publish dropped r1 r2 =>
      (ingest_execute lookup proj create ingest publish dropped r1 r2 s).2
  | BeginDrain => set_accepting s false
  end.
Definition calls (l : list Call) (s : Session) : Session := fold_left (fun s c => call c s) l s.

Definition open_session (identity : bool) (w : World) : Session :=
  mkSession (mkConfig identity false false false) w true Idle false 0 true 0 None.

(** ** Invariant of a session between calls *)

Definition healthy (c : Config) : bool :=
  negb (connection_poisoned c || state_poisoned c || commit_lock_poisoned c).

Record session_inv (s : Session) : Prop := {
  inv_healthy : healthy (config s) = true;
  inv_joined : joined s = if bool_decide (state s = Active) then 1 else 0;
  inv_slot : slot s = match state s, outstanding s with Quarantined, _ | _, Some _ => false | _, _ => true end;
  inv_quarantined : state s = Quarantined -> outstanding s = None;
  inv_read_only : read_only s = true -> state s = Active }.

(** The lookup that [DuckDbIngestOperation::execute] propagates with [?] succeeds. *)
Definition schema_found (c : Call) : Prop :=
  match c with
  | RunIngest lookup _ _ _ _ _ _ _ => forall w, is_ok (lookup w).1 = true
  | _ => True
  end.

(** A session that satisfies the invariant, in each of its concrete shapes *)
Ltac session_shapes s :=
  intros [Hh Hj Hs Hq Hr]; destruct s as [[ident cp sp lp] w sl st ro j acc q out];
  cbn in Hh, Hj, Hs, Hq, Hr; destruct cp, sp, lp; try discriminate Hh;
  destruct st, out as [[]|]; subst; try discriminate (Hq eq_refl);
  destruct ro; try discriminate (Hr eq_refl); clear Hh Hq Hr.
Ltac settle := constructor; cbv -[wrapping_add]; try done; intros; simplify_eq; auto.

Lemma session_inv_call c s : session_inv s -> schema_found c -> session_inv (call c s).
Proof using.
  session_shapes s; intros Hc; destruct c; run_session; settle.
  all: match goal with H : _ ?x = (Err _, _) |- _ => specialize (Hc x); rewrite H in Hc; done end.
Qed.

Lemma session_inv_calls l s : session_inv s -> Forall schema_found l -> session_inv (calls l s).
Proof using.
  revert s. induction l as [|c l IH]; intros s Hs Hl; [done|]. inversion Hl; subst. cbn.
  apply IH; [by apply session_inv_call | done].
Qed.

Lemma open_session_inv identity w : session_inv (open_session identity w).
Proof using. by constructor. Qed.

Definition same_resources (s s' : Session) : Prop :=
  config s' = config s /\ world s' = world s /\ state s' = state s /\ slot s' = slot s /\
  joined s' = joined s /\ outstanding s' = outstanding s.

(** No call gets past an empty slot: neither the native connection nor the
    accounting changes. *)
Lemma call_without_connection c s :
  healthy (config s) = true -> slot s = false -> outstanding s = None ->
  state s = Active \/ state s = Quarantined -> same_resources s (call c s).
Proof using.
  destruct s as [[ident cp sp lp] w sl st ro j acc q out]. cbn. intros Hh -> ->.
  destruct cp, sp, lp; try discriminate Hh.
  intros [-> | ->]; destruct c; run_session; repeat split.
Qed.

(** C13: a storage session never loses track of its connection.  For every behaviour
    of the native driver and every sequence of calls on a session whose mutexes are
    healthy (every ingestion finding its target schema): the session counts in the
    drain set exactly while it is in a transaction; its slot is empty exactly while an
    operation is outstanding or after it was quarantined; only a transaction is
    read-only; and once quarantined, no later call reaches the native connection or
    revives the session. *)
Theorem session_keeps_connection identity w l :
  Forall schema_found l ->
  let s := calls l (open_session identity w) in
  joined s = (if bool_decide (state s = Active) then 1 else 0) /\
  (slot s = false <-> state s = Quarantined \/ outstanding s <> None) /\
  (read_only s = true -> state s = Active) /\
  (state s = Quarantined -> forall c, same_resources s (call c s)).
Proof using.
  intros Hl s. assert (session_inv s) as [Hh Hj Hs Hq Hr] by (apply session_inv_calls; [apply open_session_inv | done]).
  split; [done|]. split.
  { rewrite Hs. destruct (state s), (outstanding s); intuition congruence. }
  split; [done|]. intros Hst c. apply call_without_connection; [done | by rewrite Hs, Hst | auto | auto].
Qed.

(** An ingestion whose target-schema lookup fails strands its transaction.
    [DuckDbIngestOperation::execute] propagates that failure with [?], dropping the
    connection without returning or quarantining it: the session stays in its
    transaction with an empty slot, and no later call, commit and rollback included,
    ever ends the transaction, so the process-wide count of active transactions never
    returns to zero. *)
Theorem failed_ingest_lookup_strands_session {A S} s (lookup : Native S) e projection create ingest
    (publish : Native A) dropped r1 r2 l :
  session_inv s -> state s = Active -> read_only s = false -> slot s = true ->
  (lookup (world s)).1 = Err e ->
  let s' := calls (StartIngest :: RunIngest lookup projection create ingest publish dropped r1 r2 :: l) s in
  state s' = Active /\ slot s' = false /\ outstanding s' = None /\ joined s' = 1 /\
  (commit_transaction (fun w => (Ok tt, w)) s').1 = Err anyhow /\ (rollback_transaction s').1 = Err anyhow.
Proof using.
  intros Hi Hst Hro Hsl He. cbn [calls fold_left]. fold (calls l).
  set (s1 := call _ (call StartIngest s)).
  assert (healthy (config s1) = true /\ state s1 = Active /\ slot s1 = false /\ outstanding s1 = None /\ joined s1 = 1) as H1.
  { subst s1. revert Hi. session_shapes s; try discriminate. cbn in He.
    destruct (lookup w) as [[] w'] eqn:Hw; [discriminate He|]. cbv -[wrapping_add]. rewrite Hw. repeat split. }
  clearbody s1. clear -H1. revert s1 H1. induction l as [|c l IH]; intros s1 (Hh & Hst & Hsl & Ho & Hj).
  - cbn [calls fold_left]. split_and!; try done; destruct s1 as [[? [] [] []] ?????????]; cbn in *; subst; try discriminate Hh;
      reflexivity.
  - cbn [calls fold_left]. apply IH.
    destruct (call_without_connection c s1 Hh Hsl Ho (or_introl Hst)) as (? & _ & ? & ? & ? & ?).
    split_and!; congruence.
Qed.
End storage.

(** ** A concrete driver: every native call succeeds *)

Module Smooth.
Definition mode : bool -> Native (World := Z) unit := fun _ w => (Ok tt, w).
Definition ok_call : Native (World := Z) unit := fun w => (Ok tt, w + 1).
Definition missing : Native (World := Z) unit := fun w => (Err (new_error NotFound), w).
Definition start (l : list (Call (World := Z))) : Session :=
  calls mode ok_call ok_call l (open_session true 0).

(** A cancelled update inside a transaction quarantines the session. *)
Definition cancelled_history : list (Call (World := Z)) :=
  [Begin false; StartUpdate; RunUpdate ok_call true ok_call].
Lemma session_keeps_connection_witness :
  state (start cancelled_history) = Quarantined /\
  joined (start cancelled_history) = 0 /\ slot (start cancelled_history) = false.
Proof.
  split; [vm_compute; reflexivity|].
  assert (Forall schema_found cancelled_history) as Hl by (repeat constructor).
  destruct (session_keeps_connection mode ok_call ok_call true 0 cancelled_history Hl) as (Hj & Hs & _).
  split; [exact Hj|]. apply Hs. left. vm_compute. reflexivity.
Defined.

(** Two stranded calls later the transaction is still counted. *)
Lemma failed_ingest_lookup_strands_session_witness :
  let s := calls mode ok_call ok_call
    [StartIngest; RunIngest missing (fun _ => Ok tt) ok_call ok_call ok_call ok_call false false;
     CommitTransaction ok_call; RollbackTransaction] (start [Begin false]) in
  state s = Active /\ joined s = 1.
Proof.
  assert (session_inv (start [Begin false])) as Hi
    by (apply session_inv_calls; [apply open_session_inv | repeat constructor]).
  destruct (failed_ingest_lookup_strands_session mode ok_call ok_call (start [Begin false]) missing
    (new_error NotFound) (fun _ => Ok tt) ok_call ok_call ok_call ok_call false false
    [CommitTransaction ok_call; RollbackTransaction] Hi eq_refl eq_refl eq_refl eq_refl) as (Ha & _ & _ & Hj & _).
  split; [exact Ha | exact Hj].
Defined.
End Smooth.
