(* ===== verification/StorageOutcomes.v ===== *)
(** * Transaction outcomes of the storage session

    Under the documented laws of the native driver (manual-commit mode publishes
    nothing before [commit]; [rollback] discards), what [transaction] and
    [DuckDbUpdateOperation::execute] report is what happened to the durable data. *)

From S2P Require Import Prelude Storage.

(** The published snapshots of the database, latest first, the snapshot a commit
    would publish, and the mode of the connection. *)
Class Adbc := {
  World : Type;
  Db : Type;
  set_autocommit : bool -> Native (World := World) unit;
  native_commit : Native (World := World) unit;
  native_rollback : Native (World := World) unit;
  history : World -> list Db;
  pending : World -> Db;
  manual : World -> bool;
  clean : World -> bool;
  law_disable : forall w r w', set_autocommit false w = (r, w') -> history w' = history w;
  law_disabled : forall w w', set_autocommit false w = (Ok tt, w') -> manual w' = true;
  law_enable : forall w r w', clean w = true -> set_autocommit true w = (r, w') -> history w' = history w;
  law_commit : forall w w', manual w = true -> native_commit w = (Ok tt, w') ->
    history w' = pending w :: history w /\ clean w' = true /\ manual w' = true;
  law_commit_failed : forall w e w', manual w = true -> native_commit w = (Err e, w') ->
    history w' = history w \/ history w' = pending w :: history w;
  law_rollback : forall w r w', native_rollback w = (r, w') -> history w' = history w;
  law_rolled_back : forall w w', native_rollback w = (Ok tt, w') -> clean w' = true }.

Section outcomes.
Context `{Adbc}.

(** Work done through the transaction handle only: it neither publishes nor leaves
    manual-commit mode. *)
Definition transactional {A} (n : World -> A * World) : Prop :=
  forall w r w', manual w = true -> n w = (r, w') -> history w' = history w /\ manual w' = true.

(** The work that ended in [w2] was published after [h], possibly followed by the
    catalog-identity reconciliation. *)
Definition published (h h' : list Db) (w2 : World) : Prop :=
  exists more, h' = more ++ pending w2 :: h /\ (length more <= 1)%nat.

(** ** The shared tails of the operations *)

Lemma reconcile_history statements w r w' :
  transactional statements -> manual w = true -> clean w = true ->
  reconcile_catalog_identity_registry_on native_commit statements w = (r, w') ->
  (r = Ok tt -> clean w' = true) /\ exists more, history w' = more ++ history w /\ (length more <= 1)%nat.
Proof using.
  intros Ht Hm Hc. unfold reconcile_catalog_identity_registry_on.
  destruct (statements w) as [[u|e] w1] eqn:Hs; destruct (Ht _ _ _ Hm Hs) as [Hh Hm1].
  - destruct (native_commit w1) as [[[]|e] w2] eqn:Hw; intros [= <- <-].
    + destruct (law_commit _ _ Hm1 Hw) as (-> & ? & _). rewrite Hh. split; [done|]. by exists [pending w1].
    + split; [done|]. destruct (law_commit_failed _ _ _ Hm1 Hw) as [-> | ->]; rewrite Hh;
        [exists [] | exists [pending w1]]; (split; [done | cbn; lia]).
  - intros [= <- <-]. split; [done|]. exists []. split; [done | cbn; lia].
Qed.

(** Apply the laws to every native outcome of the context, in the order of the calls. *)
Ltac laws :=
  repeat match goal with
  | H : Ok tt = Ok tt -> _ |- _ => specialize (H eq_refl)
  | Hc : native_commit ?w = (Ok tt, ?w'), Hm : manual ?w = true |- _ =>
      destruct (law_commit w w' Hm Hc) as (? & ? & ?); clear Hc
  | Hc : native_commit ?w = (Err ?e, ?w'), Hm : manual ?w = true |- _ =>
      pose proof (law_commit_failed w e w' Hm Hc); clear Hc
  | Hr : native_rollback ?w = (?r, ?w') |- _ =>
      pose proof (law_rollback w r w' Hr);
      first [pose proof (law_rolled_back w w' Hr) | idtac]; clear Hr
  | Hr : reconcile_catalog_identity_registry_on _ ?st ?w = (?r, ?w'),
    Ht : transactional ?st, Hm : manual ?w = true, Hc : clean ?w = true |- _ =>
      destruct (reconcile_history st w r w' Ht Hm Hc Hr) as (? & ? & ? & ?); clear Hr
  | He : set_autocommit true ?w = (?r, ?w'), Hc : clean ?w = true |- _ =>
      pose proof (law_enable w r w' Hc He); clear He
  | Hd : set_autocommit false ?w = (?r, ?w') |- _ =>
      pose proof (law_disable w r w' Hd);
      first [pose proof (law_disabled w w' Hd) | idtac]; clear Hd
  | Ht : transactional ?n, Hm : manual ?w = true, Hn : ?n ?w = (?r, ?w') |- _ =>
      lazymatch goal with
      | _ : manual w' = true |- _ => fail
      | _ => destruct (Ht w r w' Hm Hn) as [? ?]
      end
  end.
Ltac publish :=
  unfold published; first
    [ exists []; split; [cbn [app]; congruence | cbn; lia]
    | match goal with l : list Db |- _ => exists l; split; [congruence | done] end ].
Ltac run_native :=
  cbv -[World Db set_autocommit native_commit native_rollback history pending manual clean published
        reconcile_catalog_identity_registry_on wrapping_add app length].

(** The state in which [ran] left the manual transaction begun from [s] was published. *)
Definition publishes (ran : World -> World -> Prop) (s s' : Session (World := World)) : Prop :=
  exists w1 w2, set_autocommit false (world s) = (Ok tt, w1) /\ ran w1 w2 /\
    published (history (world s)) (history (world s')) w2.

Ltac publish_effect := eexists _, _; split; [reflexivity | split; [eassumption | publish]].
Ltac settle_outcome :=
  first
    [ publish_effect
    | left; congruence
    | right; publish_effect
    | right; eexists; publish_effect
    | eexists; publish_effect
    | match goal with H : _ \/ _ |- _ => destruct H; settle_outcome end ].

(** A healthy session at rest in state [st] *)
Ltac at_rest s :=
  destruct s as [[ident cp sp lp] w sl st ro j acc q out]; cbn in *; subst;
  destruct cp, sp, lp; try discriminate.

(** C11: [transaction] is atomic and honest.  On an idle session, for every operation
    that works through its transaction handle: success means that exactly the state
    the operation left was published as one snapshot (followed at most by the
    catalog-identity reconciliation) and the session is idle again; an error that
    leaves the session idle means nothing was published, and so does a panic, which is
    resumed; only an error that quarantines the session leaves the outcome open, and
    then the snapshot published is none or the operation's. *)
Theorem transaction_atomic {A} (operation : World -> Caught A * World) statements s :
  healthy (config s) = true -> state s = Idle ->
  transactional operation -> transactional statements ->
  let '(r, s') := transaction set_autocommit native_commit native_rollback operation statements s in
  match r with
  | Ok (Some v) => state s' = Idle /\ publishes (fun w1 w2 => operation w1 = (Returned v, w2)) s s'
  | Ok None => history (world s') = history (world s)
  | Err _ =>
      (state s' = Idle -> history (world s') = history (world s)) /\
      (history (world s') = history (world s) \/
       exists v, publishes (fun w1 w2 => operation w1 = (Returned v, w2)) s s')
  end.
Proof using.
  intros Hh Hst Hop Hstm. at_rest s. run_native. native_cases; simplify_eq; laws.
  all: repeat match goal with |- _ /\ _ => split end; try done; try congruence.
  all: settle_outcome.
Qed.

(** C12: the outcome an update reports is what happened.  For an autonomous update
    (idle session): success means exactly the
    update's effect was published and the session is reusable; an error that leaves
    the session idle, or that reports a rollback or no outcome at all, means nothing
    was published; an error of a quarantined session that reports [Committed] means
    the effect was published; only [Indeterminate] leaves both open.  An update inside
    an explicit transaction publishes nothing, whatever it returns, and when it was
    cancelled the session is quarantined and the error reports a rollback or an open
    outcome. *)
Theorem update_outcome_honest {A} (body : Native A) requested statements s :
  healthy (config s) = true -> slot s = false -> outstanding s = Some UpdateOperation ->
  state s <> Quarantined -> (state s = Active -> manual (world s) = true) ->
  transactional body -> transactional statements ->
  let '(r, s') := update_execute set_autocommit native_commit native_rollback body requested statements s in
  match state s, r with
  | Idle, Ok a =>
      state s' = Idle /\ slot s' = true /\ publishes (fun w1 w2 => body w1 = (Ok a, w2)) s s'
  | Idle, Err e =>
      (state s' = Idle -> history (world s') = history (world s)) /\
      match transaction_outcome e with
      | NotApplicable | RolledBack => history (world s') = history (world s)
      | Committed =>
          state s' = Quarantined -> exists a, publishes (fun w1 w2 => body w1 = (Ok a, w2)) s s'
      | Indeterminate =>
          history (world s') = history (world s) \/
          exists a, publishes (fun w1 w2 => body w1 = (Ok a, w2)) s s'
      end
  | _, _ =>
      history (world s') = history (world s) /\
      (requested = true -> state s' = Quarantined /\ exists e, r = Err e /\
         (transaction_outcome e = RolledBack \/ transaction_outcome e = Indeterminate))
  end.
Proof using.
  intros Hh Hsl Ho Hq Hm Hb Hstm. at_rest s. destruct st; [|specialize (Hm eq_refl)|done].
  - run_native. native_cases; simplify_eq; laws.
    all: repeat match goal with |- _ /\ _ => split end; try done; try congruence.
    all: try intros _; settle_outcome.
  - run_native. native_cases; simplify_eq; laws; (split; [congruence|]); try done; intros _; eauto.
Qed.

(** The end of an explicit transaction: what [commit_transaction] and
    [rollback_transaction] do to the published history *)
Lemma commit_transaction_outcome statements s :
  healthy (config s) = true -> state s = Active -> manual (world s) = true -> transactional statements ->
  let '(r, s') := commit_transaction set_autocommit native_commit native_rollback statements s in
  match r with
  | Ok _ => state s' = Idle /\ published (history (world s)) (history (world s')) (world s)
  | Err _ => True
  end.
Proof using.
  intros Hh Hst Hm Hstm. at_rest s. run_native. native_cases; simplify_eq; laws; try done.
  all: split; [done | publish].
Qed.

Lemma rollback_transaction_outcome s :
  healthy (config s) = true ->
  let '(r, s') := rollback_transaction set_autocommit native_rollback s in
  history (world s') = history (world s) /\ (r = Ok tt -> state s' = Idle).
Proof using.
  intros Hh. at_rest s. destruct st; run_native; native_cases; simplify_eq; laws; (split; [congruence|done]).
Qed.
End outcomes.

(** ** A concrete driver: one number, published by [commit] *)

Module Sample.
Record Conn := mkConn { snapshots : list Z; value : Z; in_transaction : bool; dirty : bool }.
Definition published_value (c : Conn) : Z := default 0 (head (snapshots c)).
Definition set_mode (b : bool) : Native (World := Conn) unit := fun c =>
  if b then (Ok tt, mkConn (if dirty c then value c :: snapshots c else snapshots c) (value c) false false)
  else (Ok tt, mkConn (snapshots c) (value c) true (dirty c)).
Definition do_commit : Native (World := Conn) unit := fun c =>
  (Ok tt, mkConn (value c :: snapshots c) (value c) (in_transaction c) false).
Definition do_rollback : Native (World := Conn) unit := fun c =>
  (Ok tt, mkConn (snapshots c) (published_value c) (in_transaction c) false).

Lemma set_mode_off w r w' : set_mode false w = (r, w') -> snapshots w' = snapshots w.
Proof. by intros [= <- <-]. Qed.
Lemma set_mode_manual w w' : set_mode false w = (Ok tt, w') -> in_transaction w' = true.
Proof. by intros [= <-]. Qed.
Lemma set_mode_on w r w' : negb (dirty w) = true -> set_mode true w = (r, w') -> snapshots w' = snapshots w.
Proof. unfold set_mode. destruct (dirty w); [done|]. by intros _ [= <- <-]. Qed.
Lemma do_commit_ok w w' : in_transaction w = true -> do_commit w = (Ok tt, w') ->
  snapshots w' = value w :: snapshots w /\ negb (dirty w') = true /\ in_transaction w' = true.
Proof. by intros ? [= <-]. Qed.
Lemma do_commit_err w e w' : in_transaction w = true -> do_commit w = (Err e, w') ->
  snapshots w' = snapshots w \/ snapshots w' = value w :: snapshots w.
Proof. done. Qed.
Lemma do_rollback_same w r w' : do_rollback w = (r, w') -> snapshots w' = snapshots w.
Proof. by intros [= <- <-]. Qed.
Lemma do_rollback_clean w w' : do_rollback w = (Ok tt, w') -> negb (dirty w') = true.
Proof. by intros [= <-]. Qed.

#[export] Instance sample_adbc : Adbc :=
  {| World := Conn; Db := Z; set_autocommit := set_mode; native_commit := do_commit;
     native_rollback := do_rollback; history := snapshots; pending := value;
     manual := in_transaction; clean := fun c => negb (dirty c);
     law_disable := set_mode_off; law_disabled := set_mode_manual; law_enable := set_mode_on;
     law_commit := do_commit_ok; law_commit_failed := do_commit_err;
     law_rollback := do_rollback_same; law_rolled_back := do_rollback_clean |}.

(** The statement [value := n], alone and as the operation of a transaction *)
Definition write (n : Z) : Native (World := Conn) unit := fun c =>
  (Ok tt, mkConn (snapshots c) n (in_transaction c) true).
Definition write_operation (n : Z) : Conn -> Caught unit * Conn := fun c =>
  (Returned tt, (write n c).2).
Lemma write_transactional n : transactional (write n).
Proof. by intros w r w' Hm [= <- <-]. Qed.
Lemma write_operation_transactional n : transactional (write_operation n).
Proof. by intros w r w' Hm [= <- <-]. Qed.

Definition conn0 : Conn := mkConn [0] 0 false false.
Definition session0 : Session := open_session true conn0.

Lemma transaction_atomic_witness :
  let r := transaction set_mode do_commit do_rollback (write_operation 7) (write 9) session0 in
  r.1 = Ok (Some tt) /\ snapshots (world r.2) = [9; 7; 0] /\
  publishes (fun w1 w2 => write_operation 7 w1 = (Returned tt, w2)) session0 r.2.
Proof.
  split; [vm_compute; reflexivity|]. split; [vm_compute; reflexivity|].
  pose proof (transaction_atomic (write_operation 7) (write 9) session0 eq_refl eq_refl
    (write_operation_transactional 7) (write_transactional 9)) as Hp.
  vm_compute in Hp. vm_compute. exact (proj2 Hp).
Defined.

Definition update_session : Session := call set_mode do_commit do_rollback StartUpdate session0.
Lemma update_outcome_honest_witness :
  let r := update_execute set_mode do_commit do_rollback (write 7) false (write 9) update_session in
  r.1 = Ok tt /\ slot r.2 = true /\
  publishes (fun w1 w2 => write 7 w1 = (Ok tt, w2)) update_session r.2.
Proof.
  split; [vm_compute; reflexivity|].
  pose proof (fun H1 H2 => update_outcome_honest (write 7) false (write 9) update_session eq_refl eq_refl eq_refl
    H1 H2 (write_transactional 7) (write_transactional 9)) as Hp.
  assert (state update_session <> Quarantined) as H1 by discriminate.
  assert (state update_session = Active -> manual (world update_session) = true) as H2 by discriminate.
  specialize (Hp H1 H2). clear H1 H2. vm_compute in Hp. vm_compute. exact (proj2 Hp).
Defined.
End Sample.
