(* ===== verification/Cursors.v ===== *)
(** * SQL cursors and the end of a transaction block
      ([quackgis-server/src/pgwire_server/duckdb.rs])

    DECLARE, FETCH and CLOSE on the cursors of one client, and COMMIT/ROLLBACK, which
    closes them, settles the storage session and ends the transaction-local role
    state.  Portals are those of the vendored [pgwire] crate.  A query's result is the
    list of items its row stream yields.  Parsing, planning and admission are
    arguments of the handlers. *)

From S2P Require Import Prelude SqlSyntax RoleCatalog RoleSession Storage StorageOutcomes.

Definition MAX_SQL_CURSORS_PER_SESSION : Z := 16.
Definition MAX_SQL_CURSOR_FETCH_ROWS : Z := 4096.

(** [PgWireError]: a user error by its SQLSTATE, or a fatal one *)
Inductive PgWireError :=
  | UserError (code : string) | FatalError (code : string) | PortalNotStarted | PortalNotFound | StatementNotFound.

Inductive TransactionEndCommand := CommitCommand | RollbackCommand.
Inductive TransactionStatus := StatusIdle | StatusTransaction | StatusError.
#[export] Instance transaction_status_eq_dec : EqDecision TransactionStatus.
Proof. solve_decision. Defined.

(** ** Commands *)

Record Ident := mkIdent { ident_value : str; quoted : bool }.
Inductive FetchDirection :=
  | FetchNext | FetchForward (limit : option (option Z)) | FetchCount (limit : option Z) | FetchOther.
Record Declaration := mkDeclaration {
  decl_names : list Ident;
  decl_data_type : bool;            (** [is_some()] of the options the code refuses *)
  decl_assignment : bool;
  decl_cursor : bool;               (** [declare_type == Some(Cursor)] *)
  decl_sensitive : bool;
  decl_scroll : option bool;
  decl_hold : option bool;
  decl_binary : option bool;
  decl_for_query : option str }.
(** The statements the cursor parser distinguishes *)
Inductive CursorStatement :=
  | StmtDeclare (stmts : list Declaration)
  | StmtFetch (name : Ident) (direction : FetchDirection) (into : bool)
  | StmtClose (cursor : option Ident)
  | StmtCommit (chain has_end modifier : bool)
  | StmtRollback (chain savepoint : bool)
  | StmtBegin (modes : list bool) (plain : bool)   (** access modes (read only?), no block syntax *)
  | StmtOther.

Inductive SqlCursorCommand :=
  | DeclareCursor (name : str) (query : str) (binary : bool)
  | Fetch (name : str) (rows : Z)
  | Close (name : option str).
Inductive SqlCursorBatch :=
  | BeginReadOnlyDeclare (declare : SqlCursorCommand)
  | CloseAndEnd (close : SqlCursorCommand) (end_command : TransactionEndCommand).

(** [identifier_key] and [sql_cursor_name] *)
Definition identifier_key (i : Ident) : str :=
  if quoted i then ident_value i else to_ascii_lowercase (ident_value i).
Definition is_control (c : Z) : bool := (c <=? 31) || ((127 <=? c) && (c <=? 159)).
Definition sql_cursor_name (i : Ident) : result PgWireError str :=
  let name := identifier_key i in
  _ ← ensure (negb (bool_decide (name = []) || (63 <? len name) || existsb is_control (chars name)))
        (UserError "42601");
  Ok name.

(** [sql_cursor_fetch_rows] *)
Definition sql_cursor_fetch_rows (direction : FetchDirection) : result PgWireError Z :=
  rows ← match direction with
         | FetchNext | FetchForward None => Ok 1
         | FetchCount limit | FetchForward (Some limit) => ok_or limit (UserError "22023")
         | FetchOther => Err (UserError "0A000")
         end;
  _ ← ensure (rows <=? MAX_SQL_CURSOR_FETCH_ROWS) (UserError "54000");
  Ok rows.

(** [parse_sql_cursor_statement] *)
Definition parse_sql_cursor_statement (s : CursorStatement) : result PgWireError (option SqlCursorCommand) :=
  match s with
  | StmtDeclare [d] =>
      match decl_names d with
      | [name] =>
          _ ← ensure (negb (decl_data_type d || decl_assignment d || negb (decl_cursor d)
                            || decl_sensitive d || bool_decide (decl_scroll d = Some true)
                            || bool_decide (decl_hold d = Some true))) (UserError "0A000");
          query ← ok_or (decl_for_query d) (UserError "42601");
          name ← sql_cursor_name name;
          Ok (Some (DeclareCursor name query (bool_decide (decl_binary d = Some true))))
      | _ => Err (UserError "0A000")
      end
  | StmtDeclare _ => Err (UserError "0A000")
  | StmtFetch name direction into =>
      _ ← ensure (negb into) (UserError "0A000");
      name ← sql_cursor_name name;
      rows ← sql_cursor_fetch_rows direction;
      Ok (Some (Fetch name rows))
  | StmtClose None => Ok (Some (Close None))
  | StmtClose (Some name) => name ← sql_cursor_name name; Ok (Some (Close (Some name)))
  | _ => Ok None
  end.

(** [transaction_end_command], [supported_transaction_begin] and
    [parse_sql_cursor_batch] *)
Definition transaction_end_command (s : CursorStatement) : option TransactionEndCommand :=
  match s with
  | StmtCommit false false false => Some CommitCommand
  | StmtRollback false false => Some RollbackCommand
  | _ => None
  end.
Definition supported_transaction_begin (s : CursorStatement) : option bool :=
  match s with
  | StmtBegin [] true => Some false
  | StmtBegin [true] true => Some true
  | _ => None
  end.
Definition parse_sql_cursor_batch (first second : CursorStatement)
    : result PgWireError (option SqlCursorBatch) :=
  declared ← (if bool_decide (supported_transaction_begin first = Some true)
              then parse_sql_cursor_statement second else Ok None);
  match declared with
  | Some (DeclareCursor name query true) => Ok (Some (BeginReadOnlyDeclare (DeclareCursor name query true)))
  | _ =>
      match transaction_end_command second with
      | Some e =>
          closed ← parse_sql_cursor_statement first;
          Ok (match closed with
              | Some (Close (Some name)) => Some (CloseAndEnd (Close (Some name)) e)
              | _ => None
              end)
      | None => Ok None
      end
  end.

(** ** Portals (vendored [pgwire::api::portal]) *)

Section cursors.
Context {Row : Type}.

(** What a row stream still yields *)
Definition Items : Type := list (result PgWireError Row).
Inductive PortalExecutionState := Initial | Suspended (items : Items) | Finished.

(** The loop of [Portal::fetch]: at most [n] rows; a stream error leaves the portal
    suspended behind the item that failed. *)
Fixpoint fetch_rows (n : nat) (items : Items) (rows : list Row)
    : result PgWireError (list Row * bool) * PortalExecutionState :=
  match n with
  | O => (Ok (rows, true), Suspended items)
  | S n =>
      match items with
      | [] => (Ok (rows, false), Finished)
      | Ok row :: items => fetch_rows n items (rows ++ [row])
      | Err e :: items => (Err e, Suspended items)
      end
  end.
Definition portal_fetch (max_rows : Z) (p : PortalExecutionState)
    : result PgWireError (list Row * bool) * PortalExecutionState :=
  match p with
  | Initial => (Err PortalNotStarted, Initial)
  | Finished => (Ok ([], false), Finished)
  | Suspended items =>
      fetch_rows (if max_rows =? 0 then S (length items) else Z.to_nat max_rows) items []
  end.

(** ** Cursors *)

Inductive FieldFormat := TextFormat | BinaryFormat.
#[export] Instance field_format_eq_dec : EqDecision FieldFormat.
Proof using. solve_decision. Defined.
Inductive Format := UnifiedText | UnifiedBinary | Individual (codes : list Z).

(** [sql_cursor_result_formats] *)
Definition field_format (code : Z) : FieldFormat := if code =? 1 then BinaryFormat else TextFormat.
Definition sql_cursor_result_formats (f : Format) (fields : nat) : result PgWireError (list FieldFormat) :=
  match f with
  | UnifiedText => Ok (replicate fields TextFormat)
  | UnifiedBinary => Ok (replicate fields BinaryFormat)
  | Individual codes =>
      if (length codes =? fields)%nat then Ok (map field_format codes) else Err (UserError "08P01")
  end.

(** The planned statement of a cursor, as the parser returns it *)
Record Planned := mkPlanned {
  is_read : bool; parameter_count : nat; planned_schema : list SchemaField; session_epoch : Z;
  planned_sql : str; planned_catalog : option Z }.
Definition field_count (p : Planned) : nat := length (planned_schema p).

Record SqlCursorMetadata := mkCursor {
  cursor_statement : Planned;
  result_formats : option (list FieldFormat);
  cursor_binary : bool;
  portal : PortalExecutionState }.
Definition set_portal (m : SqlCursorMetadata) (p : PortalExecutionState) : SqlCursorMetadata :=
  mkCursor (cursor_statement m) (result_formats m) (cursor_binary m) p.
Definition set_formats (m : SqlCursorMetadata) (f : list FieldFormat) : SqlCursorMetadata :=
  mkCursor (cursor_statement m) (Some f) (cursor_binary m) (portal m).

(** [SqlCursorSessionState] with its mutex *)
Record Cursors := mkCursors { cursors : gmap str SqlCursorMetadata; cursors_poisoned : bool }.
Definition set_cursors (s : Cursors) (m : gmap str SqlCursorMetadata) : Cursors :=
  mkCursors m (cursors_poisoned s).

Inductive Response := Execution (tag : string) | Query (rows : list Row) (formats : Format).

(** [sql_cursor_metadata] *)
Definition sql_cursor_metadata (s : Cursors) (name : str) : result PgWireError SqlCursorMetadata :=
  if cursors_poisoned s then Err (UserError "34000")
  else ok_or (cursors s !! name) (UserError "34000").

(** The DECLARE branch of [handle_sql_cursor] *)
Definition declare_cursor (s : Cursors) (name : str) (binary : bool) (planned : result PgWireError Planned)
    : Cursors * result PgWireError Response :=
  if cursors_poisoned s then (s, Err (UserError "XX000"))
  else if bool_decide (is_Some (cursors s !! name)) then (s, Err (UserError "42P03"))
  else if MAX_SQL_CURSORS_PER_SESSION <=? Z.of_nat (size (cursors s)) then (s, Err (UserError "54000"))
  else match planned with
       | Err e => (s, Err e)
       | Ok p =>
           if negb (is_read p) || negb (parameter_count p =? 0)%nat then (s, Err (UserError "0A000"))
           else (set_cursors s (<[name := mkCursor p None binary Initial]> (cursors s)),
                 Ok (Execution "DECLARE CURSOR"))
       end.

(** [execute_sql_cursor_query]: the epoch test, then the opened stream *)
Definition execute_sql_cursor_query (m : SqlCursorMetadata) (epoch : Z) (opened : result PgWireError Items)
    : result PgWireError Items :=
  _ ← ensure (epoch =? session_epoch (cursor_statement m)) (UserError "0A000");
  opened.

(** The FETCH branch: the portal is shared by the stored metadata, so what [fetch]
    leaves is what the next FETCH finds. *)
Definition fetch_portal (s : Cursors) (name : str) (m : SqlCursorMetadata) (rows : Z) (f : Format)
    : Cursors * result PgWireError Response :=
  let '(fetched, p) := portal_fetch rows (portal m) in
  (set_cursors s (<[name := set_portal m p]> (cursors s)),
   '(rows, _) ← fetched; Ok (Query rows f)).
Definition fetch_cursor (s : Cursors) (name : str) (rows : Z) (f : Format) (epoch : Z)
    (opened : result PgWireError Items) : Cursors * result PgWireError Response :=
  match sql_cursor_metadata s name with
  | Err e => (s, Err e)
  | Ok m =>
      let f := if cursor_binary m then UnifiedBinary else f in
      if rows =? 0 then (s, Ok (Query [] f))
      else match sql_cursor_result_formats f (field_count (cursor_statement m)) with
           | Err e => (s, Err e)
           | Ok requested =>
               if match result_formats m with
                  | Some formats => negb (bool_decide (formats = requested))
                  | None => false
                  end
               then (s, Err (UserError "0A000"))
               else match portal m with
                    | Finished => (s, Ok (Query [] f))
                    | Suspended _ => fetch_portal s name m rows f
                    | Initial =>
                        match execute_sql_cursor_query m epoch opened with
                        | Err e => (s, Err e)
                        | Ok items =>
                            fetch_portal s name (set_formats (set_portal m (Suspended items)) requested) rows f
                        end
                    end
           end
  end.

(** [close_sql_cursor]: a suspended portal is drained first; every round takes
    [MAX_SQL_CURSOR_FETCH_ROWS] rows, so one round per item and one more suffice. *)
Fixpoint drain_portal (fuel : nat) (p : PortalExecutionState) : result PgWireError unit * PortalExecutionState :=
  match p with
  | Initial | Finished => (Ok tt, p)
  | Suspended _ =>
      match fuel with
      | O => (Ok tt, p)
      | S fuel =>
          match portal_fetch MAX_SQL_CURSOR_FETCH_ROWS p with
          | (Err e, p) => (Err e, p)
          | (Ok (_, true), p) => drain_portal fuel p
          | (Ok (_, false), p) => (Ok tt, p)
          end
      end
  end.
Definition remaining (p : PortalExecutionState) : nat :=
  match p with Suspended items => length items | _ => 0 end.
Definition close_sql_cursor (s : Cursors) (name : str) : Cursors * result PgWireError unit :=
  match sql_cursor_metadata s name with
  | Err e => (s, Err e)
  | Ok m =>
      match drain_portal (remaining (portal m) + 2) (portal m) with
      | (Err e, p) => (set_cursors s (<[name := set_portal m p]> (cursors s)), Err e)
      | (Ok _, _) => (set_cursors s (delete name (cursors s)), Ok tt)
      end
  end.

(** [close_all_sql_cursors], over the names in the order of the hash map *)
Fixpoint close_names (s : Cursors) (names : list str) : Cursors * result PgWireError unit :=
  match names with
  | [] => (s, Ok tt)
  | name :: names =>
      match close_sql_cursor s name with
      | (s, Err e) => (s, Err e)
      | (s, Ok _) => close_names s names
      end
  end.
Definition close_all_sql_cursors (s : Cursors) (order : list str) : Cursors * result PgWireError unit :=
  if cursors_poisoned s then (s, Err (UserError "XX000")) else close_names s order.

(** [handle_sql_cursor]; [order] enumerates the open cursors. *)
Definition handle_sql_cursor (engine : EngineTransactionState) (s : Cursors) (c : SqlCursorCommand)
    (f : Format) (planned : result PgWireError Planned) (epoch : Z) (opened : result PgWireError Items)
    (order : list str) : Cursors * result PgWireError Response :=
  if negb (bool_decide (engine = Active)) then (s, Err (UserError "25001"))
  else match c with
       | DeclareCursor name _ binary => declare_cursor s name binary planned
       | Fetch name rows => fetch_cursor s name rows f epoch opened
       | Close (Some name) =>
           let '(s, r) := close_sql_cursor s name in (s, _ ← r; Ok (Execution "CLOSE CURSOR"))
       | Close None =>
           let '(s, r) := close_all_sql_cursors s order in (s, _ ← r; Ok (Execution "CLOSE CURSOR"))
       end.

(** ** The end of a transaction block *)

Context {C : Type} `{!RoleDirectory C}.
Context {World : Type} (set_autocommit : bool -> Native (World := World) unit)
  (native_commit native_rollback : Native (World := World) unit).

(** One client connection *)
Record Client := mkClient {
  status : TransactionStatus;
  client_role : RoleSessionState C;
  client_cursors : Cursors;
  storage : Session (World := World) }.
Definition set_storage (c : Client) (s : Session) : Client :=
  mkClient (status c) (client_role c) (client_cursors c) s.
Definition set_client_cursors (c : Client) (k : Cursors) : Client :=
  mkClient (status c) (client_role c) k (storage c).

(** [role_session.end_transaction().map_err(role_session_error)?], then the tag *)
Definition end_role (c : Client) (tag : string) : Client * result PgWireError string :=
  match RoleSession.end_transaction (client_role c) with
  | Err _ => (c, Err (UserError "XX000"))
  | Ok role => (mkClient (status c) role (client_cursors c) (storage c), Ok tag)
  end.

(** [end_transaction]: [admitted] is the verdict of admission control, [settle] what
    dropping the streams of the closed cursors does to the storage session. *)
Definition end_transaction (c : Client) (command : TransactionEndCommand)
    (admitted : result PgWireError unit) (settle : Session (World := World) -> Session (World := World))
    (order : list str) (statements : Native (World := World) unit) : Client * result PgWireError string :=
  let failed_transaction := bool_decide (status c = StatusError) in
  let commit := match command with CommitCommand => true | RollbackCommand => false end in
  match admitted with
  | Err e => (c, Err e)
  | Ok _ =>
      match close_all_sql_cursors (client_cursors c) order with
      | (k, Err e) => (set_client_cursors c k, Err e)
      | (k, Ok _) =>
          let c := set_storage (set_client_cursors c k) (settle (storage c)) in
          match transaction_state (storage c) with
          | Idle =>
              if commit && failed_transaction then (c, Err (FatalError "XX000"))
              else end_role c (if commit then "COMMIT" else "ROLLBACK")
          | Quarantined => (c, Err (FatalError "XX000"))
          | Active =>
              let rollback := negb commit || failed_transaction in
              let '(r, s) := if rollback
                             then rollback_transaction set_autocommit native_rollback (storage c)
                             else commit_transaction set_autocommit native_commit native_rollback
                                    statements (storage c) in
              let c := set_storage c s in
              match r with
              | Err _ => (c, Err (if rollback then UserError "XX000" else FatalError "XX000"))
              | Ok _ => end_role c (if rollback then "ROLLBACK" else "COMMIT")
              end
          end
      end
  end.

(** ** FETCH *)

Lemma fetch_rows_ok n (l : list Row) acc :
  fetch_rows n (map Ok l) acc =
  if decide (n <= length l)%nat
  then (Ok (acc ++ take n l, true), Suspended (map Ok (drop n l)))
  else (Ok (acc ++ l, false), Finished).
Proof using.
  revert l acc. induction n as [|n IH]; intros l acc.
  { rewrite decide_True by lia. cbn. by rewrite app_nil_r, drop_0. }
  destruct l as [|r l]; cbn [map fetch_rows length].
  { rewrite decide_False by lia. by rewrite app_nil_r. }
  rewrite IH. destruct (decide (n <= length l)%nat) as [Hn|Hn].
  - rewrite decide_True by lia. cbn. by rewrite <-app_assoc.
  - rewrite decide_False by lia. by rewrite <-app_assoc.
Qed.

(** A sequence of FETCH commands on one cursor *)
Fixpoint fetch_many (s : Cursors) (name : str) (counts : list Z) (f : Format) (epoch : Z)
    (opened : result PgWireError Items) : Cursors * result PgWireError (list (list Row)) :=
  match counts with
  | [] => (s, Ok [])
  | n :: counts =>
      match handle_sql_cursor Active s (Fetch name n) f (Err PortalNotStarted) epoch opened [] with
      | (s, Ok (Query rows _)) =>
          let '(s, r) := fetch_many s name counts f epoch opened in
          (s, outputs ← r; Ok (rows :: outputs))
      | (s, Ok _) => (s, Err PortalNotStarted)
      | (s, Err e) => (s, Err e)
      end
  end.

(** The cursor stands after [k] of the rows [l]: not opened yet, suspended, or
    finished behind the last one. *)
Definition stands (m : SqlCursorMetadata) (formats : list FieldFormat) (l : list Row) (k : nat) : Prop :=
  (portal m = Initial /\ result_formats m = None /\ k = 0%nat) \/
  (portal m = Suspended (map Ok (drop k l)) /\ result_formats m = Some formats /\ (k <= length l)%nat) \/
  (portal m = Finished /\ result_formats m = Some formats /\ (length l <= k)%nat).

Definition fetch_format (m : SqlCursorMetadata) (f : Format) : Format :=
  if cursor_binary m then UnifiedBinary else f.

(** One suspended portal, fetched from *)
Lemma fetch_portal_stands s name m formats l k n f :
  portal m = Suspended (map Ok (drop k l)) -> result_formats m = Some formats -> (k <= length l)%nat ->
  0 < n ->
  exists m', fetch_portal s name m n f
    = (set_cursors s (<[name := m']> (cursors s)), Ok (Query (take (Z.to_nat n) (drop k l)) f)) /\
    cursor_binary m' = cursor_binary m /\ cursor_statement m' = cursor_statement m /\
    stands m' formats l (k + Z.to_nat n).
Proof using.
  intros Hp Hf Hk Hn. unfold fetch_portal, portal_fetch. rewrite Hp. cbv zeta.
  rewrite (proj2 (Z.eqb_neq n 0)) by lia. rewrite fetch_rows_ok, length_drop, app_nil_l.
  destruct (decide (Z.to_nat n <= length l - k)%nat) as [Hle|Hgt].
  - eexists. split; [reflexivity|]. split; [done|]. split; [done|]. right. left. cbn.
    split; [by rewrite drop_drop|]. split; [done | lia].
  - eexists. split; [rewrite (take_ge (drop k l)) by (rewrite length_drop; lia); reflexivity|].
    split; [done|]. split; [done|]. right. right. cbn. split; [done|]. split; [done | lia].
Qed.

Lemma fetch_cursor_stands s name m formats l k n f epoch :
  cursors_poisoned s = false -> cursors s !! name = Some m ->
  sql_cursor_result_formats (fetch_format m f) (field_count (cursor_statement m)) = Ok formats ->
  epoch = session_epoch (cursor_statement m) -> stands m formats l k -> 0 <= n ->
  exists m', fetch_cursor s name n f epoch (Ok (map Ok l))
    = (set_cursors s (<[name := m']> (cursors s)),
       Ok (Query (take (Z.to_nat n) (drop k l)) (fetch_format m f))) /\
    cursor_binary m' = cursor_binary m /\ cursor_statement m' = cursor_statement m /\
    stands m' formats l (k + Z.to_nat n).
Proof using.
  intros Hpo Hm Hfmt -> Hst Hn. unfold fetch_cursor, sql_cursor_metadata. rewrite Hpo, Hm. cbn [ok_or].
  fold (fetch_format m f). destruct (Z.eqb_spec n 0) as [->|Hnz].
  { exists m. rewrite insert_id by done. cbn. rewrite Nat.add_0_r. split; [by destruct s|]. done. }
  rewrite Hfmt. destruct Hst as [(Hp & Hr & ->)|[(Hp & Hr & Hk)|(Hp & Hr & Hk)]]; rewrite Hr, Hp.
  - unfold execute_sql_cursor_query. rewrite Z.eqb_refl. cbn [ensure mbind result_bind].
    destruct (fetch_portal_stands s name (set_formats (set_portal m (Suspended (map Ok l))) formats)
      formats l 0 n (fetch_format m f)) as (m' & -> & Hb & Hs & Hst'); [done | done | lia | lia|].
    exists m'. by rewrite drop_0.
  - rewrite bool_decide_eq_true_2 by done. cbn [negb].
    apply (fetch_portal_stands s name m formats l k n (fetch_format m f)); [done..|lia].
  - rewrite bool_decide_eq_true_2 by done. cbn [negb]. exists m. rewrite insert_id by done.
    rewrite (drop_ge l) by done. rewrite take_nil. split; [by destruct s|]. split; [done|]. split; [done|].
    right. right. split; [done|]. split; [done | lia].
Qed.

Lemma take_drop_take_app (a b : nat) (l : list Row) : take a l ++ take b (drop a l) = take (a + b) l.
Proof using.
  revert l. induction a as [|a IH]; intros [|x l]; cbn; [by rewrite ?drop_0, ?take_nil..| |];
    [by rewrite take_nil | by rewrite IH].
Qed.

(** Draining a stream without errors ends it. *)
Lemma drain_portal_ok fuel l :
  (length l < fuel)%nat -> drain_portal fuel (Suspended (map Ok l)) = (Ok tt, Finished).
Proof using.
  revert l. induction fuel as [|fuel IH]; intros l Hf; [lia|]. cbn [drain_portal portal_fetch].
  change (MAX_SQL_CURSOR_FETCH_ROWS =? 0) with false. cbv iota.
  rewrite fetch_rows_ok. destruct (decide _) as [Hle|Hgt]; [|done].
  apply IH. rewrite length_drop. unfold MAX_SQL_CURSOR_FETCH_ROWS in *. lia.
Qed.

Lemma close_standing_cursor s name m formats l k :
  cursors_poisoned s = false -> cursors s !! name = Some m -> stands m formats l k ->
  close_sql_cursor s name = (set_cursors s (delete name (cursors s)), Ok tt).
Proof using.
  intros Hpo Hm Hst. unfold close_sql_cursor, sql_cursor_metadata. rewrite Hpo, Hm. cbn [ok_or].
  destruct Hst as [(-> & _)|[(-> & _)|(-> & _)]]; [done| |done].
  cbn [remaining]. rewrite drain_portal_ok; [done|]. rewrite length_map. lia.
Qed.

Definition total (counts : list Z) : Z := foldr Z.add 0 counts.

Lemma total_nonneg counts : Forall (fun n => 0 <= n) counts -> 0 <= total counts.
Proof using. induction 1 as [|n counts Hn _ IH]; cbn; [done|]. unfold total in IH. lia. Qed.

Lemma fetch_many_stands s name m formats l counts f epoch k :
  cursors_poisoned s = false -> cursors s !! name = Some m ->
  sql_cursor_result_formats (fetch_format m f) (field_count (cursor_statement m)) = Ok formats ->
  epoch = session_epoch (cursor_statement m) -> stands m formats l k ->
  Forall (fun n => 0 <= n) counts ->
  exists m' outputs, fetch_many s name counts f epoch (Ok (map Ok l))
    = (set_cursors s (<[name := m']> (cursors s)), Ok outputs) /\
    concat outputs = take (Z.to_nat (total counts)) (drop k l) /\
    Forall2 (fun n rows => len rows <= n) counts outputs /\
    stands m' formats l (k + Z.to_nat (total counts)).
Proof using.
  intros Hpo Hm Hfmt He Hst Hc. revert s m k Hpo Hm Hfmt He Hst.
  induction Hc as [|n counts Hn Hc IH]; intros s m k Hpo Hm Hfmt He Hst.
  { exists m, []. cbn. rewrite insert_id by done. rewrite Nat.add_0_r. by destruct s. }
  cbn [fetch_many]. unfold handle_sql_cursor. rewrite bool_decide_eq_true_2 by done. cbn [negb].
  destruct (fetch_cursor_stands s name m formats l k n f epoch) as (m1 & -> & Hb & Hs & Hst1); [done..|].
  destruct (IH (set_cursors s (<[name := m1]> (cursors s))) m1 (k + Z.to_nat n)%nat)
    as (m2 & outputs & -> & Hout & Hlen & Hst2); try done.
  { cbn. by rewrite lookup_insert_eq. }
  { unfold fetch_format in *. by rewrite Hb, Hs. }
  { by rewrite Hs. }
  pose proof (total_nonneg counts Hc).
  assert (Z.to_nat (total (n :: counts)) = Z.to_nat n + Z.to_nat (total counts))%nat as ->
    by (cbn [total foldr]; fold (total counts); lia).
  exists m2, (take (Z.to_nat n) (drop k l) :: outputs). split_and!.
  - cbn. by rewrite insert_insert_eq.
  - cbn [concat]. rewrite Hout, <-drop_drop. apply take_drop_take_app.
  - constructor; [|done]. unfold len. rewrite length_take. lia.
  - by rewrite Nat.add_assoc.
Qed.

(** C32: successive FETCHes read a cursor's result once, in order. Take a cursor that is declared and
    not fetched from yet, on a session whose cursor map is not poisoned, with a result format that the
    statement's fields accept; let the transaction be active, the identity epoch be the one under
    which it was declared when the FETCHes come, the engine's stream deliver its rows without an
    error, and the counts not be negative. Then every FETCH of the sequence succeeds and returns at
    most its count, and their rows together are exactly that many first rows of the query's result;
    closing the cursor afterwards drains the rest of the stream, succeeds and removes exactly this
    cursor. If the epoch differs instead, as it does after SET ROLE, the first FETCH of any rows is
    refused with 0A000 whatever the engine has to offer, and the cursor stays as it was. *)
Theorem cursor_fetches_deliver s name m formats l counts f :
  cursors_poisoned s = false -> cursors s !! name = Some m ->
  portal m = Initial -> result_formats m = None ->
  sql_cursor_result_formats (fetch_format m f) (field_count (cursor_statement m)) = Ok formats ->
  Forall (fun n => 0 <= n) counts ->
  exists s' outputs,
    fetch_many s name counts f (session_epoch (cursor_statement m)) (Ok (map Ok l)) = (s', Ok outputs) /\
    concat outputs = take (Z.to_nat (total counts)) l /\
    Forall2 (fun n rows => len rows <= n) counts outputs /\
    close_sql_cursor s' name = (set_cursors s (delete name (cursors s)), Ok tt) /\
    forall n epoch opened order, n <> 0 -> epoch <> session_epoch (cursor_statement m) ->
      handle_sql_cursor Active s (Fetch name n) f (Err PortalNotStarted) epoch opened order = (s, Err (UserError "0A000")).
Proof using.
  intros Hpo Hm Hp Hr Hfmt Hc.
  assert (stands m formats l 0) as Hst by (left; done).
  destruct (fetch_many_stands s name m formats l counts f (session_epoch (cursor_statement m)) 0)
    as (m' & outputs & Hf & Hout & Hlen & Hst'); [done..|].
  eexists _, outputs. split; [exact Hf|]. split; [by rewrite Hout, drop_0|]. split; [done|]. split; cycle 1.
  { intros n epoch opened order Hn He. apply Z.eqb_neq in Hn, He.
    unfold handle_sql_cursor, fetch_cursor, sql_cursor_metadata, execute_sql_cursor_query. rewrite Hpo, Hm. cbn [ok_or].
    fold (fetch_format m f). by rewrite Hn, Hfmt, Hr, Hp, He. }
  rewrite (close_standing_cursor (set_cursors s (<[name := m']> (cursors s))) name m' formats l
    (0 + Z.to_nat (total counts))%nat); [|done| |exact Hst'].
  - cbn. by rewrite delete_insert_eq.
  - cbn. by rewrite lookup_insert_eq.
Qed.

(** ** Closing every cursor *)

Lemma close_sql_cursor_ok s name s' :
  close_sql_cursor s name = (s', Ok tt) ->
  cursors s' = delete name (cursors s) /\ cursors_poisoned s' = cursors_poisoned s.
Proof using.
  unfold close_sql_cursor. destruct (sql_cursor_metadata s name) as [m|]; [|done].
  destruct (drain_portal _ _) as [[]?]; [|done]. by intros [= <-].
Qed.

Lemma close_names_ok s names s' :
  close_names s names = (s', Ok tt) ->
  forall n, is_Some (cursors s' !! n) -> is_Some (cursors s !! n) /\ n ∉ names.
Proof using.
  revert s. induction names as [|name names IH]; intros s; cbn [close_names].
  { intros [= <-] n Hn. split; [done|]. apply not_elem_of_nil. }
  destruct (close_sql_cursor s name) as [s1 [[]|e]] eqn:Hc; [|done]. intros Hs n Hn.
  destruct (IH s1 Hs n Hn) as [H1 H2]. apply close_sql_cursor_ok in Hc as [Hc _]. rewrite Hc in H1.
  apply lookup_delete_is_Some in H1 as [H1 H3]. split; [done|]. apply not_elem_of_cons. done.
Qed.

Lemma close_all_empty s order s' :
  (forall n, is_Some (cursors s !! n) -> n ∈ order) ->
  close_all_sql_cursors s order = (s', Ok tt) -> cursors s' = ∅.
Proof using.
  unfold close_all_sql_cursors. destruct (cursors_poisoned s); [done|]. intros Ho Hc.
  apply map_empty. intros n. destruct (cursors s' !! n) as [m|] eqn:Hn; [|done].
  destruct (close_names_ok _ _ _ Hc n) as [H1 H2]; [by eexists|]. by destruct H2; apply Ho.
Qed.
End cursors.

(** ** COMMIT and ROLLBACK, end to end *)

Section block.
Context {Row C : Type} `{!RoleDirectory C} `{!Adbc}.

Lemma end_role_ok (c c' : Client (Row := Row) (C := C) (World := World)) tag tag' :
  end_role c tag = (c', Ok tag') ->
  tag' = tag /\ storage c' = storage c /\ client_cursors c' = client_cursors c /\
  local_role (session (client_role c')) = None /\ request_context (session (client_role c')) = ∅.
Proof using.
  unfold end_role, RoleSession.end_transaction, lock.
  destruct (poisoned (client_role c)); cbn [mbind result_bind]; [done|].
  destruct (_ || _) eqn:Hch; intros [= <- <-]; [done|].
  apply orb_false_iff in Hch as [H1 H2]. destruct (local_role _) eqn:Hl; [done|].
  apply negb_false_iff, bool_decide_eq_true in H2. done.
Qed.

Lemma end_role_storage (c : Client (Row := Row) (C := C) (World := World)) tag : storage (end_role c tag).1 = storage c.
Proof using. unfold end_role. by destruct (RoleSession.end_transaction _). Qed.

(** C19: the end of a transaction block is what the client is told.  For a block that
    is active in the storage session when its cursors have been closed: whatever
    happens, a failed block or a ROLLBACK publishes nothing; a reply is ROLLBACK or
    COMMIT, the latter only for a COMMIT of a block that had not failed, and then
    exactly the block's work was published; and after either reply the session is
    idle, no cursor is left, and no transaction-local role or request setting
    survives. *)
Theorem transaction_block_end c command admitted settle order statements :
  healthy (config (settle (storage c))) = true -> state (settle (storage c)) = Active ->
  manual (world (settle (storage c))) = true -> transactional statements ->
  history (world (settle (storage c))) = history (world (storage c)) ->
  (forall n, is_Some (cursors (client_cursors c) !! n) -> n ∈ order) ->
  let '(c', r) := end_transaction (Row := Row) (C := C) set_autocommit native_commit native_rollback
      c command admitted settle order statements in
  let h := history (world (storage c)) in
  let h' := history (world (storage c')) in
  (status c = StatusError \/ command = RollbackCommand -> h' = h) /\
  match r with
  | Ok tag =>
      ((tag = "ROLLBACK"%string /\ h' = h) \/
       (tag = "COMMIT"%string /\ command = CommitCommand /\ status c <> StatusError /\
        published h h' (world (settle (storage c))))) /\
      state (storage c') = Idle /\ cursors (client_cursors c') = ∅ /\
      local_role (session (client_role c')) = None /\ request_context (session (client_role c')) = ∅
  | Err _ => True
  end.
Proof using.
  intros Hh Ha Hm Hst Hsame Horder. unfold end_transaction.
  destruct admitted as [[]|e]; [|done].
  destruct (close_all_sql_cursors (client_cursors c) order) as [k [[]|e]] eqn:Hclose; [|done].
  apply (close_all_empty _ _ _ Horder) in Hclose. cbn [storage set_storage].
  assert (transaction_state (settle (storage c)) = Active) as ->.
  { unfold transaction_state, healthy in *. destruct (state_poisoned _); [|done].
    by rewrite orb_true_r in Hh. }
  set (rollback := negb _ || bool_decide (status c = StatusError)).
  destruct rollback eqn:Hrb.
  - pose proof (rollback_transaction_outcome (settle (storage c)) Hh) as Ho.
    destruct (rollback_transaction _ _ _) as [[[]|e] s1]; destruct Ho as [Hhist Hidle];
      [|cbn; split; [intros _; congruence | done]].
    destruct (end_role _ _) as [c' [tag|e]] eqn:Her.
    + apply end_role_ok in Her as (-> & Hs & Hc & Hl & Hx). rewrite Hs. cbn.
      split; [intros _; congruence|]. split; [left; split; [done | congruence]|].
      split_and!; [by apply Hidle | by rewrite Hc | done | done].
    + pose proof (end_role_storage (set_storage (set_storage (set_client_cursors c k) (settle (storage c))) s1) "ROLLBACK") as Hs.
      rewrite Her in Hs. cbn in Hs. rewrite Hs. split; [intros _; congruence | done].
  - assert (command = CommitCommand /\ status c <> StatusError) as [-> Hne].
    { subst rollback. apply orb_false_iff in Hrb as [H1 H2]. apply bool_decide_eq_false in H2. by destruct command. }
    pose proof (commit_transaction_outcome statements (settle (storage c)) Hh Ha Hm Hst) as Ho.
    destruct (commit_transaction _ _ _ _ _) as [[[]|e] s1]; [|cbn; split; [by intros [?|?]|done]].
    destruct Ho as [Hidle Hpub]. destruct (end_role _ _) as [c' [tag|e]] eqn:Her; [|split; [by intros [?|?] | done]].
    apply end_role_ok in Her as (-> & Hs & Hc & Hl & Hx). rewrite Hs. cbn.
    split; [by intros [?|?]|]. rewrite Hsame in Hpub. split; [right; done|]. by rewrite Hc.
Qed.
End block.

(** ** Concrete clients *)

Module Examples.
Import Sample.

Definition planned : Planned := mkPlanned true 0 [mkSchemaField (lit "x") (lit "Int64") true] 5 (lit "SELECT 1") None.
Definition open_cursors : Cursors (Row := Z) :=
  mkCursors {[lit "c" := mkCursor planned None false Initial; lit "d" := mkCursor planned None true Initial]} false.

(** Five rows fetched by 2, 0 and 7 *)
Lemma cursor_fetches_deliver_witness :
  exists s' outputs,
    fetch_many open_cursors (lit "c") [2; 0; 7] UnifiedText 5 (Ok (map Ok [10; 20; 30; 40; 50])) = (s', Ok outputs) /\
    concat outputs = [10; 20; 30; 40; 50] /\
    close_sql_cursor s' (lit "c") = (set_cursors open_cursors (delete (lit "c") (cursors open_cursors)), Ok tt).
Proof.
  destruct (cursor_fetches_deliver open_cursors (lit "c") (mkCursor planned None false Initial) [TextFormat]
    [10; 20; 30; 40; 50] [2; 0; 7] UnifiedText) as (s' & outputs & Hf & Hc & _ & Hclose & _);
    [reflexivity | vm_compute; reflexivity | reflexivity | reflexivity | reflexivity | repeat constructor; lia|].
  exists s', outputs. split; [exact Hf|]. split; [exact Hc | exact Hclose].
Defined.

(** A block that wrote 7, with two cursors declared *)
Definition block_storage : Session (World := Conn) := Eval vm_compute in
  calls set_mode do_commit do_rollback [Begin false; StartUpdate; RunUpdate (write 7) false (write 9)] session0.
Definition block_client : Client (Row := Z) (C := RoleCatalog) (World := Conn) :=
  mkClient StatusTransaction sample_session open_cursors block_storage.
Definition finish_block : Client (Row := Z) (C := RoleCatalog) (World := Conn) * result PgWireError string :=
  end_transaction set_autocommit native_commit native_rollback block_client CommitCommand (Ok tt) id
    [lit "c"; lit "d"] (write 9).

Lemma transaction_block_end_witness :
  finish_block.2 = Ok "COMMIT"%string /\ state (storage finish_block.1) = Idle /\
  cursors (client_cursors finish_block.1) = ∅.
Proof.
  assert (forall n, is_Some (cursors (client_cursors block_client) !! n) -> n ∈ [lit "c"; lit "d"]) as Ho.
  { intros n [m Hm]. cbn [client_cursors block_client cursors open_cursors] in Hm.
    apply lookup_insert_Some in Hm as [[<- _]|[_ Hm]]; [by left|].
    apply lookup_singleton_Some in Hm as [<- _]. right. by left. }
  pose proof (transaction_block_end block_client CommitCommand (Ok tt) id [lit "c"; lit "d"] (write 9)
    eq_refl eq_refl eq_refl (write_transactional 9) eq_refl Ho) as Hp.
  fold finish_block in Hp. assert (finish_block.2 = Ok "COMMIT"%string) as Hr by (vm_compute; reflexivity).
  destruct finish_block as [c' r]. cbn [fst snd] in *. subst r. split; [done|]. split; apply Hp.
Defined.
End Examples.
