(* ===== verification/MigrateConfig.v ===== *)
(** * Migration configuration and staging names
      ([quackgis-migrate/src/config.rs], [migration.rs])

    [MigrationConfig] is read from a bounded file, validated, and turned into a
    staging configuration whose target tables carry the staging identifier.  A
    [BTreeMap] is a [gmap] iterated in key order; a [HashSet] filled by a loop is the
    list of the values inserted.  [serde_json] is a parameter of [load]. *)

From S2P Require Import Prelude.

Definition MAX_CONFIG_BYTES : Z := 1048576.
Definition MAX_SCHEMAS : Z := 64.
Definition MAX_TABLES : Z := 1024.
Definition MAX_ROLE_MAPPINGS : Z := 4096.
Definition MAX_GRANT_MAPPINGS : Z := 65536.
Definition MAX_IDENTIFIER_BYTES : Z := 63.

Record SourceRequirements := mkSourceRequirements {
  postgres_version_num : Z;
  required_postgis : str }.

Record TableMapping := mkTableMapping {
  source_schema : str;
  source_table : str;
  target_schema : str;
  target_table : str;
  column_mappings : gmap str str }.

Record GrantMapping := mkGrantMapping {
  grant_role : str;
  grant_schema : str;
  grant_table : str;
  grant_column : option str;
  privilege : str;
  grant_target_role : str }.

Record MigrationConfig := mkMigrationConfig {
  format_version : Z;
  source : SourceRequirements;
  source_schemas : list str;
  tables : list TableMapping;
  role_mappings : gmap str str;
  grant_mappings : list GrantMapping }.

#[export] Instance grant_mapping_eq_dec : EqDecision GrantMapping.
Proof. solve_decision. Defined.

(** The errors, by the message of the source. *)
Inductive ConfigError :=
  | UnsupportedFormat
  | BadServerVersion
  | BadPostgisVersion
  | SchemaCount
  | TableCount
  | RoleMappingCount
  | GrantMappingCount
  | InvalidIdentifier (label : string)
  | DuplicateSchema (schema : str)
  | OutsideSourceSchemas (schema table : str)
  | DuplicateSource (schema table : str)
  | DuplicateTarget (schema table : str)
  | DuplicateTargetColumn (column : str)
  | UnmaintainedPrivilege (p : str)
  | NoRoleMapping (role : str)
  | TargetRoleDiffers (role : str)
  | UnselectedTable (schema table : str)
  | DuplicateGrant
  | NotRegularFile
  | CannotInspect
  | CannotRead
  | InvalidJson
  | InvalidStagingId
  | StagingNameTooLong.

(** [set.insert(x)] guarded by [if !set.insert(x) { bail!(e) }] *)
Definition insert_new {A E} `{EqDecision A} (x : A) (e : E) (seen : list A) : result E (list A) :=
  if bool_decide (x ∈ seen) then Err e else Ok (x :: seen).

(** The entries of a [BTreeMap], in key order *)
Definition entries {A} (m : gmap str A) : list (str * A) :=
  sort_by (fun a b => str_compare a.1 b.1) (map_to_list m).

(** [validate_identifier] *)
Definition validate_identifier (v : str) (label : string) : result ConfigError unit :=
  ensure (negb (bool_decide (v = []) || (MAX_IDENTIFIER_BYTES <? len v)
                || bool_decide (x00 ∈ v) || has_control v))
         (InvalidIdentifier label).

(** [MigrationConfig::table_mapping] *)
Definition maps_source (schema table : str) (m : TableMapping) : bool :=
  bool_decide (source_schema m = schema) && bool_decide (source_table m = table).
Definition table_mapping (self : MigrationConfig) (schema table : str) : option TableMapping :=
  List.find (maps_source schema table) (tables self).

(** ** The loops of [validate] *)

Definition validate_schema (seen : list str) (schema : str) : result ConfigError (list str) :=
  _ ← validate_identifier schema "source schema";
  insert_new schema (DuplicateSchema schema) seen.

Definition validate_column (seen : list str) (entry : str * str) : result ConfigError (list str) :=
  _ ← validate_identifier entry.1 "source column";
  _ ← validate_identifier entry.2 "target column";
  insert_new entry.2 (DuplicateTargetColumn entry.2) seen.

Definition validate_table (schemas : list str) (seen : list (str * str) * list (str * str))
    (t : TableMapping) : result ConfigError (list (str * str) * list (str * str)) :=
  _ ← validate_identifier (source_schema t) "source schema";
  _ ← validate_identifier (source_table t) "source table";
  _ ← validate_identifier (target_schema t) "target schema";
  _ ← validate_identifier (target_table t) "target table";
  _ ← ensure (bool_decide (source_schema t ∈ schemas))
        (OutsideSourceSchemas (source_schema t) (source_table t));
  sources ← insert_new (source_schema t, source_table t)
              (DuplicateSource (source_schema t) (source_table t)) seen.1;
  targets ← insert_new (target_schema t, target_table t)
              (DuplicateTarget (target_schema t) (target_table t)) seen.2;
  _ ← try_fold validate_column (entries (column_mappings t)) [];
  Ok (sources, targets).

Definition validate_role (_ : unit) (entry : str * str) : result ConfigError unit :=
  _ ← validate_identifier entry.1 "source role";
  validate_identifier entry.2 "target role".

Definition maintained_privileges : list str :=
  [lit "SELECT"; lit "INSERT"; lit "UPDATE"; lit "DELETE"].

Definition validate_grant (self : MigrationConfig) (seen : list GrantMapping) (g : GrantMapping)
    : result ConfigError (list GrantMapping) :=
  _ ← validate_identifier (grant_role g) "grant source role";
  _ ← validate_identifier (grant_schema g) "grant source schema";
  _ ← validate_identifier (grant_table g) "grant source table";
  _ ← match grant_column g with
      | Some column => validate_identifier column "grant source column"
      | None => Ok tt
      end;
  _ ← validate_identifier (grant_target_role g) "grant target role";
  _ ← ensure (bool_decide (to_ascii_uppercase (privilege g) ∈ maintained_privileges))
        (UnmaintainedPrivilege (privilege g));
  target_role ← ok_or (role_mappings self !! grant_role g) (NoRoleMapping (grant_role g));
  _ ← ensure (bool_decide (target_role = grant_target_role g)) (TargetRoleDiffers target_role);
  _ ← ensure (bool_decide (is_Some (table_mapping self (grant_schema g) (grant_table g))))
        (UnselectedTable (grant_schema g) (grant_table g));
  insert_new g DuplicateGrant seen.

(** [MigrationConfig::validate] *)
Definition is_version_byte (b : byte) : bool := is_ascii_digit b || bool_decide (b = x2e).
Definition between_1_and (n limit : Z) : bool := negb (n =? 0) && (n <=? limit).
Definition validate (self : MigrationConfig) : result ConfigError unit :=
  _ ← ensure (format_version self =? 1) UnsupportedFormat;
  _ ← ensure (negb (postgres_version_num (source self) <? 100000)) BadServerVersion;
  _ ← ensure (negb (bool_decide (required_postgis (source self) = [])
                    || (64 <? len (required_postgis (source self)))
                    || negb (forallb is_version_byte (required_postgis (source self)))))
        BadPostgisVersion;
  _ ← ensure (between_1_and (len (source_schemas self)) MAX_SCHEMAS) SchemaCount;
  _ ← ensure (between_1_and (len (tables self)) MAX_TABLES) TableCount;
  _ ← ensure (negb (MAX_ROLE_MAPPINGS <? Z.of_nat (size (role_mappings self)))) RoleMappingCount;
  _ ← ensure (negb (MAX_GRANT_MAPPINGS <? len (grant_mappings self))) GrantMappingCount;
  schemas ← try_fold validate_schema (source_schemas self) [];
  _ ← try_fold (validate_table schemas) (tables self) ([], []);
  _ ← try_fold validate_role (entries (role_mappings self)) tt;
  _ ← try_fold (validate_grant self) (grant_mappings self) [];
  Ok tt.

(** [MigrationConfig::load] *)
Record Metadata := mkMetadata { is_symlink : bool; is_file : bool; file_len : Z; file_mode : Z }.
Definition load (metadata : option Metadata) (raw : option (list byte))
    (from_slice : list byte -> option MigrationConfig) : result ConfigError MigrationConfig :=
  md ← ok_or metadata CannotInspect;
  _ ← ensure (negb (is_symlink md || negb (is_file md) || (MAX_CONFIG_BYTES <? file_len md)))
        NotRegularFile;
  bytes ← ok_or raw CannotRead;
  config ← ok_or (from_slice bytes) InvalidJson;
  _ ← validate config;
  Ok config.

(** ** Staging ([build_staging_config]) *)

Record StagingTarget := mkStagingTarget {
  staging_source : str;
  staging_schema : str;
  staging_table : str;
  release_schema : str;
  release_table : str }.
Record StagingPlan := mkStagingPlan { staging_id : str; staging_targets : list StagingTarget }.

(** [format!("{}.{}", a, b)] and [format!("{staging_id}__{release_table}")] *)
Definition dotted (a b : str) : str := a ++ lit "." ++ b.
Definition staging_name (id release : str) : str := id ++ lit "__" ++ release.

Definition staging_id_byte (b : byte) : bool :=
  is_ascii_lowercase b || is_ascii_digit b || bool_decide (b = x5f).
Definition valid_staging_id (id : str) : bool :=
  negb (bool_decide (id = []) || (24 <? len id) || negb (forallb staging_id_byte id)
        || negb (match id with b :: _ => is_ascii_lowercase b | [] => false end)).

Definition with_target (t : TableMapping) (name : str) : TableMapping :=
  mkTableMapping (source_schema t) (source_table t) (target_schema t) name (column_mappings t).
Definition with_tables (c : MigrationConfig) (ts : list TableMapping) : MigrationConfig :=
  mkMigrationConfig (format_version c) (source c) (source_schemas c) ts (role_mappings c)
    (grant_mappings c).

Definition stage_table (id : str) (t : TableMapping) : result ConfigError (TableMapping * StagingTarget) :=
  let release_table := target_table t in
  let staging_table := staging_name id release_table in
  _ ← ensure (negb (63 <? len staging_table)) StagingNameTooLong;
  Ok (with_target t staging_table,
      mkStagingTarget (dotted (source_schema t) (source_table t)) (target_schema t) staging_table
        (target_schema t) release_table).

Definition build_staging_config (config : MigrationConfig) (id : str)
    : result ConfigError (MigrationConfig * StagingPlan) :=
  _ ← ensure (valid_staging_id id) InvalidStagingId;
  staged ← collect (stage_table id) (tables config);
  let staged_config := with_tables config (map fst staged) in
  _ ← validate staged_config;
  Ok (staged_config, mkStagingPlan id (map snd staged)).

(** ** Loops that fill a set

    A loop whose rounds check their element and insert its key in a set succeeds
    exactly when every element passes and the keys are distinct. *)

Section unique_loop.
Context {E A K : Type} `{EqDecision K}.

Lemma insert_new_ok (x : K) (e : E) seen seen' :
  insert_new x e seen = Ok seen' <-> x ∉ seen /\ seen' = x :: seen.
Proof.
  unfold insert_new. case_bool_decide as H; split; [done | intros [? _]; done | | intros [_ ->]; done].
  intros [= <-]. done.
Qed.

Lemma unique_loop (P : A -> Prop) (key : A -> K) (step : list K -> A -> result E (list K)) l s0 s :
  (forall seen x seen', step seen x = Ok seen' <-> P x /\ key x ∉ seen /\ seen' = key x :: seen) ->
  try_fold step l s0 = Ok s <->
  Forall P l /\ NoDup (map key l) /\ (forall x, x ∈ l -> key x ∉ s0) /\ s = rev (map key l) ++ s0.
Proof.
  intros Hstep. revert s0. induction l as [|x l IH]; intros s0; cbn [try_fold map rev app].
  - split.
    + intros [= <-]. repeat split; [constructor | constructor | by intros ? ?%not_elem_of_nil].
    + intros (_ & _ & _ & ->). done.
  - rewrite bind_ok. split.
    + intros (s1 & (Hp & Hn & ->)%Hstep & (Hf & Hd & Hfresh & ->)%IH).
      split_and!; [by constructor | | | by rewrite <- (assoc_L (++))].
      * constructor; [|done]. intros (y & Hy & Hin)%list_elem_of_fmap.
        apply (Hfresh y Hin). rewrite <- Hy. by left.
      * intros y [->|Hy]%elem_of_cons; [done|]. intros Hin. apply (Hfresh y Hy). by right.
    + intros ([Hp Hf]%Forall_cons & [Hx Hd]%NoDup_cons & Hfresh & ->).
      exists (key x :: s0). split.
      * apply Hstep. split_and!; [done | apply Hfresh; by left | done].
      * apply IH. split_and!; [done | done | | by rewrite <- (assoc_L (++))].
        intros y Hy [Heq|Hin]%elem_of_cons; [|by eapply Hfresh; [right|]].
        apply Hx, list_elem_of_fmap. by exists y.
Qed.

End unique_loop.

Section loops.
Context {E A K L : Type} `{EqDecision K, EqDecision L}.

(** Two sets filled by the same rounds *)
Lemma unique_loop2 (P : A -> Prop) (key : A -> K) (key' : A -> L)
    (step : list K * list L -> A -> result E (list K * list L)) l s0 s :
  (forall seen x seen', step seen x = Ok seen' <->
     P x /\ key x ∉ seen.1 /\ key' x ∉ seen.2 /\ seen' = (key x :: seen.1, key' x :: seen.2)) ->
  try_fold step l s0 = Ok s <->
  Forall P l /\ (NoDup (map key l) /\ forall x, x ∈ l -> key x ∉ s0.1) /\
  (NoDup (map key' l) /\ forall x, x ∈ l -> key' x ∉ s0.2) /\
  s = (rev (map key l) ++ s0.1, rev (map key' l) ++ s0.2).
Proof.
  intros Hstep.
  assert (try_fold step l s0 = Ok s <->
    try_fold (fun seen x => if bool_decide (key x ∉ seen) then Ok (key x :: seen) else Err ()) l s0.1
      = Ok s.1 /\
    try_fold (fun seen x => if bool_decide (key' x ∉ seen) then Ok (key' x :: seen) else Err ()) l s0.2
      = Ok s.2 /\ Forall P l) as ->.
  { revert s0. induction l as [|x l IH]; intros s0; cbn [try_fold].
    - split; [intros [= <-]; done|]. destruct s0, s. intros ([= ->] & [= ->] & _). done.
    - rewrite !bind_ok. split.
      + intros (s1 & (Hp & H1 & H2 & ->)%Hstep & (IH1 & IH2 & IH3)%IH). split_and!.
        * exists (key x :: s0.1). by rewrite bool_decide_eq_true_2.
        * exists (key' x :: s0.2). by rewrite bool_decide_eq_true_2.
        * by constructor.
      + intros ((a & Ha & IH1) & (b & Hb & IH2) & [Hp Hf]%Forall_cons).
        case_bool_decide; [|done]. case_bool_decide; [|done]. simplify_eq.
        exists (key x :: s0.1, key' x :: s0.2). split; [by apply Hstep | by apply IH]. }
  rewrite (unique_loop (fun _ => True) key), (unique_loop (fun _ => True) key').
  - destruct s as [a b]. cbn [fst snd]. split.
    + intros ((_ & ? & ? & ->) & (_ & ? & ? & ->) & ?). done.
    + intros (? & [? ?] & [? ?] & [= -> ->]). split_and!; try done; by apply Forall_true.
  - intros seen x seen'. case_bool_decide; split; naive_solver.
  - intros seen x seen'. case_bool_decide; split; naive_solver.
Qed.

(** A loop that only checks *)
Lemma check_loop (P : A -> Prop) (step : unit -> A -> result E unit) l u :
  (forall x v, step tt x = Ok v <-> P x) -> try_fold step l tt = Ok u <-> Forall P l.
Proof.
  intros Hstep. destruct u. induction l as [|x l IH]; cbn [try_fold].
  - split; [constructor | done].
  - rewrite bind_ok, Forall_cons. split.
    + intros ([] & Hx%Hstep & Hl%IH). done.
    + intros [Hx Hl]. exists tt. by rewrite Hstep, IH.
Qed.
End loops.

Lemma elem_of_entries {A} (m : gmap str A) k v : (k, v) ∈ entries m <-> m !! k = Some v.
Proof. unfold entries. by rewrite sort_by_perm, elem_of_map_to_list. Qed.

Lemma NoDup_snd_entries (m : gmap str str) :
  NoDup (map snd (entries m)) <-> forall k1 k2 v, m !! k1 = Some v -> m !! k2 = Some v -> k1 = k2.
Proof.
  unfold entries. rewrite (Permutation_map snd (sort_by_perm _ _)). split.
  - intros Hd k1 k2 v H1 H2. apply elem_of_map_to_list in H1, H2.
    assert ((k1, v) = (k2, v)) as [= ->]; [|done].
    revert Hd H1 H2. induction (map_to_list m) as [|[k w] l IH]; [by intros _ ?%not_elem_of_nil|].
    cbn [map]. intros [Hn Hd]%NoDup_cons [E1|H1]%elem_of_cons [E2|H2]%elem_of_cons;
      [congruence | | |]; simplify_eq.
    + destruct Hn. apply list_elem_of_fmap. by exists (k2, w).
    + destruct Hn. apply list_elem_of_fmap. by exists (k1, w).
    + by apply IH.
  - intros Hinj. apply NoDup_fmap_2_strong; [|apply NoDup_map_to_list].
    intros [k1 v1] [k2 v2] H1%elem_of_map_to_list H2%elem_of_map_to_list Hv. cbn [snd] in Hv. subst v2.
    f_equal. by eapply Hinj.
Qed.

(** ** What [validate] accepts *)

Definition identifier (v : str) : Prop :=
  0 < len v <= 63 /\ x00 ∉ v /\ Forall (fun c => is_control c = false) (chars v).

Record columns_wf (m : gmap str str) : Prop := {
  columns_named : forall k v, m !! k = Some v -> identifier k /\ identifier v;
  columns_injective : forall k1 k2 v, m !! k1 = Some v -> m !! k2 = Some v -> k1 = k2 }.

Record table_wf (schemas : list str) (t : TableMapping) : Prop := {
  table_named : identifier (source_schema t) /\ identifier (source_table t) /\
    identifier (target_schema t) /\ identifier (target_table t);
  table_in_scope : source_schema t ∈ schemas;
  table_columns : columns_wf (column_mappings t) }.

Record grant_wf (c : MigrationConfig) (g : GrantMapping) : Prop := {
  grant_named : identifier (grant_role g) /\ identifier (grant_schema g) /\
    identifier (grant_table g) /\ identifier (grant_target_role g);
  grant_column_named : forall column, grant_column g = Some column -> identifier column;
  grant_privilege : exists p, ascii_ci (privilege g) (lit p) /\
    p ∈ ["select"; "insert"; "update"; "delete"]%string;
  grant_role_mapped : role_mappings c !! grant_role g = Some (grant_target_role g);
  grant_selected : exists t, t ∈ tables c /\ source_schema t = grant_schema g /\
    source_table t = grant_table g }.

Definition source_key (t : TableMapping) : str * str := (source_schema t, source_table t).
Definition target_key (t : TableMapping) : str * str := (target_schema t, target_table t).

Record config_wf (c : MigrationConfig) : Prop := {
  wf_format : format_version c = 1;
  wf_server : 100000 <= postgres_version_num (source c);
  wf_postgis : 0 < len (required_postgis (source c)) <= 64 /\
    Forall (fun b => is_ascii_digit b = true \/ b = x2e) (required_postgis (source c));
  wf_schemas : 0 < len (source_schemas c) <= 64 /\ NoDup (source_schemas c) /\
    Forall identifier (source_schemas c);
  wf_tables : 0 < len (tables c) <= 1024 /\ Forall (table_wf (source_schemas c)) (tables c);
  wf_sources : NoDup (map source_key (tables c));
  wf_targets : NoDup (map target_key (tables c));
  wf_roles : Z.of_nat (size (role_mappings c)) <= 4096 /\
    forall k v, role_mappings c !! k = Some v -> identifier k /\ identifier v;
  wf_grants : len (grant_mappings c) <= 65536 /\ NoDup (grant_mappings c) /\
    Forall (grant_wf c) (grant_mappings c) }.

Lemma forallb_Forall {A} (f : A -> bool) (P : A -> Prop) l :
  (forall x, f x = true <-> P x) -> forallb f l = true <-> Forall P l.
Proof.
  intros Hf. rewrite forallb_forall, Forall_forall.
  setoid_rewrite list_elem_of_In. split; intros H x Hx; by apply Hf, H.
Qed.

Lemma len_pos {A} (l : list A) : negb (bool_decide (l = [])) = true <-> 0 < len l.
Proof.
  rewrite negb_true_iff, bool_decide_eq_false. destruct l as [|x l]; [by split|].
  rewrite len_cons. pose proof (len_nonneg l). split; [lia | done].
Qed.

Lemma validate_identifier_ok v label u : validate_identifier v label = Ok u <-> identifier v.
Proof.
  unfold validate_identifier, identifier, has_control, MAX_IDENTIFIER_BYTES.
  rewrite ensure_ok, !negb_orb, !andb_true_iff, len_pos, !negb_true_iff, Z.ltb_ge.
  rewrite bool_decide_eq_false. rewrite <- (forallb_Forall (fun c => negb (is_control c)));
    [|intros x; apply negb_true_iff].
  assert (existsb is_control (chars v) = negb (forallb (fun c => negb (is_control c)) (chars v))) as ->.
  { induction (chars v) as [|c l IH]; [done|]. cbn. rewrite IH. by destruct (is_control c). }
  rewrite negb_false_iff. split; [intros [[[? ?] ?] ?] | intros [[? ?] [? ?]]]; done.
Qed.

Lemma maintained_privilege p :
  to_ascii_uppercase p ∈ maintained_privileges <->
  exists q, ascii_ci p (lit q) /\ q ∈ ["select"; "insert"; "update"; "delete"]%string.
Proof.
  assert (forall b, byte_to_ascii_lowercase (byte_to_ascii_uppercase b) = byte_to_ascii_lowercase b)
    as Hlu by by intros [].
  assert (forall b, byte_to_ascii_uppercase (byte_to_ascii_lowercase b) = byte_to_ascii_uppercase b)
    as Hul by by intros [].
  assert (forall a, to_ascii_lowercase (to_ascii_uppercase a) = to_ascii_lowercase a) as Hl.
  { intros a. unfold to_ascii_lowercase, to_ascii_uppercase. rewrite map_map. by apply map_ext. }
  assert (forall a, to_ascii_uppercase (to_ascii_lowercase a) = to_ascii_uppercase a) as Hu.
  { intros a. unfold to_ascii_lowercase, to_ascii_uppercase. rewrite map_map. by apply map_ext. }
  assert (forall q, ascii_ci p (lit q) <-> to_ascii_uppercase p = to_ascii_uppercase (lit q)) as Hci.
  { intros q. unfold ascii_ci. split; intros H; [by rewrite <- Hu, H, Hu | by rewrite <- Hl, H, Hl]. }
  unfold maintained_privileges. setoid_rewrite Hci. rewrite !elem_of_cons, elem_of_nil. split.
  - intros [->|[->|[->|[->|[]]]]].
    + exists "select"%string. split; [reflexivity | set_solver].
    + exists "insert"%string. split; [reflexivity | set_solver].
    + exists "update"%string. split; [reflexivity | set_solver].
    + exists "delete"%string. split; [reflexivity | set_solver].
  - intros (q & -> & Hq). rewrite !elem_of_cons, elem_of_nil in Hq.
    destruct Hq as [->|[->|[->|[->|[]]]]]; vm_compute; tauto.
Qed.

Lemma table_mapping_some c schema table t :
  table_mapping c schema table = Some t -> t ∈ tables c /\ source_key t = (schema, table).
Proof.
  unfold table_mapping, maps_source, source_key. intros [Hin Ht]%find_some.
  bool_prop. split; [by apply list_elem_of_In | congruence].
Qed.

Lemma table_mapping_is_some c schema table :
  is_Some (table_mapping c schema table) <-> exists t, t ∈ tables c /\ source_key t = (schema, table).
Proof.
  split; [intros [t Ht]; exists t; by apply table_mapping_some|].
  intros (t & Hin & Hk). destruct (table_mapping c schema table) as [x|] eqn:Hf; [by eexists|].
  apply list_elem_of_In in Hin. pose proof (find_none _ _ Hf t Hin) as Hn.
  unfold maps_source, source_key in *. simplify_eq. by rewrite !bool_decide_eq_true_2 in Hn.
Qed.

Lemma table_mapping_unique c t :
  NoDup (map source_key (tables c)) -> t ∈ tables c ->
  table_mapping c (source_schema t) (source_table t) = Some t.
Proof.
  unfold table_mapping. induction (tables c) as [|x l IH]; [by intros _ ?%not_elem_of_nil|].
  cbn [map List.find]. intros [Hn Hd]%NoDup_cons [->|Hin]%elem_of_cons.
  - unfold maps_source. by rewrite !bool_decide_eq_true_2.
  - destruct (maps_source _ _ x) eqn:Hm; [|by apply IH]. unfold maps_source in Hm. bool_prop.
    destruct Hn. apply list_elem_of_fmap. exists t. split; [|done]. unfold source_key. congruence.
Qed.

(** Each round of each loop, as the property it checks *)

Lemma validate_schema_ok seen schema seen' :
  validate_schema seen schema = Ok seen' <->
  identifier schema /\ schema ∉ seen /\ seen' = schema :: seen.
Proof.
  unfold validate_schema. rewrite bind_ok. setoid_rewrite validate_identifier_ok.
  setoid_rewrite insert_new_ok. split; [intros (_ & H); done | intros H; by exists tt].
Qed.

Lemma columns_ok m s :
  try_fold validate_column (entries m) [] = Ok s <->
  columns_wf m /\ s = rev (map snd (entries m)).
Proof.
  rewrite (unique_loop (fun e => identifier e.1 /\ identifier e.2) snd), NoDup_snd_entries.
  - rewrite app_nil_r, Forall_forall. split.
    + intros (Hf & Hd & _ & ->). split; [|done]. split; [|done].
      intros k v Hk. apply (Hf (k, v)). by apply elem_of_entries.
    + intros [[Hn Hi] ->]. split_and!; [|done | |done].
      * intros [k v] Hk%elem_of_entries. by apply Hn.
      * intros x _. apply not_elem_of_nil.
  - intros seen [k v] seen'. unfold validate_column. cbn [fst snd]. rewrite bind_ok.
    setoid_rewrite bind_ok. setoid_rewrite validate_identifier_ok. setoid_rewrite insert_new_ok.
    split; [intros ([] & H1 & [] & H2 & H3) | intros ([? ?] & ?); exists tt; split; [|exists tt]]; done.
Qed.

Lemma validate_table_ok schemas seen t seen' :
  validate_table schemas seen t = Ok seen' <->
  table_wf schemas t /\ source_key t ∉ seen.1 /\ target_key t ∉ seen.2 /\
  seen' = (source_key t :: seen.1, target_key t :: seen.2).
Proof.
  unfold validate_table. split.
  - intros H. inv_ok. bool_prop.
    repeat match goal with
    | H : validate_identifier _ _ = Ok _ |- _ => apply validate_identifier_ok in H
    | H : insert_new _ _ _ = Ok _ |- _ => apply insert_new_ok in H as [? ->]
    | H : try_fold validate_column _ _ = Ok _ |- _ => apply columns_ok in H as [? _]
    end. split_and!; done.
  - intros ([(H1 & H2 & H3 & H4) H5 H6] & Hs & Ht & ->).
    rewrite <- (validate_identifier_ok _ "source schema" tt) in H1.
    rewrite <- (validate_identifier_ok _ "source table" tt) in H2.
    rewrite <- (validate_identifier_ok _ "target schema" tt) in H3.
    rewrite <- (validate_identifier_ok _ "target table" tt) in H4.
    rewrite H1, H2, H3, H4. cbn [mbind result_bind]. rewrite (bool_decide_eq_true_2 _ H5).
    cbn [mbind result_bind ensure]. unfold insert_new.
    rewrite !bool_decide_eq_false_2 by done. cbn [mbind result_bind].
    by rewrite (proj2 (columns_ok _ _) (conj H6 eq_refl)).
Qed.

Lemma validate_grant_ok c seen g seen' :
  validate_grant c seen g = Ok seen' <-> grant_wf c g /\ g ∉ seen /\ seen' = g :: seen.
Proof.
  unfold validate_grant. split.
  - intros H. inv_ok. bool_prop. subst.
    repeat match goal with
    | H : validate_identifier _ _ = Ok _ |- _ => apply validate_identifier_ok in H
    | H : insert_new _ _ _ = Ok _ |- _ => apply insert_new_ok in H as [? ->]
    end.
    split; [|done]. split; try done.
    + intros column Hc. rewrite Hc in *. by eapply validate_identifier_ok.
    + by apply maintained_privilege.
    + match goal with H : is_Some _ |- _ => apply table_mapping_is_some in H as (t & Hin & Hk) end.
      exists t. unfold source_key in Hk. by simplify_eq.
  - intros ([(H1 & H2 & H3 & H4) Hcol Hp Hr Hsel] & Hg & ->).
    rewrite <- (validate_identifier_ok _ "grant source role" tt) in H1.
    rewrite <- (validate_identifier_ok _ "grant source schema" tt) in H2.
    rewrite <- (validate_identifier_ok _ "grant source table" tt) in H3.
    rewrite <- (validate_identifier_ok _ "grant target role" tt) in H4.
    rewrite H1, H2, H3, H4. cbn [mbind result_bind].
    assert (match grant_column g with
            | Some column => validate_identifier column "grant source column"
            | None => Ok tt end = Ok tt) as ->.
    { destruct (grant_column g) as [col|]; [|done]. by apply validate_identifier_ok, Hcol. }
    apply maintained_privilege in Hp. cbn [mbind result_bind].
    rewrite (bool_decide_eq_true_2 _ Hp), Hr. cbn [mbind result_bind ensure ok_or].
    rewrite (bool_decide_eq_true_2 (grant_target_role g = _)) by done. cbn [mbind result_bind ensure].
    rewrite bool_decide_eq_true_2; [cbn [mbind result_bind ensure]; by apply insert_new_ok|].
    destruct Hsel as (t & Hin & Hs & Ht). apply table_mapping_is_some. exists t.
    split; [done|]. unfold source_key. congruence.
Qed.

(** The checks before the loops, and the loops *)
Lemma validate_loops c :
  (exists s s' g, try_fold validate_schema (source_schemas c) [] = Ok s /\
     try_fold (validate_table s) (tables c) ([], []) = Ok s' /\
     try_fold validate_role (entries (role_mappings c)) tt = Ok tt /\
     try_fold (validate_grant c) (grant_mappings c) [] = Ok g) <->
  (NoDup (source_schemas c) /\ Forall identifier (source_schemas c)) /\
  (Forall (table_wf (source_schemas c)) (tables c) /\
   NoDup (map source_key (tables c)) /\ NoDup (map target_key (tables c))) /\
  (forall k v, role_mappings c !! k = Some v -> identifier k /\ identifier v) /\
  NoDup (grant_mappings c) /\ Forall (grant_wf c) (grant_mappings c).
Proof.
  assert (forall s s', s ≡ₚ s' -> Forall (table_wf s) (tables c) -> Forall (table_wf s') (tables c)) as Hperm.
  { intros s s' Hs. intros HF. eapply Forall_impl; [exact HF|]. intros t [H1 H2 H3]. split; [done | by rewrite <- Hs | done]. }
  setoid_rewrite (unique_loop identifier (fun x => x) _ _ _ _ validate_schema_ok).
  setoid_rewrite (unique_loop2 _ source_key target_key _ _ _ _ (validate_table_ok _)).
  setoid_rewrite (unique_loop (grant_wf c) (fun x => x) _ _ _ _ (validate_grant_ok c)).
  setoid_rewrite (check_loop (fun e => identifier e.1 /\ identifier e.2)).
  2:{ intros [k v] []. unfold validate_role. rewrite bind_ok. setoid_rewrite validate_identifier_ok.
      split; [by intros ([] & ?) | intros ?; by exists tt]. }
  rewrite !map_id, !app_nil_r.
  split.
  - intros (s & s' & g & (? & ? & _ & ->) & (Ht & [? _] & [? _] & _) & Hr & (? & ? & _ & _)).
    split_and!; try done.
    + eapply Hperm; [|done]. by rewrite <- Permutation_rev.
    + intros k v Hk. rewrite Forall_forall in Hr. apply (Hr (k, v)). by apply elem_of_entries.
  - intros ([? ?] & (Ht & ? & ?) & Hr & ? & ?). eexists _, _, _.
    split_and!; try done; try (intros ? _; apply not_elem_of_nil).
    + eapply Hperm; [|done]. by rewrite <- Permutation_rev.
    + apply Forall_forall. intros [k v] Hk%elem_of_entries. by apply Hr.
Qed.

Lemma between_ok {A} (l : list A) n : between_1_and (len l) n = true <-> 0 < len l <= n.
Proof.
  unfold between_1_and. rewrite andb_true_iff, negb_true_iff, Z.eqb_neq, Z.leb_le.
  pose proof (len_nonneg l). lia.
Qed.

Lemma postgis_ok v :
  negb (bool_decide (v = []) || (64 <? len v) || negb (forallb is_version_byte v)) = true <->
  0 < len v <= 64 /\ Forall (fun b => is_ascii_digit b = true \/ b = x2e) v.
Proof.
  rewrite !negb_orb, negb_involutive, !andb_true_iff, len_pos, negb_true_iff, Z.ltb_ge.
  rewrite (forallb_Forall _ (fun b => is_ascii_digit b = true \/ b = x2e)); [tauto|].
  intros b. unfold is_version_byte. by rewrite orb_true_iff, bool_decide_eq_true.
Qed.

(** [validate] is its guards and its loops *)
Lemma validate_ok c :
  validate c = Ok tt <->
  (format_version c = 1 /\ 100000 <= postgres_version_num (source c)) /\
  (0 < len (required_postgis (source c)) <= 64 /\
   Forall (fun b => is_ascii_digit b = true \/ b = x2e) (required_postgis (source c))) /\
  0 < len (source_schemas c) <= 64 /\ 0 < len (tables c) <= 1024 /\
  (Z.of_nat (size (role_mappings c)) <= 4096 /\ len (grant_mappings c) <= 65536) /\
  exists s s' g, try_fold validate_schema (source_schemas c) [] = Ok s /\
   try_fold (validate_table s) (tables c) ([], []) = Ok s' /\
   try_fold validate_role (entries (role_mappings c)) tt = Ok tt /\
   try_fold (validate_grant c) (grant_mappings c) [] = Ok g.
Proof.
  rewrite <- postgis_ok, <- !between_ok, <- Z.eqb_eq, <- (Z.ltb_ge _ 100000), <- (Z.ltb_ge 4096),
    <- (Z.ltb_ge 65536), <- !negb_true_iff.
  unfold validate, MAX_SCHEMAS, MAX_TABLES, MAX_ROLE_MAPPINGS, MAX_GRANT_MAPPINGS. split.
  - intros H. inv_ok. match goal with u : unit |- _ => destruct u end. split_and!; try done.
    eexists _, _, _. done.
  - intros ([-> ->] & -> & -> & -> & [-> ->] & s & s' & g & Hs & Ht & Hr & Hg).
    cbn [mbind result_bind ensure]. rewrite Hs. cbn [mbind result_bind]. rewrite Ht. cbn [mbind result_bind].
    rewrite Hr. cbn [mbind result_bind]. by rewrite Hg.
Qed.

Lemma validate_accepts c : validate c = Ok tt <-> config_wf c.
Proof.
  rewrite validate_ok, validate_loops. split.
  - intros ([? ?] & ? & ? & ? & [? ?] & [? ?] & (? & ? & ?) & ? & ? & ?). by split.
  - intros [? ? ? (? & ? & ?) [? ?] ? ? [? ?] (? & ? & ?)]. done.
Qed.

(** C39: configuration validation decides well-formedness.  A configuration is accepted
    exactly when its format and version pins are valid, every identifier has 1 to 63
    bytes without control characters, every list is within its limit, schemas, source
    tables, target tables, the target columns of each table and the grants are
    pairwise distinct, every table lies in a configured schema, and every grant names
    a maintained privilege, a selected table and the mapped role. *)
Theorem validate_iff_wf c : is_ok (validate c) = true <-> config_wf c.
Proof. rewrite <- validate_accepts. destruct (validate c) as [[]|]; by split. Qed.

(** ** Staging names *)

Definition staged_mapping (id : str) (t : TableMapping) : TableMapping :=
  with_target t (staging_name id (target_table t)).
Definition staging_target_of (id : str) (t : TableMapping) : StagingTarget :=
  mkStagingTarget (dotted (source_schema t) (source_table t)) (target_schema t)
    (staging_name id (target_table t)) (target_schema t) (target_table t).

(** 1 to 24 lowercase letters, digits or underscores, the first a letter *)
Definition staging_identifier (id : str) : Prop :=
  len id <= 24 /\ Forall (fun b => 97 <= bz b <= 122 \/ 48 <= bz b <= 57 \/ b = x5f) id /\
  exists b rest, id = b :: rest /\ 97 <= bz b <= 122.

Lemma in_range_true lo hi b : in_range lo hi b = true <-> lo <= bz b <= hi.
Proof. unfold in_range. rewrite andb_true_iff, !Z.leb_le. done. Qed.

Lemma valid_staging_id_iff id : valid_staging_id id = true <-> staging_identifier id.
Proof.
  unfold valid_staging_id, staging_identifier.
  rewrite !negb_orb, !negb_involutive, !andb_true_iff, len_pos, negb_true_iff, Z.ltb_ge.
  rewrite (forallb_Forall _ (fun b => 97 <= bz b <= 122 \/ 48 <= bz b <= 57 \/ b = x5f)).
  - destruct id as [|b rest]; [split; [intros [[[H _] _] _]; by apply Z.lt_irrefl in H | intros (_ & _ & b & r & [=] & _)]|].
    unfold is_ascii_lowercase. rewrite in_range_true, len_cons. pose proof (len_nonneg rest). split.
    + intros [[[_ ?] ?] ?]. split_and!; [done..|]. by exists b, rest.
    + intros (? & ? & b' & r & [= <- <-] & ?). split_and!; try done; lia.
  - intros b. unfold staging_id_byte, is_ascii_lowercase, is_ascii_digit.
    rewrite !orb_true_iff, !in_range_true, bool_decide_eq_true. tauto.
Qed.

Lemma stage_tables_ok id ts staged :
  collect (stage_table id) ts = Ok staged <->
  Forall (fun t => len (staging_name id (target_table t)) <= 63) ts /\
  staged = map (fun t => (staged_mapping id t, staging_target_of id t)) ts.
Proof.
  rewrite collect_ok.
  assert (forall t p, stage_table id t = Ok p <->
    len (staging_name id (target_table t)) <= 63 /\ p = (staged_mapping id t, staging_target_of id t)) as Hst.
  { intros t p. unfold stage_table. rewrite bind_ok. setoid_rewrite ensure_ok.
    setoid_rewrite negb_true_iff. setoid_rewrite Z.ltb_ge. split.
    - by intros (_ & ? & [= <-]).
    - intros [? ->]. by exists tt. }
  revert staged. induction ts as [|t ts IH]; intros staged; cbn [map].
  - split; [by inversion 1 | intros [_ ->]; constructor].
  - split.
    + inversion 1 as [|? ? ? ? [? ->]%Hst Hr]; subst. apply IH in Hr as [? ->]. split; [by constructor | done].
    + intros [[? ?]%Forall_cons ->]. constructor; [by apply Hst|]. by apply IH.
Qed.

Lemma utf8_decode_ascii p s :
  Forall (fun b => bz b < 128) p -> utf8_decode (p ++ s) = (fun cs => map bz p ++ cs) <$> utf8_decode s.
Proof.
  induction 1 as [|b p Hb _ IH]; cbn [app map].
  - by destruct (utf8_decode s).
  - cbn [utf8_decode]. rewrite (proj2 (Z.ltb_lt _ _) Hb). rewrite IH. by destruct (utf8_decode s).
Qed.

Lemma identifier_prefixed p s :
  Forall (fun b => 32 <= bz b < 127) p -> identifier s -> len (p ++ s) <= 63 -> identifier (p ++ s).
Proof.
  intros Hp ([H1 H2] & Hn & Hc) Hl. rewrite len_app in *. pose proof (len_nonneg p).
  split; [rewrite len_app; lia|]. split.
  - rewrite elem_of_app. intros [Hin|]; [|done]. rewrite Forall_forall in Hp. apply Hp in Hin.
    change (bz x00) with 0 in Hin. lia.
  - unfold chars in *. rewrite utf8_decode_ascii by (eapply Forall_impl; [exact Hp | intros b [? ?]; lia]).
    destruct (utf8_decode s) as [cs|]; [|constructor]. cbn in *. apply Forall_app. split; [|done].
    apply Forall_fmap. eapply Forall_impl; [exact Hp|]. intros b [? ?]. unfold is_control, compose.
    apply orb_false_iff. rewrite andb_false_iff, !Z.leb_gt. lia.
Qed.

Lemma staging_name_inj id a b : staging_name id a = staging_name id b -> a = b.
Proof. unfold staging_name. intros H. by apply app_inv_head, app_inv_head in H. Qed.

Lemma staged_config_wf c id :
  config_wf c -> staging_identifier id ->
  Forall (fun t => len (staging_name id (target_table t)) <= 63) (tables c) ->
  config_wf (with_tables c (map (staged_mapping id) (tables c))).
Proof.
  intros [? ? ? ? [Hlen Htab] Hsrc Htgt ? (? & ? & Hg)] (Hid1 & Hid & _) Hfit.
  assert (Forall (fun b => 32 <= bz b < 127) (id ++ lit "__")) as Hascii.
  { apply Forall_app. split.
    - eapply Forall_impl; [exact Hid|]. intros b [[? ?]|[[? ?]| ->]]; [lia..|]. by vm_compute.
    - repeat constructor; by vm_compute. }
  split; cbn [with_tables format_version source source_schemas tables role_mappings grant_mappings];
    try done.
  - unfold len in *. rewrite length_map. split; [done|]. apply Forall_fmap.
    rewrite Forall_forall in *. intros t Hin. destruct (Htab t Hin) as [(? & ? & ? & ?) ? ?].
    split; [|done..]. cbn [source_schema source_table target_schema target_table staged_mapping with_target].
    do 3 (split; [done|]). unfold staging_name. rewrite (assoc_L (++)).
    apply identifier_prefixed; [done..|]. rewrite <- (assoc_L (++)). by apply (Hfit t).
  - by rewrite map_map.
  - rewrite map_map. replace (map _ _)
      with (map (fun k => (k.1, staging_name id k.2)) (map target_key (tables c))) by apply map_map.
    apply NoDup_fmap_2; [|done]. intros [s1 t1] [s2 t2] [= -> ->%staging_name_inj]. done.
  - split_and!; [done..|]. eapply Forall_impl; [exact Hg|]. intros g [? ? ? ? (t & Hin & ? & ?)].
    split; [done..|]. exists (staged_mapping id t). split; [|done]. apply list_elem_of_fmap. by exists t.
Qed.

Lemma build_staging_iff c id staged plan :
  config_wf c ->
  build_staging_config c id = Ok (staged, plan) <->
  staging_identifier id /\ Forall (fun t => len (staging_name id (target_table t)) <= 63) (tables c) /\
  staged = with_tables c (map (staged_mapping id) (tables c)) /\
  plan = mkStagingPlan id (map (staging_target_of id) (tables c)).
Proof.
  intros Hwf. rewrite <- valid_staging_id_iff. unfold build_staging_config. split.
  - intros H. inv_ok. match goal with H : collect _ _ = Ok _ |- _ => apply stage_tables_ok in H as [Hf ->] end.
    rewrite !map_map. done.
  - intros (Hid & Hf & -> & ->). rewrite Hid. cbn [mbind result_bind ensure].
    rewrite (proj2 (stage_tables_ok id _ _) (conj Hf eq_refl)). cbn [mbind result_bind].
    rewrite !map_map. cbn [fst snd]. apply valid_staging_id_iff in Hid.
    pose proof (staged_config_wf c id Hwf Hid Hf) as Hs. apply validate_accepts in Hs.
    change (map (fun x => staged_mapping id x) (tables c)) with (map (staged_mapping id) (tables c)).
    by rewrite Hs.
Qed.

(** Staging renames the targets and nothing else.  For an accepted configuration,
    a staging configuration is produced exactly when the identifier has 1 to 24
    lowercase letters, digits or underscores starting with a letter and every prefixed
    name fits 63 bytes; it maps the same source tables and columns to the prefixed
    names, is itself accepted, and the plan records for each table the release name it
    stands for. *)
Theorem staging_renames_targets c id staged plan :
  config_wf c ->
  (build_staging_config c id = Ok (staged, plan) <->
   staging_identifier id /\
   Forall (fun t => len id + 2 + len (target_table t) <= 63) (tables c) /\
   staged = with_tables c (map (staged_mapping id) (tables c)) /\
   plan = mkStagingPlan id (map (staging_target_of id) (tables c))) /\
  (build_staging_config c id = Ok (staged, plan) -> config_wf staged).
Proof.
  intros Hwf.
  assert (forall t, len id + 2 + len (target_table t) = len (staging_name id (target_table t))) as Hlen.
  { intros t. unfold staging_name. rewrite !len_app. by change (len (lit "__")) with 2; lia. }
  setoid_rewrite Hlen.
  pose proof (build_staging_iff c id staged plan Hwf) as Hiff.
  split; [exact Hiff|]. intros (Hid & Hf & -> & _)%Hiff. by apply staged_config_wf.
Qed.

(** ** A configuration with a column, a role and a grant mapping *)

Definition sample_config : MigrationConfig :=
  mkMigrationConfig 1 (mkSourceRequirements 180004 (lit "3.6.1")) [lit "public"]
    [mkTableMapping (lit "public") (lit "places") (lit "main") (lit "places")
       {[lit "location" := lit "geom_wkb"]};
     mkTableMapping (lit "public") (lit "roads") (lit "main") (lit "roads") ∅]
    {[lit "source_reader" := lit "reader"]}
    [mkGrantMapping (lit "source_reader") (lit "public") (lit "places") (Some (lit "location"))
       (lit "select") (lit "reader")].

Lemma sample_config_wf : config_wf sample_config.
Proof. apply validate_accepts. vm_compute. reflexivity. Qed.

Lemma staging_renames_targets_witness :
  config_wf (with_tables sample_config (map (staged_mapping (lit "release_1")) (tables sample_config))).
Proof.
  refine (proj2 (staging_renames_targets sample_config (lit "release_1") _
                   (mkStagingPlan (lit "release_1")
                      (map (staging_target_of (lit "release_1")) (tables sample_config)))
                   sample_config_wf) _).
  vm_compute. reflexivity.
Defined.
