(* ===== verification/MigratePlan.v ===== *)
(** * Migration inventory and preflight plan
      ([quackgis-migrate/src/inventory.rs], [plan.rs], [source.rs])

    [build_preflight] compares the configuration with the inventory of the source
    snapshot and decides for every table, column, object, role and grant whether it is
    migrated.  [sqlparser] (the parser and the printer of expressions) and the
    Unicode escaping of [{:?}] on strings are parameters; an [expect] that fails is
    [Panic]. *)

From S2P Require Import Prelude MigrateConfig.
From stdpp Require Import pretty.
#[local] Open Scope Z_scope.

(** ** Inventory *)

Record SourceIdentity := mkSourceIdentity {
  si_server_version_num : Z;
  si_server_version : str;
  si_database_name : str;
  si_database_oid : Z;
  si_postgis_version : str;
  si_snapshot_started_at : str;
  si_snapshot_id : str }.

Record SourceColumn := mkSourceColumn {
  position : Z;
  column_name : str;
  type_name : str;
  formatted_type : str;
  type_modifier : Z;
  nullable : bool;
  default_expression : option str;
  column_comment : option str;
  identity : bool;
  generated : bool;
  geometry_type : option str;
  geometry_srid : option Z;
  geometry_dimensions : option Z }.

Inductive ConstraintKind :=
  | ConstraintCheck | PrimaryKey | Unique | ForeignKey | Exclusion | NotNull | ConstraintOther.
Record SourceConstraint := mkSourceConstraint {
  constraint_name : str;
  constraint_kind : ConstraintKind;
  constraint_definition : str }.

Record SourceTable := mkSourceTable {
  schema : str;
  name : str;
  row_count : Z;
  estimated_bytes : Z;
  comment : option str;
  row_security : bool;
  force_row_security : bool;
  replica_identity : str;
  partitioned : bool;
  trigger_count : Z;
  columns : list SourceColumn;
  constraints : list SourceConstraint }.

Inductive SourceObjectKind :=
  | Extension | View | MaterializedView | Sequence | ForeignTable | Index | FunctionObject
  | Trigger | ObjectOther.
Record SourceObject := mkSourceObject { object_schema : str; object_name : str; object_kind : SourceObjectKind }.
Record SourceRole := mkSourceRole { role_name : str; login : bool }.
Record SourceGrant := mkSourceGrant {
  grantee : str;
  sg_schema : str;
  sg_table : str;
  sg_column : option str;
  sg_privilege : str }.

Record SourceInventory := mkSourceInventory {
  inventory_identity : SourceIdentity;
  inventory_tables : list SourceTable;
  inventory_objects : list SourceObject;
  inventory_roles : list SourceRole;
  inventory_grants : list SourceGrant }.

#[export] Instance constraint_kind_eq_dec : EqDecision ConstraintKind.
Proof. solve_decision. Defined.

(** ** Plans *)

Inductive PreflightStatus := Ready | Rejected.
Inductive Action := Migrate | Map | Reject.
Record Disposition := mkDisposition { action : Action; reason : str }.

Record ColumnPlan := mkColumnPlan {
  cp_source_name : str;
  cp_source_type : str;
  cp_target_name : option str;
  cp_target_type : option str;
  cp_nullable : bool;
  cp_default : option str;
  cp_comment : option str;
  cp_disposition : Disposition }.

Record TablePlan := mkTablePlan {
  tp_source_schema : str;
  tp_source_table : str;
  tp_target_schema : option str;
  tp_target_table : option str;
  tp_row_count : Z;
  tp_estimated_bytes : Z;
  tp_comment : option str;
  tp_disposition : Disposition;
  tp_columns : list ColumnPlan;
  tp_blockers : list str }.

Record ObjectPlan := mkObjectPlan {
  op_identity : str;
  op_kind : str;
  op_target_identity : option str;
  op_disposition : Disposition }.

Record PreflightReport := mkPreflightReport {
  pr_format_version : Z;
  status : PreflightStatus;
  pr_source : SourceIdentity;
  pr_tables : list TablePlan;
  pr_objects : list ObjectPlan;
  pr_roles : list ObjectPlan;
  pr_grants : list ObjectPlan;
  pr_errors : list str }.

#[export] Instance preflight_status_eq_dec : EqDecision PreflightStatus.
Proof. solve_decision. Defined.
#[export] Instance action_eq_dec : EqDecision Action.
Proof. solve_decision. Defined.

Inductive PlanError := Panic.

(** [migrate], [map], [reject] *)
Definition migrate (r : str) : Disposition := mkDisposition Migrate r.
Definition map_to (r : str) : Disposition := mkDisposition Map r.
Definition reject (r : str) : Disposition := mkDisposition Reject r.

(** [{n}] of an integer *)
Definition dec (n : Z) : str := lit (pretty n).

(** [{:?}] of the field-less enums *)
Definition debug_constraint (k : ConstraintKind) : str :=
  lit match k with
      | ConstraintCheck => "Check" | PrimaryKey => "PrimaryKey" | Unique => "Unique"
      | ForeignKey => "ForeignKey" | Exclusion => "Exclusion" | NotNull => "NotNull"
      | ConstraintOther => "Other"
      end.
Definition debug_object (k : SourceObjectKind) : str :=
  lit match k with
      | Extension => "Extension" | View => "View" | MaterializedView => "MaterializedView"
      | Sequence => "Sequence" | ForeignTable => "ForeignTable" | Index => "Index"
      | FunctionObject => "Function" | Trigger => "Trigger" | ObjectOther => "Other"
      end.

(** ** Target types *)

Definition i32_min : Z := -2147483648.

(** [varchar_target_type] *)
Definition varchar_target_type (typmod : Z) : str :=
  let length := Z.max (typmod - 4) i32_min in
  if 0 <? length then lit "VARCHAR(" ++ dec length ++ lit ")" else lit "VARCHAR".

(** [timestamp_target_type] *)
Definition timestamp_target_type (typmod : Z) : str :=
  if (0 <=? typmod) && (typmod <=? 6) then lit "TIMESTAMP(" ++ dec typmod ++ lit ")"
  else lit "TIMESTAMP".

(** [decimal_target_type] *)
Definition decimal_target_type (typmod : Z) : option str :=
  if typmod <? 4 then None
  else
    let modifier := typmod - 4 in
    let precision := Z.land (Z.shiftr modifier 16) 65535 in
    let scale := Z.land modifier 2047 in
    if (0 <? precision) && (precision <=? 38) && (scale <=? precision)
    then Some (lit "DECIMAL(" ++ dec precision ++ lit "," ++ dec scale ++ lit ")")
    else None.

(** [is_geometry_target_name] *)
Definition geometry_target_names : list str :=
  map lit ["geom"; "geometry"; "the_geom"; "wkb_geometry"; "wkb_geom"; "geom_wkb"; "shape";
           "footprint"; "way"]%string.
Definition is_geometry_target_name (n : str) : bool :=
  bool_decide (to_ascii_lowercase n ∈ geometry_target_names).

(** ** Literal defaults: the expressions the code distinguishes *)

Inductive UnaryOperator := UnaryPlus | UnaryMinus | UnaryOther.
Inductive Expr :=
  | EValue (text : str)
  | ETypedString (text : str)
  | ENested (e : Expr)
  | ECast (e : Expr) (text : str)
  | EUnaryOp (op : UnaryOperator) (e : Expr)
  | EOther (text : str).
Inductive SelectItem := UnnamedExpr (e : Expr) | ItemOther.
Inductive SetExpr := SetSelect (projection : list SelectItem) | SetOther.
Inductive Statement := StQuery (body : SetExpr) | StOther.

(** [literal_expression] *)
Fixpoint literal_expression (e : Expr) : bool :=
  match e with
  | EValue _ | ETypedString _ => true
  | ENested e | ECast e _ => literal_expression e
  | EUnaryOp UnaryPlus e | EUnaryOp UnaryMinus e => literal_expression e
  | _ => false
  end.

Section plan.
Variable parse_sql : str -> option (list Statement).
Variable expr_to_string : Expr -> str.
Variable debug_str : str -> str.

(** [normalize_literal_default] *)
Definition normalize_literal_default (raw : str) : option str :=
  match parse_sql (lit "SELECT " ++ raw) with
  | Some [StQuery (SetSelect [UnnamedExpr e])] =>
      if literal_expression e then Some (expr_to_string e) else None
  | _ => None
  end.

(** [classify_column] *)
Definition rejected_target (column : SourceColumn) (target_name : str) (r : string) : ColumnPlan :=
  mkColumnPlan (column_name column) (formatted_type column) (Some target_name) None
    (nullable column) None (column_comment column) (reject (lit r)).

Definition classify_default (column : SourceColumn) : option (option str) :=
  match default_expression column with
  | Some raw => Some <$> normalize_literal_default raw
  | None => Some None
  end.

Definition exact_scalars : list (string * string) :=
  [("int2", "SMALLINT"); ("int4", "INTEGER"); ("int8", "BIGINT"); ("bool", "BOOLEAN");
   ("float4", "REAL"); ("float8", "DOUBLE"); ("date", "DATE")]%string.

Definition exact_scalar (t : str) : option str :=
  (fun e => lit (snd e)) <$> List.find (fun e => bool_decide (lit (fst e) = t)) exact_scalars.

Definition classify_geometry (column : SourceColumn) (target_name : str)
    : result string (str * Disposition) :=
  if negb (bool_decide (geometry_type column = Some (lit "Point")))
     || negb (bool_decide (geometry_srid column = Some 0))
     || negb (bool_decide (geometry_dimensions column = Some 2))
  then Err "only 2D SRID-0 Point geometry is supported"%string
  else if negb (is_geometry_target_name target_name)
  then Err "geometry target column needs a maintained WKB geometry name"%string
  else Ok (lit "BLOB", map_to (lit "2D SRID-0 Point is converted to canonical NDR WKB")).

Definition classify_type (column : SourceColumn) (target_name : str)
    : result string (str * Disposition) :=
  let t := type_name column in
  match exact_scalar t with
  | Some target => Ok (target, migrate (lit "exact release scalar"))
  | None =>
    if bool_decide (t = lit "timestamp") then
      Ok (timestamp_target_type (type_modifier column),
          migrate (lit "timestamp without time zone uses microsecond target precision"))
    else if bool_decide (t = lit "varchar") then
      Ok (varchar_target_type (type_modifier column),
          migrate (lit "character varying length is retained"))
    else if bool_decide (t = lit "text") then
      Ok (lit "VARCHAR", map_to (lit "PostgreSQL text maps to unbounded DuckDB VARCHAR"))
    else if bool_decide (t = lit "bytea") then
      Ok (lit "BLOB", map_to (lit "PostgreSQL bytea maps to DuckDB BLOB"))
    else if bool_decide (t = lit "numeric") then
      match decimal_target_type (type_modifier column) with
      | Some target => Ok (target, migrate (lit "bounded decimal precision and scale are retained"))
      | None => Err "unbounded or invalid numeric typmod is unsupported"%string
      end
    else if bool_decide (t = lit "geometry") then classify_geometry column target_name
    else if bool_decide (t = lit "geography") then
      Err "geography target semantics are not authoritative"%string
    else Err "source type is outside the release migration scalar set"%string
  end.

Definition classify_column (column : SourceColumn) (target_name : str) : ColumnPlan :=
  if identity column then rejected_target column target_name "identity generation is unsupported"
  else if generated column then rejected_target column target_name "generated columns are unsupported"
  else match classify_default column with
  | None => rejected_target column target_name "default is not a literal or literal cast"
  | Some default_expression =>
      match classify_type column target_name with
      | Err r => rejected_target column target_name r
      | Ok (target_type, disposition) =>
          mkColumnPlan (column_name column) (formatted_type column) (Some target_name)
            (Some target_type) (nullable column) default_expression (column_comment column) disposition
      end
  end.

(** [rejected_column] *)
Definition rejected_column (column : SourceColumn) (r : string) : ColumnPlan :=
  mkColumnPlan (column_name column) (formatted_type column) None None (nullable column) None
    (column_comment column) (reject (lit r)).

(** ** Tables ([build_table_plan]) *)

Definition table_blockers (t : SourceTable) : list str :=
  (if partitioned t then [lit "partitioned tables are unsupported"] else []) ++
  (if row_security t || force_row_security t
   then [lit "row-level security is not copied implicitly"] else []) ++
  (if negb (trigger_count t =? 0)
   then [dec (trigger_count t) ++ lit " user trigger(s) require explicit rejection"] else []) ++
  (if negb (bool_decide (replica_identity t = lit "default"))
      && negb (bool_decide (replica_identity t = lit "nothing"))
   then [lit "replica identity " ++ debug_str (replica_identity t)
         ++ lit " has no maintained target semantics"] else []) ++
  omap (fun c => if bool_decide (constraint_kind c = NotNull) then None
                 else Some (lit "constraint " ++ debug_constraint (constraint_kind c) ++ lit " ("
                            ++ constraint_name c ++ lit ") is unsupported")) (constraints t).

(** The target name of a column: its mapping, or its own name *)
Definition target_of (m : gmap str str) (n : str) : str := default n (m !! n).

(** The rounds of the column loop: the target names already taken are [seen]. *)
Definition reject_duplicate (p : ColumnPlan) : ColumnPlan :=
  mkColumnPlan (cp_source_name p) (cp_source_type p) (cp_target_name p) None (cp_nullable p)
    (cp_default p) (cp_comment p) (reject (lit "multiple source columns map to this target name")).
Fixpoint plan_columns (m : gmap str str) (seen : list str) (cols : list SourceColumn)
    : list ColumnPlan :=
  match cols with
  | [] => []
  | c :: rest =>
      let target_name := target_of m (column_name c) in
      let p := classify_column c target_name in
      let p := if bool_decide (target_name ∈ seen) then reject_duplicate p else p in
      p :: plan_columns m (target_name :: seen) rest
  end.
Definition column_blockers (plans : list ColumnPlan) : list str :=
  omap (fun p => if bool_decide (action (cp_disposition p) = Reject)
                 then Some (lit "column " ++ cp_source_name p ++ lit ": " ++ reason (cp_disposition p))
                 else None) plans.
Definition missing_columns (m : gmap str str) (cols : list SourceColumn) : list str :=
  omap (fun e => if existsb (fun c => bool_decide (column_name c = e.1)) cols then None
                 else Some (lit "column mapping references missing source column " ++ debug_str e.1))
    (entries m).

Definition unselected_table (t : SourceTable) : TablePlan :=
  mkTablePlan (schema t) (name t) None None (row_count t) (estimated_bytes t) (comment t)
    (reject (lit "table is outside the explicit migration selection"))
    (map (fun c => rejected_column c "table is not selected") (columns t)) [].

Definition build_table_plan (t : SourceTable) (mapping : option TableMapping) : TablePlan :=
  match mapping with
  | None => unselected_table t
  | Some m =>
      let plans := plan_columns (column_mappings m) [] (columns t) in
      let blockers := dedup (sort_by str_compare
        (table_blockers t ++ column_blockers plans ++ missing_columns (column_mappings m) (columns t))) in
      mkTablePlan (schema t) (name t) (Some (target_schema m)) (Some (target_table m))
        (row_count t) (estimated_bytes t) (comment t)
        (if bool_decide (blockers = [])
         then migrate (lit "selected base table has a complete supported column mapping")
         else reject (lit "selected table has blocking unsupported semantics"))
        plans blockers
  end.

(** ** Grants and roles *)

(** [grant_identity] *)
Definition grant_identity (role s t : str) (column : option str) (priv : str) : str :=
  let object := match column with
                | None => dotted s t
                | Some c => dotted s t ++ lit "." ++ c
                end in
  role ++ lit ":" ++ priv ++ lit ":" ++ object.

(** [grant_plan] *)
Definition grant_plan (config : MigrationConfig) (g : SourceGrant) (mapping : option GrantMapping)
    : result PlanError ObjectPlan :=
  let ident := grant_identity (grantee g) (sg_schema g) (sg_table g) (sg_column g) (sg_privilege g) in
  match mapping with
  | None =>
      Ok (mkObjectPlan ident (to_ascii_lowercase (sg_privilege g)) None
            (reject (lit "source grant is not copied without an explicit target mapping")))
  | Some m =>
      table ← ok_or (table_mapping config (sg_schema g) (sg_table g)) Panic;
      let target_column := target_of (column_mappings table) <$> sg_column g in
      let target_object :=
        match target_column with
        | Some c => dotted (target_schema table) (target_table table) ++ lit "." ++ c
        | None => dotted (target_schema table) (target_table table)
        end in
      Ok (mkObjectPlan ident (to_ascii_lowercase (sg_privilege g))
            (Some (grant_target_role m ++ lit ":" ++ target_object))
            (map_to (lit "source grant maps explicitly to an operator-provisioned immutable target grant")))
  end.

Definition grant_matches (g : SourceGrant) (m : GrantMapping) : bool :=
  bool_decide (grant_role m = grantee g) && bool_decide (grant_schema m = sg_schema g) &&
  bool_decide (grant_table m = sg_table g) && bool_decide (grant_column m = sg_column g) &&
  eq_ignore_ascii_case (privilege m) (sg_privilege g).
Definition find_grant (config : MigrationConfig) (g : SourceGrant) : option GrantMapping :=
  List.find (grant_matches g) (grant_mappings config).

Definition role_plan (config : MigrationConfig) (r : SourceRole) : ObjectPlan :=
  let target := role_mappings config !! role_name r in
  mkObjectPlan (role_name r) (lit (if login r then "login_role" else "role")) target
    match target with
    | None => reject (lit "roles and passwords are not copied implicitly")
    | Some t => map_to (lit "source role maps explicitly to configured target role " ++ debug_str t
                        ++ lit "; credentials are excluded")
    end.

(** ** Objects *)

Definition object_reason (k : SourceObjectKind) : string :=
  match k with
  | Extension => "extensions are not copied implicitly"
  | View => "views are not copied implicitly"
  | MaterializedView => "materialized views are not copied implicitly"
  | Sequence => "sequences are not copied implicitly"
  | ForeignTable => "foreign tables are not copied implicitly"
  | Index => "indexes are not copied without target key semantics"
  | FunctionObject => "functions are not copied implicitly"
  | Trigger => "triggers are not copied implicitly"
  | ObjectOther => "source object kind is unsupported"
  end.
Definition object_plan (o : SourceObject) : ObjectPlan :=
  mkObjectPlan (dotted (object_schema o) (object_name o))
    (to_ascii_lowercase (debug_object (object_kind o))) None
    (reject (lit (object_reason (object_kind o)))).

(** ** [build_preflight] *)

Definition missing_message (m : TableMapping) : str :=
  lit "configured source table " ++ dotted (source_schema m) (source_table m)
    ++ lit " does not exist".
Definition missing_table (m : TableMapping) : TablePlan :=
  mkTablePlan (source_schema m) (source_table m) (Some (target_schema m)) (Some (target_table m))
    0 0 None (reject (missing_message m)) [] [missing_message m].

Definition table_key (t : SourceTable) : str * str := (schema t, name t).
Definition seen_mappings (config : MigrationConfig) (ts : list SourceTable) : list (str * str) :=
  omap (fun t => (fun _ => table_key t) <$> table_mapping config (schema t) (name t)) ts.
Definition missing_tables (config : MigrationConfig) (ts : list SourceTable) : list TableMapping :=
  List.filter (fun m => negb (bool_decide (source_key m ∈ seen_mappings config ts))) (tables config).
Definition table_order (a b : TablePlan) : comparison :=
  then_compare (str_compare (tp_source_schema a) (tp_source_schema b))
               (str_compare (tp_source_table a) (tp_source_table b)).

Definition missing_grants (config : MigrationConfig) (gs : list SourceGrant) : list str :=
  omap (fun m => if bool_decide (m ∈ omap (find_grant config) gs) then None
                 else Some (lit "configured source grant "
                            ++ grant_identity (grant_role m) (grant_schema m) (grant_table m)
                                 (grant_column m) (privilege m) ++ lit " was not found"))
    (grant_mappings config).
Definition missing_roles (config : MigrationConfig) (rs : list SourceRole) : list str :=
  omap (fun e => if existsb (fun r => bool_decide (role_name r = e.1)) rs then None
                 else Some (lit "configured source role " ++ debug_str e.1 ++ lit " was not found"))
    (entries (role_mappings config)).

Definition plan_ready (errors : list str) (ts : list TablePlan) : bool :=
  bool_decide (errors = []) &&
  forallb (fun t => negb (bool_decide (action (tp_disposition t) = Reject))
                    && bool_decide (tp_blockers t = []))
    (List.filter (fun t => bool_decide (is_Some (tp_target_table t))) ts).

Definition build_preflight (config : MigrationConfig) (inventory : SourceInventory)
    : result PlanError PreflightReport :=
  let planned := map (fun t => build_table_plan t (table_mapping config (schema t) (name t)))
                   (inventory_tables inventory) in
  let missing := missing_tables config (inventory_tables inventory) in
  let table_plans := sort_by table_order (planned ++ map missing_table missing) in
  let objects := map object_plan (inventory_objects inventory) in
  grants ← collect (fun g => grant_plan config g (find_grant config g)) (inventory_grants inventory);
  let roles := map (role_plan config) (inventory_roles inventory) in
  let errors := map missing_message missing
                ++ missing_grants config (inventory_grants inventory)
                ++ missing_roles config (inventory_roles inventory) in
  Ok (mkPreflightReport 1 (if plan_ready errors table_plans then Ready else Rejected)
        (inventory_identity inventory) table_plans objects roles grants errors).
End plan.

(** [selected_tables] ([migration.rs]) *)
Definition is_selected (t : TablePlan) : bool :=
  bool_decide (is_Some (tp_target_table t)) && negb (bool_decide (action (tp_disposition t) = Reject))
  && bool_decide (tp_blockers t = []).
Definition selected_tables (p : PreflightReport) : list TablePlan :=
  List.filter is_selected (pr_tables p).

(** ** What is supported, independently of the code *)

(** A literal, possibly signed, cast or parenthesised *)
Inductive literal : Expr -> Prop :=
  | literal_value s : literal (EValue s)
  | literal_typed s : literal (ETypedString s)
  | literal_nested e : literal e -> literal (ENested e)
  | literal_cast e s : literal e -> literal (ECast e s)
  | literal_plus e : literal e -> literal (EUnaryOp UnaryPlus e)
  | literal_minus e : literal e -> literal (EUnaryOp UnaryMinus e).

(** The type modifier of [numeric(p, s)]: the precision above bit 16, an 11-bit scale *)
Definition numeric_modifier (m p s : Z) : Prop :=
  0 <= p /\ 0 <= s < 2048 /\ exists unused, 0 <= unused < 32 /\ m = 4 + p * 65536 + unused * 2048 + s.

(** The target type that represents the values of a source column exactly *)
Inductive represents (c : SourceColumn) (target_name : str) : str -> Prop :=
  | rep_int2 : type_name c = lit "int2" -> represents c target_name (lit "SMALLINT")
  | rep_int4 : type_name c = lit "int4" -> represents c target_name (lit "INTEGER")
  | rep_int8 : type_name c = lit "int8" -> represents c target_name (lit "BIGINT")
  | rep_bool : type_name c = lit "bool" -> represents c target_name (lit "BOOLEAN")
  | rep_float4 : type_name c = lit "float4" -> represents c target_name (lit "REAL")
  | rep_float8 : type_name c = lit "float8" -> represents c target_name (lit "DOUBLE")
  | rep_date : type_name c = lit "date" -> represents c target_name (lit "DATE")
  | rep_timestamp : type_name c = lit "timestamp" -> ~ 0 <= type_modifier c <= 6 ->
      represents c target_name (lit "TIMESTAMP")
  | rep_timestamp_precision p : type_name c = lit "timestamp" -> 0 <= p <= 6 -> type_modifier c = p ->
      represents c target_name (lit "TIMESTAMP(" ++ dec p ++ lit ")")
  | rep_varchar : type_name c = lit "varchar" -> type_modifier c <= 4 ->
      represents c target_name (lit "VARCHAR")
  | rep_varchar_length n : type_name c = lit "varchar" -> 0 < n -> type_modifier c = n + 4 ->
      represents c target_name (lit "VARCHAR(" ++ dec n ++ lit ")")
  | rep_text : type_name c = lit "text" -> represents c target_name (lit "VARCHAR")
  | rep_bytea : type_name c = lit "bytea" -> represents c target_name (lit "BLOB")
  | rep_numeric p s : type_name c = lit "numeric" -> numeric_modifier (type_modifier c) p s ->
      1 <= p <= 38 -> s <= p ->
      represents c target_name (lit "DECIMAL(" ++ dec p ++ lit "," ++ dec s ++ lit ")")
  | rep_point n : type_name c = lit "geometry" -> geometry_type c = Some (lit "Point") ->
      geometry_srid c = Some 0 -> geometry_dimensions c = Some 2 ->
      n ∈ geometry_target_names -> ascii_ci target_name n ->
      represents c target_name (lit "BLOB").

Lemma literal_expression_iff e : literal_expression e = true <-> literal e.
Proof.
  split.
  - induction e as [| |e IH|e IH|op e IH|]; cbn; intros H; try done; try constructor; auto.
    destruct op; [constructor; auto.. | done].
  - induction 1; done.
Qed.

(** ** Type modifiers *)

Definition i32 (z : Z) : Prop := -2147483648 <= z <= 2147483647.

Lemma decimal_target_type_iff m t :
  i32 m ->
  decimal_target_type m = Some t <->
  exists p s, numeric_modifier m p s /\ 1 <= p <= 38 /\ s <= p /\
    t = lit "DECIMAL(" ++ dec p ++ lit "," ++ dec s ++ lit ")".
Proof.
  intros [_ Hm]. unfold decimal_target_type, numeric_modifier.
  change 65535 with (Z.ones 16). change 2047 with (Z.ones 11).
  rewrite !Z.land_ones, Z.shiftr_div_pow2 by lia. change (2 ^ 16) with 65536. change (2 ^ 11) with 2048.
  destruct (m <? 4) eqn:H4; bool_prop.
  { split; [done|]. intros (p & s & (? & ? & u & ? & ->) & _). lia. }
  pose proof (Z.div_mod (m - 4) 65536 ltac:(lia)) as Hd.
  pose proof (Z.mod_pos_bound (m - 4) 65536 ltac:(lia)).
  assert (0 <= (m - 4) / 65536 < 65536) as Hp by lia. rewrite (Z.mod_small _ _ Hp).
  pose proof (Z.div_mod (m - 4) 2048 ltac:(lia)) as He.
  pose proof (Z.mod_pos_bound (m - 4) 2048 ltac:(lia)).
  split.
  - destruct (_ && _) eqn:Hb; [|done]. intros [= <-]. bool_prop.
    exists ((m - 4) / 65536), ((m - 4) mod 2048).
    split; [|split_and!; [lia.. | done]]. split_and!; [lia..|].
    exists (((m - 4) / 2048) mod 32). pose proof (Z.mod_pos_bound ((m - 4) / 2048) 32 ltac:(lia)).
    split; [done|]. pose proof (Z.div_mod ((m - 4) / 2048) 32 ltac:(lia)).
    rewrite Z.div_div in * by lia. change (2048 * 32) with 65536 in *. lia.
  - intros (p & s & (? & ? & u & ? & ->) & ? & ? & ->).
    assert ((4 + p * 65536 + u * 2048 + s - 4) / 65536 = p) as -> by lia.
    assert ((4 + p * 65536 + u * 2048 + s - 4) mod 2048 = s) as -> by lia.
    rewrite !(proj2 (Z.leb_le _ _)), (proj2 (Z.ltb_lt _ _)) by lia. done.
Qed.

Lemma exact_scalar_some ty target :
  exact_scalar ty = Some target <->
  exists e, e ∈ exact_scalars /\ ty = lit e.1 /\ target = lit e.2.
Proof.
  unfold exact_scalar. split.
  - intros (e & [Hin He]%find_some & ->)%fmap_Some. bool_prop. exists e. by rewrite list_elem_of_In.
  - intros (e & Hin & -> & ->). unfold exact_scalars in Hin. repeat rewrite elem_of_cons in Hin.
    rewrite elem_of_nil in Hin.
    repeat (destruct Hin as [-> | Hin]; [by vm_compute|]). done.
Qed.

Lemma classify_geometry_ok c target_name t d :
  classify_geometry c target_name = Ok (t, d) <->
  (geometry_type c = Some (lit "Point") /\ geometry_srid c = Some 0 /\ geometry_dimensions c = Some 2 /\
   to_ascii_lowercase target_name ∈ geometry_target_names) /\ t = lit "BLOB" /\
  d = map_to (lit "2D SRID-0 Point is converted to canonical NDR WKB").
Proof.
  unfold classify_geometry, is_geometry_target_name.
  repeat case_bool_decide; cbn [negb orb andb]; (split; [intros [= <- <-] | intros ([? [? [? ?]]] & ? & ?)]);
    simplify_eq; done.
Qed.

Lemma varchar_target_type_cases m :
  i32 m ->
  (m <= 4 /\ varchar_target_type m = lit "VARCHAR") \/
  exists n, 0 < n /\ m = n + 4 /\ varchar_target_type m = lit "VARCHAR(" ++ dec n ++ lit ")".
Proof.
  unfold i32, varchar_target_type, i32_min. intros Hm.
  destruct (Z.ltb_spec 0 (Z.max (m - 4) (-2147483648))).
  - right. exists (m - 4). replace (Z.max (m - 4) (-2147483648)) with (m - 4) by lia.
    split_and!; [lia.. | done].
  - left. split; [lia | done].
Qed.

Lemma lowercase_idem a : to_ascii_lowercase (to_ascii_lowercase a) = to_ascii_lowercase a.
Proof. unfold to_ascii_lowercase. rewrite map_map. apply map_ext. by intros []. Qed.

Lemma geometry_name_lowercase n : n ∈ geometry_target_names -> to_ascii_lowercase n = n.
Proof.
  unfold geometry_target_names. cbn [map]. repeat rewrite elem_of_cons. rewrite elem_of_nil. intros H.
  repeat (destruct H as [-> | H]; [by vm_compute|]). done.
Qed.

Lemma classify_type_ok c target_name t :
  i32 (type_modifier c) ->
  (exists d, classify_type c target_name = Ok (t, d)) <-> represents c target_name t.
Proof.
  intros Hi. unfold classify_type. split.
  - intros [d H]. destruct (exact_scalar (type_name c)) as [target|] eqn:Hs.
    { injection H as <- <-. apply exact_scalar_some in Hs as (e & Hin & He & ->).
      unfold exact_scalars in Hin. repeat rewrite elem_of_cons in Hin. rewrite elem_of_nil in Hin.
      repeat (destruct Hin as [-> | Hin]; [by constructor|]). done. }
    repeat case_bool_decide; try done.
    + injection H as <- <-. unfold timestamp_target_type.
      destruct (_ && _) eqn:Hb; bool_prop; [by apply rep_timestamp_precision | apply rep_timestamp; [done | lia]].
    + injection H as <- <-. destruct (varchar_target_type_cases _ Hi) as [[? ->] | (n & ? & ? & ->)];
        [by apply rep_varchar | by apply rep_varchar_length].
    + injection H as <- <-. by apply rep_text.
    + injection H as <- <-. by apply rep_bytea.
    + destruct (decimal_target_type _) as [target|] eqn:Hd; [|done]. injection H as <- <-.
      apply decimal_target_type_iff in Hd as (p & s & ? & ? & ? & ->); [by apply rep_numeric | done].
    + apply classify_geometry_ok in H as ((? & ? & ? & Hn) & -> & ->).
      apply (rep_point _ _ (to_ascii_lowercase target_name)); try done. red. by rewrite lowercase_idem.
  - intros Hr. inversion Hr as [H|H|H|H|H|H|H|H Hp|p H Hp Hm|H Hp|n H Hn Hm|H|H|p s H Hm Hp Hs|n H Hg Hsr Hd Hn Hci];
      rewrite H; try (eexists; reflexivity).
    + change (exact_scalar (lit "timestamp")) with (@None str). cbn -[Z.leb dec lit].
      unfold timestamp_target_type. destruct (_ && _) eqn:Hb; bool_prop; [lia | by eexists].
    + change (exact_scalar (lit "timestamp")) with (@None str). cbn -[Z.leb dec lit].
      unfold timestamp_target_type. rewrite Hm, !(proj2 (Z.leb_le _ _)) by lia. by eexists.
    + change (exact_scalar (lit "varchar")) with (@None str). cbn -[dec lit varchar_target_type].
      destruct (varchar_target_type_cases _ Hi) as [[_ ->] | (n & ? & ? & _)]; [by eexists | lia].
    + change (exact_scalar (lit "varchar")) with (@None str). cbn -[dec lit varchar_target_type].
      destruct (varchar_target_type_cases _ Hi) as [[? _] | (n' & ? & ? & ->)]; [lia|].
      assert (n' = n) as -> by lia. by eexists.
    + change (exact_scalar (lit "numeric")) with (@None str). cbn -[dec lit decimal_target_type].
      rewrite (proj2 (decimal_target_type_iff _ t Hi)).
      2:{ exists p, s. split; [exact Hm|]. split; [exact Hp|]. split; [exact Hs|]. by symmetry. }
      subst t. by eexists.
    + change (exact_scalar (lit "geometry")) with (@None str). cbn -[dec lit classify_geometry].
      eexists. apply classify_geometry_ok. split_and!; try done. red in Hci. rewrite Hci.
      by rewrite (geometry_name_lowercase n Hn).
Qed.

Lemma classify_type_action c target_name t d :
  classify_type c target_name = Ok (t, d) -> action d <> Reject.
Proof.
  unfold classify_type. destruct (exact_scalar _); [by intros [= <- <-]|].
  repeat case_bool_decide; try done; try (by intros [= <- <-]).
  - destruct (decimal_target_type _); [by intros [= <- <-] | done].
  - intros (_ & _ & ->)%classify_geometry_ok. done.
Qed.

(** ** Supported tables *)

Lemma find_ext {A} (f g : A -> bool) l : (forall x, f x = g x) -> List.find f l = List.find g l.
Proof. intros H. induction l as [|x l IH]; [done|]. cbn. by rewrite H, IH. Qed.

Section supported.
Variable parse_sql : str -> option (list Statement).
Variable expr_to_string : Expr -> str.
Variable debug_str : str -> str.

(** The default the target column gets *)
Definition default_carried (c : SourceColumn) (d : option str) : Prop :=
  match default_expression c with
  | None => d = None
  | Some raw => exists e, parse_sql (lit "SELECT " ++ raw) = Some [StQuery (SetSelect [UnnamedExpr e])] /\
      literal e /\ d = Some (expr_to_string e)
  end.

(** The complete plan of a column: name, type, nullability, default and comment *)
Record column_carried (m : gmap str str) (c : SourceColumn) (p : ColumnPlan) : Prop := {
  carried_plain : identity c = false /\ generated c = false;
  carried_source : cp_source_name p = column_name c /\ cp_source_type p = formatted_type c;
  carried_name : cp_target_name p = Some (default (column_name c) (m !! column_name c));
  carried_type : exists t, cp_target_type p = Some t /\
    represents c (default (column_name c) (m !! column_name c)) t;
  carried_nullable : cp_nullable p = nullable c /\ cp_comment p = column_comment c;
  carried_default : default_carried c (cp_default p) }.

Record table_supported (m : gmap str str) (t : SourceTable) : Prop := {
  supported_shape : partitioned t = false /\ row_security t = false /\ force_row_security t = false /\
    trigger_count t = 0 /\ (replica_identity t = lit "default" \/ replica_identity t = lit "nothing");
  supported_constraints : Forall (fun k => constraint_kind k = NotNull) (constraints t);
  supported_columns : Forall (fun c => exists p, column_carried m c p) (columns t);
  supported_names : NoDup (map (fun c => default (column_name c) (m !! column_name c)) (columns t));
  supported_mapping : forall k v, m !! k = Some v -> exists c, c ∈ columns t /\ column_name c = k }.

Definition columns_typed (t : SourceTable) : Prop := Forall (fun c => i32 (type_modifier c)) (columns t).

Lemma classify_default_ok c d :
  classify_default parse_sql expr_to_string c = Some d <-> default_carried c d.
Proof using.
  unfold classify_default, default_carried, normalize_literal_default.
  destruct (default_expression c) as [raw|]; [|split; congruence]. rewrite fmap_Some. split.
  - intros (x & Hx & ->). repeat case_match; simplify_eq. eexists. split; [done|].
    by rewrite <- literal_expression_iff.
  - intros (e & -> & He%literal_expression_iff & ->). rewrite He. by eexists.
Qed.

Lemma classify_column_carried m c :
  i32 (type_modifier c) ->
  let p := classify_column parse_sql expr_to_string c (target_of m (column_name c)) in
  action (cp_disposition p) <> Reject <-> column_carried m c p.
Proof using.
  intros Hi p. subst p. unfold classify_column. split.
  - destruct (identity c) eqn:H1; [done|]. destruct (generated c) eqn:H2; [done|].
    destruct (classify_default _ _ c) as [d|] eqn:Hd; [|done].
    destruct (classify_type c _) as [[t disp]|e] eqn:Ht; [|done]. intros _.
    split; try done; [exists t; split; [done|] | by apply classify_default_ok].
    apply classify_type_ok; [done | by eexists].
  - intros [[H1 H2] _ _ (t & Ht & Hr) _ Hd]. rewrite H1, H2 in *.
    destruct (classify_default _ _ c) as [d|] eqn:Hcd; [|done].
    destruct (classify_type c _) as [[t' disp]|e] eqn:Hct; [|done].
    by apply classify_type_action in Hct.
Qed.

Lemma carried_exists m c :
  i32 (type_modifier c) -> (exists p, column_carried m c p) ->
  column_carried m c (classify_column parse_sql expr_to_string c (target_of m (column_name c))).
Proof using.
  intros Hi (p & [[H1 H2] _ _ (t & Ht & Hr) _ Hd]). apply classify_column_carried; [done|].
  unfold classify_column. rewrite H1, H2. apply classify_default_ok in Hd. rewrite Hd.
  apply classify_type_ok in Hr as [d Hr]; [|done]. unfold target_of. rewrite Hr.
  by apply classify_type_action in Hr.
Qed.

Lemma omap_nil {A B} (f : A -> option B) l : omap f l = [] <-> forall x, x ∈ l -> f x = None.
Proof using.
  induction l as [|x l IH]; cbn; [split; [by intros _ ? ?%not_elem_of_nil | done]|].
  destruct (f x) as [y|] eqn:Hf.
  - split; [done|]. intros H. specialize (H x). rewrite Hf in H. by discriminate H; left.
  - rewrite IH. split.
    + intros H z [->|Hz]%elem_of_cons; [done | by apply H].
    + intros H z Hz. apply H. by right.
Qed.

Lemma column_blockers_cons p plans :
  column_blockers (p :: plans) = [] <-> action (cp_disposition p) <> Reject /\ column_blockers plans = [].
Proof using. unfold column_blockers. cbn [omap list_omap]. case_bool_decide; split; naive_solver. Qed.

Lemma plan_columns_ok m seen cols :
  Forall (fun c => i32 (type_modifier c)) cols ->
  column_blockers (plan_columns parse_sql expr_to_string m seen cols) = [] <->
  Forall (fun c => exists p, column_carried m c p) cols /\
  NoDup (map (fun c => target_of m (column_name c)) cols) /\
  (forall c, c ∈ cols -> target_of m (column_name c) ∉ seen).
Proof using.
  intros Ht. revert seen. induction Ht as [|c cols Hi Ht IH]; intros seen.
  { cbn. split; [|done]. intros _. split_and!; [constructor.. | by intros ? ?%not_elem_of_nil]. }
  cbn [plan_columns map]. set (p := classify_column _ _ c _). rewrite column_blockers_cons.
  rewrite IH, Forall_cons, NoDup_cons.
  assert (action (cp_disposition (if bool_decide (target_of m (column_name c) ∈ seen)
            then reject_duplicate p else p)) <> Reject <->
          (exists p, column_carried m c p) /\ target_of m (column_name c) ∉ seen) as ->.
  { subst p. case_bool_decide; [by split; [|intros [_ ?]]|]. split.
    - intros Hp%(classify_column_carried m c Hi). split; [by eexists | done].
    - intros [Hp _]. by apply (classify_column_carried m c Hi), carried_exists. }
  split.
  - intros ([Hc Hs] & Hf & Hd & Hn). split_and!; try done.
    + intros (x & Hx & Hin)%list_elem_of_fmap. apply (Hn x Hin). rewrite <- Hx. by left.
    + intros x [->|Hin]%elem_of_cons; [done|]. intros H. apply (Hn x Hin). by right.
  - intros ([Hc Hf] & [Hx Hd] & Hn). split_and!; try done; [apply Hn; by left|].
    intros x Hin [Heq|H]%elem_of_cons; [|by eapply (Hn x); [right|]].
    apply Hx, list_elem_of_fmap. by exists x.
Qed.

Lemma plan_columns_carried m seen cols :
  Forall (fun c => i32 (type_modifier c)) cols ->
  column_blockers (plan_columns parse_sql expr_to_string m seen cols) = [] ->
  Forall2 (column_carried m) cols (plan_columns parse_sql expr_to_string m seen cols).
Proof using.
  intros Ht Hb. pose proof (proj1 (plan_columns_ok m seen cols Ht) Hb) as (Hf & Hd & Hn).
  clear Hb. revert seen Hn. induction Ht as [|c cols Hi Ht IH]; intros seen Hn; [constructor|].
  apply Forall_cons in Hf as [Hc Hf]. cbn [map] in Hd. apply NoDup_cons in Hd as [Hx Hd].
  cbn [plan_columns]. rewrite bool_decide_eq_false_2 by (apply Hn; by left).
  constructor; [by apply carried_exists|]. apply IH; try done.
  intros x Hin [Heq|H]%elem_of_cons; [|by eapply (Hn x); [right|]].
  apply Hx, list_elem_of_fmap. by exists x.
Qed.

Lemma dedup_sort_nil (l : list str) : dedup (sort_by str_compare l) = [] <-> l = [].
Proof using.
  split; [|by intros ->]. intros H. apply Permutation_nil. rewrite <- (sort_by_perm str_compare l).
  enough (sort_by str_compare l = []) as -> by done. revert H.
  generalize (sort_by str_compare l). intros k. induction k as [|x [|y k] IH]; [done..|].
  cbn [dedup]. case_decide; [|done]. intros H'. by apply IH in H'.
Qed.

Lemma table_blockers_nil t :
  table_blockers debug_str t = [] <->
  (partitioned t = false /\ row_security t = false /\ force_row_security t = false /\
   trigger_count t = 0 /\ (replica_identity t = lit "default" \/ replica_identity t = lit "nothing")) /\
  Forall (fun k => constraint_kind k = NotNull) (constraints t).
Proof using.
  unfold table_blockers. rewrite !app_nil, omap_nil, Forall_forall.
  assert (forall (b : bool) (x : str), (if b then [x] else []) = [] <-> b = false) as Hif by by intros [].
  rewrite !Hif, orb_false_iff, negb_false_iff, Z.eqb_eq, andb_false_iff, !negb_false_iff, !bool_decide_eq_true.
  split.
  - intros (? & [? ?] & ? & ? & Hc). split_and!; try done. intros k Hk. specialize (Hc k Hk).
    by case_bool_decide.
  - intros [(? & ? & ? & ? & ?) Hc]. split_and!; try done. intros k Hk. by rewrite bool_decide_eq_true_2; [|apply Hc].
Qed.

Lemma missing_columns_nil m cols :
  missing_columns debug_str m cols = [] <->
  forall k v, m !! k = Some v -> exists c, c ∈ cols /\ column_name c = k.
Proof using.
  unfold missing_columns. rewrite omap_nil. split.
  - intros H k v Hk. apply elem_of_entries in Hk. specialize (H _ Hk). cbn [fst] in H.
    destruct (existsb _ cols) eqn:He; [|done]. apply existsb_elem in He as (c & Hc & Hn). bool_prop. by exists c.
  - intros H [k v] Hk%elem_of_entries. destruct (H k v Hk) as (c & Hc & Hn). cbn [fst].
    rewrite (proj2 (existsb_elem _ cols)); [done|]. exists c. by rewrite bool_decide_eq_true_2.
Qed.

(** A selected table is planned without blockers exactly when it is supported. *)
Lemma build_table_plan_ready t m :
  columns_typed t ->
  let p := build_table_plan parse_sql expr_to_string debug_str t (Some m) in
  (tp_blockers p = [] <-> table_supported (column_mappings m) t) /\
  (action (tp_disposition p) <> Reject <-> tp_blockers p = []) /\
  (tp_blockers p = [] -> Forall2 (column_carried (column_mappings m)) (columns t) (tp_columns p)).
Proof using.
  intros Ht p. subst p. cbn [build_table_plan tp_blockers tp_disposition tp_columns].
  set (l := table_blockers _ _ ++ _). set (b := dedup _).
  assert (b = [] <-> l = []) as Hb by apply dedup_sort_nil. clearbody b. subst l. split_and!.
  - rewrite Hb, !app_nil, table_blockers_nil, plan_columns_ok, missing_columns_nil by done. split.
    + intros ([? ?] & (? & ? & _) & ?). by split.
    + intros [? ? ? ? ?]. split_and!; try done; try tauto. intros c _. apply not_elem_of_nil.
  - case_bool_decide as H; by split.
  - rewrite Hb. intros (_ & (H & _)%app_nil)%app_nil. by apply plan_columns_carried.
Qed.

(** ** The parts of the preflight *)

(** The inventoried grant a mapping stands for *)
Record grant_found (m : GrantMapping) (g : SourceGrant) : Prop := {
  found_role : grantee g = grant_role m;
  found_object : sg_schema g = grant_schema m /\ sg_table g = grant_table m /\ sg_column g = grant_column m;
  found_privilege : ascii_ci (sg_privilege g) (privilege m) }.
Record same_grant (m m' : GrantMapping) : Prop := {
  same_role : grant_role m = grant_role m';
  same_object : grant_schema m = grant_schema m' /\ grant_table m = grant_table m' /\
    grant_column m = grant_column m';
  same_privilege : ascii_ci (privilege m) (privilege m') }.

Lemma grant_matches_iff g m : grant_matches g m = true <-> grant_found m g.
Proof using.
  unfold grant_matches. rewrite !andb_true_iff, !bool_decide_eq_true, eq_ignore_ascii_case_true. split.
  - intros [[[[? ?] ?] ?] ?]. by split.
  - intros [? (? & ? & ?) ?]. by repeat split.
Qed.

Lemma find_grant_some c g m : find_grant c g = Some m -> m ∈ grant_mappings c /\ grant_found m g.
Proof using. intros [Hin Hm]%find_some. split; [by apply list_elem_of_In | by apply grant_matches_iff]. Qed.

(** Every configured grant is the first match of an inventoried one exactly when each
    is inventoried and no two differ only in the spelling of the privilege. *)
Lemma grants_found_iff c (gs : list SourceGrant) :
  (forall m, m ∈ grant_mappings c -> exists g, g ∈ gs /\ find_grant c g = Some m) <->
  (forall m, m ∈ grant_mappings c -> exists g, g ∈ gs /\ grant_found m g) /\
  (forall m m', m ∈ grant_mappings c -> m' ∈ grant_mappings c -> same_grant m m' ->
     grant_target_role m = grant_target_role m' /\ privilege m = privilege m').
Proof using.
  split.
  - intros H. split.
    + intros m Hm. destruct (H m Hm) as (g & Hg & [_ Hf]%find_grant_some). by exists g.
    + intros m m' Hm Hm' [Hr (Hs & Ht & Hc) Hp].
      destruct (H m Hm) as (g & _ & Hf), (H m' Hm') as (g' & _ & Hf').
      enough (find_grant c g = find_grant c g') as He
        by (rewrite Hf, Hf' in He; injection He as ->; done).
      destruct (find_grant_some _ _ _ Hf) as [_ [? (? & ? & ?) Hgp]].
      destruct (find_grant_some _ _ _ Hf') as [_ [? (? & ? & ?) Hgp']].
      unfold find_grant. apply find_ext. intros x. apply eq_true_iff_eq. rewrite !grant_matches_iff.
      assert (ascii_ci (sg_privilege g) (sg_privilege g')) as Hgg by by rewrite Hgp, Hgp', Hp.
      split; intros [? (? & ? & ?) Hx]; (split; [congruence | split_and!; congruence|]);
        [by rewrite <- Hgg | by rewrite Hgg].
  - intros [Hfound Hsame] m Hm. destruct (Hfound m Hm) as (g & Hg & Hf). exists g. split; [done|].
    apply grant_matches_iff in Hf as Hmatch. destruct (find_grant c g) as [m'|] eqn:Hfind.
    + destruct (find_grant_some _ _ _ Hfind) as [Hm' Hf'].
      destruct Hf as [? (? & ? & ?) Hgp], Hf' as [? (? & ? & ?) Hgp'].
      assert (same_grant m m') as Hs.
      { split; [congruence | split_and!; congruence | by rewrite <- Hgp, <- Hgp']. }
      destruct (Hsame m m' Hm Hm' Hs) as [? ?]. destruct Hs as [? (? & ? & ?) _].
      f_equal. destruct m, m'. cbn in *. congruence.
    + apply list_elem_of_In in Hm. pose proof (find_none _ _ Hfind m Hm). congruence.
Qed.

Lemma missing_tables_nil c (ts : list SourceTable) :
  missing_tables c ts = [] <->
  forall m, m ∈ tables c -> exists t, t ∈ ts /\ table_key t = source_key m.
Proof using.
  assert (forall k, k ∈ seen_mappings c ts <->
    exists t, t ∈ ts /\ table_key t = k /\ is_Some (table_mapping c (schema t) (name t))) as Hseen.
  { intros k. unfold seen_mappings. rewrite list_elem_of_omap. split.
    - intros (t & Ht & (m & Hm & ->)%fmap_Some). exists t. by rewrite Hm.
    - intros (t & Ht & <- & m & Hm). exists t. split; [done|]. by rewrite Hm. }
  unfold missing_tables. split.
  - intros H m Hm. destruct (decide (source_key m ∈ seen_mappings c ts)) as [Hin|Hn].
    + apply Hseen in Hin as (t & Ht & Hk & _). by exists t.
    + apply list_elem_of_In in Hm.
      assert (In m []) as []. rewrite <- H. apply filter_In. by rewrite bool_decide_eq_false_2.
  - intros H. destruct (List.filter _ _) as [|m l] eqn:Hf; [done|].
    assert (In m (m :: l)) as Hin by by left. rewrite <- Hf in Hin.
    apply filter_In in Hin as [Hin%list_elem_of_In Hn]. bool_prop. destruct Hn.
    destruct (H m Hin) as (t & Ht & Hk). apply Hseen. exists t. split_and!; [done..|].
    apply table_mapping_is_some. exists m. split; [done | by rewrite <- Hk].
Qed.

Lemma missing_grants_nil c gs :
  missing_grants c gs = [] <->
  forall m, m ∈ grant_mappings c -> exists g, g ∈ gs /\ find_grant c g = Some m.
Proof using.
  unfold missing_grants. rewrite omap_nil. split.
  - intros H m Hm. specialize (H m Hm). case_bool_decide as Hin; [|done].
    apply list_elem_of_omap in Hin as (g & ? & ?). by exists g.
  - intros H m Hm. rewrite bool_decide_eq_true_2; [done|]. by apply list_elem_of_omap, H.
Qed.

Lemma missing_roles_nil c rs :
  missing_roles debug_str c rs = [] <->
  forall k v, role_mappings c !! k = Some v -> exists r, r ∈ rs /\ role_name r = k.
Proof using.
  unfold missing_roles. rewrite omap_nil. split.
  - intros H k v Hk. apply elem_of_entries in Hk. specialize (H _ Hk). cbn [fst] in H.
    destruct (existsb _ rs) eqn:He; [|done]. apply existsb_elem in He as (r & Hr & Hn). bool_prop. by exists r.
  - intros H [k v] Hk%elem_of_entries. destruct (H k v Hk) as (r & Hr & Hn). cbn [fst].
    rewrite (proj2 (existsb_elem _ rs)); [done|]. exists r. by rewrite bool_decide_eq_true_2.
Qed.

(** The [expect] of [grant_plan] cannot fail on an accepted configuration. *)
Lemma grant_plans_total c gs :
  config_wf c -> exists plans, collect (fun g => grant_plan c g (find_grant c g)) gs = Ok plans.
Proof using.
  intros Hwf. induction gs as [|g gs [plans IH]]; [by exists []|]. cbn [collect].
  assert (exists p, grant_plan c g (find_grant c g) = Ok p) as [p ->].
  { unfold grant_plan. destruct (find_grant c g) as [m|] eqn:Hf; [|by eexists].
    apply find_grant_some in Hf as [Hm [? (Hs & Ht & _) _]].
    destruct (wf_grants _ Hwf) as (_ & _ & Hg). rewrite Forall_forall in Hg.
    destruct (grant_selected _ _ (Hg m Hm)) as (t & Hin & H1 & H2).
    assert (is_Some (table_mapping c (sg_schema g) (sg_table g))) as [x Hx].
    { apply table_mapping_is_some. exists t. split; [done|]. unfold source_key. congruence. }
    rewrite Hx. by eexists. }
  cbn [mbind result_bind]. rewrite IH. by eexists.
Qed.

(** The tables of a plan that are checked: those that name a target *)
Lemma plan_ready_iff c ts errors :
  Forall columns_typed ts -> missing_tables c ts = [] ->
  plan_ready errors (sort_by table_order
    (map (fun t => build_table_plan parse_sql expr_to_string debug_str t
                     (table_mapping c (schema t) (name t))) ts
     ++ map missing_table (missing_tables c ts))) = true <->
  errors = [] /\
  (forall t m, t ∈ ts -> table_mapping c (schema t) (name t) = Some m ->
     table_supported (column_mappings m) t).
Proof using.
  intros Htyped ->. cbn [map]. rewrite app_nil_r. unfold plan_ready.
  rewrite andb_true_iff, bool_decide_eq_true, forallb_forall. rewrite Forall_forall in Htyped.
  apply and_iff_compat_l. split.
  - intros H t m Ht Hm. destruct (build_table_plan_ready t m (Htyped t Ht)) as [Hs _]. apply Hs.
    assert (Hin : In (build_table_plan parse_sql expr_to_string debug_str t (Some m))
      (List.filter (fun t => bool_decide (is_Some (tp_target_table t))) (sort_by table_order
        (map (fun t => build_table_plan parse_sql expr_to_string debug_str t
                     (table_mapping c (schema t) (name t))) ts)))).
    { apply filter_In. split; [|by apply bool_decide_eq_true_2; eexists].
      apply list_elem_of_In. rewrite sort_by_perm. apply list_elem_of_fmap. exists t. by rewrite Hm. }
    specialize (H _ Hin). bool_prop. done.
  - intros H p [Hp Hn]%filter_In. apply list_elem_of_In in Hp. rewrite sort_by_perm in Hp.
    apply list_elem_of_fmap in Hp as (t & -> & Ht).
    destruct (table_mapping c (schema t) (name t)) as [m|] eqn:Hm;
      [|cbn in Hn; bool_prop; by destruct Hn].
    destruct (build_table_plan_ready t m (Htyped t Ht)) as (Hs & Hr & _).
    assert (tp_blockers (build_table_plan parse_sql expr_to_string debug_str t (Some m)) = []) as Hb
      by by apply Hs, H.
    apply andb_true_iff. split; [|by apply bool_decide_eq_true_2].
    apply negb_true_iff, bool_decide_eq_false. by apply Hr.
Qed.

Lemma preflight_status c inv :
  config_wf c -> Forall columns_typed (inventory_tables inv) ->
  exists report, build_preflight parse_sql expr_to_string debug_str c inv = Ok report /\
  (status report = Ready <->
   (forall m, m ∈ tables c -> exists t, t ∈ inventory_tables inv /\ table_key t = source_key m) /\
   (forall t m, t ∈ inventory_tables inv -> m ∈ tables c -> source_key m = table_key t ->
      table_supported (column_mappings m) t) /\
   ((forall m, m ∈ grant_mappings c -> exists g, g ∈ inventory_grants inv /\ grant_found m g) /\
    (forall m m', m ∈ grant_mappings c -> m' ∈ grant_mappings c -> same_grant m m' ->
       grant_target_role m = grant_target_role m' /\ privilege m = privilege m')) /\
   (forall k v, role_mappings c !! k = Some v -> exists r, r ∈ inventory_roles inv /\ role_name r = k)).
Proof using.
  intros Hwf Htyped. unfold build_preflight.
  destruct (grant_plans_total c (inventory_grants inv) Hwf) as [gs ->]. cbn [mbind result_bind].
  eexists. split; [reflexivity|]. cbn [status].
  assert (forall b : bool, (if b then Ready else Rejected) = Ready <-> b = true) as -> by by intros [].
  rewrite <- missing_tables_nil, <- grants_found_iff, <- missing_grants_nil, <- missing_roles_nil.
  assert ((forall t m, t ∈ inventory_tables inv -> m ∈ tables c -> source_key m = table_key t ->
      table_supported (column_mappings m) t) <->
    (forall t m, t ∈ inventory_tables inv -> table_mapping c (schema t) (name t) = Some m ->
      table_supported (column_mappings m) t)) as ->.
  { split; intros H t m Ht.
    - intros [Hm Hk]%table_mapping_some. by apply H.
    - intros Hm Hk. apply H; [done|]. unfold source_key, table_key in Hk.
      injection Hk as <- <-. by apply table_mapping_unique; [apply wf_sources|]. }
  destruct (decide (missing_tables c (inventory_tables inv) = [])) as [Hmiss|Hmiss].
  - rewrite plan_ready_iff by done. rewrite Hmiss. cbn [map app]. rewrite app_nil. tauto.
  - split; [|by intros [? _]]. unfold plan_ready. rewrite andb_true_iff, bool_decide_eq_true.
    intros [[H _]%app_nil _]. by apply map_eq_nil in H.
Qed.

(** C33: preflight accepts exactly what it can migrate.  For an accepted configuration
    and any inventory, preflight produces a report (no [expect] fails), and the report
    is ready exactly when every configured table exists, every selected table is a
    plain table without row security, triggers, special replica identity or
    constraints other than NOT NULL, each of its columns is carried over with a target
    type that represents it, a literal default, and a distinct name, every configured
    column, grant and role exists in the source, and no two configured grants differ
    only in the spelling of their privilege. *)
Theorem preflight_ready_iff c inv :
  config_wf c -> Forall columns_typed (inventory_tables inv) ->
  exists report, build_preflight parse_sql expr_to_string debug_str c inv = Ok report /\
  (status report = Ready <->
   (forall m, m ∈ tables c -> exists t, t ∈ inventory_tables inv /\ table_key t = source_key m) /\
   (forall t m, t ∈ inventory_tables inv -> m ∈ tables c -> source_key m = table_key t ->
      table_supported (column_mappings m) t) /\
   ((forall m, m ∈ grant_mappings c -> exists g, g ∈ inventory_grants inv /\ grant_found m g) /\
    (forall m m', m ∈ grant_mappings c -> m' ∈ grant_mappings c -> same_grant m m' ->
       grant_target_role m = grant_target_role m' /\ privilege m = privilege m')) /\
   (forall k v, role_mappings c !! k = Some v -> exists r, r ∈ inventory_roles inv /\ role_name r = k)).
Proof using. apply preflight_status. Qed.

(** ** The selected tables of a ready report *)

Definition plan_key (p : TablePlan) : str * str := (tp_source_schema p, tp_source_table p).

Lemma build_table_plan_key t o :
  plan_key (build_table_plan parse_sql expr_to_string debug_str t o) = table_key t.
Proof using. by destruct o. Qed.

(** A report and the tables it was built from *)
Lemma build_preflight_tables c inv report :
  build_preflight parse_sql expr_to_string debug_str c inv = Ok report ->
  pr_tables report = sort_by table_order
    (map (fun t => build_table_plan parse_sql expr_to_string debug_str t
                     (table_mapping c (schema t) (name t))) (inventory_tables inv)
     ++ map missing_table (missing_tables c (inventory_tables inv))) /\
  (status report = Ready -> missing_tables c (inventory_tables inv) = []).
Proof using.
  unfold build_preflight. intros H. inv_ok. cbn [pr_tables status]. split; [done|].
  destruct (plan_ready _ _) eqn:Hr; [|done]. intros _. unfold plan_ready in Hr. bool_prop.
  match goal with H : _ ++ _ = [] |- _ => apply app_nil in H as [H _]; by apply map_eq_nil in H end.
Qed.

Lemma selected_plan c inv report p :
  config_wf c -> Forall columns_typed (inventory_tables inv) ->
  build_preflight parse_sql expr_to_string debug_str c inv = Ok report -> status report = Ready ->
  p ∈ selected_tables report <->
  exists t m, t ∈ inventory_tables inv /\ m ∈ tables c /\ table_key t = source_key m /\
    p = build_table_plan parse_sql expr_to_string debug_str t (Some m).
Proof using.
  intros Hwf Htyped Hb Hr. destruct (build_preflight_tables _ _ _ Hb) as [Ht Hm]. specialize (Hm Hr).
  unfold selected_tables. rewrite list_elem_of_In, filter_In, <- list_elem_of_In, Ht, Hm, sort_by_perm.
  cbn [map]. rewrite app_nil_r, list_elem_of_fmap. rewrite Forall_forall in Htyped.
  assert (forall t m, t ∈ inventory_tables inv -> table_mapping c (schema t) (name t) = Some m ->
     table_supported (column_mappings m) t) as Hsup.
  { unfold build_preflight in Hb. inv_ok. cbn [status] in Hr. destruct (plan_ready _ _) eqn:Hpr; [|done].
    apply plan_ready_iff in Hpr as [_ ?]; [done | by apply Forall_forall | done]. }
  split.
  - intros [(t & -> & Hin) Hs]. unfold is_selected in Hs. bool_prop.
    destruct (table_mapping c (schema t) (name t)) as [m|] eqn:Hmap; [|by destruct H].
    apply table_mapping_some in Hmap as [? ?]. by exists t, m.
  - intros (t & m & Hin & Hmin & Hk & ->).
    assert (table_mapping c (schema t) (name t) = Some m) as Hmap.
    { unfold table_key, source_key in Hk. injection Hk as -> ->.
      by apply table_mapping_unique; [apply wf_sources|]. }
    split; [exists t; by rewrite Hmap|].
    destruct (build_table_plan_ready t m (Htyped t Hin)) as (Hs & Hd & _).
    assert (tp_blockers (build_table_plan parse_sql expr_to_string debug_str t (Some m)) = []) as Hnil
      by (apply Hs; eauto).
    unfold is_selected. rewrite !andb_true_iff, negb_true_iff, bool_decide_eq_false, !bool_decide_eq_true.
    split_and!; [by eexists | by apply Hd | done].
Qed.

Lemma NoDup_sub {A B} (f : A -> B) (P : A -> bool) l : NoDup (map f l) -> NoDup (map f (List.filter P l)).
Proof using.
  induction l as [|x l IH]; [done|]. cbn [map List.filter]. intros [Hx Hd]%NoDup_cons.
  destruct (P x); [|by apply IH]. cbn [map]. constructor; [|by apply IH].
  intros (y & Hy & Hin)%list_elem_of_fmap. apply Hx, list_elem_of_fmap. exists y. split; [done|].
  apply list_elem_of_In in Hin. apply filter_In in Hin as [? _]. by apply list_elem_of_In.
Qed.

(** The selected tables of a ready report are the configured ones. *)
Lemma ready_selected_keys c inv report :
  config_wf c -> Forall columns_typed (inventory_tables inv) ->
  NoDup (map table_key (inventory_tables inv)) ->
  build_preflight parse_sql expr_to_string debug_str c inv = Ok report -> status report = Ready ->
  map plan_key (selected_tables report) ≡ₚ map source_key (tables c) /\
  map plan_key (pr_tables report) ≡ₚ map table_key (inventory_tables inv).
Proof using.
  intros Hwf Htyped Hd Hb Hr. pose proof (fun p => selected_plan c inv report p Hwf Htyped Hb Hr) as Hsel.
  destruct (build_preflight_tables _ _ _ Hb) as [Ht Hm]. specialize (Hm Hr). rewrite Hm in Ht.
  cbn [map] in Ht. rewrite app_nil_r in Ht.
  assert (map plan_key (pr_tables report) ≡ₚ map table_key (inventory_tables inv)) as Hall.
  { rewrite Ht, (Permutation_map plan_key (sort_by_perm _ _)), map_map.
    by rewrite (map_ext _ table_key) by (intros t; apply build_table_plan_key). }
  split; [|done]. apply NoDup_Permutation.
  - apply NoDup_sub. by rewrite Hall.
  - by apply wf_sources.
  - intros k. rewrite !list_elem_of_fmap. split.
    + intros (p & -> & (t & m & ? & ? & Hk & ->)%Hsel). exists m. by rewrite build_table_plan_key.
    + intros (m & -> & Hin). pose proof (proj1 (missing_tables_nil _ _) Hm m Hin) as (t & Hti & Hk).
      exists (build_table_plan parse_sql expr_to_string debug_str t (Some m)).
      rewrite build_table_plan_key. split; [done|]. apply Hsel. by exists t, m.
Qed.

(** A selected plan carries its table. *)
Lemma selected_plan_carried c inv report p :
  config_wf c -> Forall columns_typed (inventory_tables inv) ->
  build_preflight parse_sql expr_to_string debug_str c inv = Ok report -> status report = Ready ->
  p ∈ selected_tables report -> exists t m,
     t ∈ inventory_tables inv /\ m ∈ tables c /\ table_key t = source_key m /\
     (tp_target_schema p, tp_target_table p) = (Some (target_schema m), Some (target_table m)) /\
     (tp_row_count p, tp_comment p) = (row_count t, comment t) /\
     Forall2 (column_carried (column_mappings m)) (columns t) (tp_columns p) /\
     NoDup (map cp_target_name (tp_columns p)).
Proof using.
  intros Hwf Htyped Hb Hr Hp.
  pose proof Hp as (t & m & Hti & Hmi & Hk & ->)%(selected_plan c inv report _ Hwf Htyped Hb Hr). exists t, m.
  assert (columns_typed t) as Hty by (rewrite Forall_forall in Htyped; by apply Htyped).
  destruct (build_table_plan_ready t m Hty) as (Hs & _ & Hc).
  assert (tp_blockers (build_table_plan parse_sql expr_to_string debug_str t (Some m)) = []) as Hnil.
  { unfold selected_tables in Hp. apply list_elem_of_In, filter_In in Hp as [_ Hp].
    unfold is_selected in Hp. bool_prop. done. }
  specialize (Hc Hnil). apply Hs in Hnil as [_ _ _ Hnames _]. split_and!; try done.
  replace (map cp_target_name _) with (map (fun c => Some (target_of (column_mappings m) (column_name c))) (columns t)).
  + rewrite <- (map_map (fun c => target_of (column_mappings m) (column_name c)) Some).
    by apply (NoDup_fmap_2 Some).
  + clear -Hc. induction Hc as [|x y l k [] _ IH]; [done|]. cbn [map]. rewrite IH. f_equal. by symmetry.
Qed.

(** A ready plan is complete.  In a ready report over an inventory without
    duplicate tables, the selected tables are exactly the configured ones, each with
    the configured target, the row count of the snapshot, and every column of the
    source table in order with its name, type, nullability, default and comment, under
    distinct target names; and every other inventoried table is still reported. *)
Theorem ready_plan_complete c inv report :
  config_wf c -> Forall columns_typed (inventory_tables inv) ->
  NoDup (map table_key (inventory_tables inv)) ->
  build_preflight parse_sql expr_to_string debug_str c inv = Ok report -> status report = Ready ->
  map plan_key (selected_tables report) ≡ₚ map source_key (tables c) /\
  (forall p, p ∈ selected_tables report -> exists t m,
     t ∈ inventory_tables inv /\ m ∈ tables c /\ table_key t = source_key m /\
     (tp_target_schema p, tp_target_table p) = (Some (target_schema m), Some (target_table m)) /\
     (tp_row_count p, tp_comment p) = (row_count t, comment t) /\
     Forall2 (column_carried (column_mappings m)) (columns t) (tp_columns p) /\
     NoDup (map cp_target_name (tp_columns p))) /\
  map plan_key (pr_tables report) ≡ₚ map table_key (inventory_tables inv).
Proof using.
  intros Hwf Htyped Hd Hb Hr. destruct (ready_selected_keys _ _ _ Hwf Htyped Hd Hb Hr) as [Hs Hall].
  split; [done|]. split; [|done]. intros p. by apply selected_plan_carried.
Qed.
End supported.

(** ** A ready plan *)

Module Sample.
Definition parse_sql (sql : str) : option (list Statement) :=
  if bool_decide (sql = lit "SELECT -12.34")
  then Some [StQuery (SetSelect [UnnamedExpr (EUnaryOp UnaryMinus (EValue (lit "12.34")))])] else None.
Fixpoint expr_to_string (e : Expr) : str :=
  match e with
  | EValue s | ETypedString s | EOther s => s
  | ENested e => lit "(" ++ expr_to_string e ++ lit ")"
  | ECast e t => expr_to_string e ++ lit "::" ++ t
  | EUnaryOp _ e => lit "-" ++ expr_to_string e
  end.
Definition debug_str (s : str) : str := quote_byte :: s ++ [quote_byte].

Definition column (p : Z) (n ty formatted : string) (typmod : Z) (dflt : option string) : SourceColumn :=
  mkSourceColumn p (lit n) (lit ty) (lit formatted) typmod true (lit <$> dflt) None false false
    None None None.
Definition location : SourceColumn :=
  mkSourceColumn 3 (lit "location") (lit "geometry") (lit "geometry(Point)") 4 true None
    (Some (lit "site")) false false (Some (lit "Point")) (Some 0) (Some 2).
Definition table (n : string) (cols : list SourceColumn) : SourceTable :=
  mkSourceTable (lit "public") (lit n) 2 8192 None false false (lit "default") false 0 cols
    [mkSourceConstraint (lit "nn") NotNull (lit "NOT NULL")].
Definition inventory : SourceInventory :=
  mkSourceInventory
    (mkSourceIdentity 180004 (lit "18.4") (lit "fixture") 16384 (lit "3.6.1") (lit "t0") (lit "100:100:"))
    [table "roads" [column 1 "id" "int8" "bigint" (-1) None];
     table "places" [column 1 "id" "int8" "bigint" (-1) None;
                     column 2 "amount" "numeric" "numeric(10,2)" (4 + 10 * 65536 + 2) (Some "-12.34"%string);
                     location];
     table "audit" [column 1 "who" "uuid" "uuid" (-1) None]]
    [mkSourceObject (lit "public") (lit "v") View]
    [mkSourceRole (lit "source_reader") true]
    [mkSourceGrant (lit "source_reader") (lit "public") (lit "places") (Some (lit "location")) (lit "SELECT")].

Lemma inventory_typed : Forall columns_typed (inventory_tables inventory).
Proof. repeat constructor; vm_compute; discriminate. Qed.

Definition report : PreflightReport := Eval vm_compute in
  match build_preflight parse_sql expr_to_string debug_str sample_config inventory with
  | Ok r => r
  | Err _ => mkPreflightReport 0 Rejected (inventory_identity inventory) [] [] [] [] []
  end.
Lemma report_built : build_preflight parse_sql expr_to_string debug_str sample_config inventory = Ok report.
Proof. vm_compute. reflexivity. Qed.
End Sample.

Lemma preflight_ready_iff_witness :
  exists t, t ∈ inventory_tables Sample.inventory /\ table_key t = (lit "public", lit "places").
Proof.
  destruct (preflight_ready_iff Sample.parse_sql Sample.expr_to_string Sample.debug_str sample_config
              Sample.inventory sample_config_wf Sample.inventory_typed) as (r & Hb & Hi).
  rewrite Sample.report_built in Hb. injection Hb as <-.
  destruct (proj1 Hi eq_refl) as [H _].
  exact (H (mkTableMapping (lit "public") (lit "places") (lit "main") (lit "places") {[lit "location" := lit "geom_wkb"]})
           (list_elem_of_here _ _)).
Defined.

Lemma ready_plan_complete_witness :
  map plan_key (selected_tables Sample.report) ≡ₚ map source_key (tables sample_config).
Proof.
  refine (proj1 (ready_plan_complete Sample.parse_sql Sample.expr_to_string Sample.debug_str sample_config
    Sample.inventory Sample.report sample_config_wf Sample.inventory_typed _ Sample.report_built eq_refl)).
  apply (bool_decide_unpack _). vm_compute. exact I.
Defined.
