(* ===== verification/MigrateChecksum.v ===== *)
(** * Canonical values and multiset checksums ([quackgis-migrate/src/migration.rs])

    Source and target rows are compared through canonical texts accumulated in
    order-independent checksums, and through a spatial summary of each geometry column.
    SHA-256, [rust_decimal], [chrono] and the parsers and printers of floats are
    parameters; an [f64] is its 64-bit pattern. *)

From S2P Require Import Prelude MigrateConfig MigratePlan.
#[local] Open Scope Z_scope.

(** ** Big-endian integers *)

(** [u64::to_be_bytes] and [to_le_bytes] *)
Fixpoint le_bytes (n : nat) (z : Z) : list byte :=
  match n with O => [] | S n' => zb z :: le_bytes n' (z / 256) end.
Definition u64_to_be_bytes (z : Z) : list byte := rev (le_bytes 8 z).
Fixpoint le_value (l : list byte) : Z :=
  match l with [] => 0 | b :: r => bz b + 256 * le_value r end.
Definition be_value (l : list byte) : Z := le_value (rev l).

(** [{:0width$x}] and [hex::encode] *)
Definition lower_hex_digit (n : Z) : byte := if n <? 10 then zb (48 + n) else zb (87 + n).
Definition encode_hex (bs : list byte) : str :=
  concat (map (fun b => [lower_hex_digit (bz b / 16); lower_hex_digit (bz b mod 16)]) bs).
Definition fixed_hex (bytes : nat) (z : Z) : str := encode_hex (rev (le_bytes bytes z)).

(** [hex::decode] *)
Definition hex_value (b : byte) : option Z :=
  if in_range 48 57 b then Some (bz b - 48)
  else if in_range 97 102 b then Some (bz b - 87)
  else if in_range 65 70 b then Some (bz b - 55)
  else None.
Fixpoint decode_hex (s : list byte) : option (list byte) :=
  match s with
  | [] => Some []
  | [_] => None
  | a :: b :: rest =>
      h ← hex_value a; l ← hex_value b; r ← decode_hex rest; Some (zb (16 * h + l) :: r)
  end.

(** ** The canonical encoding of a value *)

(** [append_canonical] and [append_canonical_digest]: the same bytes, appended to a row
    or fed to the digest *)
Definition canonical_bytes (value : option (list byte)) : list byte :=
  match value with
  | Some v => x01 :: u64_to_be_bytes (Z.min (len v) u64_max) ++ v
  | None => [x00]
  end.

(** ** [MultisetChecksum] *)

Record MultisetChecksum := mkMultisetChecksum {
  count : Z;
  null_count : Z;
  sum : list byte;
  xor : list byte }.
Definition default_checksum : MultisetChecksum :=
  mkMultisetChecksum 0 0 (replicate 32 x00) (replicate 32 x00).

(** The loop over [(0..32).rev()]: the last byte first, with its carry *)
Fixpoint add_with_carry (a b : list byte) (carry : Z) : list byte :=
  match a, b with
  | x :: a', y :: b' =>
      let t := bz x + bz y + carry in zb t :: add_with_carry a' b' (Z.shiftr t 8)
  | _, _ => []
  end.
Definition add_digest (s digest : list byte) : list byte :=
  rev (add_with_carry (rev s) (rev digest) 0).
Definition xor_byte (a b : byte) : byte := zb (Z.lxor (bz a) (bz b)).
Definition xor_digest (s digest : list byte) : list byte := zip_with xor_byte s digest.

Inductive ChecksumError :=
  | InvalidBoolean (column : str)
  | InvalidCanonical (type column : str)
  | InvalidBinary (column : str)
  | QueryFailed
  | ColumnMissing.

(** ** Spatial summaries *)

Record SpatialExtent := mkSpatialExtent { min_x : str; min_y : str; max_x : str; max_y : str }.
Record SpatialVerification := mkSpatialVerification {
  geometry_family : str;
  srid : Z;
  dimensions : Z;
  sv_non_null_count : Z;
  sv_structurally_valid_count : Z;
  sv_empty_count : Z;
  sv_invalid_count : Z;
  finite_extent : option SpatialExtent }.
Record ChecksumValue := mkChecksumValue {
  cv_null_count : Z;
  checksum : str;
  spatial : option SpatialVerification }.
Record TableChecksums := mkTableChecksums { table_checksum : str; tc_columns : list ChecksumValue }.

#[export] Instance spatial_extent_eq_dec : EqDecision SpatialExtent.
Proof. solve_decision. Defined.
#[export] Instance spatial_verification_eq_dec : EqDecision SpatialVerification.
Proof. solve_decision. Defined.
#[export] Instance checksum_value_eq_dec : EqDecision ChecksumValue.
Proof. solve_decision. Defined.
#[export] Instance table_checksums_eq_dec : EqDecision TableChecksums.
Proof. solve_decision. Defined.

(** [f64::is_nan] and [f64::is_finite] on the bit pattern *)
Definition f64_exponent (bits : Z) : Z := Z.land (Z.shiftr bits 52) 2047.
Definition is_finite (bits : Z) : bool := negb (f64_exponent bits =? 2047).
Definition is_nan (bits : Z) : bool :=
  (f64_exponent bits =? 2047) && negb (Z.land bits 4503599627370495 =? 0).

(** [parse_ndr_point] *)
Definition parse_ndr_point (wkb : list byte) : option (Z * Z) :=
  if negb (len wkb =? 21) || negb (bool_decide (wkb !! 0%nat = Some x01))
     || negb (le_value (take 4 (drop 1 wkb)) =? 1)
  then None
  else Some (le_value (take 8 (drop 5 wkb)), le_value (take 8 (drop 13 wkb))).

Record SpatialAccumulator := mkSpatialAccumulator {
  non_null_count : Z;
  structurally_valid_count : Z;
  empty_count : Z;
  invalid_count : Z;
  extent : option (Z * Z * Z * Z) }.
Definition default_spatial : SpatialAccumulator := mkSpatialAccumulator 0 0 0 0 None.

(** ** Column types ([source_base_type], [is_geometry_column]) *)

Definition source_base_type (t : str) : str :=
  match split_once x28 t with Some (base, _) => base | None => t end.
Definition is_geometry_column (c : ColumnPlan) : bool :=
  starts_with (lit "geometry(") (cp_source_type c) || bool_decide (cp_source_type c = lit "geometry").

Section checksum.
Variable sha256 : list byte -> list byte.
Variable parse_f32_bits parse_f64_bits : str -> option Z.
Variable normalize_decimal : str -> option str.
Variable format_date : str -> option str.
Variable timestamp_micros : str -> option Z.
Variable f64_min f64_max : Z -> Z -> Z.
Variable f64_to_string : Z -> str.

(** [MultisetChecksum::update] *)
Definition update (self : MultisetChecksum) (value : option (list byte)) : MultisetChecksum :=
  let digest := sha256 (canonical_bytes value) in
  mkMultisetChecksum (saturating_add (count self) 1)
    (match value with None => saturating_add (null_count self) 1 | Some _ => null_count self end)
    (add_digest (sum self) digest) (xor_digest (xor self) digest).

(** [MultisetChecksum::finish] *)
Definition finish (self : MultisetChecksum) : str :=
  encode_hex (sha256 (lit "quackgis-canonical-multiset-v1" ++ [x00] ++ u64_to_be_bytes (count self)
                      ++ u64_to_be_bytes (null_count self) ++ sum self ++ xor self)).

(** [SpatialAccumulator::update] *)
Definition bump_invalid (self : SpatialAccumulator) : SpatialAccumulator :=
  mkSpatialAccumulator (non_null_count self) (structurally_valid_count self) (empty_count self)
    (saturating_add (invalid_count self) 1) (extent self).
Definition extend (e : option (Z * Z * Z * Z)) (x y : Z) : option (Z * Z * Z * Z) :=
  Some match e with
       | None => (x, y, x, y)
       | Some (a, b, c, d) => (f64_min a x, f64_min b y, f64_max c x, f64_max d y)
       end.
Definition spatial_update (self : SpatialAccumulator) (canonical_hex : option (list byte))
    : SpatialAccumulator :=
  match canonical_hex with
  | None => self
  | Some hex =>
      let self := mkSpatialAccumulator (saturating_add (non_null_count self) 1)
                    (structurally_valid_count self) (empty_count self) (invalid_count self) (extent self) in
      match (wkb ← decode_hex hex; parse_ndr_point wkb) with
      | None => bump_invalid self
      | Some (x, y) =>
          let valid := saturating_add (structurally_valid_count self) 1 in
          if is_nan x && is_nan y then
            mkSpatialAccumulator (non_null_count self) valid (saturating_add (empty_count self) 1)
              (invalid_count self) (extent self)
          else if negb (is_finite x) || negb (is_finite y) then
            mkSpatialAccumulator (non_null_count self) valid (empty_count self) (invalid_count self)
              (extent self)
          else mkSpatialAccumulator (non_null_count self) valid (empty_count self) (invalid_count self)
                 (extend (extent self) x y)
      end
  end.

(** [SpatialAccumulator::finish] *)
Definition spatial_finish (self : SpatialAccumulator) : SpatialVerification :=
  mkSpatialVerification (lit "Point") 0 2 (non_null_count self) (structurally_valid_count self)
    (empty_count self) (invalid_count self)
    ((fun e => let '(a, b, c, d) := e in
       mkSpatialExtent (f64_to_string a) (f64_to_string b) (f64_to_string c) (f64_to_string d))
       <$> extent self).

(** [canonicalize] *)
Definition base_in (t : str) (names : list string) : bool := bool_decide (t ∈ map lit names).
Definition canonicalize (raw : str) (column : ColumnPlan) : result ChecksumError (list byte) :=
  let t := source_base_type (cp_source_type column) in
  let fail := InvalidCanonical t (cp_source_name column) in
  if base_in t ["bool"; "boolean"]%string then
    let low := to_ascii_lowercase raw in
    if base_in low ["t"; "true"]%string then Ok (lit "1")
    else if base_in low ["f"; "false"]%string then Ok (lit "0")
    else Err (InvalidBoolean (cp_source_name column))
  else if base_in t ["int2"; "smallint"; "int4"; "integer"; "int8"; "bigint"]%string then
    dec <$> ok_or (parse_i64 raw) fail
  else if base_in t ["float4"; "real"]%string then
    fixed_hex 4 <$> ok_or (parse_f32_bits raw) fail
  else if base_in t ["float8"; "double precision"]%string then
    fixed_hex 8 <$> ok_or (parse_f64_bits raw) fail
  else if base_in t ["numeric"; "decimal"]%string then ok_or (normalize_decimal raw) fail
  else if base_in t ["date"]%string then ok_or (format_date raw) fail
  else if starts_with (lit "timestamp") t then dec <$> ok_or (timestamp_micros raw) fail
  else if base_in t ["bytea"; "geometry"]%string then
    if negb (Z.rem (len raw) 2 =? 0) || negb (forallb is_ascii_hexdigit raw)
    then Err (InvalidBinary (cp_source_name column))
    else Ok (to_ascii_lowercase raw)
  else Ok raw.

(** ** [checksum_table] *)

Record Accumulators := mkAccumulators {
  table_accumulator : MultisetChecksum;
  column_accumulators : list MultisetChecksum;
  spatial_accumulators : list (option SpatialAccumulator) }.

Definition start_accumulators (columns : list ColumnPlan) : Accumulators :=
  mkAccumulators default_checksum (map (fun _ => default_checksum) columns)
    (map (fun c => if is_geometry_column c then Some default_spatial else None) columns).

(** [row.get(index)] and [canonicalize] for each column of a row *)
Fixpoint canonical_row (columns : list ColumnPlan) (row : list (option str))
    : result ChecksumError (list (option (list byte))) :=
  match columns, row with
  | [], _ => Ok []
  | _ :: _, [] => Err ColumnMissing
  | c :: cs, raw :: rest =>
      value ← match raw with
              | None => Ok None
              | Some text => Some <$> canonicalize text c
              end;
      values ← canonical_row cs rest;
      Ok (value :: values)
  end.

(** The accumulators after one row of canonical values *)
Definition accumulate (acc : Accumulators) (values : list (option (list byte))) : Accumulators :=
  mkAccumulators
    (update (table_accumulator acc) (Some (concat (map canonical_bytes values))))
    (zip_with update (column_accumulators acc) values)
    (zip_with (fun s v => (fun s => spatial_update s v) <$> s) (spatial_accumulators acc) values).

Definition finish_table (acc : Accumulators) : TableChecksums :=
  mkTableChecksums (finish (table_accumulator acc))
    (zip_with (fun a s => mkChecksumValue (null_count a) (finish a) (spatial_finish <$> s))
       (column_accumulators acc) (spatial_accumulators acc)).

Definition checksum_rows (columns : list ColumnPlan) (rows : list (result ChecksumError (list (option str))))
    : result ChecksumError TableChecksums :=
  acc ← try_fold (fun acc row =>
          row ← row; values ← canonical_row columns row; Ok (accumulate acc values))
          rows (start_accumulators columns);
  Ok (finish_table acc).
End checksum.

(** ** Integers and their bytes *)

Lemma le_bytes_length n z : length (le_bytes n z) = n.
Proof. revert z. induction n as [|n IH]; intros z; cbn; [done|]. by rewrite IH. Qed.

Lemma pow256_pos n : 0 < 256 ^ Z.of_nat n.
Proof. apply Z.pow_pos_nonneg; lia. Qed.

Lemma le_value_bytes n z : le_value (le_bytes n z) = z mod 256 ^ Z.of_nat n.
Proof.
  revert z. induction n as [|n IH]; intros z; [by rewrite Z.mod_1_r|].
  cbn [le_bytes le_value]. rewrite bz_zb, IH, Nat2Z.inj_succ, Z.pow_succ_r by lia.
  pose proof (pow256_pos n). rewrite Z.rem_mul_r by lia. lia.
Qed.

Lemma le_value_range l : 0 <= le_value l < 256 ^ Z.of_nat (length l).
Proof.
  induction l as [|b l IH]; cbn [le_value length]; [done|].
  rewrite Nat2Z.inj_succ, Z.pow_succ_r by lia. pose proof (bz_range b). lia.
Qed.

Lemma le_value_inj a b : length a = length b -> le_value a = le_value b -> a = b.
Proof.
  revert b. induction a as [|x a IH]; intros [|y b]; cbn [length le_value]; try done.
  intros [= Hl] Hv. pose proof (bz_range x). pose proof (bz_range y).
  f_equal; [apply bz_inj; lia | apply IH; [done | lia]].
Qed.

Lemma be_value_inj a b : length a = length b -> be_value a = be_value b -> a = b.
Proof.
  intros Hl Hv. rewrite <- (rev_involutive a), <- (rev_involutive b). f_equal.
  apply le_value_inj; [by rewrite !length_rev | done].
Qed.

Lemma u64_to_be_bytes_inj m n :
  0 <= m <= u64_max -> 0 <= n <= u64_max -> u64_to_be_bytes m = u64_to_be_bytes n -> m = n.
Proof.
  unfold u64_to_be_bytes, u64_max. intros Hm Hn H. apply (f_equal (@rev byte)) in H.
  rewrite !rev_involutive in H. apply (f_equal le_value) in H. rewrite !le_value_bytes in H.
  change (256 ^ Z.of_nat 8) with 18446744073709551616 in H. rewrite !Z.mod_small in H by lia. done.
Qed.

Lemma u64_to_be_bytes_length z : length (u64_to_be_bytes z) = 8%nat.
Proof. unfold u64_to_be_bytes. by rewrite length_rev, le_bytes_length. Qed.

(** ** Digest arithmetic *)

Lemma add_with_carry_length a b c : length a = length b -> length (add_with_carry a b c) = length a.
Proof.
  revert b c. induction a as [|x a IH]; intros [|y b] c; cbn; try done. intros [= H]. by rewrite IH.
Qed.

(** The byte loop is addition modulo the width. *)
Lemma add_with_carry_value a b c :
  length a = length b -> 0 <= c <= 1 ->
  le_value (add_with_carry a b c) = (le_value a + le_value b + c) mod 256 ^ Z.of_nat (length a).
Proof.
  revert b c. induction a as [|x a IH]; intros [|y b] c; cbn [length]; try done.
  { intros _ _. by rewrite Z.mod_1_r. }
  intros [= Hl] Hc. cbn [add_with_carry le_value]. pose proof (bz_range x). pose proof (bz_range y).
  set (t := bz x + bz y + c). rewrite Z.shiftr_div_pow2 by lia. change (2 ^ 8) with 256.
  assert (0 <= t / 256 <= 1) as Ht by (subst t; Z.to_euclidean_division_equations; lia).
  rewrite bz_zb, IH by done. rewrite Nat2Z.inj_succ, Z.pow_succ_r by lia.
  assert (bz x + 256 * le_value a + (bz y + 256 * le_value b) + c
          = t + (le_value a + le_value b) * 256) as -> by (subst t; lia).
  pose proof (pow256_pos (length a)). rewrite Z.rem_mul_r by lia. rewrite Z.mod_add, Z.div_add by lia.
  f_equal. f_equal. f_equal. lia.
Qed.

Lemma add_digest_length s d : length s = length d -> length (add_digest s d) = length s.
Proof. intros H. unfold add_digest. by rewrite length_rev, add_with_carry_length, !length_rev by by rewrite !length_rev. Qed.

Lemma add_digest_value s d :
  length s = length d -> be_value (add_digest s d) = (be_value s + be_value d) mod 256 ^ Z.of_nat (length s).
Proof.
  intros H. unfold add_digest, be_value. rewrite rev_involutive, add_with_carry_value;
    [by rewrite Z.add_0_r, length_rev | by rewrite !length_rev | done].
Qed.

Lemma add_digest_comm s a b :
  length s = length a -> length s = length b ->
  add_digest (add_digest s a) b = add_digest (add_digest s b) a.
Proof.
  intros Ha Hb. pose proof (add_digest_length s a Ha) as La. pose proof (add_digest_length s b Hb) as Lb.
  apply be_value_inj; [rewrite !add_digest_length; congruence|].
  rewrite !add_digest_value by congruence. rewrite La, Lb, !Zplus_mod_idemp_l. f_equal. lia.
Qed.

Lemma bz_xor a b : bz (xor_byte a b) = Z.lxor (bz a) (bz b).
Proof.
  unfold xor_byte. rewrite bz_zb. change 256 with (2 ^ 8). rewrite <- Z.land_ones by lia.
  apply Z.bits_inj'. intros n Hn. rewrite Z.land_spec, Z.lxor_spec.
  destruct (Z.ltb_spec n 8).
  - rewrite Z.ones_spec_low by lia. by rewrite andb_true_r.
  - rewrite Z.ones_spec_high by lia. rewrite andb_false_r.
    assert (forall b, Z.testbit (bz b) n = false) as Hb; [|by rewrite !Hb].
    intros c. pose proof (bz_range c). destruct (decide (bz c = 0)) as [->|]; [apply Z.bits_0|].
    apply Z.bits_above_log2; [lia|]. assert (Z.log2 (bz c) < 8); [|lia].
    apply Z.log2_lt_pow2; lia.
Qed.

Lemma xor_digest_comm s a b : xor_digest (xor_digest s a) b = xor_digest (xor_digest s b) a.
Proof.
  unfold xor_digest. revert a b. induction s as [|x s IH]; intros [|y a] [|z b]; cbn; try done.
  f_equal; [|apply IH]. apply bz_inj. rewrite !bz_xor, !Z.lxor_assoc. f_equal. apply Z.lxor_comm.
Qed.

(** A fold whose rounds commute does not see the order of its input. *)
Lemma foldl_permutation {S A} (P : S -> Prop) (f : S -> A -> S) l l' s :
  (forall s a, P s -> P (f s a)) -> (forall s a b, P s -> f (f s a) b = f (f s b) a) ->
  l ≡ₚ l' -> P s -> foldl f s l = foldl f s l'.
Proof.
  intros Hp Hc Hl. revert s. induction Hl as [|x l l' _ IH|x y l|l1 l2 l3 _ IH1 _ IH2]; intros s Hs; cbn [foldl].
  - done.
  - by apply IH, Hp.
  - by rewrite Hc.
  - by rewrite IH1, IH2.
Qed.

Section multiset.
Variable sha256 : list byte -> list byte.
Hypothesis sha256_length : forall m, length (sha256 m) = 32%nat.

Definition well_sized (s : MultisetChecksum) : Prop :=
  length (sum s) = 32%nat /\ length (xor s) = 32%nat /\ 0 <= count s <= u64_max /\
  0 <= null_count s <= u64_max.

Lemma default_well_sized : well_sized default_checksum.
Proof using. repeat split; vm_compute; discriminate. Qed.

Lemma update_well_sized s v : well_sized s -> well_sized (update sha256 s v).
Proof using sha256_length.
  unfold well_sized, update, saturating_add, u64_max. intros (Hs & Hx & Hc & Hn). cbn.
  split_and!; try (rewrite add_digest_length; [done | congruence]).
  - unfold xor_digest. rewrite length_zip_with, sha256_length, Hx. done.
  - lia.
  - lia.
  - destruct v; lia.
  - destruct v; lia.
Qed.

Lemma update_comm s a b : well_sized s ->
  update sha256 (update sha256 s a) b = update sha256 (update sha256 s b) a.
Proof using sha256_length.
  intros (Hs & _). unfold update. cbn. f_equal; [by destruct a, b | |apply xor_digest_comm].
  apply add_digest_comm; congruence.
Qed.

Lemma fold_permutation s l l' : well_sized s -> l ≡ₚ l' ->
  foldl (update sha256) s l = foldl (update sha256) s l'.
Proof using sha256_length.
  intros Hs Hl. apply (foldl_permutation well_sized); [apply update_well_sized | apply update_comm | done..].
Qed.

Lemma fold_well_sized s l : well_sized s -> well_sized (foldl (update sha256) s l).
Proof using sha256_length. revert s. induction l as [|x l IH]; intros s Hs; [done|]. by apply IH, update_well_sized. Qed.

(** What the accumulator holds: the counts, and the digests' sum modulo 2^256. *)
Definition digest_value (v : option (list byte)) : Z := be_value (sha256 (canonical_bytes v)).
Definition total (l : list (option (list byte))) : Z := foldr (fun v acc => digest_value v + acc) 0 l.

Lemma fold_sum s l : well_sized s ->
  be_value (sum (foldl (update sha256) s l)) = (be_value (sum s) + total l) mod 256 ^ 32.
Proof using sha256_length.
  revert s. induction l as [|v l IH]; intros s Hs; cbn [foldl total foldr].
  - rewrite Z.add_0_r, Z.mod_small; [done|]. destruct Hs as [Hs _].
    pose proof (le_value_range (rev (sum s))) as H. by rewrite length_rev, Hs in H.
  - rewrite IH by by apply update_well_sized. cbn [update sum]. destruct Hs as [Hs _].
    rewrite add_digest_value by by rewrite Hs, sha256_length. rewrite Hs.
    change (Z.of_nat 32) with 32. rewrite Zplus_mod_idemp_l. f_equal.
    fold (total l). fold (digest_value v). lia.
Qed.

Lemma fold_counts s l : 0 <= count s <= u64_max ->
  count (foldl (update sha256) s l) = Z.min (count s + len l) u64_max.
Proof using.
  revert s. induction l as [|v l IH]; intros s Hs; cbn [foldl].
  - change (len []) with 0. rewrite Z.add_0_r. lia.
  - assert (count (update sha256 s v) = Z.min (count s + 1) u64_max) as Hc by done.
    pose proof (len_nonneg l). rewrite IH, len_cons, Hc; lia.
Qed.

(** The message of [finish] determines the accumulator. *)
Definition finish_message (s : MultisetChecksum) : list byte :=
  lit "quackgis-canonical-multiset-v1" ++ [x00] ++ u64_to_be_bytes (count s)
  ++ u64_to_be_bytes (null_count s) ++ sum s ++ xor s.

Lemma finish_message_inj s s' : well_sized s -> well_sized s' -> finish_message s = finish_message s' -> s = s'.
Proof using.
  intros (Hs & Hx & Hc & Hn) (Hs' & Hx' & Hc' & Hn') H. unfold finish_message in H.
  apply app_inj_1 in H as [_ H]; [|done]. apply app_inj_1 in H as [_ H]; [|done].
  apply app_inj_1 in H as [H1 H]; [|by rewrite !u64_to_be_bytes_length].
  apply app_inj_1 in H as [H2 H]; [|by rewrite !u64_to_be_bytes_length].
  apply app_inj_1 in H as [H3 H4]; [|congruence].
  apply u64_to_be_bytes_inj in H1, H2; [|done..]. destruct s, s'. cbn in *. by subst.
Qed.

Lemma lower_hex_digit_inj a b :
  0 <= a < 16 -> 0 <= b < 16 -> lower_hex_digit a = lower_hex_digit b -> a = b.
Proof using.
  unfold lower_hex_digit. intros Ha Hb.
  destruct (Z.ltb_spec a 10), (Z.ltb_spec b 10); intros Heq; apply zb_inj in Heq; lia.
Qed.

Lemma encode_hex_inj a b : encode_hex a = encode_hex b -> a = b.
Proof using.
  unfold encode_hex. revert b. induction a as [|x a IH]; intros [|y b]; cbn [map concat app]; try done.
  intros [= H1 H2 H%IH]. pose proof (bz_range x). pose proof (bz_range y).
  apply lower_hex_digit_inj in H1, H2; [|Z.to_euclidean_division_equations; lia..].
  f_equal; [|done]. apply bz_inj. rewrite (Z.div_mod (bz x) 16), (Z.div_mod (bz y) 16) by lia. congruence.
Qed.
End multiset.

(** ** Row encodings *)

Lemma canonical_bytes_prefix a b x y :
  (forall v, a = Some v \/ b = Some v -> len v <= u64_max) ->
  canonical_bytes a ++ x = canonical_bytes b ++ y -> a = b /\ x = y.
Proof.
  intros Hlen. destruct a as [v|], b as [w|]; cbn [canonical_bytes app]; try done.
  - rewrite <- !(assoc_L (++)). intros H. apply (f_equal (drop 1)) in H.
    rewrite !skipn_cons, !drop_0 in H. pose proof (Hlen v (or_introl eq_refl)).
    pose proof (Hlen w (or_intror eq_refl)). pose proof (len_nonneg v). pose proof (len_nonneg w).
    apply app_inj_1 in H as [Hn Hv]; [|by rewrite !u64_to_be_bytes_length].
    apply u64_to_be_bytes_inj in Hn; [|lia..]. rewrite !Z.min_l in Hn by lia.
    apply app_inj_1 in Hv as [-> ->]; [done | unfold len in Hn; lia].
  - by intros [= ->].
Qed.

(** The encoding of a row is unambiguous.  Two rows whose canonical encodings agree
    have the same values, column by column: NULL, the empty value and values that
    differ only in where one column ends and the next begins are never confused. *)
Theorem row_encoding_unambiguous a b :
  Forall (fun v => forall bytes, v = Some bytes -> len bytes <= u64_max) a ->
  Forall (fun v => forall bytes, v = Some bytes -> len bytes <= u64_max) b ->
  concat (map canonical_bytes a) = concat (map canonical_bytes b) -> a = b.
Proof.
  intros Ha. revert b. induction Ha as [|v a Hv _ IH]; intros b Hb; destruct Hb as [|w b Hw Hb];
    cbn [map concat]; [done | by destruct w | by destruct v |].
  intros H. apply canonical_bytes_prefix in H as [-> H]; [f_equal; by apply IH|].
  intros u [->| ->]; [by apply Hv | by apply Hw].
Qed.

(** ** Whole tables *)

Section tables.
Variable sha256 : list byte -> list byte.
Variable parse_f32_bits parse_f64_bits : str -> option Z.
Variable normalize_decimal : str -> option str.
Variable format_date : str -> option str.
Variable timestamp_micros : str -> option Z.
Variable f64_min f64_max : Z -> Z -> Z.
Variable f64_to_string : Z -> str.
Hypothesis sha256_length : forall m, length (sha256 m) = 32%nat.

Notation canonical_row := (canonical_row parse_f32_bits parse_f64_bits normalize_decimal format_date timestamp_micros).
Notation accumulate := (accumulate sha256 f64_min f64_max).
Notation spatial_update := (spatial_update f64_min f64_max).

Definition forget_extent (s : SpatialAccumulator) : SpatialAccumulator :=
  mkSpatialAccumulator (non_null_count s) (structurally_valid_count s) (empty_count s) (invalid_count s) None.
Definition forget (a : Accumulators) : Accumulators :=
  mkAccumulators (table_accumulator a) (column_accumulators a)
    (map (fmap forget_extent) (spatial_accumulators a)).
Definition acc_sized (a : Accumulators) : Prop :=
  well_sized (table_accumulator a) /\ Forall well_sized (column_accumulators a).

Lemma spatial_update_forget s v :
  forget_extent (spatial_update (forget_extent s) v) = forget_extent (spatial_update s v).
Proof using. destruct v as [h|]; [|done]. cbn. by repeat case_match. Qed.

Lemma spatial_update_forget_comm s v w :
  forget_extent (spatial_update (spatial_update s v) w) = forget_extent (spatial_update (spatial_update s w) v).
Proof using. destruct v as [h|], w as [k|]; [|done..]. cbn. by repeat case_match. Qed.

Lemma zip_with_comm {A B} (P : A -> Prop) (f : A -> B -> A) l v w :
  (forall a x y, P a -> f (f a x) y = f (f a y) x) -> Forall P l ->
  zip_with f (zip_with f l v) w = zip_with f (zip_with f l w) v.
Proof using.
  intros Hf Hl. revert v w. induction Hl as [|a l Ha _ IH]; intros [|x v] [|y w]; cbn; try done.
  by rewrite Hf, IH.
Qed.

Lemma accumulate_sized a v : acc_sized a -> acc_sized (accumulate a v).
Proof using sha256_length.
  intros [Ht Hc]. split; cbn [table_accumulator column_accumulators accumulate].
  - by apply update_well_sized.
  - clear Ht. revert v. induction Hc as [|s l Hs _ IH]; intros [|x v]; cbn; [constructor..|].
    constructor; [by apply update_well_sized | apply IH].
Qed.

(** Forgetting extents, rows commute. *)
Lemma accumulate_forget a v : forget (accumulate (forget a) v) = forget (accumulate a v).
Proof using.
  unfold forget, MigrateChecksum.accumulate. cbn. f_equal.
  revert v. induction (spatial_accumulators a) as [|s l IH]; intros [|x v]; cbn; [done..|].
  rewrite IH. f_equal. destruct s as [s|]; cbn; [|done]. f_equal. apply spatial_update_forget.
Qed.

Lemma accumulate_forget_comm a v w :
  acc_sized a -> forget (accumulate (accumulate a v) w) = forget (accumulate (accumulate a w) v).
Proof using sha256_length.
  intros [Ht Hc]. unfold forget. cbn. f_equal.
  - by apply update_comm.
  - apply (zip_with_comm well_sized); [|done]. intros s x y Hs. by apply update_comm.
  - revert v w. induction (spatial_accumulators a) as [|s l IH]; intros [|x v] [|y w]; cbn; [done..|].
    rewrite IH. f_equal. destruct s as [s|]; cbn; [|done]. f_equal. apply spatial_update_forget_comm.
Qed.

Lemma fold_forget a l :
  forget (foldl accumulate a l) = foldl (fun a v => forget (accumulate a v)) (forget a) l.
Proof using.
  revert a. induction l as [|v l IH]; intros a; [done|]. cbn [foldl]. by rewrite IH, accumulate_forget.
Qed.

Lemma fold_forget_permutation a l l' :
  acc_sized a -> l ≡ₚ l' -> forget (foldl accumulate a l) = forget (foldl accumulate a l').
Proof using sha256_length.
  intros Ha Hl. rewrite !fold_forget. apply (foldl_permutation acc_sized); [| |done..|].
  - intros b v Hb. pose proof (accumulate_sized b v Hb) as [? ?]. by split.
  - intros b v w Hb. rewrite !accumulate_forget. by apply accumulate_forget_comm.
  - by destruct Ha.
Qed.

(** Extents commute when [f64::min] and [f64::max] do. *)
Definition commutes (f : Z -> Z -> Z) : Prop :=
  (forall x y, f x y = f y x) /\ (forall x y z, f (f x y) z = f x (f y z)).

Lemma extend_comm e x y x' y' : commutes f64_min -> commutes f64_max ->
  extend f64_min f64_max (extend f64_min f64_max e x y) x' y'
  = extend f64_min f64_max (extend f64_min f64_max e x' y') x y.
Proof using.
  intros [C1 A1] [C2 A2].
  assert (forall f, (forall x y, f x y = f y x) -> (forall x y z, f (f x y) z = f x (f y z)) ->
    forall a x y : Z, f (f a x) y = f (f a y) x) as Hs.
  { intros f C A a u v. rewrite !A. f_equal. apply C. }
  unfold extend. destruct e as [[[[a b] c] d]|].
  { by rewrite (Hs f64_min C1 A1 a x), (Hs f64_min C1 A1 b y), (Hs f64_max C2 A2 c x), (Hs f64_max C2 A2 d y). }
  f_equal. by rewrite (C1 x), (C1 y), (C2 x), (C2 y).
Qed.

Lemma accumulate_comm a v w : commutes f64_min -> commutes f64_max -> acc_sized a ->
  accumulate (accumulate a v) w = accumulate (accumulate a w) v.
Proof using sha256_length.
  intros Hmin Hmax [Ht Hc]. unfold MigrateChecksum.accumulate. cbn. f_equal.
  - by apply update_comm.
  - apply (zip_with_comm well_sized); [|done]. intros s x y Hs. by apply update_comm.
  - apply (zip_with_comm (fun _ => True)); [|by apply Forall_true]. intros s x y _.
    destruct s as [s|]; cbn; [|done]. f_equal. destruct x as [h|], y as [k|]; [|done..]. cbn.
    repeat case_match; try done. simplify_eq. f_equal. by apply extend_comm.
Qed.

Notation checksum_rows := (checksum_rows sha256 parse_f32_bits parse_f64_bits normalize_decimal
  format_date timestamp_micros f64_min f64_max f64_to_string).

Lemma collect_permutation {E A B} (f : A -> result E B) l l' bs :
  l ≡ₚ l' -> collect f l = Ok bs -> exists bs', collect f l' = Ok bs' /\ bs ≡ₚ bs'.
Proof using.
  intros Hl. revert bs. induction Hl as [|x l l' _ IH|x y l|l1 l2 l3 _ IH1 _ IH2]; intros bs H.
  - by exists bs.
  - cbn in *. apply bind_ok in H as (b & -> & (k & Hk & [= <-])%bind_ok).
    destruct (IH _ Hk) as (bs' & -> & Hp). cbn. eexists. split; [done|]. by constructor.
  - cbn in *. apply bind_ok in H as (b & -> & (k & (c & -> & (k' & -> & [= <-])%bind_ok)%bind_ok & [= <-])%bind_ok).
    cbn. eexists. split; [done|]. constructor.
  - destruct (IH1 _ H) as (b1 & H1 & P1), (IH2 _ H1) as (b2 & H2 & P2). exists b2. split; [done|]. by rewrite P1.
Qed.

Lemma checksum_rows_collect columns rows :
  checksum_rows columns (map Ok rows) =
  (vals ← collect (canonical_row columns) rows;
   Ok (finish_table sha256 f64_to_string (foldl accumulate (start_accumulators columns) vals))).
Proof using.
  unfold MigrateChecksum.checksum_rows. generalize (start_accumulators columns) as a.
  induction rows as [|row rows IH]; intros a; [done|]. cbn.
  destruct (canonical_row columns row) as [v|e]; cbn; [|done]. rewrite IH.
  by destruct (collect _ rows).
Qed.

Lemma start_sized columns : acc_sized (start_accumulators columns).
Proof using.
  split; [apply default_well_sized|]. apply Forall_fmap, Forall_true. intros c. apply default_well_sized.
Qed.

(** What a column's verification says apart from its extent *)
Definition summary (c : ChecksumValue) : Z * str * option (Z * Z * Z * Z) :=
  (cv_null_count c, checksum c,
   (fun s => (sv_non_null_count s, sv_structurally_valid_count s, sv_empty_count s, sv_invalid_count s))
     <$> spatial c).

Lemma finish_forget a :
  (table_checksum (finish_table sha256 f64_to_string (forget a)),
   map summary (tc_columns (finish_table sha256 f64_to_string (forget a)))) =
  (table_checksum (finish_table sha256 f64_to_string a),
   map summary (tc_columns (finish_table sha256 f64_to_string a))).
Proof using.
  unfold forget, finish_table. cbn. f_equal. generalize (spatial_accumulators a) as l.
  induction (column_accumulators a) as [|s k IH]; intros [|x l]; cbn; [done..|]. rewrite IH.
  f_equal. by destruct x.
Qed.

(** Checksums do not depend on the order of rows.  Reading the same rows in another
    order succeeds as well and gives the same table checksum, and for every column the
    same checksum, NULL count and spatial counts; and, where [f64::min] and [f64::max]
    are commutative and associative, the same extents. *)
Theorem checksum_ignores_row_order columns rows rows' r :
  rows ≡ₚ rows' -> checksum_rows columns (map Ok rows) = Ok r ->
  exists r', checksum_rows columns (map Ok rows') = Ok r' /\
    table_checksum r' = table_checksum r /\ map summary (tc_columns r') = map summary (tc_columns r) /\
    (commutes f64_min -> commutes f64_max -> r' = r).
Proof using sha256_length.
  intros Hp. rewrite !checksum_rows_collect. intros (vals & Hv & [= <-])%bind_ok.
  destruct (collect_permutation _ _ _ _ Hp Hv) as (vals' & -> & Hpv). eexists. split; [reflexivity|].
  pose proof (fold_forget_permutation _ _ _ (start_sized columns) Hpv) as Hf.
  pose proof (finish_forget (foldl accumulate (start_accumulators columns) vals)) as H1.
  pose proof (finish_forget (foldl accumulate (start_accumulators columns) vals')) as H2.
  rewrite <- Hf, H1 in H2. injection H2 as H3 H4. split_and!; [done..|].
  intros Hmin Hmax. f_equal. symmetry. apply (foldl_permutation acc_sized); [| |done|apply start_sized].
  - intros a v. apply accumulate_sized.
  - intros a v w. by apply accumulate_comm.
Qed.
End tables.

Lemma mod_add_cancel a x y m :
  0 <= x < m -> 0 <= y < m -> (a + x) mod m = (a + y) mod m -> x = y.
Proof.
  intros Hx Hy H. pose proof (Z.div_mod (a + x) m ltac:(lia)) as H1.
  pose proof (Z.div_mod (a + y) m ltac:(lia)) as H2. rewrite <- H in H2.
  assert ((a + x) / m - (a + y) / m = 0) by nia. nia.
Qed.

(** C34: a changed, lost or added value is detected.  Over any common values [rest], in
    any order: replacing [v] by [w], or dropping [v], changes the checksum, unless
    SHA-256 collides on the two canonical encodings or on the two final messages. *)
Theorem checksum_detects_change (sha256 : list byte -> list byte) l l' rest v (w : option (option (list byte))) :
  (forall m, length (sha256 m) = 32%nat) ->
  l ≡ₚ v :: rest -> l' ≡ₚ match w with Some w => w :: rest | None => rest end ->
  len l <= u64_max ->
  (forall w', w = Some w' -> sha256 (canonical_bytes v) <> sha256 (canonical_bytes w')) ->
  let s := foldl (update sha256) default_checksum l in
  let s' := foldl (update sha256) default_checksum l' in
  (sha256 (finish_message s) = sha256 (finish_message s') -> finish_message s = finish_message s') ->
  finish sha256 s <> finish sha256 s'.
Proof.
  intros Hlen Hl Hl' Hmax Hdiff s s' Hcoll Heq. apply encode_hex_inj in Heq. apply Hcoll in Heq.
  pose proof default_well_sized as Hd.
  apply finish_message_inj in Heq; [|by apply fold_well_sized..]. subst s s'.
  rewrite (fold_permutation _ Hlen _ _ _ Hd Hl), (fold_permutation _ Hlen _ _ _ Hd Hl') in Heq.
  destruct w as [w|].
  - apply (f_equal (fun s => be_value (sum s))) in Heq. rewrite !fold_sum in Heq by done.
    cbn [total foldr] in Heq. set (R := foldr _ 0 rest) in Heq.
    assert (forall x, 0 <= digest_value sha256 x < 256 ^ 32) as Hr.
    { intros x. unfold digest_value, be_value. pose proof (le_value_range (rev (sha256 (canonical_bytes x)))) as H.
      by rewrite length_rev, Hlen in H. }
    pose proof (Hr v). pose proof (Hr w).
    apply (Hdiff w eq_refl). apply be_value_inj; [by rewrite !Hlen|].
    change (digest_value sha256 v = digest_value sha256 w).
    apply (mod_add_cancel (be_value (sum default_checksum) + R) _ _ (256 ^ 32)); [done..|].
    rewrite <- !Z.add_assoc, !(Z.add_comm R). exact Heq.
  - apply (f_equal count) in Heq. rewrite !fold_counts in Heq by done. rewrite len_cons in Heq.
    assert (len l = 1 + len rest) as Hll by (unfold len; rewrite Hl; cbn; lia).
    pose proof (len_nonneg rest). cbn [count default_checksum] in Heq. lia.
Qed.

(** ** Signed zeros

    [f64::min] and [f64::max] may return either zero; the extents print them apart. *)

Definition f64_key (bits : Z) : Z :=
  if bits <? 9223372036854775808 then bits else 9223372036854775808 - bits.
Definition f64_minimum (f : Z -> Z -> Z) : Prop :=
  forall x y, (f x y = x \/ f x y = y) /\ f64_key (f x y) = Z.min (f64_key x) (f64_key y).

(** The hexadecimal NDR point at the bit patterns [x] and [y] *)
Definition point_hex (x y : Z) : list byte :=
  encode_hex ([x01] ++ le_bytes 4 1 ++ le_bytes 8 x ++ le_bytes 8 y).

(** The extent of a column can depend on the order of its rows: for a permitted
    [f64::min], the points (0, 0) and (-0, 0) summarise differently in the two orders,
    whenever the printer distinguishes the zeros. *)
Theorem signed_zero_extent_order (f64_max : Z -> Z -> Z) (f64_to_string : Z -> str) :
  f64_to_string 0 <> f64_to_string 9223372036854775808 ->
  exists f64_min, f64_minimum f64_min /\
    exists a b, spatial_finish f64_to_string (foldl (spatial_update f64_min f64_max) default_spatial [a; b])
             <> spatial_finish f64_to_string (foldl (spatial_update f64_min f64_max) default_spatial [b; a]).
Proof.
  intros Hz. exists (fun x y => if f64_key x <=? f64_key y then x else y). split.
  - intros x y. destruct (Z.leb_spec (f64_key x) (f64_key y)); split; [by left | lia | by right | lia].
  - exists (Some (point_hex 0 0)), (Some (point_hex 9223372036854775808 0)). intros H.
    apply (f_equal finite_extent) in H. vm_compute in H. congruence.
Qed.

(** ** A concrete digest: the last 32 bytes of the message *)

Module SampleDigest.
Definition sha256 (m : list byte) : list byte := take 32 (rev m ++ replicate 32 x00).
Lemma sha256_length m : length (sha256 m) = 32%nat.
Proof. unfold sha256. rewrite length_take, length_app, length_replicate. lia. Qed.

Definition id_column : ColumnPlan :=
  mkColumnPlan (lit "id") (lit "bigint") (Some (lit "id")) (Some (lit "BIGINT")) true None None
    (migrate (lit "exact release scalar")).
Definition flag_column : ColumnPlan :=
  mkColumnPlan (lit "ok") (lit "boolean") (Some (lit "ok")) (Some (lit "BOOLEAN")) true None None
    (migrate (lit "exact release scalar")).
Definition rows : list (list (option str)) :=
  [[Some (lit "001"); Some (lit "t")]; [Some (lit "-7"); None]].
Definition none_z (_ : str) : option Z := None.
Definition none_str (_ : str) : option str := None.
Definition result_of (rows : list (list (option str))) : result ChecksumError TableChecksums :=
  checksum_rows sha256 none_z none_z none_str none_str none_z Z.min Z.max dec [id_column; flag_column]
    (map Ok rows).
Definition checksums : TableChecksums := Eval vm_compute in
  match result_of rows with Ok r => r | Err _ => mkTableChecksums [] [] end.
End SampleDigest.

Lemma checksum_ignores_row_order_witness :
  exists r, SampleDigest.result_of (rev SampleDigest.rows) = Ok r /\
    table_checksum r = table_checksum SampleDigest.checksums.
Proof.
  destruct (checksum_ignores_row_order SampleDigest.sha256 SampleDigest.none_z SampleDigest.none_z
    SampleDigest.none_str SampleDigest.none_str SampleDigest.none_z Z.min Z.max dec
    SampleDigest.sha256_length [SampleDigest.id_column; SampleDigest.flag_column] SampleDigest.rows
    (rev SampleDigest.rows) SampleDigest.checksums) as (r & H & Ht & _).
  - apply Permutation_rev.
  - vm_compute. reflexivity.
  - exists r. exact (conj H Ht).
Defined.

Lemma checksum_detects_change_witness :
  finish SampleDigest.sha256 (foldl (update SampleDigest.sha256) default_checksum [Some (lit "a"); None])
  <> finish SampleDigest.sha256 (foldl (update SampleDigest.sha256) default_checksum [None; Some (lit "b")]).
Proof.
  apply (checksum_detects_change SampleDigest.sha256 _ _ [None] (Some (lit "a")) (Some (Some (lit "b")))).
  - exact SampleDigest.sha256_length.
  - reflexivity.
  - apply Permutation_swap.
  - vm_compute. discriminate.
  - intros w' [= <-] H. vm_compute in H. discriminate H.
  - intros H. vm_compute in H. discriminate H.
Defined.

Lemma row_encoding_unambiguous_witness :
  [Some (lit "ab"); None; Some []] = [Some (lit "ab"); None; Some ([] : list byte)].
Proof.
  apply row_encoding_unambiguous; [| |reflexivity].
  - repeat constructor; intros bytes [= <-]; vm_compute; discriminate.
  - repeat constructor; intros bytes [= <-]; vm_compute; discriminate.
Defined.
