(* ===== verification/MigrateSql.v ===== *)
(** * SQL texts and the release plan ([quackgis-migrate/src/migration.rs], [source.rs])

    The statements the migrator sends are built from the plan with every identifier and
    literal quoted.  [release_plan] turns a verified staging report into the plan of the
    release tables.  An [expect] that fails is [SqlPanic]. *)

From S2P Require Import Prelude MigrateConfig MigratePlan MigrateChecksum.
#[local] Open Scope Z_scope.

Inductive SqlError :=
  | NoTargetName
  | NoTargetType
  | SqlPanic
  | NoStagingPlan
  | StagingMissing (source : str)
  | StagingMismatch (source : str)
  | StagingCardinality
  | TransferMissing (source : str)
  | TransferMismatch
  | NotPostgresVersion
  | NoMinorVersion
  | BadVersionNumber
  | VersionOverflow.

(** ** Quoting *)

Definition quote_identifier (s : str) : str := quote_with quote_byte s.
Definition quote_literal (s : str) : str := quote_with single_quote s.

(** ** Names of a planned table *)

Definition source_identity (t : TablePlan) : str := dotted (tp_source_schema t) (tp_source_table t).
Definition target_identity (t : TablePlan) : result SqlError str :=
  s ← ok_or (tp_target_schema t) SqlPanic;
  n ← ok_or (tp_target_table t) SqlPanic;
  Ok (dotted s n).
Definition qualified_target (t : TablePlan) : result SqlError str :=
  s ← ok_or (tp_target_schema t) SqlPanic;
  n ← ok_or (tp_target_table t) SqlPanic;
  Ok (dotted (quote_identifier (lit "quackgis")) (dotted (quote_identifier s) (quote_identifier n))).
Definition target_column (c : ColumnPlan) : result SqlError str :=
  quote_identifier <$> ok_or (cp_target_name c) SqlPanic.

(** ** Statements *)

(** [create_table_sql] *)
Definition column_definition (c : ColumnPlan) : result SqlError str :=
  target_name ← ok_or (cp_target_name c) NoTargetName;
  target_type ← ok_or (cp_target_type c) NoTargetType;
  Ok (quote_identifier target_name ++ lit " " ++ target_type
      ++ (if cp_nullable c then [] else lit " NOT NULL")
      ++ match cp_default c with Some d => lit " DEFAULT " ++ d | None => [] end).
Definition create_table_sql (t : TablePlan) : result SqlError str :=
  columns ← collect column_definition (tp_columns t);
  target ← qualified_target t;
  Ok (lit "CREATE TABLE " ++ target ++ lit " (" ++ join (lit ", ") columns ++ lit ")").

(** The statements of [apply_comments], in order *)
Definition table_comment_sql (t : TablePlan) : result SqlError (list str) :=
  match tp_comment t with
  | None => Ok []
  | Some comment =>
      target ← qualified_target t;
      Ok [lit "COMMENT ON TABLE " ++ target ++ lit " IS " ++ quote_literal comment]
  end.
Definition column_comment_sql (t : TablePlan) (c : ColumnPlan) : result SqlError (list str) :=
  match cp_comment c with
  | None => Ok []
  | Some comment =>
      target ← qualified_target t;
      column ← target_column c;
      Ok [lit "COMMENT ON COLUMN " ++ target ++ lit "." ++ column ++ lit " IS " ++ quote_literal comment]
  end.
Definition comment_statements (t : TablePlan) : result SqlError (list str) :=
  first ← table_comment_sql t;
  rest ← collect (column_comment_sql t) (tp_columns t);
  Ok (first ++ concat rest).

(** The two COPY statements of [copy_table] *)
Definition wkb_expression (identifier : str) : str :=
  lit "encode(public.ST_AsBinary(" ++ identifier ++ lit ", 'NDR'), 'hex')".
Definition source_expression (c : ColumnPlan) : str :=
  let identifier := quote_identifier (cp_source_name c) in
  if is_geometry_column c then wkb_expression identifier else identifier.
Definition source_relation (t : TablePlan) : str :=
  dotted (quote_identifier (tp_source_schema t)) (quote_identifier (tp_source_table t)).
Definition copy_out_sql (t : TablePlan) : str :=
  lit "COPY (SELECT " ++ join (lit ", ") (map source_expression (tp_columns t)) ++ lit " FROM "
  ++ source_relation t ++ lit ") TO STDOUT WITH (FORMAT TEXT)".
Definition copy_in_sql (t : TablePlan) : result SqlError str :=
  columns ← collect target_column (tp_columns t);
  target ← qualified_target t;
  Ok (lit "COPY " ++ target ++ lit " (" ++ join (lit ", ") columns ++ lit ") FROM STDIN").

(** [canonical_text_expression] and the query of [checksum_table] *)
Inductive ChecksumSide := SourceSide | TargetSide.
Definition canonical_text_expression (c : ColumnPlan) (side : ChecksumSide) : result SqlError str :=
  name ← match side with
         | SourceSide => Ok (cp_source_name c)
         | TargetSide => ok_or (cp_target_name c) SqlPanic
         end;
  let identifier := quote_identifier name in
  let binary := bool_decide (cp_source_type c = lit "bytea") in
  let geometry := is_geometry_column c in
  Ok match side, binary, geometry with
     | SourceSide, true, _ => lit "encode(" ++ identifier ++ lit ", 'hex')"
     | SourceSide, _, true => wkb_expression identifier
     | TargetSide, true, _ | TargetSide, _, true => lit "lower(hex(" ++ identifier ++ lit "))"
     | _, _, _ => lit "CAST(" ++ identifier ++ lit " AS TEXT)"
     end.
Definition checksum_sql (t : TablePlan) (side : ChecksumSide) : result SqlError str :=
  expressions ← collect (fun c => canonical_text_expression c side) (tp_columns t);
  relation ← match side with
             | SourceSide => Ok (source_relation t)
             | TargetSide => qualified_target t
             end;
  Ok (lit "SELECT " ++ join (lit ", ") expressions ++ lit " FROM " ++ relation).
Definition count_sql (t : TablePlan) : result SqlError str :=
  target ← qualified_target t;
  Ok (lit "SELECT count(*)::BIGINT FROM " ++ target).

(** The statements of promotion and cleanup *)
Definition promote_sql (staging release : TablePlan) : result SqlError str :=
  columns ← collect target_column (tp_columns release);
  let columns := join (lit ", ") columns in
  into ← qualified_target release;
  from ← qualified_target staging;
  Ok (lit "INSERT INTO " ++ into ++ lit " (" ++ columns ++ lit ") SELECT " ++ columns ++ lit " FROM " ++ from).
Definition drop_sql (t : TablePlan) : result SqlError str :=
  target ← qualified_target t; Ok (lit "DROP TABLE " ++ target).
Definition drop_if_exists_sql (t : TablePlan) : result SqlError str :=
  target ← qualified_target t; Ok (lit "DROP TABLE IF EXISTS " ++ target).

(** ** Reports *)

Record ColumnVerification := mkColumnVerification {
  v_source_name : str;
  v_target_name : str;
  v_null_count : Z;
  v_checksum : str;
  v_spatial : option SpatialVerification }.
Record TableTransfer := mkTableTransfer {
  transfer_source : str;
  transfer_target : str;
  rows : Z;
  wire_bytes : Z;
  wire_sha256 : str;
  transfer_checksum : str;
  transfer_columns : list ColumnVerification }.

Definition with_transfer_target (t : TableTransfer) (target : str) : TableTransfer :=
  mkTableTransfer (transfer_source t) target (rows t) (wire_bytes t) (wire_sha256 t)
    (transfer_checksum t) (transfer_columns t).
Definition with_plan_target (t : TablePlan) (schema table : str) : TablePlan :=
  mkTablePlan (tp_source_schema t) (tp_source_table t) (Some schema) (Some table) (tp_row_count t)
    (tp_estimated_bytes t) (tp_comment t) (tp_disposition t) (tp_columns t) (tp_blockers t).
Definition with_pr_tables (p : PreflightReport) (ts : list TablePlan) : PreflightReport :=
  mkPreflightReport (pr_format_version p) (status p) (pr_source p) ts (pr_objects p) (pr_roles p)
    (pr_grants p) (pr_errors p).

(** [release_plan] *)
Definition find_staging (plan : StagingPlan) (source : str) : option StagingTarget :=
  List.find (fun m => bool_decide (staging_source m = source)) (staging_targets plan).
Definition release_table_plan (plan : StagingPlan) (t : TablePlan) : result SqlError TablePlan :=
  if negb (is_selected t) then Ok t
  else
    let source := source_identity t in
    m ← ok_or (find_staging plan source) (StagingMissing source);
    if negb (bool_decide (tp_target_schema t = Some (staging_schema m)))
       || negb (bool_decide (tp_target_table t = Some (staging_table m)))
    then Err (StagingMismatch source)
    else Ok (with_plan_target t (release_schema m) (release_table m)).
Definition release_transfer (plan : StagingPlan) (t : TableTransfer) : result SqlError TableTransfer :=
  m ← ok_or (find_staging plan (transfer_source t)) (TransferMissing (transfer_source t));
  if negb (bool_decide (transfer_target t = dotted (staging_schema m) (staging_table m)))
  then Err TransferMismatch
  else Ok (with_transfer_target t (dotted (release_schema m) (release_table m))).
Definition release_plan (staging : option StagingPlan) (preflight : PreflightReport)
    (transfers : list TableTransfer) : result SqlError (PreflightReport * list TableTransfer) :=
  plan ← ok_or staging NoStagingPlan;
  released ← collect (release_table_plan plan) (pr_tables preflight);
  let seen := length (List.filter is_selected (pr_tables preflight)) in
  if negb (Nat.eqb seen (length (staging_targets plan))) || negb (Nat.eqb seen (length transfers))
  then Err StagingCardinality
  else
    transfers ← collect (release_transfer plan) transfers;
    Ok (with_pr_tables preflight released, transfers).

(** ** [postgres_version_num] *)

(** [split_whitespace().next()] of an ASCII-separated string *)
Fixpoint take_word (cs : list Z) : list Z :=
  match cs with
  | c :: rest => if is_whitespace c then [] else c :: take_word rest
  | [] => []
  end.
Definition first_word (s : str) : option str :=
  match take_word (trim_start_chars (chars s)) with
  | [] => None
  | cs => Some (utf8_encode cs)
  end.
(** [str::parse::<u32>] *)
Definition parse_u32 (s : str) : option Z :=
  z ← match s with x2b :: r => parse_decimal_digits r | _ => parse_decimal_digits s end;
  if z <=? u32_max then Some z else None.
Definition postgres_version_num (version : str) : result SqlError Z :=
  word ← ok_or (rest ← strip_prefix (lit "PostgreSQL ") version; first_word rest) NotPostgresVersion;
  parts ← ok_or (split_once x2e word) NoMinorVersion;
  major ← ok_or (parse_u32 parts.1) BadVersionNumber;
  minor ← ok_or (parse_u32 parts.2) BadVersionNumber;
  if (major * 10000 <=? u32_max) && (major * 10000 + minor <=? u32_max)
  then Ok (major * 10000 + minor) else Err VersionOverflow.

(** ** Quoted text is read back as data

    The lexical rule of PostgreSQL and DuckDB for quoted text: a doubled quote stands for
    one quote, a single one ends the text. *)

Fixpoint read_quoted (c : byte) (s : str) : option (str * str) :=
  match s with
  | [] => None
  | b :: r =>
      if bool_decide (b = c) then
        match r with
        | b' :: r' => if bool_decide (b' = c) then (fun p => (c :: p.1, p.2)) <$> read_quoted c r'
                      else Some ([], r)
        | [] => Some ([], [])
        end
      else (fun p => (b :: p.1, p.2)) <$> read_quoted c r
  end.

(** Skip the opening quote *)
Definition read_token (c : byte) (s : str) : option (str * str) :=
  match s with b :: r => if bool_decide (b = c) then read_quoted c r else None | [] => None end.

Lemma read_quoted_doubled c s rest :
  head rest <> Some c -> read_quoted c (double_byte c s ++ c :: rest) = Some (s, rest).
Proof.
  intros Hrest. induction s as [|b s IH]; cbn [double_byte map concat app].
  - cbn [read_quoted]. rewrite bool_decide_eq_true_2 by done. destruct rest as [|b r]; [done|].
    rewrite bool_decide_eq_false_2; [done|]. intros ->. done.
  - case_bool_decide as Hb; cbn [app].
    + subst b. cbn [read_quoted]. rewrite !bool_decide_eq_true_2 by done.
      unfold double_byte in IH. by rewrite IH.
    + cbn [read_quoted]. rewrite bool_decide_eq_false_2 by done. unfold double_byte in IH. by rewrite IH.
Qed.

(** Quoting is injection-free.  Whatever a name or a comment holds, quotes included,
    the reader of the statement takes the quoted identifier (and likewise the quoted
    literal) back to exactly that text and continues with the statement's own text,
    provided the latter does not begin with a quote. *)
Theorem quoting_reads_back s rest :
  (head rest <> Some quote_byte -> read_token quote_byte (quote_identifier s ++ rest) = Some (s, rest)) /\
  (head rest <> Some single_quote -> read_token single_quote (quote_literal s ++ rest) = Some (s, rest)).
Proof.
  assert (forall c, head rest <> Some c -> read_token c (quote_with c s ++ rest) = Some (s, rest)) as H;
    [|split; apply H].
  intros c Hc. unfold quote_with. cbn [app read_token]. rewrite bool_decide_eq_true_2 by done.
  rewrite <- (assoc_L (++)). by apply read_quoted_doubled.
Qed.

(** ** Statements of a ready plan *)

Record plan_complete (t : TablePlan) : Prop := {
  complete_schema : is_Some (tp_target_schema t);
  complete_table : is_Some (tp_target_table t);
  complete_columns : Forall (fun c => is_Some (cp_target_name c) /\ is_Some (cp_target_type c)) (tp_columns t) }.

Lemma collect_total {E A B} (f : A -> result E B) l :
  (forall x, x ∈ l -> exists y, f x = Ok y) -> exists ys, collect f l = Ok ys.
Proof.
  induction l as [|x l IH]; intros H; [by exists []|]. cbn [collect].
  destruct (H x) as [y ->]; [by left|]. destruct IH as [ys ->]; [intros z Hz; apply H; by right|].
  by eexists.
Qed.

Lemma complete_qualified t : plan_complete t -> exists q, qualified_target t = Ok q.
Proof. intros [[s Hs] [n Hn] _]. unfold qualified_target. rewrite Hs, Hn. by eexists. Qed.

Lemma complete_target t : plan_complete t -> exists q, target_identity t = Ok q.
Proof. intros [[s Hs] [n Hn] _]. unfold target_identity. rewrite Hs, Hn. by eexists. Qed.

Lemma complete_statements t :
  plan_complete t ->
  (exists s, create_table_sql t = Ok s) /\ (exists s, copy_in_sql t = Ok s) /\
  (exists s, comment_statements t = Ok s) /\ (exists s, count_sql t = Ok s) /\
  (forall side, exists s, checksum_sql t side = Ok s) /\
  (exists s, drop_sql t = Ok s) /\ (exists s, drop_if_exists_sql t = Ok s).
Proof.
  intros Hc. destruct (complete_qualified t Hc) as [q Hq]. destruct Hc as [_ _ Hcols].
  rewrite Forall_forall in Hcols.
  assert (forall c, c ∈ tp_columns t -> exists n ty, cp_target_name c = Some n /\ cp_target_type c = Some ty) as Hn.
  { intros c Hin. destruct (Hcols c Hin) as [[n ?] [ty ?]]. by exists n, ty. }
  assert (exists l, collect target_column (tp_columns t) = Ok l) as [names Hnames].
  { apply collect_total. intros c Hin. destruct (Hn c Hin) as (n & ty & H1 & _).
    unfold target_column. rewrite H1. by eexists. }
  split_and!.
  - unfold create_table_sql. destruct (collect_total column_definition (tp_columns t)) as [l ->].
    + intros c Hin. destruct (Hn c Hin) as (n & ty & H1 & H2). unfold column_definition. rewrite H1, H2.
      by eexists.
    + cbn [mbind result_bind]. rewrite Hq. by eexists.
  - unfold copy_in_sql. rewrite Hnames. cbn [mbind result_bind]. rewrite Hq. by eexists.
  - unfold comment_statements.
    assert (exists l, table_comment_sql t = Ok l) as [l ->].
    { unfold table_comment_sql. destruct (tp_comment t); [|by eexists]. rewrite Hq. by eexists. }
    cbn [mbind result_bind]. destruct (collect_total (column_comment_sql t) (tp_columns t)) as [k ->]; [|by eexists].
    intros c Hin. destruct (Hn c Hin) as (n & ty & H1 & H2). unfold column_comment_sql.
    destruct (cp_comment c); [|by eexists]. rewrite Hq. cbn [mbind result_bind].
    unfold target_column. rewrite H1. by eexists.
  - unfold count_sql. rewrite Hq. by eexists.
  - intros side. unfold checksum_sql.
    destruct (collect_total (fun c => canonical_text_expression c side) (tp_columns t)) as [l ->].
    + intros c Hin. destruct (Hn c Hin) as (n & ty & H1 & H2). unfold canonical_text_expression.
      destruct side; [by eexists|]. rewrite H1. by eexists.
    + cbn [mbind result_bind]. destruct side; [by eexists|]. rewrite Hq. by eexists.
  - unfold drop_sql. rewrite Hq. by eexists.
  - unfold drop_if_exists_sql. rewrite Hq. by eexists.
Qed.

Lemma quoting_reads_back_witness :
  read_token quote_byte (quote_identifier (lit "odd" ++ [quote_byte] ++ lit "; DROP TABLE x") ++ lit ".t")
  = Some (lit "odd" ++ [quote_byte] ++ lit "; DROP TABLE x", lit ".t").
Proof. apply (proj1 (quoting_reads_back _ (lit ".t"))). vm_compute. discriminate. Defined.

(** ** Staging and release *)

Section release.
Variable parse_sql : str -> option (list Statement).
Variable expr_to_string : Expr -> str.
Variable debug_str : str -> str.
Notation build_preflight := (build_preflight parse_sql expr_to_string debug_str).
Notation build_table_plan := (build_table_plan parse_sql expr_to_string debug_str).

Lemma selected_complete c inv report p :
  config_wf c -> Forall columns_typed (inventory_tables inv) ->
  build_preflight c inv = Ok report -> status report = Ready -> p ∈ selected_tables report -> plan_complete p.
Proof using.
  intros Hwf Htyped Hb Hr Hp.
  destruct (selected_plan_carried _ _ _ _ _ _ _ Hwf Htyped Hb Hr Hp) as (t & m & _ & _ & _ & Ht & _ & Hc & _).
  injection Ht as H1 H2. split; [by rewrite H1; eexists | by rewrite H2; eexists|].
  clear -Hc. induction Hc as [|x y l k [_ _ Hn (ty & Hty & _) _ _] _ IH]; constructor; [|done].
  rewrite Hn, Hty. split; by eexists.
Qed.

Definition key_order (a b : SourceTable) : comparison :=
  then_compare (str_compare (schema a) (schema b)) (str_compare (name a) (name b)).

(** The tables of a ready report, over the inventory in key order *)
Lemma ready_tables_sorted c inv report :
  build_preflight c inv = Ok report -> status report = Ready ->
  pr_tables report = map (fun t => build_table_plan t (table_mapping c (schema t) (name t)))
                       (sort_by key_order (inventory_tables inv)).
Proof using.
  intros Hb Hr. destruct (build_preflight_tables _ _ _ _ _ _ Hb) as [-> Hm]. rewrite (Hm Hr). cbn [map].
  rewrite app_nil_r. apply sort_by_map. intros x y. unfold table_order, key_order.
  by destruct (table_mapping c (schema x) (name x)), (table_mapping c (schema y) (name y)).
Qed.

Lemma staged_table_mapping c id s n :
  table_mapping (with_tables c (map (staged_mapping id) (tables c))) s n = staged_mapping id <$> table_mapping c s n.
Proof using.
  unfold table_mapping. cbn [tables with_tables]. induction (tables c) as [|m l IH]; [done|].
  cbn [map List.find]. unfold maps_source at 1. cbn [staged_mapping with_target source_schema source_table].
  fold (maps_source s n m). destruct (maps_source s n m); [done | exact IH].
Qed.

Lemma find_staging_of c id m :
  NoDup (map (fun t => dotted (source_schema t) (source_table t)) (tables c)) -> m ∈ tables c ->
  find_staging (mkStagingPlan id (map (staging_target_of id) (tables c)))
    (dotted (source_schema m) (source_table m)) = Some (staging_target_of id m).
Proof using.
  unfold find_staging. cbn [staging_targets].
  induction (tables c) as [|x l IH]; [by intros _ ?%not_elem_of_nil|]. cbn [map List.find].
  intros [Hn Hd]%NoDup_cons [->|Hin]%elem_of_cons; [by rewrite bool_decide_eq_true_2|].
  cbn [staging_target_of staging_source]. rewrite bool_decide_eq_false_2; [by apply IH|].
  intros He. apply Hn, list_elem_of_fmap. by exists m.
Qed.

(** Readiness does not depend on the target names. *)
Lemma staged_ready c id inv sr rr :
  config_wf c -> config_wf (with_tables c (map (staged_mapping id) (tables c))) ->
  Forall columns_typed (inventory_tables inv) ->
  build_preflight (with_tables c (map (staged_mapping id) (tables c))) inv = Ok sr ->
  build_preflight c inv = Ok rr -> status sr = Ready -> status rr = Ready.
Proof using.
  intros Hwf Hwfs Htyped Hs Hr.
  destruct (preflight_status parse_sql expr_to_string debug_str _ _ Hwfs Htyped) as (sr' & Hs' & His).
  destruct (preflight_status parse_sql expr_to_string debug_str _ _ Hwf Htyped) as (rr' & Hr' & Hir).
  rewrite Hs in Hs'. rewrite Hr in Hr'. injection Hs' as <-. injection Hr' as <-.
  rewrite His, Hir. cbn [with_tables tables grant_mappings role_mappings].
  intros (H1 & H2 & H3 & H4). split_and!; try done; try tauto.
  - intros m Hm. apply (H1 (staged_mapping id m)). apply list_elem_of_fmap. by exists m.
  - intros t m Ht Hm Hk. apply (H2 t (staged_mapping id m)); [done | | done].
    apply list_elem_of_fmap. by exists m.
Qed.

(** A transfer describes its planned table. *)
Definition describes (p : TablePlan) (t : TableTransfer) : Prop :=
  transfer_source t = source_identity p /\ target_identity p = Ok (transfer_target t).

Section one_table.
Variables (c : MigrationConfig) (id : str) (t : SourceTable).
Hypothesis identities : NoDup (map (fun t => dotted (source_schema t) (source_table t)) (tables c)).
Let staged := with_tables c (map (staged_mapping id) (tables c)).
Let plan := mkStagingPlan id (map (staging_target_of id) (tables c)).
Let staged_plan := build_table_plan t (table_mapping staged (schema t) (name t)).
Let released_plan := build_table_plan t (table_mapping c (schema t) (name t)).

Lemma staged_plan_cases :
  (staged_plan = released_plan /\ is_selected released_plan = false) \/
  exists m, m ∈ tables c /\ source_key m = table_key t /\
    staged_plan = build_table_plan t (Some (staged_mapping id m)) /\ released_plan = build_table_plan t (Some m).
Proof using.
  subst staged_plan released_plan staged. rewrite staged_table_mapping.
  destruct (table_mapping c (schema t) (name t)) as [m|] eqn:Hm; [right | by left].
  apply table_mapping_some in Hm as [? ?]. by exists m.
Qed.

Lemma staged_plan_selected : is_selected staged_plan = is_selected released_plan.
Proof using. destruct staged_plan_cases as [[-> _] | (m & _ & _ & -> & ->)]; done. Qed.

Hypothesis ready : forall m, m ∈ tables c -> source_key m = table_key t ->
  is_selected (build_table_plan t (Some m)) = true.

Lemma release_one : release_table_plan plan staged_plan = Ok released_plan.
Proof using identities ready.
  unfold release_table_plan. rewrite staged_plan_selected.
  destruct staged_plan_cases as [[-> ->] | (m & Hin & Hk & -> & ->)]; [done|].
  rewrite (ready m Hin Hk). cbn [negb].
  unfold source_identity. cbn [MigratePlan.build_table_plan tp_source_schema tp_source_table].
  unfold source_key, table_key in Hk. injection Hk as <- <-.
  subst plan. rewrite (find_staging_of c id m identities Hin). cbn [mbind result_bind ok_or].
  cbn [tp_target_schema tp_target_table staging_target_of staged_mapping with_target
       staging_schema staging_table target_schema target_table].
  rewrite !bool_decide_eq_true_2 by done. reflexivity.
Qed.

Lemma release_one_transfer tr :
  is_selected staged_plan = true -> describes staged_plan tr ->
  exists tr', release_transfer plan tr = Ok tr' /\ describes released_plan tr' /\
    tr' = with_transfer_target tr (transfer_target tr').
Proof using identities.
  intros Hsel [Hs Ht]. rewrite staged_plan_selected in Hsel.
  destruct staged_plan_cases as [[_ Hn] | (m & Hin & Hk & Hsp & Hrp)]; [congruence|].
  rewrite Hsp in Hs, Ht. unfold source_identity, target_identity in *.
  cbn [MigratePlan.build_table_plan tp_source_schema tp_source_table tp_target_schema tp_target_table
       ok_or mbind result_bind staged_mapping with_target target_schema target_table] in Hs, Ht.
  injection Ht as Ht. unfold source_key, table_key in Hk. injection Hk as Hk1 Hk2.
  unfold release_transfer. rewrite Hs, <- Hk1, <- Hk2. subst plan. rewrite (find_staging_of c id m identities Hin).
  cbn [mbind result_bind ok_or staging_target_of staging_schema staging_table release_schema release_table].
  rewrite Ht, bool_decide_eq_true_2 by done. eexists. split; [reflexivity|]. split; [|done]. split; [|by rewrite Hrp].
  rewrite Hrp. exact Hs.
Qed.
End one_table.

Lemma filter_map {A B} (f : A -> B) (P : B -> bool) l :
  List.filter P (map f l) = map f (List.filter (fun x => P (f x)) l).
Proof using. induction l as [|x l IH]; [done|]. cbn. rewrite IH. by destruct (P (f x)). Qed.

Lemma collect_map {A B C E} (f : B -> result E C) (g : A -> B) (h : A -> C) l :
  (forall x, x ∈ l -> f (g x) = Ok (h x)) -> collect f (map g l) = Ok (map h l).
Proof using.
  induction l as [|x l IH]; intros H; [done|]. cbn [collect map]. rewrite (H x) by by left.
  cbn [mbind result_bind]. rewrite IH; [done|]. intros y Hy. apply H. by right.
Qed.

Lemma release_transfers c id l transfers :
  NoDup (map (fun t => dotted (source_schema t) (source_table t)) (tables c)) ->
  let staged := with_tables c (map (staged_mapping id) (tables c)) in
  let ps := fun t => build_table_plan t (table_mapping staged (schema t) (name t)) in
  let pr := fun t => build_table_plan t (table_mapping c (schema t) (name t)) in
  Forall (fun t => is_selected (ps t) = true) l -> Forall2 describes (map ps l) transfers ->
  exists transfers',
    collect (release_transfer (mkStagingPlan id (map (staging_target_of id) (tables c)))) transfers = Ok transfers' /\
    Forall2 describes (map pr l) transfers' /\
    Forall2 (fun t t' => t' = with_transfer_target t (transfer_target t')) transfers transfers'.
Proof using.
  intros Hids staged ps pr Hsel. revert transfers. induction Hsel as [|t l Ht _ IH]; intros transfers Hd.
  { inversion Hd; subst. exists []. by repeat constructor. }
  inversion Hd as [|? tr ? rest Htr Hrest]; subst.
  destruct (release_one_transfer c id t Hids tr Ht Htr) as (tr' & Hr & Hd' & Hw).
  destruct (IH _ Hrest) as (rest' & Hc & Hds & Hws). exists (tr' :: rest'). split_and!.
  - cbn [collect]. rewrite Hr. cbn [mbind result_bind]. by rewrite Hc.
  - by constructor.
  - by constructor.
Qed.

(** Promotion publishes exactly the configured release.  When the configured tables
    have distinct dotted names: for a staging configuration, a ready preflight of it and
    the transfers that describe its selected tables, the release plan exists; its tables
    are those of the preflight of the original configuration on the same inventory,
    which is ready too; and its transfers describe these tables and are the staging
    transfers with only the target name replaced. *)
Theorem release_plan_restores_targets c id staged plan inv sr transfers :
  config_wf c -> NoDup (map (fun t => dotted (source_schema t) (source_table t)) (tables c)) ->
  Forall columns_typed (inventory_tables inv) -> NoDup (map table_key (inventory_tables inv)) ->
  build_staging_config c id = Ok (staged, plan) ->
  build_preflight staged inv = Ok sr -> status sr = Ready ->
  Forall2 describes (selected_tables sr) transfers ->
  exists rr released transfers',
    build_preflight c inv = Ok rr /\ status rr = Ready /\
    release_plan (Some plan) sr transfers = Ok (released, transfers') /\
    pr_tables released = pr_tables rr /\
    Forall2 describes (selected_tables released) transfers' /\
    Forall2 (fun t t' => t' = with_transfer_target t (transfer_target t')) transfers transfers'.
Proof using.
  intros Hwf Hids Htyped Hkeys Hbs Hsr Hready Hdesc.
  apply build_staging_iff in Hbs as (Hid & Hfit & -> & ->); [|done].
  pose proof (staged_config_wf c id Hwf Hid Hfit) as Hwfs.
  destruct (preflight_status parse_sql expr_to_string debug_str _ _ Hwf Htyped) as (rr & Hrr & _).
  pose proof (staged_ready _ _ _ _ _ Hwf Hwfs Htyped Hsr Hrr Hready) as Hrready.
  pose proof (ready_tables_sorted _ _ _ Hsr Hready) as Hst.
  pose proof (ready_tables_sorted _ _ _ Hrr Hrready) as Hrt.
  set (inv_sorted := sort_by key_order (inventory_tables inv)) in *.
  assert (forall t m, t ∈ inv_sorted -> m ∈ tables c -> source_key m = table_key t ->
            is_selected (build_table_plan t (Some m)) = true) as Hsel.
  { intros t m Ht Hm Hk. subst inv_sorted. rewrite sort_by_perm in Ht.
    assert (build_table_plan t (Some m) ∈ selected_tables rr) as Hin.
    { apply (selected_plan _ _ _ c inv rr _ Hwf Htyped Hrr Hrready). by exists t, m. }
    by apply list_elem_of_In, filter_In in Hin as [_ ?]. }
  assert (selected_tables sr = map (fun t => build_table_plan t (table_mapping
      (with_tables c (map (staged_mapping id) (tables c))) (schema t) (name t)))
      (List.filter (fun t => is_selected (build_table_plan t (table_mapping
        (with_tables c (map (staged_mapping id) (tables c))) (schema t) (name t)))) inv_sorted)) as Hss.
  { unfold selected_tables. by rewrite Hst, filter_map. }
  rewrite Hss in Hdesc. set (l := List.filter _ inv_sorted) in *.
  assert (Forall (fun t => is_selected (build_table_plan t (table_mapping
      (with_tables c (map (staged_mapping id) (tables c))) (schema t) (name t))) = true) l) as Hl.
  { apply Forall_forall. intros t Ht%list_elem_of_In. by apply filter_In in Ht as [_ ?]. }
  destruct (release_transfers c id l transfers Hids Hl Hdesc) as (transfers' & Hc & Hd' & Hw).
  exists rr, (with_pr_tables sr (pr_tables rr)), transfers'.
  split; [done|]. split; [done|]. split; [|split; [done|]; split; [|done]].
  - destruct (ready_selected_keys _ _ _ _ _ _ Hwfs Htyped Hkeys Hsr Hready) as [Hperm _].
    apply Permutation_length in Hperm. rewrite !length_map in Hperm. cbn [tables with_tables] in Hperm.
    rewrite length_map in Hperm. apply Forall2_length in Hdesc. rewrite <- Hss in Hdesc.
    unfold release_plan. cbn [ok_or mbind result_bind]. fold (selected_tables sr). rewrite <- Hdesc, Hperm.
    rewrite Hst, (collect_map _ _ (fun t => build_table_plan t (table_mapping c (schema t) (name t)))).
    + cbn [mbind result_bind staging_targets]. rewrite length_map, Nat.eqb_refl. cbn [negb orb].
      rewrite Hc. cbn [mbind result_bind]. by rewrite Hrt.
    + intros t Ht. apply release_one; [done|]. intros m. by apply Hsel.
  - replace (selected_tables _) with (map (fun t => build_table_plan t (table_mapping c (schema t) (name t))) l);
      [done|]. unfold selected_tables. cbn [pr_tables with_pr_tables]. rewrite Hrt, filter_map. f_equal.
    apply filter_ext. intros t. apply staged_plan_selected.
Qed.
End release.

(** ** Witnesses *)

Module ReleaseSample.
Definition id : str := lit "release_1".
Definition staged : MigrationConfig :=
  with_tables sample_config (map (staged_mapping id) (tables sample_config)).
Definition plan : StagingPlan := mkStagingPlan id (map (staging_target_of id) (tables sample_config)).
Definition preflight (c : MigrationConfig) (inv : SourceInventory) : PreflightReport :=
  match build_preflight Sample.parse_sql Sample.expr_to_string Sample.debug_str c inv with
  | Ok r => r
  | Err _ => mkPreflightReport 0 Rejected (inventory_identity inv) [] [] [] [] []
  end.
Definition transfer (p : TablePlan) : TableTransfer :=
  mkTableTransfer (source_identity p)
    (match target_identity p with Ok t => t | Err _ => [] end) 2 40 (lit "ab") (lit "cd") [].
Definition staged_report : PreflightReport := Eval vm_compute in preflight staged Sample.inventory.
Definition transfers : list TableTransfer := Eval vm_compute in map transfer (selected_tables staged_report).

Lemma transfers_describe : Forall2 describes (selected_tables staged_report) transfers.
Proof. repeat constructor. Qed.
Lemma staged_built :
  build_preflight Sample.parse_sql Sample.expr_to_string Sample.debug_str staged Sample.inventory = Ok staged_report.
Proof. vm_compute. reflexivity. Qed.

(** Two source tables with the same dotted name *)
Definition dotted_config : MigrationConfig :=
  mkMigrationConfig 1 (mkSourceRequirements 180004 (lit "3.6.1")) [lit "a.b"; lit "a"]
    [mkTableMapping (lit "a.b") (lit "c") (lit "main") (lit "first") ∅;
     mkTableMapping (lit "a") (lit "b.c") (lit "main") (lit "second") ∅] ∅ [].
Definition dotted_inventory : SourceInventory :=
  mkSourceInventory (inventory_identity Sample.inventory)
    [mkSourceTable (lit "a") (lit "b.c") 1 1 None false false (lit "default") false 0
       [Sample.column 1 "id" "int8" "bigint" (-1) None] [];
     mkSourceTable (lit "a.b") (lit "c") 1 1 None false false (lit "default") false 0
       [Sample.column 1 "id" "int8" "bigint" (-1) None] []] [] [] [].
Definition dotted_staged : MigrationConfig :=
  with_tables dotted_config (map (staged_mapping id) (tables dotted_config)).
Definition dotted_plan : StagingPlan := mkStagingPlan id (map (staging_target_of id) (tables dotted_config)).
Definition dotted_report : PreflightReport := Eval vm_compute in preflight dotted_staged dotted_inventory.
Definition dotted_transfers : list TableTransfer := Eval vm_compute in
  map transfer (selected_tables dotted_report).
End ReleaseSample.

Lemma release_plan_restores_targets_witness :
  exists rr, build_preflight Sample.parse_sql Sample.expr_to_string Sample.debug_str sample_config
               Sample.inventory = Ok rr /\ status rr = Ready.
Proof.
  destruct (release_plan_restores_targets Sample.parse_sql Sample.expr_to_string Sample.debug_str
    sample_config ReleaseSample.id ReleaseSample.staged ReleaseSample.plan Sample.inventory
    ReleaseSample.staged_report ReleaseSample.transfers sample_config_wf) as (rr & _ & _ & H & Hr & _).
  - apply (bool_decide_unpack _). vm_compute. exact I.
  - exact Sample.inventory_typed.
  - apply (bool_decide_unpack _). vm_compute. exact I.
  - vm_compute. reflexivity.
  - exact ReleaseSample.staged_built.
  - reflexivity.
  - exact ReleaseSample.transfers_describe.
  - exists rr. exact (conj H Hr).
Defined.

(** Two accepted source tables whose dotted names coincide make every promotion of a
    verified staging run fail: the staging target is looked up by the dotted name. *)
Theorem dotted_names_block_promotion :
  validate ReleaseSample.dotted_config = Ok tt /\
  build_staging_config ReleaseSample.dotted_config ReleaseSample.id
    = Ok (ReleaseSample.dotted_staged, ReleaseSample.dotted_plan) /\
  build_preflight Sample.parse_sql Sample.expr_to_string Sample.debug_str ReleaseSample.dotted_staged
    ReleaseSample.dotted_inventory = Ok ReleaseSample.dotted_report /\
  status ReleaseSample.dotted_report = Ready /\
  Forall2 describes (selected_tables ReleaseSample.dotted_report) ReleaseSample.dotted_transfers /\
  release_plan (Some ReleaseSample.dotted_plan) ReleaseSample.dotted_report ReleaseSample.dotted_transfers
    = Err (StagingMismatch (lit "a.b.c")).
Proof.
  split_and!; [vm_compute; reflexivity | vm_compute; reflexivity | vm_compute; reflexivity | reflexivity
    | repeat constructor | vm_compute; reflexivity].
Qed.
