(* ===== verification/MigrateFiles.v ===== *)
(** * Reports, runtime identity and connections of the migrator
      ([quackgis-migrate/src/report.rs], [runtime.rs], [connect.rs])

    Report files are bound to a digest when read and replaced atomically when written.
    The operating system's files are an interface, [FileSystem]; [serde_json], SHA-256,
    [tokio_postgres]'s URL parser and [IpAddr]'s parser are parameters. *)

From S2P Require Import Prelude MigrateConfig MigrateChecksum MigratePlan.
#[local] Open Scope Z_scope.

(** ** Digests *)

Definition is_lower_hex_byte (b : byte) : bool := is_ascii_digit b || in_range 97 102 b.
(** [valid_sha256] and [is_lower_hex] *)
Definition is_lower_hex (v : str) (length : Z) : bool := (len v =? length) && forallb is_lower_hex_byte v.
Definition valid_sha256 (v : str) : bool := is_lower_hex v 64.

Definition MAX_INPUT_REPORT_BYTES : Z := 33554432.
Definition MAX_MANIFEST_BYTES : Z := 1048576.
Definition MAX_PASSWORD_BYTES : Z := 4096.

Inductive FileError :=
  | BadExpectedDigest
  | FileNotInspected
  | FileNotRegular
  | FileTooLarge
  | FileNotRead
  | DigestDiffers
  | JsonInvalid
  | BadSourceSha
  | BadArtifact
  | MigratorDiffers
  | BadImage
  | NoExecutable
  | NoFileName
  | Io
  | PasswordInUrl
  | BadUrl
  | SecretNotRegular
  | SecretPermissions
  | SecretContents
  | CaRequired
  | ClientCertificateWithoutCa
  | NotLoopback
  | ClientPairIncomplete
  | CertificateInvalid
  | ConnectFailed.

(** A file as the operating system shows it *)
Record File := mkFile { metadata : option Metadata; contents : option (list byte) }.

Definition regular_file (f : File) (maximum : Z) : result FileError unit :=
  md ← ok_or (metadata f) FileNotInspected;
  ensure (negb (is_symlink md || negb (is_file md) || (maximum <? file_len md))) FileNotRegular.

Section digests.
Variable sha256 : list byte -> list byte.

(** [read_bound_json] *)
Definition read_bound_json {T} (from_slice : list byte -> option T) (f : File) (expected : str)
    : result FileError T :=
  _ ← ensure (valid_sha256 expected) BadExpectedDigest;
  _ ← regular_file f MAX_INPUT_REPORT_BYTES;
  raw ← ok_or (contents f) FileNotRead;
  _ ← ensure (bool_decide (encode_hex (sha256 raw) = expected)) DigestDiffers;
  ok_or (from_slice raw) JsonInvalid.

(** [file_sha256] *)
Definition file_sha256 (f : File) : result FileError str :=
  _ ← regular_file f MAX_INPUT_REPORT_BYTES;
  raw ← ok_or (contents f) FileNotRead;
  Ok (encode_hex (sha256 raw)).

(** ** Runtime identity *)

Record RuntimeIdentity := mkRuntimeIdentity {
  migrator_sha256 : str;
  artifact_manifest_sha256 : option str;
  source_sha : option str;
  source_dirty : option bool;
  artifacts : gmap str str;
  target_runtime_image_sha256 : option str }.

Record ArtifactManifest := mkArtifactManifest {
  manifest_sha : str;
  manifest_dirty : bool;
  manifest_artifacts : gmap str str }.

(** [str::rsplit_once] of a separator string: the last occurrence *)
Fixpoint rsplit_once (sep s : str) : option (str * str) :=
  match s with
  | [] => None
  | b :: r =>
      match rsplit_once sep r with
      | Some (x, y) => Some (b :: x, y)
      | None => if bool_decide (take (length sep) s = sep) then Some ([], drop (length sep) s) else None
      end
  end.

(** [image_digest] *)
Definition image_digest (v : str) : result FileError str :=
  '(n, digest) ← ok_or (rsplit_once (lit "@sha256:") v) BadImage;
  _ ← ensure (negb (bool_decide (n = []) || existsb is_whitespace (chars n) || negb (is_lower_hex digest 64)))
        BadImage;
  Ok digest.

(** [sha256_regular_file]: the file is hashed in blocks of 64 KiB *)
Definition sha256_regular_file (f : File) (maximum : option Z) : result FileError str :=
  md ← ok_or (metadata f) FileNotInspected;
  _ ← ensure (negb (is_symlink md || negb (is_file md))) FileNotRegular;
  _ ← ensure (negb (match maximum with Some m => m <? file_len md | None => false end)) FileTooLarge;
  raw ← ok_or (contents f) FileNotRead;
  Ok (encode_hex (sha256 raw)).

Definition check_artifact (_ : unit) (e : str * str) : result FileError unit :=
  ensure (negb (bool_decide (e.1 = []) || (128 <? len e.1) || negb (is_lower_hex e.2 64))) BadArtifact.

(** [collect_runtime_identity] *)
Definition collect_runtime_identity (from_slice : list byte -> option ArtifactManifest)
    (executable : option File) (manifest : option File) (image : option str)
    : result FileError RuntimeIdentity :=
  exe ← ok_or executable NoExecutable;
  migrator ← sha256_regular_file exe None;
  image_sha ← match image with None => Ok None | Some v => Some <$> image_digest v end;
  match manifest with
  | None => Ok (mkRuntimeIdentity migrator None None None ∅ image_sha)
  | Some f =>
      _ ← regular_file f MAX_MANIFEST_BYTES;
      raw ← ok_or (contents f) FileNotRead;
      m ← ok_or (from_slice raw) JsonInvalid;
      _ ← ensure (is_lower_hex (manifest_sha m) 40) BadSourceSha;
      _ ← try_fold check_artifact (entries (manifest_artifacts m)) tt;
      _ ← ensure (bool_decide (manifest_artifacts m !! lit "quackgis-migrate" = Some migrator)) MigratorDiffers;
      Ok (mkRuntimeIdentity migrator (Some (encode_hex (sha256 raw))) (Some (manifest_sha m))
            (Some (manifest_dirty m)) (manifest_artifacts m) image_sha)
  end.
End digests.

#[export] Instance runtime_identity_eq_dec : EqDecision RuntimeIdentity.
Proof. solve_decision. Defined.

(** ** Connections *)

(** [read_owner_only_secret] *)
Definition strip_line_end (s : list byte) : list byte :=
  match rev s with
  | x0a :: x0d :: r => rev r
  | x0a :: r => rev r
  | _ => s
  end.
Definition read_owner_only_secret (f : File) : result FileError (list byte) :=
  md ← ok_or (metadata f) FileNotInspected;
  _ ← ensure (negb (is_symlink md || negb (is_file md) || (file_len md =? 0) || (MAX_PASSWORD_BYTES <? file_len md)))
        SecretNotRegular;
  _ ← ensure (Z.land (file_mode md) 63 =? 0) SecretPermissions;
  raw ← ok_or (contents f) FileNotRead;
  let password := strip_line_end raw in
  _ ← ensure (negb (bool_decide (password = []) || bool_decide (x00 ∈ password) || bool_decide (x0a ∈ password)))
        SecretContents;
  Ok password.

(** [checked_regular_file] *)
Definition checked_regular_file (f : File) (max_bytes : Z) : result FileError (list byte) :=
  md ← ok_or (metadata f) FileNotInspected;
  _ ← ensure (negb (is_symlink md || negb (is_file md) || (file_len md =? 0) || (max_bytes <? file_len md)))
        FileNotRegular;
  ok_or (contents f) FileNotRead.

Inductive Host := HostTcp (name : str) | HostUnix (path : str).
Inductive IpAddr := V4 (octets : list Z) | V6 (segments : list Z).
(** [IpAddr::is_loopback] *)
Definition is_loopback (a : IpAddr) : bool :=
  match a with
  | V4 (first :: _) => first =? 127
  | V4 [] => false
  | V6 segments => bool_decide (segments = [0; 0; 0; 0; 0; 0; 0; 1])
  end.

Record PgConfig := mkPgConfig { pg_password : option (list byte); pg_hosts : list Host }.
Record ConnectionOptions := mkConnectionOptions {
  url : str;
  password_file : option File;
  ca_certificate : option File;
  client_certificate : option File;
  client_private_key : option File;
  allow_plaintext_loopback : bool }.

(** What the connection is opened with: [SslMode::Disable], or [SslMode::Require] with
    the trusted roots and the client's certificate and key *)
Inductive Transport :=
  | TransportPlaintext
  | TransportTls (roots : list (list byte)) (client : option (list (list byte) * list byte)).
Record Dialed := mkDialed { dial_password : option (list byte); dial_hosts : list Host; transport : Transport }.

Section connect.
Variable parse_url : str -> option PgConfig.
Variable parse_ip : str -> option IpAddr.
Variable parse_certs : list byte -> option (list (list byte)).
Variable parse_key : list byte -> option (list byte).

Definition loopback_host (h : Host) : bool :=
  match h with
  | HostTcp n => match parse_ip n with Some a => is_loopback a | None => false end
  | HostUnix _ => true
  end.

(** [connect_plaintext] *)
Definition connect_plaintext (config : PgConfig) (options : ConnectionOptions) : result FileError Dialed :=
  _ ← ensure (allow_plaintext_loopback options) CaRequired;
  _ ← ensure (negb (bool_decide (is_Some (client_certificate options))
                    || bool_decide (is_Some (client_private_key options)))) ClientCertificateWithoutCa;
  _ ← ensure (negb (bool_decide (pg_hosts config = []) || existsb (fun h => negb (loopback_host h)) (pg_hosts config)))
        NotLoopback;
  Ok (mkDialed (pg_password config) (pg_hosts config) TransportPlaintext).

(** [load_certificates] and [load_private_key] *)
Definition load_certificates (f : File) : result FileError (list (list byte)) :=
  raw ← checked_regular_file f 1048576;
  certificates ← ok_or (parse_certs raw) CertificateInvalid;
  _ ← ensure (negb (bool_decide (certificates = []))) CertificateInvalid;
  Ok certificates.
Definition load_private_key (f : File) : result FileError (list byte) :=
  raw ← checked_regular_file f 1048576;
  ok_or (parse_key raw) CertificateInvalid.

(** [connect_tls] *)
Definition connect_tls (config : PgConfig) (ca : File) (options : ConnectionOptions) : result FileError Dialed :=
  _ ← ensure (eqb (bool_decide (is_Some (client_certificate options)))
                  (bool_decide (is_Some (client_private_key options)))) ClientPairIncomplete;
  roots ← load_certificates ca;
  client ← match client_certificate options, client_private_key options with
           | Some certificate, Some key =>
               cs ← load_certificates certificate; k ← load_private_key key; Ok (Some (cs, k))
           | _, _ => Ok None
           end;
  Ok (mkDialed (pg_password config) (pg_hosts config) (TransportTls roots client)).

(** [connect], up to opening the socket *)
Definition connect (options : ConnectionOptions) : result FileError Dialed :=
  config ← ok_or (parse_url (url options)) BadUrl;
  _ ← ensure (negb (bool_decide (is_Some (pg_password config)))) PasswordInUrl;
  config ← match password_file options with
           | None => Ok config
           | Some f => secret ← read_owner_only_secret f; Ok (mkPgConfig (Some secret) (pg_hosts config))
           end;
  match ca_certificate options with
  | Some ca => connect_tls config ca options
  | None => connect_plaintext config options
  end.
End connect.

(** ** Connection policy *)

(** A secret read from a file only its owner may access *)
Record secret_of (f : File) (s : list byte) : Prop := {
  secret_private : exists md, metadata f = Some md /\ is_symlink md = false /\ is_file md = true /\
    file_len md <> 0 /\ file_len md <= 4096 /\ Z.land (file_mode md) 63 = 0;
  secret_line : s <> [] /\ x00 ∉ s /\ x0a ∉ s;
  secret_content : contents f = Some s \/ contents f = Some (s ++ [x0a]) \/ contents f = Some (s ++ [x0d; x0a]) }.

Lemma strip_line_end_cases s :
  s = strip_line_end s \/ s = strip_line_end s ++ [x0a] \/ s = strip_line_end s ++ [x0d; x0a].
Proof.
  unfold strip_line_end.
  assert (forall r b, rev s = b :: r -> s = rev r ++ [b]) as Hs.
  { intros r b H. rewrite <- (rev_involutive s), H. done. }
  destruct (rev s) as [|b r] eqn:Hr; [by left|]. specialize (Hs _ _ eq_refl).
  destruct b; try (by left). right.
  destruct r as [|b' r']; [by left|]. destruct b'; try (by left). right.
  rewrite Hs. cbn [rev]. by rewrite <- (assoc_L (++)).
Qed.

Lemma read_secret_ok f s : read_owner_only_secret f = Ok s -> secret_of f s.
Proof.
  unfold read_owner_only_secret, MAX_PASSWORD_BYTES. intros H. inv_ok. bool_prop. split.
  - eexists. split_and!; done.
  - done.
  - match goal with H : contents f = Some ?raw |- _ => rewrite H; pose proof (strip_line_end_cases raw) as He end.
    destruct He as [He|[He|He]]; [left | right; left | right; right]; by rewrite <- He.
Qed.

Section policy.
Variable parse_url : str -> option PgConfig.
Variable parse_ip : str -> option IpAddr.
Variable parse_certs : list byte -> option (list (list byte)).
Variable parse_key : list byte -> option (list byte).

(** A host that stays on this machine *)
Definition local_host (h : Host) : Prop :=
  match h with
  | HostUnix _ => True
  | HostTcp n => (exists rest, parse_ip n = Some (V4 (127 :: rest))) \/
      parse_ip n = Some (V6 [0; 0; 0; 0; 0; 0; 0; 1])
  end.

Lemma loopback_host_iff h : loopback_host parse_ip h = true <-> local_host h.
Proof using.
  destruct h as [n|p]; cbn [loopback_host local_host]; [|done].
  destruct (parse_ip n) as [[[|a rest]|segments]|]; cbn [is_loopback].
  - split; [done | by intros [[? [=]]|[=]]].
  - rewrite Z.eqb_eq. split; [intros ->; left; by eexists | by intros [[? [= -> _]]|[=]]].
  - rewrite bool_decide_eq_true. split; [intros ->; by right | by intros [[? [=]]|[= ->]]].
  - split; [done | by intros [[? [=]]|[=]]].
Qed.

Lemma connect_plaintext_ok config options d :
  connect_plaintext parse_ip config options = Ok d ->
  transport d = TransportPlaintext /\ allow_plaintext_loopback options = true /\
  client_certificate options = None /\ client_private_key options = None /\
  pg_hosts config <> [] /\ Forall local_host (pg_hosts config).
Proof using.
  unfold connect_plaintext. intros H. inv_ok. bool_prop. split_and!; try done.
  - by destruct (client_certificate options); [match goal with H : ~ is_Some (Some _) |- _ => destruct H end|].
  - by destruct (client_private_key options); [match goal with H : ~ is_Some (Some _) |- _ => destruct H end|].
  - apply Forall_forall. intros h Hin. apply loopback_host_iff.
    destruct (loopback_host parse_ip h) eqn:Hl; [done|].
    assert (existsb (fun h => negb (loopback_host parse_ip h)) (pg_hosts config) = true); [|congruence].
    apply existsb_elem. exists h. by rewrite Hl.
Qed.

Lemma connect_tls_ok config ca options d :
  connect_tls parse_certs parse_key config ca options = Ok d ->
  exists roots client, transport d = TransportTls roots client /\ roots <> [] /\
    (is_Some client <-> is_Some (client_certificate options)) /\
    (is_Some (client_certificate options) <-> is_Some (client_private_key options)).
Proof using.
  unfold connect_tls. intros H. apply bind_ok in H as (? & Hpair%ensure_ok & H). apply eqb_prop in Hpair.
  apply bind_ok in H as (roots & Hr & H). apply bind_ok in H as (client & Hcl & [= <-]).
  exists roots, client. split; [done|].
  assert (roots <> []) as Hne by (unfold load_certificates in Hr; inv_ok; by bool_prop).
  split; [done|].
  destruct (client_certificate options) as [cert|], (client_private_key options) as [key|]; try done.
  - inv_ok. split; split; by eexists.
  - injection Hcl as <-. split; split; by intros [? [=]].
Qed.

(** Connections are confidential.  Every connection the migrator opens has a URL
    without a password; a password comes from a single-line file that only its owner may
    access; without a CA the connection is plaintext, explicitly allowed, carries no
    client certificate, and every host is a literal loopback address or a Unix socket;
    with a CA it is TLS under that CA's certificates, and a client certificate comes
    with its key or not at all. *)
Theorem connection_policy options d :
  connect parse_url parse_ip parse_certs parse_key options = Ok d ->
  (exists config, parse_url (url options) = Some config /\ pg_password config = None /\
     dial_hosts d = pg_hosts config) /\
  match password_file options with
  | None => dial_password d = None
  | Some f => exists s, dial_password d = Some s /\ secret_of f s
  end /\
  match ca_certificate options with
  | None => transport d = TransportPlaintext /\ allow_plaintext_loopback options = true /\
      client_certificate options = None /\ client_private_key options = None /\
      dial_hosts d <> [] /\ Forall local_host (dial_hosts d)
  | Some ca => exists roots client, transport d = TransportTls roots client /\ roots <> [] /\
      (is_Some client <-> is_Some (client_certificate options)) /\
      (is_Some (client_certificate options) <-> is_Some (client_private_key options))
  end.
Proof using.
  unfold connect. intros H.
  apply bind_ok in H as (config & Hurl%ok_or_ok & H). apply bind_ok in H as (? & Hpw%ensure_ok & H).
  apply bind_ok in H as (config' & Hc' & H). bool_prop.
  assert (pg_password config = None) as Hnone by (destruct (pg_password config); [by destruct Hpw|done]).
  assert (pg_hosts config' = pg_hosts config /\ match password_file options with
    | None => pg_password config' = None
    | Some f => exists s, pg_password config' = Some s /\ secret_of f s end) as [Hh Hs].
  { destruct (password_file options); inv_ok; [|done]. split; [done|]. eexists. split; [done|].
    by apply read_secret_ok. }
  assert (dial_hosts d = pg_hosts config' /\ dial_password d = pg_password config') as [Hdh Hdp].
  { destruct (ca_certificate options); unfold connect_tls, connect_plaintext in H; inv_ok; done. }
  rewrite Hdh, Hdp. split; [exists config; split_and!; congruence|]. split; [done|].
  destruct (ca_certificate options) as [ca|].
  - by apply connect_tls_ok in H.
  - by apply connect_plaintext_ok in H.
Qed.
End policy.

(** ** Atomic publication of a report ([write_json_atomic]) *)

Record Path := mkPath { dir : str; file : option str }.
#[export] Instance path_eq_dec : EqDecision Path.
Proof. solve_decision. Defined.

(** [Path::file_stem] and [Path::extension]: split at the last dot, unless it is first *)
Definition stem_and_extension (n : str) : str * option str :=
  match rsplit_once (lit ".") n with
  | Some ([], _) | None => (n, None)
  | Some (stem, extension) => (stem, Some extension)
  end.
Definition temporary_name (n pid : str) : str :=
  let '(stem, extension) := stem_and_extension n in
  stem ++ lit "." ++ default (lit "json") extension ++ lit ".tmp-" ++ pid.

(** The operations on files, and what they do to contents *)
Class FileSystem := {
  Fs : Type;
  content : Fs -> Path -> option (list byte);
  create_dir_all : str -> Fs -> result FileError unit * Fs;
  open_new : Path -> Fs -> result FileError unit * Fs;
  append : Path -> list byte -> Fs -> result FileError unit * Fs;
  sync_all : Path -> Fs -> result FileError unit * Fs;
  rename : Path -> Path -> Fs -> result FileError unit * Fs;
  remove_file : Path -> Fs -> result FileError unit * Fs;
  law_create_dir : forall d fs q, content (create_dir_all d fs).2 q = content fs q;
  law_open : forall p fs q, q <> p -> content (open_new p fs).2 q = content fs q;
  law_opened : forall p fs fs', open_new p fs = (Ok tt, fs') -> content fs' p = Some [];
  law_append : forall p b fs q, q <> p -> content (append p b fs).2 q = content fs q;
  law_appended : forall p b fs fs' old, append p b fs = (Ok tt, fs') -> content fs p = Some old ->
    content fs' p = Some (old ++ b);
  law_sync : forall p fs q, content (sync_all p fs).2 q = content fs q;
  law_rename : forall a b fs q, q <> a -> q <> b -> content (rename a b fs).2 q = content fs q;
  law_renamed : forall a b fs fs', rename a b fs = (Ok tt, fs') -> a <> b ->
    content fs' b = content fs a /\ content fs' a = None;
  law_not_renamed : forall a b e fs fs' q, rename a b fs = (Err e, fs') -> content fs' q = content fs q;
  law_remove : forall p fs q, q <> p -> content (remove_file p fs).2 q = content fs q }.

Section publication.
Context {fsys : FileSystem}.

(** Fallible steps that also record the states they pass through *)
Definition Step : Type := Fs -> list Fs * (result FileError unit * Fs).
Definition primitive (op : Fs -> result FileError unit * Fs) : Step :=
  fun fs => let '(r, fs') := op fs in ([fs'], (r, fs')).
Definition done_step : Step := fun fs => ([], (Ok tt, fs)).
Definition fail_step (e : FileError) : Step := fun fs => ([], (Err e, fs)).
Definition then_step (a b : Step) : Step :=
  fun fs => match a fs with
            | (t, (Ok _, fs')) => let '(t', r) := b fs' in (t ++ t', r)
            | (t, (Err e, fs')) => (t, (Err e, fs'))
            end.

(** [serde_json::to_writer_pretty]: pieces of text, and whether it completes *)
Fixpoint write_pieces (p : Path) (pieces : list (list byte)) : Step :=
  match pieces with
  | [] => done_step
  | b :: rest => then_step (primitive (append p b)) (write_pieces p rest)
  end.

Definition write_and_rename (temporary path : Path) (pieces : list (list byte)) (complete : bool) : Step :=
  then_step (primitive (open_new temporary))
    (then_step (write_pieces temporary pieces)
      (then_step (if complete then done_step else fail_step Io)
        (then_step (primitive (append temporary [x0a]))
          (then_step (primitive (sync_all temporary))
                     (primitive (rename temporary path)))))).

Definition write_json_atomic (path : Path) (pid : str) (pieces : list (list byte)) (complete : bool) : Step :=
  then_step (primitive (create_dir_all (dir path)))
    match file path with
    | None => fail_step NoFileName
    | Some n =>
        let temporary := mkPath (dir path) (Some (temporary_name n pid)) in
        fun fs => match write_and_rename temporary path pieces complete fs with
                  | (t, (Err e, fs')) => let fs'' := (remove_file temporary fs').2 in (t ++ [fs''], (Err e, fs''))
                  | ok => ok
                  end
    end.
End publication.

Lemma rsplit_once_app sep n a b : rsplit_once sep n = Some (a, b) -> n = a ++ sep ++ b.
Proof.
  revert a b. induction n as [|x n IH]; intros a b; cbn [rsplit_once]; [done|].
  destruct (rsplit_once sep n) as [[u v]|].
  - intros [= <- <-]. rewrite (IH u v eq_refl). done.
  - case_bool_decide as H; [|done]. intros [= <- <-]. cbn [app].
    pose proof (take_drop (length sep) (x :: n)) as Ht. rewrite H in Ht. by symmetry.
Qed.

Lemma temporary_name_ne n pid : temporary_name n pid <> n.
Proof.
  intros H. apply (f_equal length) in H. revert H. unfold temporary_name, stem_and_extension.
  destruct (rsplit_once (lit ".") n) as [[[|x stem] ext]|] eqn:Hs.
  - rewrite !length_app. cbn. lia.
  - apply rsplit_once_app in Hs. rewrite (f_equal length Hs). cbn [default]. rewrite !length_app. cbn. lia.
  - rewrite !length_app. cbn. lia.
Qed.

Section atomicity.
Context {fsys : FileSystem}.

(** Every state passed through satisfies [P], and so does the last one. *)
Definition always (P : Fs -> Prop) (out : list Fs * (result FileError unit * Fs)) : Prop :=
  Forall P out.1 /\ P out.2.2.

Lemma then_step_always P a b fs :
  always P (a fs) -> (forall fs', P fs' -> always P (b fs')) -> always P (then_step a b fs).
Proof using.
  unfold always, then_step. intros [H1 H2] Hb. destruct (a fs) as [t [[[]|e] fs']]; cbn in *; [|done].
  destruct (Hb fs' H2) as [H3 H4]. destruct (b fs') as [t' r]. cbn in *. split; [|done]. by apply Forall_app.
Qed.

Lemma primitive_always P op fs : P (op fs).2 -> always P (primitive op fs).
Proof using. unfold always, primitive. destruct (op fs) as [r fs']. cbn. intros H. split; [by constructor | done]. Qed.

Section one_report.
Variables (path temporary : Path) (old : Path -> option (list byte)).
Hypothesis distinct : temporary <> path.

(** Nothing but the temporary file has changed. *)
Definition unpublished (fs : Fs) : Prop := forall q, q <> temporary -> content fs q = old q.

Lemma write_pieces_unpublished pieces fs : unpublished fs -> always unpublished (write_pieces temporary pieces fs).
Proof using.
  revert fs. induction pieces as [|b rest IH]; intros fs H; cbn [write_pieces]; [by split; [constructor|]|].
  apply then_step_always; [|apply IH]. apply primitive_always. intros q Hq. rewrite law_append by done. by apply H.
Qed.

Lemma write_pieces_content pieces fs t fs' before :
  content fs temporary = Some before -> write_pieces temporary pieces fs = (t, (Ok tt, fs')) ->
  content fs' temporary = Some (before ++ concat pieces).
Proof using.
  revert fs t before. induction pieces as [|b rest IH]; intros fs t before H; cbn [write_pieces concat].
  - intros [= <- <-]. by rewrite app_nil_r.
  - unfold then_step, primitive. destruct (append temporary b fs) as [[[]|e] fs1] eqn:Ha; [|done].
    destruct (write_pieces temporary rest fs1) as [t' r] eqn:Hw. intros [= _ ->]. rewrite (assoc_L (++)).
    eapply IH; [|done]. by eapply law_appended.
Qed.

(** The report is in place, complete, and the temporary file is gone. *)
Definition published (report : list byte) (fs : Fs) : Prop :=
  content fs path = Some report /\ content fs temporary = None /\
  forall q, q <> temporary -> q <> path -> content fs q = old q.

(** A run passes only through unpublished and published states, and ends published
    exactly when it succeeds. *)
Definition atomic (report : list byte) (out : list Fs * (result FileError unit * Fs)) : Prop :=
  Forall (fun fs => unpublished fs \/ published report fs) out.1 /\
  match out.2 with (Ok _, fs) => published report fs | (Err _, fs) => unpublished fs end.

Lemma then_step_atomic report a b fs :
  always unpublished (a fs) ->
  (forall t fs', a fs = (t, (Ok tt, fs')) -> unpublished fs' -> atomic report (b fs')) ->
  atomic report (then_step a b fs).
Proof using.
  unfold atomic, always, then_step. intros [H1 H2] Hb.
  destruct (a fs) as [t [[[]|e] fs']] eqn:Ha; cbn [fst snd] in *.
  - specialize (Hb t fs' eq_refl H2) as [H3 H4]. destruct (b fs') as [t' r]. cbn [fst snd] in *. split; [|done].
    apply Forall_app. split; [|done]. eapply Forall_impl; [exact H1|]. by left.
  - split; [|done]. eapply Forall_impl; [exact H1|]. by left.
Qed.

Lemma write_and_rename_atomic pieces complete fs :
  unpublished fs -> atomic (concat pieces ++ [x0a]) (write_and_rename temporary path pieces complete fs).
Proof using distinct.
  intros H0. unfold write_and_rename.
  apply then_step_atomic.
  { apply primitive_always. intros q Hq. rewrite law_open by done. by apply H0. }
  intros t1 fs1 Ho H1. unfold primitive in Ho. destruct (open_new temporary fs) as [r1 f1] eqn:Hop.
  injection Ho as _ -> ->. apply law_opened in Hop.
  apply then_step_atomic; [by apply write_pieces_unpublished|]. intros t2 fs2 Hw H2.
  pose proof (write_pieces_content _ _ _ _ _ Hop Hw) as Hc. cbn [app] in Hc.
  apply then_step_atomic; [by destruct complete; split; [constructor| |constructor|]|].
  intros t3 fs3 Hd H3. assert (fs3 = fs2) as -> 
    by (unfold done_step, fail_step in Hd; destruct complete; congruence).
  apply then_step_atomic.
  { apply primitive_always. intros q Hq. rewrite law_append by done. by apply H3. }
  intros t4 fs4 Ha H4. unfold primitive in Ha. destruct (append temporary [x0a] fs2) as [r4 f4] eqn:Hap.
  injection Ha as _ -> ->. pose proof (law_appended _ _ _ _ _ Hap Hc) as Hc4.
  apply then_step_atomic.
  { apply primitive_always. intros q Hq. rewrite law_sync. by apply H4. }
  intros t5 fs5 Hs H5. unfold primitive in Hs. destruct (sync_all temporary fs4) as [r5 f5] eqn:Hsy.
  injection Hs as _ -> ->. pose proof (law_sync temporary fs4 temporary) as Hc5. rewrite Hsy, Hc4 in Hc5. cbn in Hc5.
  unfold primitive, atomic. destruct (rename temporary path fs5) as [[[]|e] f6] eqn:Hr; cbn [fst snd].
  - assert (published (concat pieces ++ [x0a]) f6) as Hp.
    { destruct (law_renamed _ _ _ _ Hr distinct) as [Hpath Htmp]. split; [congruence|]. split; [done|].
      intros q Hq Hqp. pose proof (law_rename temporary path fs5 q Hq Hqp) as Hl. rewrite Hr in Hl. cbn in Hl.
      rewrite Hl. by apply H5. }
    split; [|done]. constructor; [by right | constructor].
  - assert (unpublished f6) as Hu.
    { intros q Hq. rewrite (law_not_renamed _ _ _ _ _ q Hr). by apply H5. }
    split; [|done]. constructor; [by left | constructor].
Qed.
End one_report.

(** Reports are replaced atomically.  In every state the writer passes through,
    and so after a crash at any point, the report file holds either what it held before
    or the complete new report, and no file other than it and the temporary one has
    changed; success means the complete report is in place and the temporary file is
    gone, an error means the report file is as before. *)
Theorem report_publication_atomic dirname n pid pieces complete fs :
  let path := mkPath dirname (Some n) in
  let temporary := mkPath dirname (Some (temporary_name n pid)) in
  let report := concat pieces ++ [x0a] in
  let '(trace, (r, fs')) := write_json_atomic path pid pieces complete fs in
  Forall (fun s => (content s path = content fs path \/ content s path = Some report) /\
     forall q, q <> path -> q <> temporary -> content s q = content fs q) (trace ++ [fs']) /\
  match r with
  | Ok _ => content fs' path = Some report /\ content fs' temporary = None
  | Err _ => content fs' path = content fs path
  end.
Proof using.
  intros path temporary report.
  assert (temporary <> path) as Hne by (intros [= H]; by apply temporary_name_ne in H).
  assert (unpublished temporary (content fs) (create_dir_all dirname fs).2) as H0.
  { intros q _. apply law_create_dir. }
  set (good := fun s => (content s path = content fs path \/ content s path = Some report) /\
     forall q, q <> path -> q <> temporary -> content s q = content fs q).
  assert (forall s, unpublished temporary (content fs) s -> good s) as Hu.
  { intros s Hs. split; [left | intros q ? ?]; by apply Hs. }
  assert (forall s, published path temporary (content fs) report s -> good s) as Hp.
  { intros s (Hs & _ & Ho). split; [by right|]. intros q ? ?. by apply Ho. }
  unfold write_json_atomic, then_step, primitive. cbn [dir file path].
  destruct (create_dir_all dirname fs) as [[[]|e] fs1]; cbn [snd] in H0;
    [|split; [by do 2 (constructor; [by apply Hu|]) | by apply H0]].
  destruct (write_and_rename_atomic path temporary (content fs) Hne pieces complete fs1 H0) as [Ht Hr].
  fold temporary path. destruct (write_and_rename temporary path pieces complete fs1) as [t [[[]|e] fs2]];
    cbn [fst snd] in Ht, Hr.
  - split; [|by destruct Hr as (? & ? & _)]. cbn [app]. constructor; [by apply Hu|].
    apply Forall_app. split; [|constructor; [by apply Hp | constructor]].
    eapply Forall_impl; [exact Ht|]. intros s [?|?]; [by apply Hu | by apply Hp].
  - assert (unpublished temporary (content fs) (remove_file temporary fs2).2) as Hrm.
    { intros q Hq. rewrite law_remove by done. by apply Hr. }
    split; [|by apply Hrm]. cbn [app]. constructor; [by apply Hu|].
    apply Forall_app. split; [|constructor; [by apply Hu | constructor]].
    apply Forall_app. split; [|constructor; [by apply Hu | constructor]].
    eapply Forall_impl; [exact Ht|]. intros s [?|?]; [by apply Hu | by apply Hp].
Qed.
End atomicity.

(** What a bound report is: the parsed bytes of a bounded regular file with the digest
    the operator named *)
Lemma read_bound_json_ok {T} sha256 (from_slice : list byte -> option T) f expected v :
  read_bound_json sha256 from_slice f expected = Ok v ->
  exists raw, contents f = Some raw /\ encode_hex (sha256 raw) = expected /\ from_slice raw = Some v.
Proof.
  unfold read_bound_json. intros H. inv_ok. bool_prop. by eexists.
Qed.

(** ** Concrete files and connections *)

Module SampleFiles.
#[local] Instance memory : FileSystem.
Proof.
  refine {|
    Fs := Path -> option (list byte);
    content fs := fs;
    create_dir_all _ fs := (Ok tt, fs);
    open_new p fs := match fs p with
                     | Some _ => (Err Io, fs)
                     | None => (Ok tt, fun q => if decide (q = p) then Some [] else fs q)
                     end;
    append p b fs := match fs p with
                     | Some old => (Ok tt, fun q => if decide (q = p) then Some (old ++ b) else fs q)
                     | None => (Err Io, fs)
                     end;
    sync_all _ fs := (Ok tt, fs);
    rename a b fs := match fs a with
                     | Some c => (Ok tt, fun q => if decide (q = a) then None
                                                  else if decide (q = b) then Some c else fs q)
                     | None => (Err Io, fs)
                     end;
    remove_file p fs := (Ok tt, fun q => if decide (q = p) then None else fs q) |};
    try done.
  - intros p fs q Hq. destruct (fs p); [done|]. cbn. by rewrite decide_False.
  - intros p fs fs'. destruct (fs p); [done|]. intros [= <-]. by rewrite decide_True.
  - intros p b fs q Hq. destruct (fs p); [|done]. cbn. by rewrite decide_False.
  - intros p b fs fs' old H Ho. rewrite Ho in H. injection H as <-. by rewrite decide_True.
  - intros a b fs q Ha Hb. destruct (fs a); [|done]. cbn. by rewrite !decide_False.
  - intros a b fs fs'. destruct (fs a) as [c|]; [|done]. intros [= <-] Hab.
    rewrite (decide_True _ _ (eq_refl a)), decide_False, decide_True by done. done.
  - intros a b e fs fs' q. destruct (fs a); [done|]. by intros [= _ <-].
  - intros p fs q Hq. cbn. by rewrite decide_False.
Defined.

Definition report_path : Path := mkPath (lit "out") (Some (lit "report.json")).
Definition parse_url (u : str) : option PgConfig :=
  if bool_decide (u = lit "postgresql://user@127.0.0.1/db") then Some (mkPgConfig None [HostTcp (lit "127.0.0.1")])
  else None.
Definition parse_ip (n : str) : option IpAddr :=
  if bool_decide (n = lit "127.0.0.1") then Some (V4 [127; 0; 0; 1]) else None.
Definition secret : File := mkFile (Some (mkMetadata false true 4 384)) (Some (lit "abc" ++ [x0a])).
Definition options : ConnectionOptions :=
  mkConnectionOptions (lit "postgresql://user@127.0.0.1/db") (Some secret) None None None true.
Definition dialed : Dialed := mkDialed (Some (lit "abc")) [HostTcp (lit "127.0.0.1")] TransportPlaintext.
End SampleFiles.

Lemma report_publication_atomic_witness :
  let '(trace, (r, fs')) := @write_json_atomic SampleFiles.memory SampleFiles.report_path (lit "42")
                              [lit "{"; lit "}"] true (fun _ => None) in
  r = Ok tt /\ fs' SampleFiles.report_path = Some (lit "{}" ++ [x0a]).
Proof.
  pose proof (@report_publication_atomic SampleFiles.memory (lit "out") (lit "report.json") (lit "42")
    [lit "{"; lit "}"] true (fun _ => None)) as H.
  assert (fst (snd (@write_json_atomic SampleFiles.memory SampleFiles.report_path (lit "42")
                      [lit "{"; lit "}"] true (fun _ => None))) = Ok tt) as Hr by reflexivity.
  unfold SampleFiles.report_path in *. destruct (write_json_atomic _ _ _ _ _) as [trace [r fs']].
  cbn [fst snd] in Hr. subst r. split; [reflexivity | exact (proj1 (proj2 H))].
Defined.

Lemma connection_policy_witness :
  Forall (local_host SampleFiles.parse_ip) (dial_hosts SampleFiles.dialed).
Proof.
  apply (connection_policy SampleFiles.parse_url SampleFiles.parse_ip (fun _ => None) (fun _ => None)
           SampleFiles.options SampleFiles.dialed).
  vm_compute. reflexivity.
Defined.
