(* ===== verification/MigrateSource.v ===== *)
(** * The source snapshot ([quackgis-migrate/src/source.rs])

    The inventory is read in one read-only transaction.  Each catalog query is an
    operation of the driver, [SourceQueries], that returns typed rows or an error and may
    change the state of the connection; the code around the queries checks the pinned
    versions, converts integers and enforces the limits. *)

From S2P Require Import Prelude MigrateConfig MigratePlan MigrateSql.
#[local] Open Scope Z_scope.

Definition MAX_SOURCE_TABLES : Z := 1024.
Definition MAX_COLUMNS_PER_TABLE : Z := 1024.
Definition MAX_CONSTRAINTS_PER_TABLE : Z := 1024.
Definition MAX_SOURCE_OBJECTS : Z := 16384.
Definition MAX_SOURCE_ROLES : Z := 4096.
Definition MAX_SOURCE_GRANTS : Z := 65536.

Inductive SourceError :=
  | SourceDriver
  | OutOfRange
  | ServerVersionDiffers
  | PostgisVersionDiffers
  | LimitExceeded (label : string).

(** ** A state and error monad *)

Definition Op (W A : Type) : Type := W -> result SourceError A * W.
Definition ret {W A} (a : A) : Op W A := fun w => (Ok a, w).
Definition bind {W A B} (m : Op W A) (k : A -> Op W B) : Op W B :=
  fun w => match m w with (Ok a, w') => k a w' | (Err e, w') => (Err e, w') end.
Definition of_result {W A} (r : result SourceError A) : Op W A := fun w => (r, w).
#[local] Notation "'let*' x := m 'in' k" := (bind m (fun x => k)) (at level 200, x pattern, right associativity).

(** [for x in l { state = step(state, x)?; }] *)
Fixpoint fold_op {W S A} (step : S -> A -> Op W S) (l : list A) (s : S) : Op W S :=
  match l with
  | [] => ret s
  | x :: rest => let* s' := step s x in fold_op step rest s'
  end.

(** Integer conversions: [u32::try_from], [u64::try_from] *)
Definition to_u32 (z : Z) : result SourceError Z := ensure ((0 <=? z) && (z <=? u32_max)) OutOfRange ≫= fun _ => Ok z.
Definition to_u64 (z : Z) : result SourceError Z := ensure ((0 <=? z) && (z <=? u64_max)) OutOfRange ≫= fun _ => Ok z.

(** [enforce_limit] *)
Definition enforce_limit (label : string) (actual maximum : Z) : result SourceError unit :=
  ensure (negb (maximum <? actual)) (LimitExceeded label).

(** ** Rows of the catalog queries *)

Record IdentityRow := mkIdentityRow {
  ir_version_num : Z;
  ir_version : str;
  ir_database : str;
  ir_oid : Z;
  ir_postgis : str;
  ir_started_at : str;
  ir_snapshot : str }.
Record TableRow := mkTableRow {
  tr_oid : Z;
  tr_schema : str;
  tr_name : str;
  tr_relkind : str;
  tr_size : Z;
  tr_comment : option str;
  tr_row_security : bool;
  tr_force_row_security : bool;
  tr_replica_identity : str;
  tr_triggers : Z }.

Class SourceQueries (W : Type) := {
  start_snapshot : Op W unit;
  query_identity : Op W IdentityRow;
  query_tables : list str -> Op W (list TableRow);
  query_count : str -> Op W Z;
  query_columns : Z -> Op W (list SourceColumn);
  query_constraints : Z -> Op W (list (str * str * str));
  query_relations : list str -> Op W (list (str * str * str));
  query_extensions : list str -> Op W (list (str * str));
  query_functions : list str -> Op W (list (str * str));
  query_triggers : list str -> Op W (list (str * str));
  query_roles : list str -> Op W (list (str * bool));
  query_table_grants : list str -> Op W (list (str * str * str * str));
  query_column_grants : list str -> Op W (list (str * str * str * str * str)) }.

Section source.
Context {W : Type} `{!SourceQueries W}.

(** [inspect_identity] *)
Definition inspect_identity (config : MigrationConfig) : Op W SourceIdentity :=
  let* row := query_identity in
  let* server_version_num := of_result (to_u32 (ir_version_num row)) in
  let* _ := of_result (ensure (server_version_num =? MigrateConfig.postgres_version_num (source config))
                         ServerVersionDiffers) in
  let* _ := of_result (ensure (bool_decide (ir_postgis row = required_postgis (source config)))
                         PostgisVersionDiffers) in
  let* oid := of_result (to_u32 (ir_oid row)) in
  ret (mkSourceIdentity server_version_num (ir_version row) (ir_database row) oid (ir_postgis row)
         (ir_started_at row) (ir_snapshot row)).

(** [inspect_columns] *)
Definition inspect_columns (relation_oid : Z) : Op W (list SourceColumn) :=
  let* rows := query_columns relation_oid in
  let* _ := of_result (enforce_limit "columns on one source table" (len rows) MAX_COLUMNS_PER_TABLE) in
  ret rows.

(** [inspect_constraints] *)
Definition constraint_kind_of (contype : str) : ConstraintKind :=
  if bool_decide (contype = lit "c") then ConstraintCheck
  else if bool_decide (contype = lit "p") then PrimaryKey
  else if bool_decide (contype = lit "u") then Unique
  else if bool_decide (contype = lit "f") then ForeignKey
  else if bool_decide (contype = lit "x") then Exclusion
  else if bool_decide (contype = lit "n") then NotNull
  else ConstraintOther.
Definition inspect_constraints (relation_oid : Z) : Op W (list SourceConstraint) :=
  let* rows := query_constraints relation_oid in
  let* _ := of_result (enforce_limit "constraints on one source table" (len rows) MAX_CONSTRAINTS_PER_TABLE) in
  ret (map (fun '(n, contype, definition) =>
              mkSourceConstraint n (constraint_kind_of contype) definition) rows).

(** [inspect_tables] *)
Definition count_table_sql (s t : str) : str :=
  lit "SELECT count(*)::BIGINT FROM " ++ dotted (quote_identifier s) (quote_identifier t).
Definition inspect_table (row : TableRow) : Op W SourceTable :=
  let* oid := of_result (to_u32 (tr_oid row)) in
  let* counted := query_count (count_table_sql (tr_schema row) (tr_name row)) in
  let* row_count := of_result (to_u64 counted) in
  let* estimated := of_result (to_u64 (tr_size row)) in
  let* triggers := of_result (to_u32 (tr_triggers row)) in
  let* columns := inspect_columns oid in
  let* constraints := inspect_constraints oid in
  ret (mkSourceTable (tr_schema row) (tr_name row) row_count estimated (tr_comment row)
         (tr_row_security row) (tr_force_row_security row) (tr_replica_identity row)
         (bool_decide (tr_relkind row = lit "p")) triggers columns constraints).
Definition inspect_tables (config : MigrationConfig) : Op W (list SourceTable) :=
  let* rows := query_tables (source_schemas config) in
  let* _ := of_result (enforce_limit "source tables" (len rows) MAX_SOURCE_TABLES) in
  fold_op (fun tables row => let* t := inspect_table row in ret (tables ++ [t])) rows [].

(** [inspect_objects] *)
Definition object_kind_of (relkind : str) : SourceObjectKind :=
  if bool_decide (relkind = lit "v") then View
  else if bool_decide (relkind = lit "m") then MaterializedView
  else if bool_decide (relkind = lit "S") then Sequence
  else if bool_decide (relkind = lit "f") then ForeignTable
  else if bool_decide (relkind = lit "i") || bool_decide (relkind = lit "I") then Index
  else ObjectOther.
Definition push_object (kind : SourceObjectKind) (objects : list SourceObject) (row : str * str)
    : Op W (list SourceObject) :=
  let objects := objects ++ [mkSourceObject row.1 row.2 kind] in
  let* _ := of_result (enforce_limit "source objects" (len objects) MAX_SOURCE_OBJECTS) in
  ret objects.
Definition object_order (a b : SourceObject) : comparison :=
  then_compare (str_compare (object_schema a) (object_schema b))
    (then_compare (str_compare (object_name a) (object_name b))
                  (str_compare (debug_object (object_kind a)) (debug_object (object_kind b)))).
Definition inspect_objects (config : MigrationConfig) : Op W (list SourceObject) :=
  let* rows := query_relations (source_schemas config) in
  let objects := map (fun '(s, n, relkind) => mkSourceObject s n (object_kind_of relkind)) rows in
  let* _ := of_result (enforce_limit "source objects" (len objects) MAX_SOURCE_OBJECTS) in
  let* extensions := query_extensions (source_schemas config) in
  let* objects := fold_op (push_object Extension) extensions objects in
  let* functions := query_functions (source_schemas config) in
  let* objects := fold_op (push_object FunctionObject) functions objects in
  let* triggers := query_triggers (source_schemas config) in
  let* objects := fold_op (push_object Trigger) triggers objects in
  ret (sort_by object_order objects).

(** [inspect_roles] *)
Definition inspect_roles (config : MigrationConfig) : Op W (list SourceRole) :=
  let* rows := query_roles (source_schemas config) in
  let* _ := of_result (enforce_limit "source owner roles" (len rows) MAX_SOURCE_ROLES) in
  ret (map (fun r => mkSourceRole r.1 r.2) rows).

(** [inspect_grants] *)
Definition push_grant (grants : list SourceGrant) (row : str * str * str * str * str) : Op W (list SourceGrant) :=
  let '(grantee, s, t, column, priv) := row in
  let grants := grants ++ [mkSourceGrant grantee s t (Some column) priv] in
  let* _ := of_result (enforce_limit "source grants" (len grants) MAX_SOURCE_GRANTS) in
  ret grants.
Definition inspect_grants (config : MigrationConfig) : Op W (list SourceGrant) :=
  let* rows := query_table_grants (source_schemas config) in
  let grants := map (fun '(grantee, s, t, priv) => mkSourceGrant grantee s t None priv) rows in
  let* _ := of_result (enforce_limit "source grants" (len grants) MAX_SOURCE_GRANTS) in
  let* columns := query_column_grants (source_schemas config) in
  fold_op push_grant columns grants.

(** [begin_source_snapshot] *)
Definition begin_source_snapshot (config : MigrationConfig) : Op W SourceInventory :=
  let* _ := start_snapshot in
  let* ident := inspect_identity config in
  let* ts := inspect_tables config in
  let* objects := inspect_objects config in
  let* roles := inspect_roles config in
  let* grants := inspect_grants config in
  ret (mkSourceInventory ident ts objects roles grants).
End source.

(** ** What a successful snapshot guarantees *)

Lemma bind_op_ok {W A B} (m : Op W A) (k : A -> Op W B) w b w'' :
  bind m k w = (Ok b, w'') <-> exists a w', m w = (Ok a, w') /\ k a w' = (Ok b, w'').
Proof.
  unfold bind. destruct (m w) as [[a|e] w']; split.
  - intros H. by exists a, w'.
  - intros (a' & w1 & [= <- <-] & H). done.
  - done.
  - by intros (a' & w1 & [=] & _).
Qed.

Lemma of_result_ok {W A} (r : result SourceError A) (w w' : W) a : of_result r w = (Ok a, w') -> r = Ok a.
Proof. by intros [= ->]. Qed.

Lemma to_u32_ok z n : to_u32 z = Ok n -> n = z /\ 0 <= n <= u32_max.
Proof. unfold to_u32. intros H. inv_ok. bool_prop. lia. Qed.
Lemma to_u64_ok z n : to_u64 z = Ok n -> n = z /\ 0 <= n <= u64_max.
Proof. unfold to_u64. intros H. inv_ok. bool_prop. lia. Qed.
Lemma enforce_limit_ok label a m u : enforce_limit label a m = Ok u -> a <= m.
Proof. unfold enforce_limit. rewrite ensure_ok, negb_true_iff, Z.ltb_ge. done. Qed.

(** Decompose a successful run into its successful parts. *)
Ltac inv_op_step :=
  match goal with
  | H : bind _ _ _ = (Ok _, _) |- _ => apply bind_op_ok in H as (? & ? & ? & H)
  | H : ret _ _ = (Ok _, _) |- _ => injection H as H; try subst
  | H : of_result _ _ = (Ok _, _) |- _ => apply of_result_ok in H
  | H : ensure _ _ = Ok _ |- _ => apply ensure_ok in H
  | H : to_u32 _ = Ok _ |- _ => apply to_u32_ok in H as [? ?]
  | H : to_u64 _ = Ok _ |- _ => apply to_u64_ok in H as [? ?]
  | H : enforce_limit _ _ _ = Ok _ |- _ => apply enforce_limit_ok in H
  end.
Ltac inv_op := repeat inv_op_step.

Lemma fold_op_ind {W S A} (P : list A -> S -> Prop) (step : S -> A -> Op W S) l s0 w s w' :
  P [] s0 ->
  (forall done x s w s' w', P done s -> step s x w = (Ok s', w') -> P (done ++ [x]) s') ->
  fold_op step l s0 w = (Ok s, w') -> P l s.
Proof.
  intros H0 Hstep.
  assert (forall rest done s1 w1, P done s1 -> fold_op step rest s1 w1 = (Ok s, w') -> P (done ++ rest) s) as Hgen;
    [|by apply (Hgen l [])].
  induction rest as [|x rest IH]; intros done s1 w1 Hp H; cbn [fold_op] in H.
  - injection H as <- _. by rewrite app_nil_r.
  - apply bind_op_ok in H as (s2 & w2 & Hs & H). change (x :: rest) with ([x] ++ rest). rewrite (assoc_L (++)).
    by eapply IH; [eapply Hstep|].
Qed.

Section guarantees.
Context {W : Type} `{!SourceQueries W}.

Record table_bounded (t : SourceTable) : Prop := {
  bounded_columns : len (columns t) <= 1024;
  bounded_constraints : len (constraints t) <= 1024;
  bounded_rows : 0 <= row_count t <= u64_max /\ 0 <= estimated_bytes t <= u64_max;
  bounded_triggers : 0 <= trigger_count t <= u32_max }.

Lemma inspect_table_bounded row (w : W) t w' : inspect_table row w = (Ok t, w') -> table_bounded t.
Proof using.
  unfold inspect_table, inspect_columns, inspect_constraints. intros H. inv_op.
  split; cbn; unfold len in *; rewrite ?length_map; done.
Qed.

Lemma inspect_tables_bounded c (w : W) ts w' :
  inspect_tables c w = (Ok ts, w') -> len ts <= 1024 /\ Forall table_bounded ts.
Proof using.
  unfold inspect_tables. intros H. inv_op. unfold MAX_SOURCE_TABLES in *.
  eapply (fold_op_ind (fun done ts => len ts = len done /\ Forall table_bounded ts)) in H as [Hl Hf].
  - split; [lia | done].
  - by split.
  - intros rows r s w1 s' w2 [Hl Hf] Hs. inv_op. rewrite !len_app, Hl. split; [done|].
    apply Forall_app. split; [done|]. constructor; [|constructor]. by eapply inspect_table_bounded.
Qed.

Lemma push_objects_bounded kind rows objects (w : W) objects' w' :
  len objects <= MAX_SOURCE_OBJECTS -> fold_op (push_object kind) rows objects w = (Ok objects', w') ->
  len objects' <= MAX_SOURCE_OBJECTS.
Proof using.
  intros H0 H. eapply (fold_op_ind (fun _ objects => len objects <= MAX_SOURCE_OBJECTS)) in H; [done..|].
  intros d r s w1 s' w2 _ Hs. unfold push_object in Hs. by inv_op.
Qed.

Lemma object_order_flip x y : object_order x y = Gt -> object_order y x <> Gt.
Proof using.
  intros H. assert (object_order y x = CompOpp (object_order x y)) as ->; [|by rewrite H].
  unfold object_order. rewrite !then_compare_flip. by rewrite <- !str_compare_antisym.
Qed.

Lemma inspect_identity_pinned c (w : W) ident w' :
  inspect_identity c w = (Ok ident, w') ->
  si_server_version_num ident = MigrateConfig.postgres_version_num (source c) /\
  si_postgis_version ident = required_postgis (source c).
Proof using. unfold inspect_identity. intros H. inv_op. bool_prop. by subst. Qed.

Lemma inspect_objects_bounded c (w : W) objects w' :
  inspect_objects c w = (Ok objects, w') -> len objects <= 16384 /\ Sorted (le_by object_order) objects.
Proof using.
  unfold inspect_objects. intros H. inv_op.
  repeat match goal with
  | H : fold_op (push_object _) _ _ _ = (Ok _, _) |- _ => apply push_objects_bounded in H; [|done]
  end.
  split; [|apply sort_by_sorted, object_order_flip].
  unfold len, MAX_SOURCE_OBJECTS in *. by rewrite sort_by_perm.
Qed.

Lemma inspect_roles_bounded c (w : W) roles w' : inspect_roles c w = (Ok roles, w') -> len roles <= 4096.
Proof using. unfold inspect_roles. intros H. inv_op. unfold len in *. by rewrite length_map. Qed.

Lemma inspect_grants_bounded c (w : W) grants w' : inspect_grants c w = (Ok grants, w') -> len grants <= 65536.
Proof using.
  unfold inspect_grants. intros H. inv_op.
  eapply (fold_op_ind (fun _ grants => len grants <= MAX_SOURCE_GRANTS)) in H; [done..|].
  intros d [[[[? ?] ?] ?] ?] s w1 s' w2 _ Hs. unfold push_grant in Hs. by inv_op.
Qed.

(** The inventory is pinned and bounded.  A successful snapshot comes from the
    pinned PostgreSQL and PostGIS versions and holds at most 1,024 tables of at most
    1,024 columns and constraints each, 16,384 other objects in catalog order, 4,096
    roles and 65,536 grants, with every count in its machine range. *)
Theorem inventory_pinned_and_bounded c (w : W) inv w' :
  begin_source_snapshot c w = (Ok inv, w') ->
  (si_server_version_num (inventory_identity inv) = MigrateConfig.postgres_version_num (source c) /\
   si_postgis_version (inventory_identity inv) = required_postgis (source c)) /\
  (len (inventory_tables inv) <= 1024 /\ Forall table_bounded (inventory_tables inv)) /\
  (len (inventory_objects inv) <= 16384 /\ Sorted (le_by object_order) (inventory_objects inv)) /\
  len (inventory_roles inv) <= 4096 /\ len (inventory_grants inv) <= 65536.
Proof using.
  unfold begin_source_snapshot. intros H. inv_op.
  cbn [inventory_identity inventory_tables inventory_objects inventory_roles inventory_grants].
  split; [by eapply inspect_identity_pinned|]. split; [by eapply inspect_tables_bounded|].
  split; [by eapply inspect_objects_bounded|].
  split; [by eapply inspect_roles_bounded | by eapply inspect_grants_bounded].
Qed.
End guarantees.

(** ** A source database with one table *)

Module SampleSource.
#[local] Instance queries : SourceQueries unit := {|
  start_snapshot := ret tt;
  query_identity := ret (mkIdentityRow 180004 (lit "18.4") (lit "db") 5 (lit "3.6.1") (lit "t0") (lit "1:1:"));
  query_tables _ := ret [mkTableRow 7 (lit "public") (lit "places") (lit "r") 8192 None false false (lit "default") 0];
  query_count _ := ret 2;
  query_columns _ := ret [Sample.column 1 "id" "int8" "bigint" (-1) None];
  query_constraints _ := ret [(lit "nn", lit "n", lit "NOT NULL")];
  query_relations _ := ret [(lit "public", lit "w", lit "v"); (lit "public", lit "v", lit "m")];
  query_extensions _ := ret [(lit "public", lit "postgis")];
  query_functions _ := ret [];
  query_triggers _ := ret [];
  query_roles _ := ret [(lit "source_reader", true)];
  query_table_grants _ := ret [(lit "source_reader", lit "public", lit "places", lit "SELECT")];
  query_column_grants _ := ret [] |}.
Definition inventory : SourceInventory := Eval vm_compute in
  match fst (begin_source_snapshot sample_config tt) with Ok i => i | Err _ => Sample.inventory end.
End SampleSource.

Lemma inventory_pinned_and_bounded_witness :
  len (inventory_objects SampleSource.inventory) <= 16384 /\
  Sorted (le_by object_order) (inventory_objects SampleSource.inventory).
Proof.
  refine (proj1 (proj2 (proj2 (@inventory_pinned_and_bounded unit SampleSource.queries sample_config tt
                                  SampleSource.inventory tt _)))).
  vm_compute. reflexivity.
Defined.
