(* ===== verification/MigrateRun.v ===== *)
(** * Migration, verification, promotion and cleanup runs ([quackgis-migrate/src/migration.rs])

    Each command is a sequence of operations on the source snapshot, on one target
    connection and on the progress file.  [tokio_postgres] and the databases behind it
    are the interface [MigrationDriver]; the formats of values and SQL are [Formats].
    Elapsed times and the texts of errors are left out of the reports, and an [expect]
    that fails ends the command with [RunPanic]. *)

From S2P Require Import Prelude MigrateConfig MigratePlan MigrateChecksum MigrateSql MigrateFiles MigrateSource.
#[local] Open Scope Z_scope.

Definition PROGRESS_WIRE_INTERVAL : Z := 16777216.

(** ** Reports *)

Inductive MigrationState :=
  | MigrationRejected | FailedRolledBack | CommitIndeterminate | CommittedUnverified | Verified.
Inductive ProgressPhase :=
  | ConnectingSource | PreflightComplete | PhaseRejected | TargetTransactionStarted | TableCopyStarted
  | TableCopyInProgress | TableVerified | CommitStarted | PhaseIndeterminate | Committed
  | PhaseUnverified | PhaseRolledBack | PhaseVerified.
Inductive VerificationState := VerificationRejected | VerificationFailed | VerificationVerified.
Inductive PromotionState :=
  | PromotionRejected | PromotionRolledBack | PromotionIndeterminate | PromotionUnverified | Promoted.

#[export] Instance migration_state_eq_dec : EqDecision MigrationState.
Proof. solve_decision. Defined.
#[export] Instance verification_state_eq_dec : EqDecision VerificationState.
Proof. solve_decision. Defined.

Record TargetIdentity := mkTargetIdentity {
  ti_version_num : Z;
  ti_version : str;
  ti_database : str }.
#[export] Instance target_identity_eq_dec : EqDecision TargetIdentity.
Proof. solve_decision. Defined.

Record ProgressTable := mkProgressTable {
  pt_source : str;
  pt_target : str;
  pt_rows : Z;
  pt_wire_bytes : Z;
  pt_checksum : str }.
Record MigrationProgress := mkMigrationProgress {
  sequence : Z;
  phase : ProgressPhase;
  mp_source : option SourceIdentity;
  mp_target : option TargetIdentity;
  tables_total : Z;
  rows_total : Z;
  estimated_bytes_total : Z;
  current_source : option str;
  current_target : option str;
  current_wire_bytes : Z;
  completed_tables : list ProgressTable;
  mp_decision : option string }.
Record ProgressWriter := mkProgressWriter {
  has_path : bool;
  checkpoint : MigrationProgress;
  next_wire_checkpoint : Z }.

Record MigrationReport := mkMigrationReport {
  mr_format_version : Z;
  mr_state : MigrationState;
  mr_runtime : RuntimeIdentity;
  mr_staging : option StagingPlan;
  mr_preflight : PreflightReport;
  mr_target : option TargetIdentity;
  mr_tables : list TableTransfer;
  mr_decision : string }.
Record VerificationReport := mkVerificationReport {
  vr_format_version : Z;
  vr_state : VerificationState;
  vr_input_sha256 : str;
  vr_runtime : RuntimeIdentity;
  vr_target : option TargetIdentity;
  verified_targets : list str;
  vr_decision : string }.
Record PromotionReport := mkPromotionReport {
  po_format_version : Z;
  po_state : PromotionState;
  po_input_sha256 : str;
  po_verification_sha256 : str;
  po_runtime : RuntimeIdentity;
  po_target : option TargetIdentity;
  promoted_targets : list str;
  removed_staging_targets : list str;
  po_decision : string }.
Record CleanupReport := mkCleanupReport { cr_target : TargetIdentity; dropped_configured_targets : list str }.
Record StagingCleanupReport := mkStagingCleanupReport {
  sc_input_sha256 : str;
  sc_runtime : RuntimeIdentity;
  sc_target : TargetIdentity;
  dropped_staging_targets : list str }.

Inductive RunError :=
  | DriverError
  | SourceFailed (e : SourceError)
  | SqlFailed (e : SqlError)
  | ChecksumFailed (e : ChecksumError)
  | RunPanic
  | ProgressOverflow
  | CopyBytesOverflow
  | RowCountDiffers
  | ChecksumsDiffer
  | TableCountChanged
  | FreshChecksumsDiffer
  | NegativeCount
  | FreshRowsDiffer
  | PromotionRowsDiffer
  | NotVerifiedStaging
  | RuntimeDiffers
  | TargetDiffers
  | InvalidStaging (e : ConfigError).

(** ** The databases

    What the target holds durably, what its open transaction would publish, the COPY it
    is receiving, and the number of connections made to it *)

Record Target (Db : Type) := mkTarget {
  durable : Db;
  pending : Db;
  open_transaction : bool;
  copying : option (str * list byte);
  connections : nat }.
Arguments mkTarget {Db}. Arguments durable {Db}. Arguments pending {Db}.
Arguments open_transaction {Db}. Arguments copying {Db}. Arguments connections {Db}.
(** The contents a statement reads *)
Definition visible {Db} (t : Target Db) : Db := if open_transaction t then pending t else durable t.

Definition Row : Type := list (option str).
Definition Act (W A : Type) : Type := W -> result RunError A * W.

Class Formats := {
  sha256 : list byte -> list byte;
  parse_f32_bits : str -> option Z;
  parse_f64_bits : str -> option Z;
  normalize_decimal : str -> option str;
  format_date : str -> option str;
  timestamp_micros : str -> option Z;
  f64_min : Z -> Z -> Z;
  f64_max : Z -> Z -> Z;
  f64_to_string : Z -> str;
  parse_sql : str -> option (list Statement);
  expr_to_string : Expr -> str;
  debug_str : str -> str }.

Class MigrationDriver := {
  World : Type;
  Db : Type;
  world_target : World -> Target Db;
  snapshot_rows : str -> list Row;
  read_rows : Db -> str -> list Row;
  read_count : Db -> str -> Z;
  apply_statement : Db -> str -> Db;
  apply_copy : Db -> str -> list byte -> Db;
  (* the source *)
  connect_source : Act World unit;
  source_queries : SourceQueries World;
  source_rows : str -> Act World (list (result ChecksumError Row));
  copy_out : str -> Act World (list (result RunError (list byte)));
  source_rollback : Act World unit;
  (* the target *)
  connect_target : Act World unit;
  query_version : Act World (str * str);
  begin_target : Act World unit;
  batch_execute : str -> Act World unit;
  execute : str -> Act World Z;
  copy_in : str -> Act World unit;
  copy_send : list byte -> Act World unit;
  copy_finish : Act World Z;
  target_rows : str -> Act World (list (result ChecksumError Row));
  target_count : str -> Act World Z;
  commit : Act World unit;
  rollback : Act World unit;
  (* the progress file *)
  write_progress : MigrationProgress -> Act World unit }.
#[export] Existing Instance source_queries.

Section runs.
Context {formats : Formats} {driver : MigrationDriver}.

(** ** The state of a run and its monad *)

Record St := mkSt { world : World; progress : ProgressWriter }.
Definition M (A : Type) : Type := St -> result RunError A * St.
Definition mret {A} (a : A) : M A := fun st => (Ok a, st).
Definition mfail {A} (e : RunError) : M A := fun st => (Err e, st).
Definition mbind {A B} (m : M A) (k : A -> M B) : M B :=
  fun st => match m st with (Ok a, st') => k a st' | (Err e, st') => (Err e, st') end.
Definition mresult {E A} (f : E -> RunError) (r : result E A) : M A := fun st => (map_err f r, st).
(** [match m.await { Ok(..) => .., Err(..) => .. }], which does not catch a panic *)
Definition is_panic (e : RunError) : bool :=
  match e with RunPanic | SqlFailed SqlPanic => true | _ => false end.
Definition attempt {A} (m : M A) : M (result RunError A) :=
  fun st => match m st with
            | (Err e, st') => if is_panic e then (Err e, st') else (Ok (Err e), st')
            | (Ok a, st') => (Ok (Ok a), st')
            end.
Definition call {A} (a : Act World A) : M A :=
  fun st => let '(r, w) := a (world st) in (r, mkSt w (progress st)).
Definition call_source {A} (a : Op World A) : M A :=
  fun st => let '(r, w) := a (world st) in (map_err SourceFailed r, mkSt w (progress st)).
Definition guard (b : bool) (e : RunError) : M unit := if b then mret tt else mfail e.
#[local] Notation "'let*' x := m 'in' k" := (mbind m (fun x => k)) (at level 200, x pattern, right associativity).

(** [for x in l { .. }] *)
Fixpoint for_each {A} (f : A -> M unit) (l : list A) : M unit :=
  match l with
  | [] => mret tt
  | x :: rest => let* _ := f x in for_each f rest
  end.
Fixpoint map_each {A B} (f : A -> M B) (l : list A) : M (list B) :=
  match l with
  | [] => mret []
  | x :: rest => let* y := f x in let* ys := map_each f rest in mret (y :: ys)
  end.

(** ** [ProgressWriter] *)

Definition new_progress (path : bool) : ProgressWriter :=
  mkProgressWriter path (mkMigrationProgress 0 ConnectingSource None None 0 0 0 None None 0 [] None)
    PROGRESS_WIRE_INTERVAL.

Definition set_checkpoint (f : MigrationProgress -> MigrationProgress) : M unit :=
  fun st => let p := progress st in
    (Ok tt, mkSt (world st) (mkProgressWriter (has_path p) (f (checkpoint p)) (next_wire_checkpoint p))).
Definition set_next (n : Z) : M unit :=
  fun st => let p := progress st in
    (Ok tt, mkSt (world st) (mkProgressWriter (has_path p) (checkpoint p) n)).
Definition get_progress : M ProgressWriter := fun st => (Ok (progress st), st).

(** [ProgressWriter::publish] *)
Definition with_phase (n : Z) (ph : ProgressPhase) (decision : option string) (c : MigrationProgress)
    : MigrationProgress :=
  mkMigrationProgress n ph (mp_source c) (mp_target c) (tables_total c) (rows_total c)
    (estimated_bytes_total c) (current_source c) (current_target c) (current_wire_bytes c)
    (completed_tables c) decision.
Definition publish (ph : ProgressPhase) (decision : option string) : M unit :=
  let* p := get_progress in
  let n := sequence (checkpoint p) + 1 in
  let* _ := guard (n <=? u64_max) ProgressOverflow in
  let* _ := set_checkpoint (with_phase n ph decision) in
  let* p := get_progress in
  if has_path p then call (write_progress (checkpoint p)) else mret tt.

(** [try_fold(0, |total, table| total.checked_add(..))] *)
Fixpoint checked_sum (l : list Z) (total : Z) : result RunError Z :=
  match l with
  | [] => Ok total
  | n :: rest => if total + n <=? u64_max then checked_sum rest (total + n) else Err ProgressOverflow
  end.

(** [ProgressWriter::preflight] *)
Definition progress_preflight (p : PreflightReport) : M unit :=
  let selected := selected_tables p in
  let* _ := set_checkpoint (fun c => mkMigrationProgress (sequence c) (phase c) (Some (pr_source p))
              (mp_target c) (len selected) (rows_total c) (estimated_bytes_total c) (current_source c)
              (current_target c) (current_wire_bytes c) (completed_tables c) (mp_decision c)) in
  let* total := mresult (fun e => e) (checked_sum (map tp_row_count selected) 0) in
  let* _ := set_checkpoint (fun c => mkMigrationProgress (sequence c) (phase c) (mp_source c)
              (mp_target c) (tables_total c) total (estimated_bytes_total c) (current_source c)
              (current_target c) (current_wire_bytes c) (completed_tables c) (mp_decision c)) in
  let* bytes := mresult (fun e => e) (checked_sum (map tp_estimated_bytes selected) 0) in
  let* _ := set_checkpoint (fun c => mkMigrationProgress (sequence c) (phase c) (mp_source c)
              (mp_target c) (tables_total c) (rows_total c) bytes (current_source c)
              (current_target c) (current_wire_bytes c) (completed_tables c) (mp_decision c)) in
  publish PreflightComplete None.

(** [ProgressWriter::set_target] *)
Definition set_target (t : TargetIdentity) : M unit :=
  let* _ := set_checkpoint (fun c => mkMigrationProgress (sequence c) (phase c) (mp_source c)
              (Some t) (tables_total c) (rows_total c) (estimated_bytes_total c) (current_source c)
              (current_target c) (current_wire_bytes c) (completed_tables c) (mp_decision c)) in
  publish TargetTransactionStarted None.

(** [ProgressWriter::begin_table] *)
Definition begin_table (t : TablePlan) : M unit :=
  let* target := mresult SqlFailed (target_identity t) in
  let* _ := set_checkpoint (fun c => mkMigrationProgress (sequence c) (phase c) (mp_source c)
              (mp_target c) (tables_total c) (rows_total c) (estimated_bytes_total c)
              (Some (source_identity t)) (Some target) 0 (completed_tables c) (mp_decision c)) in
  let* _ := set_next PROGRESS_WIRE_INTERVAL in
  publish TableCopyStarted None.

Definition set_wire_bytes (n : Z) : M unit :=
  set_checkpoint (fun c => mkMigrationProgress (sequence c) (phase c) (mp_source c) (mp_target c)
    (tables_total c) (rows_total c) (estimated_bytes_total c) (current_source c) (current_target c)
    n (completed_tables c) (mp_decision c)).

(** [ProgressWriter::copy_bytes] *)
Definition copy_bytes (wire : Z) : M unit :=
  let* _ := set_wire_bytes wire in
  let* p := get_progress in
  if wire <? next_wire_checkpoint p then mret tt
  else
    let* _ := guard (wire + PROGRESS_WIRE_INTERVAL <=? u64_max) ProgressOverflow in
    let* _ := set_next (wire + PROGRESS_WIRE_INTERVAL) in
    publish TableCopyInProgress None.

(** [ProgressWriter::complete_table] *)
Definition complete_table (t : TableTransfer) : M unit :=
  let* _ := set_wire_bytes (wire_bytes t) in
  let* _ := set_checkpoint (fun c => mkMigrationProgress (sequence c) (phase c) (mp_source c)
              (mp_target c) (tables_total c) (rows_total c) (estimated_bytes_total c) (current_source c)
              (current_target c) (current_wire_bytes c)
              (completed_tables c ++ [mkProgressTable (transfer_source t) (transfer_target t) (rows t)
                                        (wire_bytes t) (transfer_checksum t)]) (mp_decision c)) in
  publish TableVerified None.

(** ** Tables *)

(** [checksum_table] *)
Definition rows_checksum (columns : list ColumnPlan) (rs : list (result ChecksumError Row))
    : result ChecksumError TableChecksums :=
  checksum_rows sha256 parse_f32_bits parse_f64_bits normalize_decimal format_date timestamp_micros
    f64_min f64_max f64_to_string columns rs.
Definition checksum_table (t : TablePlan) (side : ChecksumSide) : M TableChecksums :=
  let* sql := mresult SqlFailed (checksum_sql t side) in
  let* rs := match side with
             | SourceSide => call (source_rows sql)
             | TargetSide => call (target_rows sql)
             end in
  mresult ChecksumFailed (rows_checksum (tp_columns t) rs).

(** [apply_comments] *)
Definition apply_comments (t : TablePlan) : M unit :=
  let* statements := mresult SqlFailed (comment_statements t) in
  for_each (fun sql => call (batch_execute sql)) statements.

(** The loop of [copy_table]: the bytes sent so far, and their number *)
Fixpoint copy_chunks (chunks : list (result RunError (list byte))) (sent : list byte) (bytes : Z)
    : M (list byte * Z) :=
  match chunks with
  | [] => mret (sent, bytes)
  | chunk :: rest =>
      let* chunk := mresult (fun e => e) chunk in
      let bytes := bytes + len chunk in
      let* _ := guard (bytes <=? u64_max) CopyBytesOverflow in
      let* _ := copy_bytes bytes in
      let* _ := call (copy_send chunk) in
      copy_chunks rest (sent ++ chunk) bytes
  end.

(** [copy_table] *)
Definition copy_table (t : TablePlan) : M (Z * Z * str) :=
  let* target_sql := mresult SqlFailed (copy_in_sql t) in
  let* output := call (copy_out (copy_out_sql t)) in
  let* _ := call (copy_in target_sql) in
  let* r := copy_chunks output [] 0 in
  let* copied := call copy_finish in
  mret (copied, r.2, encode_hex (sha256 r.1)).

(** One round of the second loop of [prepare_target] *)
Definition column_verification (c : ColumnPlan) (v : ChecksumValue) : result SqlError ColumnVerification :=
  n ← ok_or (cp_target_name c) SqlPanic;
  Ok (mkColumnVerification (cp_source_name c) n (cv_null_count v) (checksum v) (spatial v)).
Definition column_verifications (columns : list ColumnPlan) (vs : list ChecksumValue)
    : result SqlError (list ColumnVerification) :=
  collect (fun '(c, v) => column_verification c v) (zip columns vs).
Definition prepare_table (t : TablePlan) : M TableTransfer :=
  let* _ := begin_table t in
  let* r := copy_table t in
  let '(copied, bytes, digest) := r in
  let* _ := guard (copied =? tp_row_count t) RowCountDiffers in
  let* _ := apply_comments t in
  let* source := checksum_table t SourceSide in
  let* target := checksum_table t TargetSide in
  let* _ := guard (bool_decide (source = target)) ChecksumsDiffer in
  let* identity := mresult SqlFailed (target_identity t) in
  let* columns := mresult SqlFailed (column_verifications (tp_columns t) (tc_columns source)) in
  let transfer := mkTableTransfer (source_identity t) identity copied bytes digest
                    (table_checksum source) columns in
  let* _ := complete_table transfer in
  mret transfer.

(** [prepare_target] *)
Definition create_table (t : TablePlan) : M unit :=
  let* sql := mresult SqlFailed (create_table_sql t) in call (batch_execute sql).
Definition prepare_target (p : PreflightReport) : M (list TableTransfer) :=
  let* _ := for_each create_table (selected_tables p) in
  map_each prepare_table (selected_tables p).

(** [verify_target] *)
Definition column_agrees (v : ChecksumValue) (e : ColumnVerification) : bool :=
  (cv_null_count v =? v_null_count e) && bool_decide (checksum v = v_checksum e)
  && bool_decide (spatial v = v_spatial e).
Definition checksums_agree (a : TableChecksums) (t : TableTransfer) : bool :=
  bool_decide (table_checksum a = transfer_checksum t)
  && Nat.eqb (length (tc_columns a)) (length (transfer_columns t))
  && forallb (fun '(v, e) => column_agrees v e) (zip (tc_columns a) (transfer_columns t)).
Definition verify_table (pt : TablePlan * TableTransfer) : M unit :=
  let '(t, transfer) := pt in
  let* actual := checksum_table t TargetSide in
  let* _ := guard (checksums_agree actual transfer) FreshChecksumsDiffer in
  let* sql := mresult SqlFailed (count_sql t) in
  let* n := call (target_count sql) in
  let* _ := guard (0 <=? n) NegativeCount in
  guard (n =? rows transfer) FreshRowsDiffer.
Definition verify_target (p : PreflightReport) (expected : list TableTransfer) : M unit :=
  let selected := selected_tables p in
  let* _ := guard (Nat.eqb (length selected) (length expected)) TableCountChanged in
  for_each verify_table (zip selected expected).

(** [inspect_target_identity] *)
Definition inspect_target_identity : M TargetIdentity :=
  let* row := call query_version in
  let* n := mresult SqlFailed (MigrateSql.postgres_version_num row.1) in
  mret (mkTargetIdentity n row.1 row.2).

(** ** [run_migration] *)

Section run.
Variables (config : MigrationConfig) (runtime : RuntimeIdentity) (staging : option StagingPlan).

Definition migration_report (s : MigrationState) (p : PreflightReport) (t : option TargetIdentity)
    (transfers : list TableTransfer) (decision : string) : MigrationReport :=
  mkMigrationReport 2 s runtime staging p t transfers decision.

Definition preflight_of (inventory : SourceInventory) : M PreflightReport :=
  mresult (fun _ : PlanError => RunPanic) (build_preflight parse_sql expr_to_string debug_str config inventory).

(** The branch after a failed preparation *)
Definition run_failed (p : PreflightReport) (t : TargetIdentity) : M MigrationReport :=
  let* _ := attempt (call rollback) in
  let* _ := call source_rollback in
  let* _ := publish PhaseRolledBack (Some "not_published"%string) in
  mret (migration_report FailedRolledBack p (Some t) [] "not_published").

(** The part after a successful commit *)
Definition run_unverified (p : PreflightReport) (t : TargetIdentity) (transfers : list TableTransfer)
    : M MigrationReport :=
  let* _ := attempt (publish PhaseUnverified (Some "committed_but_reconciliation_required"%string)) in
  mret (migration_report CommittedUnverified p (Some t) transfers "committed_but_reconciliation_required").
Definition run_committed (p : PreflightReport) (t : TargetIdentity) (transfers : list TableTransfer)
    : M MigrationReport :=
  let* _ := attempt (publish Committed None) in
  let* fresh := attempt (call connect_target) in
  match fresh with
  | Err _ => let* _ := call source_rollback in run_unverified p t transfers
  | Ok _ =>
      let* verification := attempt (verify_target p transfers) in
      let* _ := call source_rollback in
      match verification with
      | Ok _ =>
          let* _ := attempt (publish PhaseVerified (Some "verified_snapshot_prepared_for_operator_cutover"%string)) in
          mret (migration_report Verified p (Some t) transfers "verified_snapshot_prepared_for_operator_cutover")
      | Err _ => run_unverified p t transfers
      end
  end.

(** The target transaction *)
Definition run_target (p : PreflightReport) : M MigrationReport :=
  let* _ := call connect_target in
  let* t := inspect_target_identity in
  let* _ := call begin_target in
  let* _ := set_target t in
  let* prepared := attempt (prepare_target p) in
  match prepared with
  | Err _ => run_failed p t
  | Ok transfers =>
      let* _ := publish CommitStarted None in
      let* committed := attempt (call commit) in
      match committed with
      | Err _ =>
          let* _ := call source_rollback in
          let* _ := attempt (publish PhaseIndeterminate (Some "operator_reconciliation_required"%string)) in
          mret (migration_report CommitIndeterminate p (Some t) transfers "operator_reconciliation_required")
      | Ok _ => run_committed p t transfers
      end
  end.

Definition run_migration : M MigrationReport :=
  let* _ := publish ConnectingSource None in
  let* _ := call connect_source in
  let* inventory := call_source (begin_source_snapshot config) in
  let* p := preflight_of inventory in
  let* _ := progress_preflight p in
  if bool_decide (status p = Rejected) then
    let* _ := call source_rollback in
    let* _ := publish PhaseRejected (Some "rejected_before_target_mutation"%string) in
    mret (migration_report MigrationRejected p None [] "rejected_before_target_mutation")
  else run_target p.
End run.

(** ** [verify_migration_report] *)

Definition is_verified_staging (r : MigrationReport) : bool :=
  (mr_format_version r =? 2) && bool_decide (mr_state r = Verified) && bool_decide (is_Some (mr_staging r)).

Section verify.
Variables (report : MigrationReport) (input_sha256 : str) (runtime : RuntimeIdentity).

Definition verification_report (s : VerificationState) (t : option TargetIdentity) (targets : list str)
    (decision : string) : M VerificationReport :=
  mret (mkVerificationReport 1 s input_sha256 runtime t targets decision).

Definition verify_migration_report : M VerificationReport :=
  if negb (is_verified_staging report) || negb (bool_decide (mr_runtime report = runtime)) then
    verification_report VerificationRejected None [] "rejected_before_target_access"
  else
    let* connected := attempt (call connect_target) in
    match connected with
    | Err _ => verification_report VerificationFailed None [] "verification_failed"
    | Ok _ =>
        let* identity := attempt inspect_target_identity in
        match identity with
        | Err _ => verification_report VerificationFailed None [] "verification_failed"
        | Ok t =>
            if negb (bool_decide (mr_target report = Some t)) then
              verification_report VerificationRejected (Some t) [] "rejected_wrong_target"
            else
              let* verified := attempt (verify_target (mr_preflight report) (mr_tables report)) in
              match verified with
              | Ok _ => verification_report VerificationVerified (Some t)
                          (map transfer_target (mr_tables report)) "verified_staging_ready_for_explicit_promotion"
              | Err _ => verification_report VerificationFailed (Some t) [] "verification_failed"
              end
        end
    end.
End verify.

(** ** [promote_migration_report] *)

Section promote.
Variables (report : MigrationReport) (input_sha256 : str) (verification : VerificationReport).
Variables (verification_sha256 : str) (runtime : RuntimeIdentity).

(** [promotion_failure] *)
Definition promotion_failure (s : PromotionState) (t : option TargetIdentity) (decision : string)
    : M PromotionReport :=
  mret (mkPromotionReport 1 s input_sha256 verification_sha256 runtime t [] [] decision).

(** One table of the promotion transaction *)
Definition promote_table (x : TablePlan * TablePlan * TableTransfer) : M unit :=
  let '(staged, released, expected) := x in
  let* _ := create_table released in
  let* sql := mresult SqlFailed (promote_sql staged released) in
  let* copied := call (execute sql) in
  let* _ := guard (copied =? rows expected) PromotionRowsDiffer in
  apply_comments released.
Definition drop_table (t : TablePlan) : M unit :=
  let* sql := mresult SqlFailed (drop_sql t) in call (batch_execute sql).
Definition promote_tables (release_preflight : PreflightReport) (release_transfers : list TableTransfer) : M unit :=
  let* _ := verify_target (mr_preflight report) (mr_tables report) in
  let staging_tables := selected_tables (mr_preflight report) in
  let release_tables := selected_tables release_preflight in
  let* _ := for_each promote_table (zip (zip staging_tables release_tables) release_transfers) in
  let* _ := verify_target release_preflight release_transfers in
  for_each drop_table staging_tables.

Definition is_bound_verification : bool :=
  (vr_format_version verification =? 1) && bool_decide (vr_state verification = VerificationVerified)
  && bool_decide (vr_input_sha256 verification = input_sha256)
  && bool_decide (vr_target verification = mr_target report).
Definition is_bound_runtime : bool :=
  bool_decide (mr_runtime report = runtime) && bool_decide (vr_runtime verification = runtime).

(** The part after the commit *)
Definition promotion_committed (t : TargetIdentity) (release_preflight : PreflightReport)
    (release_transfers : list TableTransfer) : M PromotionReport :=
  let* fresh := attempt (call connect_target) in
  match fresh with
  | Err _ => promotion_failure PromotionUnverified (Some t) "promoted_but_reconciliation_required"
  | Ok _ =>
      let* verified := attempt (verify_target release_preflight release_transfers) in
      match verified with
      | Err _ => promotion_failure PromotionUnverified (Some t) "promoted_but_reconciliation_required"
      | Ok _ =>
          mret (mkPromotionReport 1 Promoted input_sha256 verification_sha256 runtime (Some t)
                  (map transfer_target release_transfers) (map transfer_target (mr_tables report))
                  "promoted_and_verified_after_reconnect")
      end
  end.

(** The part in the target *)
Definition promote_target (release_preflight : PreflightReport) (release_transfers : list TableTransfer)
    : M PromotionReport :=
  let* connected := attempt (call connect_target) in
  match connected with
  | Err _ => promotion_failure PromotionRejected None "rejected_before_target_mutation"
  | Ok _ =>
  let* identity := attempt inspect_target_identity in
  match identity with
  | Err _ => promotion_failure PromotionRejected None "rejected_before_target_mutation"
  | Ok t =>
  if negb (bool_decide (mr_target report = Some t)) then
    promotion_failure PromotionRejected (Some t) "rejected_wrong_target"
  else
  let* begun := attempt (call begin_target) in
  match begun with
  | Err _ => promotion_failure PromotionRejected (Some t) "rejected_before_target_mutation"
  | Ok _ =>
  let* prepared := attempt (promote_tables release_preflight release_transfers) in
  match prepared with
  | Err _ =>
      let* _ := attempt (call rollback) in
      promotion_failure PromotionRolledBack (Some t) "staging_retained_release_not_published"
  | Ok _ =>
  let* committed := attempt (call commit) in
  match committed with
  | Err _ => promotion_failure PromotionIndeterminate (Some t) "operator_reconciliation_required"
  | Ok _ => promotion_committed t release_preflight release_transfers
  end end end end end.

Definition promote_migration_report : M PromotionReport :=
  if negb (is_verified_staging report) || negb is_bound_verification || negb is_bound_runtime then
    promotion_failure PromotionRejected None "rejected_before_target_mutation"
  else
    match release_plan (mr_staging report) (mr_preflight report) (mr_tables report) with
    | Err _ => promotion_failure PromotionRejected None "rejected_before_target_mutation"
    | Ok (release_preflight, release_transfers) => promote_target release_preflight release_transfers
    end.
End promote.

(** ** Cleanup *)

(** [cleanup_staging] *)
Definition drop_staging (t : TablePlan) : M str :=
  let* sql := mresult SqlFailed (drop_if_exists_sql t) in
  let* _ := call (batch_execute sql) in
  mresult SqlFailed (target_identity t).
Definition cleanup_staging (report : MigrationReport) (input_sha256 : str) (runtime : RuntimeIdentity)
    : M StagingCleanupReport :=
  let* _ := guard (is_verified_staging report) NotVerifiedStaging in
  let* _ := guard (bool_decide (mr_runtime report = runtime)) RuntimeDiffers in
  let* _ := call connect_target in
  let* t := inspect_target_identity in
  let* _ := guard (bool_decide (mr_target report = Some t)) TargetDiffers in
  let* _ := call begin_target in
  let* dropped := map_each drop_staging (selected_tables (mr_preflight report)) in
  let* _ := call commit in
  mret (mkStagingCleanupReport input_sha256 runtime t dropped).

(** [cleanup_configured_targets] *)
Definition drop_configured_sql (m : TableMapping) : str :=
  lit "DROP TABLE IF EXISTS " ++ dotted (quote_identifier (lit "quackgis"))
    (dotted (quote_identifier (target_schema m)) (quote_identifier (target_table m))).
Definition drop_configured (m : TableMapping) : M str :=
  let* _ := call (batch_execute (drop_configured_sql m)) in
  mret (dotted (target_schema m) (target_table m)).
Definition cleanup_configured_targets (config : MigrationConfig) : M CleanupReport :=
  let* _ := call connect_target in
  let* t := inspect_target_identity in
  let* _ := call begin_target in
  let* dropped := map_each drop_configured (tables config) in
  let* _ := call commit in
  mret (mkCleanupReport t dropped).
End runs.
