(* ===== verification/MigrateOutcomes.v ===== *)
(** * What a migration run leaves in the target

    [MigrationLaws] states what the runs of [MigrateRun] rely on: a target transaction
    publishes its contents at the commit or not at all, reads see the open transaction or
    else the durable contents, and the operations on the source and on the progress file
    leave the target alone.  Other writers of the target are not modelled.  The effect of
    a migration, a promotion and a cleanup is a function of the contents
    ([migrate_db], [promote_db], [cleanup_db]); the theorems say which of the old and the
    new contents each reported state stands for. *)

From S2P Require Import Prelude MigrateConfig MigratePlan MigrateChecksum MigrateSql MigrateFiles MigrateSource MigrateRun.
#[local] Open Scope Z_scope.

Create HintDb silent.

(** ** Laws of the driver *)

Definition quiet {driver : MigrationDriver} {E A} (a : World -> result E A * World) : Prop :=
  forall w, world_target (a w).2 = world_target w.

Class QuietSource {driver : MigrationDriver} : Prop := {
  start_snapshot_quiet : quiet start_snapshot;
  query_identity_quiet : quiet query_identity;
  query_tables_quiet l : quiet (query_tables l);
  query_count_quiet q : quiet (query_count q);
  query_columns_quiet o : quiet (query_columns o);
  query_constraints_quiet o : quiet (query_constraints o);
  query_relations_quiet l : quiet (query_relations l);
  query_extensions_quiet l : quiet (query_extensions l);
  query_functions_quiet l : quiet (query_functions l);
  query_triggers_quiet l : quiet (query_triggers l);
  query_roles_quiet l : quiet (query_roles l);
  query_table_grants_quiet l : quiet (query_table_grants l);
  query_column_grants_quiet l : quiet (query_column_grants l) }.

Class QuietCalls {driver : MigrationDriver} : Prop := {
  connect_source_quiet : quiet connect_source;
  source_rows_quiet sql : quiet (source_rows sql);
  copy_out_quiet sql : quiet (copy_out sql);
  source_rollback_quiet : quiet source_rollback;
  query_version_quiet : quiet query_version;
  target_rows_quiet sql : quiet (target_rows sql);
  target_count_quiet sql : quiet (target_count sql);
  write_progress_quiet p : quiet (write_progress p) }.

(** A target in a transaction, and one in the middle of a COPY *)
Definition opened {Db} (d p : Db) (t : Target Db) : Prop :=
  durable t = d /\ pending t = p /\ open_transaction t = true /\ copying t = None.
Definition streaming {Db} (d p : Db) (sql : str) (sent : list byte) (t : Target Db) : Prop :=
  durable t = d /\ pending t = p /\ open_transaction t = true /\ copying t = Some (sql, sent).
Definition closed {Db} (d : Db) (t : Target Db) : Prop := durable t = d /\ open_transaction t = false.
Definition kept {Db} (d : Db) (t : Target Db) : Prop := durable t = d.

(** From a target satisfying [P], a call that succeeds leaves one satisfying [Q] and a call
    that fails one satisfying [E]. *)
Definition ensures {driver : MigrationDriver} {A} (P : Target Db -> Prop) (a : Act World A)
    (Q : A -> Target Db -> Prop) (E : Target Db -> Prop) : Prop :=
  forall w, P (world_target w) ->
    match a w with (Ok x, w') => Q x (world_target w') | (Err _, w') => E (world_target w') end.

Class MigrationLaws {driver : MigrationDriver} : Prop := {
  laws_source :: QuietSource;
  laws_calls :: QuietCalls;
  connect_target_law d : ensures (kept d) connect_target (fun _ => closed d) (kept d);
  begin_target_law d : ensures (closed d) begin_target (fun _ => opened d d) (kept d);
  batch_execute_law d p sql :
    ensures (opened d p) (batch_execute sql) (fun _ => opened d (apply_statement p sql)) (kept d);
  execute_law d p sql :
    ensures (opened d p) (execute sql) (fun _ => opened d (apply_statement p sql)) (kept d);
  copy_in_law d p sql : ensures (opened d p) (copy_in sql) (fun _ => streaming d p sql []) (kept d);
  copy_send_law d p sql sent chunk :
    ensures (streaming d p sql sent) (copy_send chunk) (fun _ => streaming d p sql (sent ++ chunk)) (kept d);
  copy_finish_law d p sql sent :
    ensures (streaming d p sql sent) copy_finish (fun _ => opened d (apply_copy p sql sent)) (kept d);
  commit_law d p : ensures (opened d p) commit (fun _ => closed p) (fun t => kept d t \/ kept p t);
  rollback_law d : ensures (kept d) rollback (fun _ => kept d) (kept d);
  source_rows_law sql w rows w' : source_rows sql w = (Ok (map Ok rows), w') -> rows ≡ₚ snapshot_rows sql;
  target_rows_law sql w rows w' :
    target_rows sql w = (Ok (map Ok rows), w') -> rows ≡ₚ read_rows (visible (world_target w)) sql;
  target_count_law sql w n w' : target_count sql w = (Ok n, w') -> n = read_count (visible (world_target w)) sql }.

#[export] Hint Resolve start_snapshot_quiet query_identity_quiet query_tables_quiet query_count_quiet
  query_columns_quiet query_constraints_quiet query_relations_quiet query_extensions_quiet
  query_functions_quiet query_triggers_quiet query_roles_quiet query_table_grants_quiet
  query_column_grants_quiet connect_source_quiet source_rows_quiet copy_out_quiet source_rollback_quiet
  query_version_quiet target_rows_quiet target_count_quiet write_progress_quiet laws_source laws_calls : silent.

(** ** The contents after a complete migration, promotion and cleanup *)

Section contents.
Context {driver : MigrationDriver}.

Definition run_statements (d : Db) (sql : list str) : Db := foldl apply_statement d sql.

Definition load_table (d : Db) (t : TablePlan) (payload : list byte) : result SqlError Db :=
  sql ← copy_in_sql t;
  comments ← comment_statements t;
  Ok (run_statements (apply_copy d sql payload) comments).
Fixpoint load_tables (d : Db) (ts : list TablePlan) (payloads : list (list byte)) : result SqlError Db :=
  match ts, payloads with
  | t :: ts, b :: payloads => d ← load_table d t b; load_tables d ts payloads
  | _, _ => Ok d
  end.
(** Every selected table created, then each loaded with its COPY stream and commented *)
Definition migrate_db (p : PreflightReport) (payloads : list (list byte)) (d : Db) : result SqlError Db :=
  creates ← collect create_table_sql (selected_tables p);
  load_tables (run_statements d creates) (selected_tables p) payloads.

Definition release_one (d : Db) (staged released : TablePlan) : result SqlError Db :=
  create ← create_table_sql released;
  insert ← promote_sql staged released;
  comments ← comment_statements released;
  Ok (run_statements d (create :: insert :: comments)).
Fixpoint release_all (d : Db) (ts : list (TablePlan * TablePlan)) : result SqlError Db :=
  match ts with
  | [] => Ok d
  | (staged, released) :: rest => d ← release_one d staged released; release_all d rest
  end.
Definition drop_all (sql : TablePlan -> result SqlError str) (ts : list TablePlan) (d : Db) : result SqlError Db :=
  drops ← collect sql ts; Ok (run_statements d drops).
(** The DROPs of a cleanup *)
Definition cleanup_db (p : PreflightReport) (d : Db) : result SqlError Db :=
  drop_all drop_if_exists_sql (selected_tables p) d.
End contents.

(** ** Hoare triples on the target *)

Section triples.
Context {formats : Formats} {driver : MigrationDriver} {laws : MigrationLaws}.
Implicit Types (P E : Target Db -> Prop).

Definition tgt (st : St) : Target Db := world_target (world st).
Definition hoare {A} P (m : M A) (Q : A -> Target Db -> Prop) E : Prop :=
  forall st, P (tgt st) ->
    match m st with (Ok a, st') => Q a (tgt st') | (Err _, st') => E (tgt st') end.

Lemma hoare_bind {A B} P (m : M A) Q (k : A -> M B) R E :
  hoare P m Q E -> (forall a, hoare (Q a) (k a) R E) -> hoare P (mbind m k) R E.
Proof using.
  intros Hm Hk st H. specialize (Hm st H). unfold mbind.
  destruct (m st) as [[a|e] st']; [|done]. apply (Hk a st' Hm).
Qed.

Lemma hoare_ret {A} P (a : A) (Q : A -> Target Db -> Prop) E :
  (forall t, P t -> Q a t) -> hoare P (mret a) Q E.
Proof using. intros H st HP. apply H, HP. Qed.

Lemma hoare_conseq {A} P P' (m : M A) (Q Q' : A -> Target Db -> Prop) E E' :
  hoare P' m Q' E' -> (forall t, P t -> P' t) -> (forall a t, Q' a t -> Q a t) -> (forall t, E' t -> E t) ->
  hoare P m Q E.
Proof using.
  intros H HP HQ HE st Hst. specialize (H st (HP _ Hst)).
  destruct (m st) as [[a|e] st']; [by apply HQ|by apply HE].
Qed.

Lemma hoare_post {A} P (m : M A) (Q Q' : A -> Target Db -> Prop) E :
  hoare P m Q' E -> (forall a t, Q' a t -> Q a t) -> hoare P m Q E.
Proof using. intros H HQ. by apply (hoare_conseq P P m Q Q' E E). Qed.

(** A fact that does not depend on the target can be used at once. *)
Lemma hoare_pure {A} (X : Prop) P (m : M A) Q E :
  (X -> hoare P m Q E) -> hoare (fun t => X /\ P t) m Q E.
Proof using. intros H st [HX HP]. by apply H. Qed.
Lemma hoare_exists {A X} (P : X -> Target Db -> Prop) (m : M A) Q E :
  (forall x, hoare (P x) m Q E) -> hoare (fun t => exists x, P x t) m Q E.
Proof using. intros H st [x HP]. by apply (H x). Qed.

Lemma hoare_attempt {A} P (m : M A) Q E :
  hoare P m Q E ->
  hoare P (attempt m) (fun r t => match r with Ok a => Q a t | Err _ => E t end) E.
Proof using.
  intros H st HP. specialize (H st HP). unfold attempt.
  destruct (m st) as [[a|e] st']; [done|]. by destruct (is_panic e).
Qed.

(** [let _ = m;] *)
Lemma hoare_ignore {A} P (m : M A) R E :
  hoare P m (fun _ => R) R -> (forall t, R t -> E t) -> hoare P (attempt m) (fun _ => R) E.
Proof using.
  intros H HE. eapply hoare_conseq; [apply hoare_attempt, H|done| |done]. by intros [a|e] t.
Qed.

Lemma hoare_call {A} P (a : Act World A) Q E : ensures P a Q E -> hoare P (call a) Q E.
Proof using.
  intros H st HP. specialize (H (world st) HP). unfold call, tgt.
  by destruct (a (world st)) as [[x|e] w].
Qed.

Lemma hoare_result {A X} P (f : X -> RunError) (r : result X A) E :
  (forall t, P t -> E t) -> hoare P (mresult f r) (fun a t => r = Ok a /\ P t) E.
Proof using. intros H st HP. unfold mresult. destruct r; cbn; [done|]. by apply H. Qed.

Lemma hoare_guard P b e E : (forall t, P t -> E t) -> hoare P (guard b e) (fun _ t => b = true /\ P t) E.
Proof using. intros H st HP. unfold guard. destruct b; [done|]. by apply H. Qed.

(** Steps that leave the target alone keep every assertion about it. *)
Definition silent {A} (m : M A) : Prop := forall st, tgt (m st).2 = tgt st.

Lemma hoare_silent {A} P (m : M A) E : silent m -> (forall t, P t -> E t) -> hoare P m (fun _ => P) E.
Proof using.
  intros H HE st HP. specialize (H st). destruct (m st) as [[a|e] st']; cbn in H; rewrite H; auto.
Qed.

Lemma silent_ret {A} (a : A) : silent (mret a).
Proof using. done. Qed.
Lemma silent_result {A X} (f : X -> RunError) (r : result X A) : silent (mresult f r).
Proof using. done. Qed.
Lemma silent_guard b e : silent (guard b e).
Proof using. by destruct b. Qed.
Lemma silent_bind {A B} (m : M A) (k : A -> M B) : silent m -> (forall a, silent (k a)) -> silent (mbind m k).
Proof using.
  intros Hm Hk st. specialize (Hm st). unfold mbind. destruct (m st) as [[a|e] st']; cbn in *; [|done].
  by rewrite (Hk a st').
Qed.
Lemma silent_attempt {A} (m : M A) : silent m -> silent (attempt m).
Proof using.
  intros H st. specialize (H st). unfold attempt. destruct (m st) as [[a|e] st']; [done|].
  by destruct (is_panic e).
Qed.
Lemma silent_call {A} (a : Act World A) : quiet a -> silent (call a).
Proof using. intros H st. specialize (H (world st)). unfold call. by destruct (a (world st)). Qed.
Lemma silent_source {A} (a : Op World A) : quiet a -> silent (call_source a).
Proof using. intros H st. specialize (H (world st)). unfold call_source. by destruct (a (world st)). Qed.
Lemma silent_checkpoint f : silent (set_checkpoint f).
Proof using. done. Qed.
Lemma silent_next n : silent (set_next n).
Proof using. done. Qed.
Lemma silent_progress : silent get_progress.
Proof using. done. Qed.
End triples.

#[export] Hint Resolve silent_ret silent_result silent_guard silent_bind silent_attempt silent_call
  silent_source silent_checkpoint silent_next silent_progress : silent.

(** ** The snapshot and the progress file leave the target alone *)

Section quiet_parts.
Context {formats : Formats} {driver : MigrationDriver} {laws : MigrationLaws}.

Lemma quiet_ret {A} (a : A) : quiet (ret a : Op World A).
Proof using. done. Qed.
Lemma quiet_of_result {A} (r : result SourceError A) : quiet (of_result r : Op World A).
Proof using. done. Qed.
Lemma quiet_bind {A B} (m : Op World A) (k : A -> Op World B) :
  quiet m -> (forall a, quiet (k a)) -> quiet (bind m k).
Proof using.
  intros Hm Hk w. specialize (Hm w). unfold bind. destruct (m w) as [[a|e] w']; cbn in *; [|done].
  by rewrite (Hk a w').
Qed.
Lemma quiet_fold {S A} (step : S -> A -> Op World S) l s : (forall s x, quiet (step s x)) -> quiet (fold_op step l s).
Proof using. intros H. revert s. induction l as [|x l IH]; intros s; [done|]. apply quiet_bind; auto. Qed.

#[local] Hint Resolve quiet_ret quiet_of_result quiet_bind quiet_fold : silent.

Lemma inspect_table_quiet row : quiet (inspect_table row).
Proof using laws. unfold inspect_table, inspect_columns, inspect_constraints. auto 30 with silent. Qed.
#[local] Hint Resolve inspect_table_quiet : silent.

Lemma push_object_quiet kind objects row : quiet (push_object (W := World) kind objects row).
Proof using. unfold push_object. auto with silent. Qed.
Lemma push_grant_quiet grants row : quiet (push_grant (W := World) grants row).
Proof using. destruct row as [[[[? ?] ?] ?] ?]. unfold push_grant. auto with silent. Qed.
#[local] Hint Resolve push_object_quiet push_grant_quiet : silent.

Lemma begin_source_snapshot_quiet config : quiet (begin_source_snapshot config).
Proof using laws.
  unfold begin_source_snapshot, inspect_identity, inspect_tables, inspect_objects, inspect_roles, inspect_grants.
  auto 60 with silent.
Qed.

Lemma publish_silent ph d : silent (publish ph d).
Proof using laws. unfold publish. repeat (apply silent_bind; [auto with silent|intros ?]). case_match; auto with silent. Qed.

Lemma copy_bytes_silent n : silent (copy_bytes n).
Proof using laws.
  unfold copy_bytes, set_wire_bytes. do 2 (apply silent_bind; [auto with silent|intros ?]).
  case_match; auto using publish_silent with silent.
Qed.

Lemma progress_preflight_silent p : silent (progress_preflight p).
Proof using laws. unfold progress_preflight. auto 20 using publish_silent with silent. Qed.
Lemma set_target_silent t : silent (set_target t).
Proof using laws. unfold set_target. auto using publish_silent with silent. Qed.
Lemma begin_table_silent t : silent (begin_table t).
Proof using laws. unfold begin_table. auto using publish_silent with silent. Qed.
Lemma complete_table_silent t : silent (complete_table t).
Proof using laws. unfold complete_table, set_wire_bytes. auto using publish_silent with silent. Qed.
Lemma inspect_target_identity_silent : silent inspect_target_identity.
Proof using laws. unfold inspect_target_identity. auto 10 with silent. Qed.
End quiet_parts.

#[export] Hint Resolve begin_source_snapshot_quiet publish_silent copy_bytes_silent progress_preflight_silent
  set_target_silent begin_table_silent complete_table_silent inspect_target_identity_silent : silent.

(** ** Tables *)

Section tables.
Context {formats : Formats} {driver : MigrationDriver} {laws : MigrationLaws}.
Implicit Types (P E : Target Db -> Prop).

(** [cs] are the checksums of the rows [content], read in some order. *)
Definition reads (columns : list ColumnPlan) (content : list Row) (cs : TableChecksums) : Prop :=
  exists rows, rows ≡ₚ content /\ rows_checksum columns (map Ok rows) = Ok cs.
Definition source_checksums (t : TablePlan) (cs : TableChecksums) : Prop :=
  exists sql, checksum_sql t SourceSide = Ok sql /\ reads (tp_columns t) (snapshot_rows sql) cs.
Definition target_checksums (d : Db) (t : TablePlan) (cs : TableChecksums) : Prop :=
  exists sql, checksum_sql t TargetSide = Ok sql /\ reads (tp_columns t) (read_rows d sql) cs.

(** A transfer record tells the size and digest of the table's COPY stream, its row count
    and the checksums of the source snapshot. *)
Record transferred (t : TablePlan) (payload : list byte) (tr : TableTransfer) : Prop := {
  tr_source : transfer_source tr = source_identity t;
  tr_target : target_identity t = Ok (transfer_target tr);
  tr_rows : rows tr = tp_row_count t;
  tr_wire_bytes : wire_bytes tr = len payload;
  tr_wire_sha256 : wire_sha256 tr = encode_hex (sha256 payload);
  tr_checksums : exists cs, source_checksums t cs /\ transfer_checksum tr = table_checksum cs /\
    column_verifications (tp_columns t) (tc_columns cs) = Ok (transfer_columns tr) }.

(** The contents [d] of a table agree with a transfer record. *)
Definition matches (d : Db) (t : TablePlan) (tr : TableTransfer) : Prop :=
  (exists cs, target_checksums d t cs /\ checksums_agree cs tr = true) /\
  exists sql, count_sql t = Ok sql /\ read_count d sql = rows tr.

Lemma rows_checksum_ok columns rs cs : rows_checksum columns rs = Ok cs -> exists rows, rs = map Ok rows.
Proof using.
  unfold rows_checksum, checksum_rows. intros (acc & H & _)%bind_ok. revert H.
  generalize (start_accumulators columns) as a. induction rs as [|r rs IH]; intros a H; [by exists []|].
  cbn in H. destruct r as [row|e]; [|done]. cbn in H. destruct (canonical_row _ _ _ _ _ columns row); [|done].
  destruct (IH _ H) as [rows ->]. by exists (row :: rows).
Qed.

Lemma checksum_source t P E : (forall u, P u -> E u) ->
  hoare P (checksum_table t SourceSide) (fun cs u => source_checksums t cs /\ P u) E.
Proof using laws.
  intros HE. apply (hoare_bind _ _ (fun sql u => checksum_sql t SourceSide = Ok sql /\ P u)).
  { by apply hoare_result. }
  intros sql. apply hoare_pure. intros Hsql.
  eapply (hoare_bind _ _ (fun rs u => (forall rows, rs = map Ok rows -> rows ≡ₚ snapshot_rows sql) /\ P u)).
  { apply hoare_call. intros w HP. pose proof (source_rows_quiet sql w) as Hq.
    destruct (source_rows sql w) as [[rs|e] w'] eqn:Hw; cbn in Hq; rewrite Hq; [|by apply HE].
    split; [|done]. intros rows ->. exact (source_rows_law _ _ _ _ Hw). }
  intros rs. apply hoare_pure. intros Hrs.
  eapply hoare_post; [by apply (hoare_result P)|].
  intros cs u [Hcs HP]. split; [|done]. exists sql. split; [done|].
  destruct (rows_checksum_ok _ _ _ Hcs) as [rows ->]. exists rows. by split; [apply Hrs|].
Qed.

Lemma checksum_target t P E : (forall u, P u -> E u) ->
  hoare P (checksum_table t TargetSide) (fun cs u => target_checksums (visible u) t cs /\ P u) E.
Proof using laws.
  intros HE. apply (hoare_bind _ _ (fun sql u => checksum_sql t TargetSide = Ok sql /\ P u)).
  { by apply hoare_result. }
  intros sql. apply hoare_pure. intros Hsql.
  eapply (hoare_bind _ _ (fun rs u => (forall rows, rs = map Ok rows -> rows ≡ₚ read_rows (visible u) sql) /\ P u)).
  { apply hoare_call. intros w HP. pose proof (target_rows_quiet sql w) as Hq.
    destruct (target_rows sql w) as [[rs|e] w'] eqn:Hw; cbn in Hq; rewrite Hq; [|by apply HE].
    split; [|done]. intros rows ->. exact (target_rows_law _ _ _ _ Hw). }
  intros rs. eapply hoare_post; [apply hoare_result|].
  - cbn. intros u [_ HP]. exact (HE u HP).
  - intros cs u [Hcs [Hrs HP]]. split; [|done]. exists sql. split; [done|].
    destruct (rows_checksum_ok _ _ _ Hcs) as [rows ->]. exists rows. by split; [apply Hrs|].
Qed.

Lemma run_statement_list d p l :
  hoare (opened d p) (for_each (fun sql => call (batch_execute sql)) l) (fun _ => opened d (run_statements p l)) (kept d).
Proof using laws.
  revert p. induction l as [|sql l IH]; intros p; [by apply hoare_ret|].
  eapply hoare_bind; [apply hoare_call, batch_execute_law|]. intros ?. apply IH.
Qed.

Lemma opened_kept {D} (d p : D) t : opened d p t -> kept d t.
Proof using. by intros (? & _). Qed.
Hint Resolve opened_kept : silent.

Lemma comments_applied d p t :
  hoare (opened d p) (apply_comments t)
    (fun _ u => exists l, comment_statements t = Ok l /\ opened d (run_statements p l) u) (kept d).
Proof using laws.
  eapply hoare_bind; [apply hoare_result, opened_kept|]. intros l. apply hoare_pure. intros Hl.
  eapply hoare_post; [apply run_statement_list|]. intros ? u Hu. by exists l.
Qed.

Lemma chunks_copied d p sql chunks sent :
  hoare (streaming d p sql sent) (copy_chunks chunks sent (len sent))
    (fun r u => r.2 = len r.1 /\ streaming d p sql r.1 u) (kept d).
Proof using laws.
  assert (Hk : forall s u, streaming d p sql s u -> kept d u) by by intros s u (? & _).
  revert sent. induction chunks as [|c chunks IH]; intros sent; [by apply hoare_ret|].
  eapply hoare_bind; [by apply hoare_result, Hk|]. intros chunk. apply hoare_pure. intros _.
  eapply hoare_bind; [by apply hoare_guard, Hk|]. intros ?. apply hoare_pure. intros _.
  eapply hoare_bind; [apply hoare_silent; [auto with silent|apply Hk]|]. intros ?.
  eapply hoare_bind; [apply hoare_call, copy_send_law|]. intros ?.
  replace (len sent + len chunk) with (len (sent ++ chunk)); [apply IH|].
  unfold len. rewrite length_app. lia.
Qed.

Lemma table_copied d p t :
  hoare (opened d p) (copy_table t)
    (fun r u => exists sql payload, copy_in_sql t = Ok sql /\
       r = (r.1.1, len payload, encode_hex (sha256 payload)) /\ opened d (apply_copy p sql payload) u) (kept d).
Proof using laws.
  eapply hoare_bind; [apply hoare_result, opened_kept|]. intros sql. apply hoare_pure. intros Hsql.
  eapply hoare_bind; [apply hoare_silent; [auto with silent|apply opened_kept]|]. intros output.
  eapply hoare_bind; [apply hoare_call, copy_in_law|]. intros ?.
  eapply hoare_bind; [apply (chunks_copied _ _ _ _ [])|]. intros r. apply hoare_pure. intros Hr.
  eapply hoare_bind; [apply hoare_call, copy_finish_law|]. intros n.
  apply hoare_ret. intros u Hu. exists sql, r.1. cbn. by rewrite <- Hr.
Qed.

Lemma table_prepared d p t :
  hoare (opened d p) (prepare_table t)
    (fun tr u => exists payload p', (load_table p t payload = Ok p' /\ transferred t payload tr) /\ opened d p' u)
    (kept d).
Proof using laws.
  eapply hoare_bind; [apply hoare_silent; [auto with silent|apply opened_kept]|]. intros ?.
  eapply hoare_bind; [apply table_copied|]. intros [[copied bytes] digest].
  apply hoare_exists. intros sql. apply hoare_exists. intros payload. apply hoare_pure. intros Hsql.
  apply hoare_pure. intros [= -> ->]. cbn.
  eapply hoare_bind; [apply hoare_guard, opened_kept|]. intros ?. apply hoare_pure. intros ->%Z.eqb_eq.
  eapply hoare_bind; [apply comments_applied|]. intros ?. apply hoare_exists. intros l.
  apply hoare_pure. intros Hl.
  eapply hoare_bind; [apply checksum_source, opened_kept|]. intros source. apply hoare_pure. intros Hsource.
  eapply hoare_bind; [apply hoare_silent; [|apply opened_kept]|]. { unfold checksum_table. auto 10 with silent. }
  intros target.
  eapply hoare_bind; [apply hoare_guard, opened_kept|]. intros ?. apply hoare_pure. intros _.
  eapply hoare_bind; [apply hoare_result, opened_kept|]. intros identity. apply hoare_pure. intros Hid.
  eapply hoare_bind; [apply hoare_result, opened_kept|]. intros columns. apply hoare_pure. intros Hcol.
  eapply hoare_bind; [apply hoare_silent; [auto with silent|apply opened_kept]|]. intros ?.
  apply hoare_ret. intros u Hu. exists payload. eexists. split; [|exact Hu]. split.
  - unfold load_table. by rewrite Hsql, Hl.
  - split; cbn; [done..|]. by exists source.
Qed.
Lemma tables_prepared d p ts :
  hoare (opened d p) (map_each prepare_table ts)
    (fun trs u => exists payloads p', (load_tables p ts payloads = Ok p' /\
       Forall3 transferred ts payloads trs) /\ opened d p' u) (kept d).
Proof using laws.
  revert p. induction ts as [|t ts IH]; intros p.
  { apply hoare_ret. intros u Hu. exists [], p. split; [by split; [|constructor]|done]. }
  eapply hoare_bind; [apply table_prepared|]. intros tr. apply hoare_exists. intros payload.
  apply hoare_exists. intros p1. apply hoare_pure. intros [Hload Htr].
  eapply hoare_bind; [apply IH|]. intros trs. apply hoare_exists. intros payloads.
  apply hoare_exists. intros p2. apply hoare_pure. intros [Hloads Htrs].
  apply hoare_ret. intros u Hu. exists (payload :: payloads), p2. split; [|done]. cbn. rewrite Hload.
  split; [done|by constructor].
Qed.

Lemma sql_run d p (f : TablePlan -> result SqlError str) ts :
  hoare (opened d p) (for_each (fun t => mbind (mresult SqlFailed (f t)) (fun sql => call (batch_execute sql))) ts)
    (fun _ u => exists l, collect f ts = Ok l /\ opened d (run_statements p l) u) (kept d).
Proof using laws.
  revert p. induction ts as [|t ts IH]; intros p.
  { apply hoare_ret. intros u Hu. by exists []. }
  eapply hoare_bind.
  { eapply hoare_bind; [apply hoare_result, opened_kept|]. intros sql. apply hoare_pure. intros Hsql.
    eapply (hoare_post _ _ (fun _ u => exists sql, f t = Ok sql /\ opened d (apply_statement p sql) u));
      [apply hoare_call, batch_execute_law|]. intros ? u Hu. by exists sql. }
  intros ?. apply hoare_exists. intros sql. apply hoare_pure. intros Hsql.
  eapply hoare_post; [apply IH|]. cbn. intros ? u (l & Hl & Hu). exists (sql :: l).
  by rewrite Hsql, Hl.
Qed.

Lemma target_prepared d p :
  hoare (opened d d) (prepare_target p)
    (fun trs u => exists payloads d', (migrate_db p payloads d = Ok d' /\
       Forall3 transferred (selected_tables p) payloads trs) /\ opened d d' u) (kept d).
Proof using laws.
  eapply hoare_bind; [apply sql_run|]. intros ?. apply hoare_exists. intros l. apply hoare_pure. intros Hl.
  eapply hoare_post; [apply tables_prepared|].
  intros trs u (payloads & d' & [Hd Ht] & Hu). exists payloads, d'. split; [|done]. split; [|done].
  unfold migrate_db. by rewrite Hl.
Qed.

Lemma table_verified P E t tr : (forall u, P u -> E u) ->
  hoare P (verify_table (t, tr)) (fun _ u => matches (visible u) t tr /\ P u) E.
Proof using laws.
  intros HE.
  eapply hoare_bind; [apply (checksum_target _ P), HE|]. intros cs.
  eapply hoare_bind; [apply hoare_guard; intros u [_ HP]; exact (HE u HP)|]. intros ?.
  apply hoare_pure. intros Hagree.
  eapply hoare_bind; [apply hoare_result; intros u [_ HP]; exact (HE u HP)|]. intros sql.
  apply hoare_pure. intros Hsql.
  eapply (hoare_bind _ _ (fun n u => read_count (visible u) sql = n /\ target_checksums (visible u) t cs /\ P u)).
  { apply hoare_call. intros w [Hcs HP]. pose proof (target_count_quiet sql w) as Hq.
    destruct (target_count sql w) as [[n|e] w'] eqn:Hw; cbn in Hq; rewrite Hq; [|by apply HE].
    split_and!; [|done..]. symmetry. exact (target_count_law _ _ _ _ Hw). }
  intros n.
  eapply hoare_bind; [apply hoare_guard; intros u (_ & _ & HP); exact (HE u HP)|]. intros ?.
  apply hoare_pure. intros _.
  eapply hoare_post; [apply hoare_guard; intros u (_ & _ & HP); exact (HE u HP)|].
  intros ? u (->%Z.eqb_eq & Hn & Hcs & HP). split; [|done]. split; [by exists cs|by exists sql].
Qed.

(** A list of tables that match stays matched while the rest is read. *)
Lemma tables_verified P E l : (forall u, P u -> E u) ->
  hoare P (for_each verify_table l) (fun _ u => Forall (fun x => matches (visible u) x.1 x.2) l /\ P u) E.
Proof using laws.
  revert P. induction l as [|[t tr] l IH]; intros P HE; [by apply hoare_ret|].
  eapply hoare_bind; [by apply table_verified|]. intros ?.
  eapply hoare_post; [apply IH; intros u [_ HP]; exact (HE u HP)|].
  intros ? u (Hl & Ht & HP). split; [by constructor|done].
Qed.

Lemma target_verified P E p trs : (forall u, P u -> E u) ->
  hoare P (verify_target p trs) (fun _ u => Forall2 (matches (visible u)) (selected_tables p) trs /\ P u) E.
Proof using laws.
  intros HE. eapply hoare_bind; [by apply hoare_guard|]. intros ?. apply hoare_pure. intros Hlen%Nat.eqb_eq.
  eapply hoare_post; [by apply (tables_verified P)|]. intros ? u [Hl HP]. split; [|done].
  apply Forall2_same_length_lookup_2; [done|]. intros i t tr Ht Htr.
  rewrite Forall_lookup in Hl. apply (Hl i (t, tr)). by rewrite lookup_zip_with, Ht, Htr.
Qed.
End tables.

(** ** [run_migration] *)

Section migration.
Context {formats : Formats} {driver : MigrationDriver} {laws : MigrationLaws}.
Implicit Types (P E : Target Db -> Prop).

(** [d'] is [d] after a complete migration under the preflight [p], recorded in [trs]. *)
Definition migrated (p : PreflightReport) (trs : list TableTransfer) (d d' : Db) : Prop :=
  exists payloads, migrate_db p payloads d = Ok d' /\ Forall3 transferred (selected_tables p) payloads trs.

Definition all_or_nothing (d d' : Db) : Prop :=
  d' = d \/ exists p trs, status p = Ready /\ migrated p trs d d'.

(** What each state of the report says of the target, [t0] before and [t] after the run *)
Definition migration_outcome (r : MigrationReport) (t0 t : Target Db) : Prop :=
  match mr_state r with
  | MigrationRejected => t = t0
  | FailedRolledBack => durable t = durable t0
  | CommitIndeterminate =>
      exists d, migrated (mr_preflight r) (mr_tables r) (durable t0) d /\ (durable t = durable t0 \/ durable t = d)
  | CommittedUnverified => migrated (mr_preflight r) (mr_tables r) (durable t0) (durable t)
  | Verified => migrated (mr_preflight r) (mr_tables r) (durable t0) (durable t) /\
      Forall2 (matches (durable t)) (selected_tables (mr_preflight r)) (mr_tables r)
  end.

Section run.
Variables (config : MigrationConfig) (runtime : RuntimeIdentity) (staging : option StagingPlan).
Variables (t0 : Target Db).

(** The report comes from the preflight of an inventory, and is a rejection when that is. *)
Definition reported (r : MigrationReport) : Prop :=
  (exists inventory, build_preflight parse_sql expr_to_string debug_str config inventory = Ok (mr_preflight r)) /\
  (mr_state r = MigrationRejected <-> status (mr_preflight r) = Rejected).
Definition good (r : MigrationReport) (t : Target Db) : Prop := reported r /\ migration_outcome r t0 t.
Definition partial (t : Target Db) : Prop := all_or_nothing (durable t0) (durable t).

Variables (p : PreflightReport) (inventory : SourceInventory).
Hypothesis built : build_preflight parse_sql expr_to_string debug_str config inventory = Ok p.

Lemma kept_partial t : kept (durable t0) t -> partial t.
Proof using. by left. Qed.

Hypothesis ready : status p = Ready.

Lemma reported_ready s t trs decision :
  s <> MigrationRejected -> reported (migration_report runtime staging s p t trs decision).
Proof using built ready. split; [by exists inventory|]. cbn. rewrite ready. by split. Qed.

Lemma run_failed_good t : hoare (kept (durable t0)) (run_failed runtime staging p t) good partial.
Proof using built ready laws.
  eapply hoare_bind; [apply hoare_ignore; [apply hoare_call, rollback_law|apply kept_partial]|]. intros ?.
  do 2 (eapply hoare_bind; [apply hoare_silent; [auto with silent|apply kept_partial]|]; intros ?).
  apply hoare_ret. intros u Hu. split; [by apply reported_ready|done].
Qed.

Lemma closed_kept {D} (d : D) t : closed d t -> kept d t.
Proof using. by intros [? _]. Qed.

(** After the commit *)
Section committed.
Variables (d' : Db) (trs : list TableTransfer) (t : TargetIdentity).
Hypothesis done_migration : migrated p trs (durable t0) d'.

Lemma committed_partial u : kept d' u -> partial u.
Proof using ready done_migration. intros <-. right. by exists p, trs. Qed.

Lemma run_unverified_good : hoare (kept d') (run_unverified runtime staging p t trs) good partial.
Proof using built ready laws done_migration.
  eapply hoare_bind; [apply hoare_silent; [auto with silent|apply committed_partial]|]. intros ?.
  apply hoare_ret. intros u <-. split; [by apply reported_ready|done].
Qed.

Lemma run_committed_good : hoare (closed d') (run_committed runtime staging p t trs) good partial.
Proof using built ready laws done_migration.
  assert (Hc : forall u, closed d' u -> partial u) by (intros; by apply committed_partial, closed_kept).
  eapply hoare_bind; [apply hoare_silent; [auto with silent|done]|]. intros ?.
  eapply hoare_bind.
  { eapply hoare_conseq; [apply hoare_attempt, hoare_call, connect_target_law|apply closed_kept|
      exact (fun _ _ Hu => Hu)|apply committed_partial]. }
  intros [[]|e].
  - eapply hoare_bind.
    { eapply hoare_conseq; [apply hoare_attempt, (target_verified (closed d') (closed d')); by intros|done|
        exact (fun _ _ Hu => Hu)|done]. }
    intros [[]|e].
    + eapply hoare_bind; [apply hoare_silent; [auto with silent|intros u [_ Hu]; by apply Hc]|]. intros ?.
      eapply hoare_bind; [apply hoare_silent; [auto with silent|intros u [_ Hu]; by apply Hc]|]. intros ?.
      apply hoare_ret. intros u [Hm [<- Hopen]]. split; [by apply reported_ready|]. split; [done|].
      unfold visible in Hm. by rewrite Hopen in Hm.
    + eapply hoare_bind; [apply hoare_silent; [auto with silent|apply Hc]|]. intros ?.
      eapply hoare_conseq; [apply run_unverified_good|apply closed_kept|done|done].
  - eapply hoare_bind; [apply hoare_silent; [auto with silent|apply committed_partial]|]. intros ?.
    apply run_unverified_good.
Qed.
End committed.

Lemma run_target_good : hoare (kept (durable t0)) (run_target runtime staging p) good partial.
Proof using built ready laws.
  assert (Ho : forall e u, opened (durable t0) e u -> partial u) by (intros e u [Hu _]; by left).
  eapply hoare_bind.
  { eapply hoare_conseq; [apply hoare_call, connect_target_law|done|exact (fun _ _ Hu => Hu)|apply kept_partial]. }
  intros ?. eapply hoare_bind; [apply hoare_silent; [auto with silent|intros u [Hu _]; by left]|]. intros t.
  eapply hoare_bind.
  { eapply hoare_conseq; [apply hoare_call, begin_target_law|done|exact (fun _ _ Hu => Hu)|apply kept_partial]. }
  intros ?. eapply hoare_bind; [apply hoare_silent; [auto with silent|apply Ho]|]. intros ?.
  eapply hoare_bind.
  { eapply hoare_conseq; [apply hoare_attempt, target_prepared|done|exact (fun _ _ Hu => Hu)|apply kept_partial]. }
  intros [trs|e]; [|apply run_failed_good]. apply hoare_exists. intros payloads. apply hoare_exists. intros d'.
  apply hoare_pure. intros [Hd Htrs]. assert (Hm : migrated p trs (durable t0) d') by by exists payloads.
  eapply hoare_bind; [apply hoare_silent; [auto with silent|apply Ho]|]. intros ?.
  assert (Hi : forall u, kept (durable t0) u \/ kept d' u -> partial u).
  { intros u [Hu|Hu]; [by apply kept_partial|by eapply committed_partial]. }
  eapply hoare_bind.
  { eapply hoare_conseq; [apply hoare_attempt, hoare_call, commit_law|done|exact (fun _ _ Hu => Hu)|apply Hi]. }
  intros [[]|e]; [by apply run_committed_good|].
  do 2 (eapply hoare_bind; [apply hoare_silent; [auto with silent|apply Hi]|]; intros ?).
  apply hoare_ret. intros u Hu. split; [by apply reported_ready|]. by exists d'.
Qed.
End run.

Lemma run_migration_good config runtime staging t0 :
  hoare (fun t => t = t0) (run_migration config runtime staging) (good config t0) (partial t0).
Proof using laws.
  assert (Hp : forall t, t = t0 -> partial t0 t) by (intros t ->; by left).
  eapply hoare_bind; [apply hoare_silent; [auto with silent|apply Hp]|]. intros ?.
  eapply hoare_bind; [apply hoare_silent; [auto with silent|apply Hp]|]. intros ?.
  eapply hoare_bind; [apply hoare_silent; [auto with silent|apply Hp]|]. intros inventory.
  eapply hoare_bind; [apply hoare_result, Hp|]. intros p. apply hoare_pure. intros Hbuilt.
  eapply hoare_bind; [apply hoare_silent; [auto with silent|apply Hp]|]. intros ?.
  case_bool_decide as Hs.
  - do 2 (eapply hoare_bind; [apply hoare_silent; [auto with silent|apply Hp]|]; intros ?).
    apply hoare_ret. intros u ->. split; [|done]. split; [by exists inventory|done].
  - assert (Hr : status p = Ready) by (revert Hs; by destruct (status p)).
    eapply hoare_conseq; [exact (run_target_good _ runtime staging t0 _ _ Hbuilt Hr)| |done|done].
    by intros t ->.
Qed.

(** C16: a migration is published whole or not at all.  However [run_migration] ends, with
    a report, with an error or with a panic, the durable contents of the target are the old
    ones, or those after every selected table of a ready preflight was created, loaded with
    one COPY stream and commented, each table with a transfer record of that stream. *)
Theorem migration_all_or_nothing config runtime staging st :
  all_or_nothing (durable (tgt st)) (durable (tgt (run_migration config runtime staging st).2)).
Proof using laws.
  pose proof (run_migration_good config runtime staging (tgt st) st eq_refl) as H.
  destruct (run_migration config runtime staging st) as [[r|e] st']; [|exact H].
  destruct H as [[_ Hrej] H]. unfold migration_outcome in H. cbn.
  assert (Hr : mr_state r <> MigrationRejected -> status (mr_preflight r) = Ready).
  { destruct (status (mr_preflight r)) eqn:Hs; [done|]. intros Hn. by destruct (Hn (proj2 Hrej eq_refl)). }
  destruct (mr_state r); [left; by rewrite H|by left|..].
  - destruct H as (d & Hd & [H|H]); [by left|right]. exists (mr_preflight r), (mr_tables r).
    rewrite H. by split; [apply Hr|].
  - right. exists (mr_preflight r), (mr_tables r). by split; [apply Hr|].
  - right. exists (mr_preflight r), (mr_tables r). by split; [apply Hr|destruct H].
Qed.

(** C17: the state in a migration report is the truth.  The report carries the preflight of
    the inventory and rejects exactly when the preflight does, and then the target was
    never contacted; after a rollback the target is unchanged; an indeterminate commit
    left the old contents or the complete migration; after a commit the target holds the
    complete migration; and a verified report says that a fresh connection read back, for
    every selected table, the row count and the checksums recorded from the source
    snapshot. *)
Theorem migration_report_honest config runtime staging st r st' :
  run_migration config runtime staging st = (Ok r, st') ->
  reported config r /\ migration_outcome r (tgt st) (tgt st').
Proof using laws.
  intros H. pose proof (run_migration_good config runtime staging (tgt st) st eq_refl) as Hg.
  by rewrite H in Hg.
Qed.
End migration.

(** ** Verification, promotion and cleanup *)

Section promotion.
Context {formats : Formats} {driver : MigrationDriver} {laws : MigrationLaws}.
Implicit Types (P E : Target Db -> Prop).

Lemma release_table_run d p staged released expected :
  hoare (opened d p) (promote_table (staged, released, expected))
    (fun _ u => exists p', release_one p staged released = Ok p' /\ opened d p' u) (kept d).
Proof using laws.
  eapply hoare_bind.
  { eapply hoare_bind; [apply hoare_result, opened_kept|]. intros sql. apply hoare_pure. intros Hsql.
    eapply (hoare_post _ _ (fun _ u => exists sql, create_table_sql released = Ok sql /\ opened d (apply_statement p sql) u));
      [apply hoare_call, batch_execute_law|]. intros ? u Hu. by exists sql. }
  intros ?. apply hoare_exists. intros create. apply hoare_pure. intros Hcreate.
  eapply hoare_bind; [apply hoare_result, opened_kept|]. intros insert. apply hoare_pure. intros Hinsert.
  eapply hoare_bind; [apply hoare_call, execute_law|]. intros n.
  eapply hoare_bind; [apply hoare_guard, opened_kept|]. intros ?. apply hoare_pure. intros _.
  eapply hoare_post; [apply comments_applied|]. intros ? u (l & Hl & Hu). eexists. split; [|exact Hu].
  unfold release_one. by rewrite Hcreate, Hinsert, Hl.
Qed.

Lemma release_tables_run d p (l : list (TablePlan * TablePlan * TableTransfer)) :
  hoare (opened d p) (for_each promote_table l)
    (fun _ u => exists p', release_all p (map fst l) = Ok p' /\ opened d p' u) (kept d).
Proof using laws.
  revert p. induction l as [|[[staged released] expected] l IH]; intros p.
  { apply hoare_ret. intros u Hu. by exists p. }
  eapply hoare_bind; [apply release_table_run|]. intros ?. apply hoare_exists. intros p1.
  apply hoare_pure. intros Hp1. eapply hoare_post; [apply IH|]. cbn. intros ? u (p2 & H2 & Hu).
  exists p2. by rewrite Hp1.
Qed.

(** What a promotion does to the contents [d]: the staging tables match their records, the
    release tables are created, filled and commented, match their records, and the
    staging tables are dropped. *)
Record promoted (r : MigrationReport) (rp : PreflightReport) (rts : list TableTransfer) (d d' : Db) : Prop := {
  promoted_plan : release_plan (mr_staging r) (mr_preflight r) (mr_tables r) = Ok (rp, rts);
  promoted_staging : Forall2 (matches d) (selected_tables (mr_preflight r)) (mr_tables r);
  promoted_release : exists released,
    release_all d (map fst (zip (zip (selected_tables (mr_preflight r)) (selected_tables rp)) rts)) = Ok released /\
    Forall2 (matches released) (selected_tables rp) rts /\
    drop_all drop_sql (selected_tables (mr_preflight r)) released = Ok d' }.

Lemma opened_visible {D} (d p : D) t : opened d p t -> visible t = p.
Proof using. intros (_ & <- & Ho & _). unfold visible. by rewrite Ho. Qed.

Lemma promote_tables_run r rp rts d :
  release_plan (mr_staging r) (mr_preflight r) (mr_tables r) = Ok (rp, rts) ->
  hoare (opened d d) (promote_tables r rp rts) (fun _ u => exists d', promoted r rp rts d d' /\ opened d d' u) (kept d).
Proof using laws.
  intros Hplan. eapply hoare_bind.
  { eapply (hoare_post _ _ (fun _ u => Forall2 (matches d) (selected_tables (mr_preflight r)) (mr_tables r) /\ opened d d u));
      [apply target_verified, opened_kept|]. intros ? u [Hm Hu]. by rewrite (opened_visible _ _ _ Hu) in Hm. }
  intros ?. apply hoare_pure. intros Hstaged.
  eapply hoare_bind; [apply release_tables_run|]. intros ?. apply hoare_exists. intros p1.
  apply hoare_pure. intros Hp1. eapply hoare_bind.
  { eapply (hoare_post _ _ (fun _ u => Forall2 (matches p1) (selected_tables rp) rts /\ opened d p1 u));
      [apply target_verified, opened_kept|]. intros ? u [Hm Hu]. by rewrite (opened_visible _ _ _ Hu) in Hm. }
  intros ?. apply hoare_pure. intros Hreleased.
  eapply hoare_post; [apply (sql_run _ _ drop_sql)|]. intros ? u (l & Hl & Hu). eexists. split; [|exact Hu].
  split; [done..|]. exists p1. split_and!; [done..|]. unfold drop_all. by rewrite Hl.
Qed.

Section promote.
Variables (report : MigrationReport) (input_sha256 : str) (verification : VerificationReport).
Variables (verification_sha256 : str) (runtime : RuntimeIdentity).

(** The guards a promotion passes before it connects *)
Definition promotion_allowed : bool :=
  is_verified_staging report && is_bound_verification report input_sha256 verification
  && is_bound_runtime report verification runtime.

Definition promotion_outcome (r : PromotionReport) (t0 t : Target Db) : Prop :=
  match po_state r with
  | PromotionRejected | PromotionRolledBack => durable t = durable t0
  | PromotionIndeterminate =>
      exists rp rts d, promoted report rp rts (durable t0) d /\ (durable t = durable t0 \/ durable t = d)
  | PromotionUnverified => exists rp rts, promoted report rp rts (durable t0) (durable t)
  | Promoted => exists rp rts, promoted report rp rts (durable t0) (durable t) /\
      Forall2 (matches (durable t)) (selected_tables rp) rts /\
      promoted_targets r = map transfer_target rts /\
      removed_staging_targets r = map transfer_target (mr_tables report)
  end.
Definition promotion_bound (r : PromotionReport) : Prop :=
  po_state r <> PromotionRejected ->
  promotion_allowed = true /\ po_target r = mr_target report /\ is_Some (mr_target report).
Definition promotion_all_or_nothing (d d' : Db) : Prop := d' = d \/ exists rp rts, promoted report rp rts d d'.

Variables (t0 : Target Db).
Definition good_promotion (r : PromotionReport) (t : Target Db) : Prop := promotion_bound r /\ promotion_outcome r t0 t.
Definition partial_promotion (t : Target Db) : Prop := promotion_all_or_nothing (durable t0) (durable t).

Lemma kept_promotion t : kept (durable t0) t -> partial_promotion t.
Proof using. by left. Qed.

Lemma rejected_good P t decision : (forall u, P u -> kept (durable t0) u) ->
  hoare P (promotion_failure input_sha256 verification_sha256 runtime PromotionRejected t decision)
    good_promotion partial_promotion.
Proof using. intros H. apply hoare_ret. intros u Hu. split; [done|by apply H]. Qed.

Hypothesis allowed : promotion_allowed = true.
Variables (rp : PreflightReport) (rts : list TableTransfer).
Hypothesis planned : release_plan (mr_staging report) (mr_preflight report) (mr_tables report) = Ok (rp, rts).

Lemma bound_report t s ts rs decision : mr_target report = Some t ->
  promotion_bound (mkPromotionReport 1 s input_sha256 verification_sha256 runtime (Some t) ts rs decision).
Proof using allowed. intros Ht _. cbn. rewrite Ht. by repeat split. Qed.

Lemma promotion_committed_good t d' : mr_target report = Some t -> promoted report rp rts (durable t0) d' ->
  hoare (closed d') (promotion_committed report input_sha256 verification_sha256 runtime t rp rts)
    good_promotion partial_promotion.
Proof using allowed laws.
  intros Ht Hd. assert (Hk : forall u, kept d' u -> partial_promotion u).
  { intros u <-. right. by exists rp, rts. }
  assert (Hu : hoare (kept d') (promotion_failure input_sha256 verification_sha256 runtime PromotionUnverified
                 (Some t) "promoted_but_reconciliation_required") good_promotion partial_promotion).
  { apply hoare_ret. intros u <-. split; [by apply bound_report|by exists rp, rts]. }
  eapply hoare_bind.
  { eapply hoare_conseq; [apply hoare_attempt, hoare_call, connect_target_law|apply closed_kept|
      exact (fun _ _ Hu => Hu)|apply Hk]. }
  intros [[]|e]; [|exact Hu]. eapply hoare_bind.
  { eapply hoare_conseq; [apply hoare_attempt, (target_verified (closed d') (closed d')); by intros|done|
      exact (fun _ _ Hu => Hu)|intros u Hc; by apply Hk, closed_kept]. }
  intros [[]|e].
  - apply hoare_ret. intros u [Hm [<- Hopen]]. unfold visible in Hm. rewrite Hopen in Hm.
    split; [by apply bound_report|]. by exists rp, rts.
  - eapply hoare_conseq; [exact Hu|apply closed_kept|done|done].
Qed.

Lemma promote_target_good :
  hoare (kept (durable t0)) (promote_target report input_sha256 verification_sha256 runtime rp rts)
    good_promotion partial_promotion.
Proof using allowed planned laws.
  assert (Hc : forall u, closed (durable t0) u -> kept (durable t0) u) by by intros u [Hu _].
  eapply hoare_bind.
  { eapply hoare_conseq; [apply hoare_attempt, hoare_call, connect_target_law|done|
      exact (fun _ _ Hu => Hu)|apply kept_promotion]. }
  intros [[]|e]; [|by apply rejected_good].
  eapply hoare_bind; [apply hoare_silent; [auto with silent|intros u Hu; by apply kept_promotion, Hc]|].
  intros [t|e]; [|by apply rejected_good]. case_bool_decide as Ht; cbn [negb]; [|by apply rejected_good].
  eapply hoare_bind.
  { eapply hoare_conseq; [apply hoare_attempt, hoare_call, begin_target_law|done|
      exact (fun _ _ Hu => Hu)|apply kept_promotion]. }
  intros [[]|e]; [|by apply rejected_good].
  eapply hoare_bind.
  { eapply hoare_conseq; [apply hoare_attempt, promote_tables_run, planned|done|
      exact (fun _ _ Hu => Hu)|apply kept_promotion]. }
  intros [[]|e].
  - apply hoare_exists. intros d'. apply hoare_pure. intros Hd.
    assert (Hi : forall u, kept (durable t0) u \/ kept d' u -> partial_promotion u).
    { intros u [Hu|<-]; [by apply kept_promotion|]. right. by exists rp, rts. }
    eapply hoare_bind.
    { eapply hoare_conseq; [apply hoare_attempt, hoare_call, commit_law|done|exact (fun _ _ Hu => Hu)|apply Hi]. }
    intros [[]|e]; [by apply promotion_committed_good|].
    apply hoare_ret. intros u Hu. split; [by apply bound_report|]. by exists rp, rts, d'.
  - eapply hoare_bind; [apply hoare_ignore; [apply hoare_call, rollback_law|apply kept_promotion]|]. intros ?.
    apply hoare_ret. intros u Hu. split; [by apply bound_report|done].
Qed.
End promote.

Lemma promote_good report input_sha256 verification verification_sha256 runtime t0 :
  hoare (kept (durable t0)) (promote_migration_report report input_sha256 verification verification_sha256 runtime)
    (good_promotion report input_sha256 verification runtime t0) (partial_promotion report t0).
Proof using laws.
  unfold promote_migration_report. destruct (promotion_allowed report input_sha256 verification runtime) eqn:Ha.
  - pose proof Ha as Ha'. apply andb_true_iff in Ha' as [[H1 H2]%andb_true_iff H3].
    rewrite H1, H2, H3. cbn [negb orb].
    destruct (release_plan _ _ _) as [[rp rts]|e] eqn:Hp; [by apply promote_target_good|by apply rejected_good].
  - replace (_ || _ || _) with true; [by apply rejected_good|]. symmetry. revert Ha. unfold promotion_allowed.
    by repeat destruct (is_verified_staging _), (is_bound_verification _ _ _), (is_bound_runtime _ _ _).
Qed.

(** C18: a promotion is honest and all-or-nothing.  Without a verified staging report, a
    verification bound to it and the same runtime it is rejected before the target is
    contacted.  Otherwise its state is the truth: rejected and rolled back mean unchanged
    contents; a commit published exactly the release tables filled from staging tables
    that matched their records, themselves matching theirs, with the staging tables gone;
    and only the recorded target is changed.  A panic leaves the old or the complete new
    contents. *)
Theorem promotion_report_honest report input_sha256 verification verification_sha256 runtime st :
  let run := promote_migration_report report input_sha256 verification verification_sha256 runtime st in
  (promotion_allowed report input_sha256 verification runtime = false -> run.2 = st) /\
  match run with
  | (Ok r, st') => promotion_bound report input_sha256 verification runtime r /\
      promotion_outcome report r (tgt st) (tgt st')
  | (Err _, st') => promotion_all_or_nothing report (durable (tgt st)) (durable (tgt st'))
  end.
Proof using laws.
  intros run. split.
  - intros Ha. subst run. unfold promote_migration_report.
    replace (negb _ || _ || _) with true; [done|]. symmetry. revert Ha. unfold promotion_allowed.
    by repeat destruct (is_verified_staging _), (is_bound_verification _ _ _), (is_bound_runtime _ _ _).
  - exact (promote_good report input_sha256 verification verification_sha256 runtime (tgt st) st eq_refl).
Qed.

(** Verification only reads, and what it verifies is there.  [verify_migration_report]
    never changes the durable contents; a [VerificationVerified] answer comes only for a
    verified staging report of the same runtime and the connected target, and says that
    every staging table matches its transfer record. *)
Theorem verification_sound report input_sha256 runtime st :
  let '(r, st') := verify_migration_report report input_sha256 runtime st in
  durable (tgt st') = durable (tgt st) /\
  match r with
  | Ok v => vr_state v = VerificationVerified ->
      is_verified_staging report = true /\ mr_runtime report = runtime /\ vr_target v = mr_target report /\
      Forall2 (matches (durable (tgt st'))) (selected_tables (mr_preflight report)) (mr_tables report)
  | Err _ => True
  end.
Proof using laws.
  set (d := durable (tgt st)).
  set (Q := fun (v : VerificationReport) (t : Target Db) => durable t = d /\
     (vr_state v = VerificationVerified ->
      is_verified_staging report = true /\ mr_runtime report = runtime /\ vr_target v = mr_target report /\
      Forall2 (matches (durable t)) (selected_tables (mr_preflight report)) (mr_tables report))).
  assert (H : hoare (kept d) (verify_migration_report report input_sha256 runtime) Q (kept d)).
  { assert (Hf : forall P s t l s', s <> VerificationVerified -> (forall u, P u -> kept d u) ->
      hoare P (verification_report input_sha256 runtime s t l s') Q (kept d)).
    { intros P s t l s' Hs HP. apply hoare_ret. intros u Hu. split; [by apply HP|done]. }
    assert (Hc : forall u, closed d u -> kept d u) by by intros u [Hu _].
    unfold verify_migration_report. destruct (is_verified_staging report) eqn:Hv; [|by apply Hf].
    case_bool_decide as Hr; [|by apply Hf]. cbn [negb orb].
    eapply hoare_bind; [apply hoare_attempt, hoare_call, connect_target_law|].
    intros [[]|e]; [|by apply Hf]. eapply hoare_bind; [apply hoare_silent; [auto with silent|apply Hc]|].
    intros [t|e]; [|by apply Hf]. case_bool_decide as Ht; [|by apply Hf]. cbn [negb].
    eapply hoare_bind.
    { eapply hoare_conseq; [apply hoare_attempt, (target_verified (closed d) (closed d)); by intros|done|
        exact (fun _ _ Hu => Hu)|done]. }
    intros [[]|e]; [|by apply Hf]. apply hoare_ret. intros u [Hm [Hu Hopen]].
    split; [done|]. intros _. unfold visible in Hm. by rewrite Hopen in Hm. }
  specialize (H st eq_refl). destruct (verify_migration_report report input_sha256 runtime st) as [[v|e] st'];
    [exact H|by split].
Qed.

Lemma staging_dropped d p ts :
  hoare (opened d p) (map_each drop_staging ts)
    (fun names u => exists p', (drop_all drop_if_exists_sql ts p = Ok p' /\ collect target_identity ts = Ok names) /\
       opened d p' u) (kept d).
Proof using laws.
  revert p. induction ts as [|t ts IH]; intros p.
  { apply hoare_ret. intros u Hu. by exists p. }
  eapply hoare_bind.
  { eapply hoare_bind; [apply hoare_result, opened_kept|]. intros sql. apply hoare_pure. intros Hsql.
    eapply hoare_bind; [apply hoare_call, batch_execute_law|]. intros ?.
    eapply (hoare_post _ _ (fun n u => exists sql, (drop_if_exists_sql t = Ok sql /\ target_identity t = Ok n) /\
      opened d (apply_statement p sql) u)); [apply hoare_result, opened_kept|].
    intros n u [Hn Hu]. by exists sql. }
  intros n. apply hoare_exists. intros sql. apply hoare_pure. intros [Hsql Hn].
  eapply hoare_bind; [apply IH|]. intros names. apply hoare_exists. intros p'. apply hoare_pure. intros [Hp Hnames].
  apply hoare_ret. intros u Hu. exists p'. split; [|done]. revert Hp. unfold drop_all. cbn. rewrite Hsql, Hn, Hnames.
  intros (l & Hl & [= <-])%bind_ok. by rewrite Hl.
Qed.

(** Cleanup drops the report's staging tables and nothing else.  It changes the target
    only for a verified staging report of the same runtime and the connected target; then
    the new contents are the old ones after a [DROP TABLE IF EXISTS] of every selected
    staging table, whose names it returns; and when it fails the contents are the old ones
    or those. *)
Theorem staging_cleanup_exact report input_sha256 runtime st :
  let p := mr_preflight report in
  let '(r, st') := cleanup_staging report input_sha256 runtime st in
  match r with
  | Ok c => is_verified_staging report = true /\ mr_runtime report = runtime /\ mr_target report = Some (sc_target c) /\
      cleanup_db p (durable (tgt st)) = Ok (durable (tgt st')) /\
      collect target_identity (selected_tables p) = Ok (dropped_staging_targets c)
  | Err _ => durable (tgt st') = durable (tgt st) \/
      is_verified_staging report = true /\ cleanup_db p (durable (tgt st)) = Ok (durable (tgt st'))
  end.
Proof using laws.
  intros p. set (d := durable (tgt st)).
  set (E := fun u : Target Db => durable u = d \/
    is_verified_staging report = true /\ cleanup_db p d = Ok (durable u)).
  assert (HE : forall u, kept d u -> E u) by by left.
  assert (Ho : forall d' u, opened d d' u -> E u) by (intros d' u [Hu _]; by left).
  assert (Hc : forall u, closed d u -> E u) by (intros u [Hu _]; by left).
  assert (H : hoare (kept d) (cleanup_staging report input_sha256 runtime)
    (fun c u => is_verified_staging report = true /\ mr_runtime report = runtime /\
       mr_target report = Some (sc_target c) /\ cleanup_db p d = Ok (durable u) /\
       collect target_identity (selected_tables p) = Ok (dropped_staging_targets c)) E).
  { eapply hoare_bind; [apply hoare_guard, HE|]. intros ?. apply hoare_pure. intros Hv.
    eapply hoare_bind; [apply hoare_guard, HE|]. intros ?. apply hoare_pure. intros Hr%bool_decide_eq_true.
    eapply hoare_bind.
    { eapply hoare_conseq; [apply hoare_call, connect_target_law|done|exact (fun _ _ Hu => Hu)|apply HE]. }
    intros ?. eapply hoare_bind; [apply hoare_silent; [auto with silent|apply Hc]|]. intros t.
    eapply hoare_bind; [apply hoare_guard, Hc|]. intros ?. apply hoare_pure. intros Ht%bool_decide_eq_true.
    eapply hoare_bind.
    { eapply hoare_conseq; [apply hoare_call, begin_target_law|done|exact (fun _ _ Hu => Hu)|apply HE]. }
    intros ?. eapply hoare_bind.
    { eapply hoare_conseq; [apply staging_dropped|done|exact (fun _ _ Hu => Hu)|apply HE]. }
    intros names. apply hoare_exists. intros d'. apply hoare_pure. intros [Hd Hnames].
    eapply hoare_bind.
    { eapply hoare_conseq; [apply hoare_call, commit_law|done|exact (fun _ _ Hu => Hu)|].
      intros u [Hu|<-]; [by left|by right]. }
    intros ?. apply hoare_ret. intros u [<- _]. by repeat split. }
  specialize (H st eq_refl). by destruct (cleanup_staging report input_sha256 runtime st) as [[c|e] st'].
Qed.
End promotion.

(** ** A driver in memory

    The contents of the target are the list of statements that made them. *)

Module SampleRun.
Record Faults := mkFaults { copy_fails : bool; rollback_fails : bool; source_rollback_fails : bool }.
Definition W : Type := Target (list str).

#[local] Instance queries : SourceQueries W := {|
  start_snapshot := ret tt;
  query_identity := ret (mkIdentityRow 180004 (lit "18.4") (lit "db") 5 (lit "3.6.1") (lit "t0") (lit "1:1:"));
  query_tables _ := ret [mkTableRow 7 (lit "public") (lit "places") (lit "r") 8192 (Some (lit "sites")) false false
                           (lit "default") 0];
  query_count _ := ret 2;
  query_columns _ := ret [Sample.column 1 "id" "int8" "bigint" (-1) None];
  query_constraints _ := ret [];
  query_relations _ := ret [];
  query_extensions _ := ret [];
  query_functions _ := ret [];
  query_triggers _ := ret [];
  query_roles _ := ret [];
  query_table_grants _ := ret [];
  query_column_grants _ := ret [] |}.

#[local] Instance formats : Formats := {|
  sha256 := SampleDigest.sha256;
  parse_f32_bits _ := None;
  parse_f64_bits _ := None;
  normalize_decimal _ := None;
  format_date _ := None;
  timestamp_micros _ := None;
  f64_min := Z.min;
  f64_max := Z.max;
  f64_to_string := dec;
  parse_sql := Sample.parse_sql;
  expr_to_string := Sample.expr_to_string;
  debug_str := Sample.debug_str |}.

Definition rows : list Row := [[Some (lit "1")]; [Some (lit "2")]].
(** A created table holds the two rows. *)
Definition stored (d : list str) (_ : str) : list Row := match d with [] => [] | _ => rows end.

Definition ok {A} (a : A) : Act W A := fun w => (Ok a, w).
Definition unless {A} (b : bool) (a : Act W A) : Act W A := if b then fun w => (Err DriverError, w) else a.
Definition statement {A} (a : A) (sql : str) : Act W A := fun w =>
  if open_transaction w && bool_decide (copying w = None)
  then (Ok a, mkTarget (durable w) (pending w ++ [sql]) true None (connections w)) else (Err DriverError, w).

#[local] Instance driver (f : Faults) : MigrationDriver := {|
  World := W;
  Db := list str;
  world_target w := w;
  snapshot_rows _ := rows;
  read_rows := stored;
  read_count d sql := len (stored d sql);
  apply_statement d sql := d ++ [sql];
  apply_copy d sql payload := d ++ [sql ++ payload];
  connect_source := ok tt;
  source_queries := queries;
  source_rows _ := ok (map Ok rows);
  copy_out _ := ok [Ok (lit "1" ++ [x0a]); Ok (lit "2" ++ [x0a])];
  source_rollback := unless (source_rollback_fails f) (ok tt);
  connect_target w := (Ok tt, mkTarget (durable w) (durable w) false None (S (connections w)));
  query_version := ok (lit "PostgreSQL 18.4", lit "quackgis");
  begin_target w := (Ok tt, mkTarget (durable w) (durable w) true None (connections w));
  batch_execute := statement tt;
  execute := statement 2;
  copy_in sql w := (Ok tt, mkTarget (durable w) (pending w) (open_transaction w) (Some (sql, [])) (connections w));
  copy_send chunk := unless (copy_fails f) (fun w =>
    match copying w with
    | Some (sql, sent) => (Ok tt, mkTarget (durable w) (pending w) (open_transaction w) (Some (sql, sent ++ chunk)) (connections w))
    | None => (Err DriverError, w)
    end);
  copy_finish w :=
    match copying w with
    | Some (sql, sent) => (Ok 2, mkTarget (durable w) (pending w ++ [sql ++ sent]) (open_transaction w) None (connections w))
    | None => (Err DriverError, w)
    end;
  target_rows sql w := (Ok (map Ok (stored (visible w) sql)), w);
  target_count sql w := (Ok (len (stored (visible w) sql)), w);
  commit w := (Ok tt, mkTarget (pending w) (pending w) false None (connections w));
  rollback := unless (rollback_fails f) (fun w => (Ok tt, mkTarget (durable w) (durable w) false None (connections w)));
  write_progress _ := ok tt |}.

Lemma quiet_source f : QuietSource (driver := driver f).
Proof. by split. Qed.
Lemma quiet_calls f : QuietCalls (driver := driver f).
Proof. split; try done. intros w. cbn. unfold unless. by case_match. Qed.

Lemma rows_returned (l l' : list Row) (w w' : W) :
  (Ok (E := RunError) (map (Ok (E := ChecksumError)) l), w) = (Ok (map Ok l'), w') -> l' ≡ₚ l.
Proof.
  intros H. assert (Hm : map (Ok (E := ChecksumError)) l = map Ok l') by congruence. clear H.
  revert l' Hm. induction l as [|r l IH]; intros [|r' l'] Hm; try done.
  cbn in Hm. injection Hm as -> Hm. by rewrite (IH _ Hm).
Qed.
Lemma laws f : MigrationLaws (driver := driver f).
Proof.
  split; [apply quiet_source|apply quiet_calls|..]; unfold ensures, opened, streaming, closed, kept; cbn;
    unfold unless, statement.
  - by intros d w ->.
  - intros d w (<- & _). done.
  - intros d p sql w (<- & <- & -> & ->). by case_bool_decide.
  - intros d p sql w (<- & <- & -> & ->). by case_bool_decide.
  - by intros d p sql w (<- & <- & -> & _).
  - intros d p sql sent chunk w (<- & <- & Ho & Hc). destruct (copy_fails f); [done|]. by rewrite Hc.
  - intros d p sql sent w (<- & <- & Ho & Hc). by rewrite Hc.
  - by intros d p w (_ & <- & _).
  - intros d w <-. by destruct (rollback_fails f).
  - intros sql w l w' H. exact (rows_returned rows _ _ _ H).
  - intros sql w l w' H. exact (rows_returned _ _ _ _ H).
  - by intros sql w n w' [= <- _].
Qed.

Definition config : MigrationConfig :=
  mkMigrationConfig 1 (mkSourceRequirements 180004 (lit "3.6.1")) [lit "public"]
    [mkTableMapping (lit "public") (lit "places") (lit "main") (lit "places") ∅] ∅ [].
Definition id : str := lit "r1".
Definition staged : MigrationConfig := with_tables config (map (staged_mapping id) (tables config)).
Definition plan : StagingPlan := mkStagingPlan id (map (staging_target_of id) (tables config)).
Definition runtime : RuntimeIdentity := mkRuntimeIdentity (lit "ab") None None None ∅ None.

Definition smooth : Faults := mkFaults false false false.
Definition start (f : Faults) : St (driver := driver f) :=
  mkSt (driver := driver f) (mkTarget [] [] false None 0) (new_progress false).
Definition run (f : Faults) : result RunError MigrationReport * St (driver := driver f) :=
  run_migration (driver := driver f) staged runtime (Some plan) (start f).
Definition run_report (r : result RunError MigrationReport) : MigrationReport :=
  match r with
  | Ok r => r
  | Err _ => mkMigrationReport 0 MigrationRejected runtime None Sample.report None [] ""
  end.
Definition report : MigrationReport := Eval vm_compute in run_report (run smooth).1.
Definition final : St (driver := driver smooth) := Eval vm_compute in (run smooth).2.
Lemma run_verified : run smooth = (Ok report, final).
Proof. vm_compute. reflexivity. Qed.

Definition verify_run := verify_migration_report (driver := driver smooth) report (lit "in") runtime final.
Definition verification : VerificationReport := Eval vm_compute in
  match verify_run.1 with
  | Ok v => v
  | Err _ => mkVerificationReport 0 VerificationFailed [] runtime None [] ""
  end.
Definition promote_run :=
  promote_migration_report (driver := driver smooth) report (lit "in") verification (lit "ver") runtime final.
Definition promotion : PromotionReport := Eval vm_compute in
  match promote_run.1 with
  | Ok p => p
  | Err _ => mkPromotionReport 0 PromotionRejected [] [] runtime None [] [] ""
  end.
Definition promoted_state : St (driver := driver smooth) := Eval vm_compute in promote_run.2.
Lemma promote_promoted : promote_run = (Ok promotion, promoted_state).
Proof. vm_compute. reflexivity. Qed.
End SampleRun.
#[local] Existing Instance SampleRun.formats.

Lemma migration_all_or_nothing_witness :
  all_or_nothing (driver := SampleRun.driver SampleRun.smooth) []
    (durable (tgt (driver := SampleRun.driver SampleRun.smooth) SampleRun.final)).
Proof.
  pose proof (@migration_all_or_nothing SampleRun.formats (SampleRun.driver SampleRun.smooth)
    (SampleRun.laws SampleRun.smooth) SampleRun.staged SampleRun.runtime (Some SampleRun.plan)
    (SampleRun.start SampleRun.smooth)) as H.
  fold (SampleRun.run SampleRun.smooth) in H. rewrite SampleRun.run_verified in H. exact H.
Defined.

Lemma migration_report_honest_witness :
  Forall2 (matches (driver := SampleRun.driver SampleRun.smooth) (durable (world SampleRun.final)))
    (selected_tables (mr_preflight SampleRun.report)) (mr_tables SampleRun.report).
Proof.
  exact (proj2 (proj2 (@migration_report_honest SampleRun.formats (SampleRun.driver SampleRun.smooth)
    (SampleRun.laws SampleRun.smooth) _ _ _ _ _ _ SampleRun.run_verified))).
Defined.

Lemma promotion_report_honest_witness :
  exists rp rts, promoted (driver := SampleRun.driver SampleRun.smooth) SampleRun.report rp rts
    (durable (world SampleRun.final)) (durable (world SampleRun.promoted_state)).
Proof.
  pose proof (@promotion_report_honest SampleRun.formats (SampleRun.driver SampleRun.smooth)
    (SampleRun.laws SampleRun.smooth) SampleRun.report (lit "in") SampleRun.verification (lit "ver")
    SampleRun.runtime SampleRun.final) as H.
  cbv zeta in H. fold SampleRun.promote_run in H. rewrite SampleRun.promote_promoted in H.
  destruct H as [_ [_ (rp & rts & H & _)]]. exists rp, rts. exact H.
Defined.

Lemma verification_sound_witness :
  vr_state SampleRun.verification = VerificationVerified /\
  Forall2 (matches (driver := SampleRun.driver SampleRun.smooth) (durable (tgt (driver := SampleRun.driver SampleRun.smooth) SampleRun.verify_run.2)))
    (selected_tables (mr_preflight SampleRun.report)) (mr_tables SampleRun.report).
Proof.
  pose proof (@verification_sound SampleRun.formats (SampleRun.driver SampleRun.smooth)
    (SampleRun.laws SampleRun.smooth) SampleRun.report (lit "in") SampleRun.runtime SampleRun.final) as H.
  fold SampleRun.verify_run in H. assert (Hv : SampleRun.verify_run.1 = Ok SampleRun.verification)
    by (vm_compute; reflexivity).
  destruct SampleRun.verify_run as [r st']. cbn [fst] in Hv. subst r.
  split; [reflexivity|]. exact (proj2 (proj2 (proj2 (proj2 H eq_refl)))).
Defined.

Lemma staging_cleanup_exact_witness :
  cleanup_db (driver := SampleRun.driver SampleRun.smooth) (mr_preflight SampleRun.report)
      (durable (world SampleRun.final))
  = Ok (durable (tgt (driver := SampleRun.driver SampleRun.smooth)
          (cleanup_staging (driver := SampleRun.driver SampleRun.smooth) SampleRun.report (lit "in")
             SampleRun.runtime SampleRun.final).2)).
Proof.
  pose proof (@staging_cleanup_exact (SampleRun.driver SampleRun.smooth)
    (SampleRun.laws SampleRun.smooth) SampleRun.report (lit "in") SampleRun.runtime SampleRun.final) as H.
  assert (Hok : exists c, (cleanup_staging (driver := SampleRun.driver SampleRun.smooth) SampleRun.report (lit "in")
             SampleRun.runtime SampleRun.final).1 = Ok c) by (eexists; vm_compute; reflexivity).
  destruct Hok as [c Hc]. destruct (cleanup_staging _ _ _ _) as [r st']. cbn [fst] in Hc. subst r.
  destruct H as (_ & _ & _ & H & _). exact H.
Defined.

(** A failed rollback is still reported as [FailedRolledBack]: the transaction may be open
    when the report says that it was rolled back. *)
Theorem failed_rollback_reported_rolled_back :
  let '(r, st) := SampleRun.run (SampleRun.mkFaults true true false) in
  match r with Ok r => mr_state r = FailedRolledBack | Err _ => False end /\
  open_transaction (tgt (driver := SampleRun.driver (SampleRun.mkFaults true true false)) st) = true.
Proof. vm_compute. split; reflexivity. Qed.

(** When the rollback of the source fails after the target's commit, the run ends in an
    error and no report is returned, though the migration is published. *)
Theorem commit_can_end_without_report :
  let '(r, st) := SampleRun.run (SampleRun.mkFaults false false true) in
  r = Err DriverError /\ durable (world st) = durable (world SampleRun.final).
Proof. vm_compute. split; reflexivity. Qed.
