(* ===== verification/RestTokens.v ===== *)
(** * Tokens, secrets and request parsing of the REST gateway ([quackgis-rest/src/main.rs])

    [JwtVerifier] decides from a bearer token which database role a request runs as.
    Base64, JSON text, HMAC and SHA-256 come from crates and are parameters; a JSON value
    is the data [serde_json::Value] offers.  The clock and the secret files are arguments,
    read anew for every request as the code does. *)

From S2P Require Import Prelude MigrateConfig MigrateFiles.
#[local] Open Scope Z_scope.

Definition MAX_JWT_BYTES : Z := 24576.
Definition MAX_JWT_CLAIMS_BYTES : Z := 16384.
Definition MAX_JWT_SECRET_BYTES : Z := 4096.
Definition MAX_JWT_SECRET_FILE_BYTES : Z := 8192.
Definition MAX_DATABASE_PASSWORD_BYTES : Z := 4096.
Definition MAX_DATABASE_PASSWORD_FILE_BYTES : Z := 8192.
Definition JWT_CLOCK_SKEW_SECONDS : Z := 30.

Inductive RestError :=
  | NoTables
  | InvalidTable
  | NoRoles
  | InvalidRole
  | SecretNotOpened
  | SecretNotInspected
  | SecretNotRegularFile
  | SecretNotRead
  | SecretMalformed
  | PasswordNotRegularFile
  | PasswordPermissions
  | PasswordMalformed
  | BadLabel
  | PasswordFileRequired
  | PasswordFileRefused
  | BadDatabaseUrl
  | PasswordInUrl
  | CaRefused
  | CaNotRead
  | CaEmpty
  | TlsWithoutCa
  | HostsNotLoopback.

(** ** Bytes and text *)

Definition is_ascii_control (b : byte) : bool := (bz b <=? 31) || (bz b =? 127).
Definition is_ascii_graphic (b : byte) : bool := in_range 33 126 b.
Definition underscore : byte := x5f.
Definition dollar : byte := x24.

(** [trim_ascii] *)
Definition trim_ascii (value : list byte) : list byte := trim_matches is_ascii_whitespace value.

(** [valid_identifier]: every accepted character is ASCII, so characters are bytes. *)
Definition identifier_start (b : byte) : bool := bool_decide (b = underscore) || is_ascii_lowercase b.
Definition identifier_byte (b : byte) : bool :=
  bool_decide (b = underscore) || bool_decide (b = dollar) || is_ascii_lowercase b || is_ascii_digit b.
Definition valid_identifier (value : str) : bool :=
  (len value <=? 63)
  && match value with b :: _ => identifier_start b | [] => false end
  && forallb identifier_byte value.

(** [valid_jwt_label] *)
Definition valid_jwt_label (value : str) : bool :=
  negb (bool_decide (value = [])) && (len value <=? 256)
  && forallb (fun b => is_ascii_graphic b && negb (is_ascii_control b)) value.

(** [parse_tables] and [parse_roles]: the non-empty trimmed parts *)
Definition comma_list (value : str) : gset str :=
  list_to_set (filter (fun part => part <> []) (map trim (split_on x2c value))).
Definition table_name_ok (t : str) : bool :=
  match t with
  | [] => false
  | b :: rest => (bool_decide (b = underscore) || is_ascii_alphabetic b)
      && forallb (fun b => bool_decide (b = underscore) || is_ascii_alphanumeric b) rest
  end.
Definition parse_tables (value : str) : result RestError (gset str) :=
  let tables := comma_list value in
  _ ← ensure (negb (bool_decide (tables = ∅))) NoTables;
  _ ← ensure (forallb table_name_ok (elements tables)) InvalidTable;
  Ok tables.

Definition reserved_roles : list str := [lit "public"; lit "none"; lit "current_user"; lit "session_user"].
Definition parse_roles (value : str) : result RestError (gset str) :=
  let roles := comma_list value in
  _ ← ensure (negb (bool_decide (roles = ∅))) NoRoles;
  _ ← ensure (forallb (fun r => valid_identifier r && negb (bool_decide (r ∈ reserved_roles))) (elements roles))
        InvalidRole;
  Ok roles.

(** ** Secrets *)

(** [read_jwt_secret]; the outer [option] is the result of opening the file. *)
Definition read_jwt_secret (file : option File) : result RestError (list byte) :=
  f ← ok_or file SecretNotOpened;
  md ← ok_or (metadata f) SecretNotInspected;
  _ ← ensure (negb (negb (is_file md) || (MAX_JWT_SECRET_FILE_BYTES <? file_len md))) SecretNotRegularFile;
  raw ← ok_or (contents f) SecretNotRead;
  let secret := trim_ascii (take (Z.to_nat (MAX_JWT_SECRET_FILE_BYTES + 1)) raw) in
  _ ← ensure (negb ((len secret <? 32) || (MAX_JWT_SECRET_BYTES <? len secret) || existsb is_ascii_whitespace secret))
        SecretMalformed;
  Ok secret.

Record DatabaseCredential := mkDatabaseCredential { password : list byte; revision : list byte }.

Section sha.
Variable sha256 : list byte -> list byte.
(** [read_database_password] *)
Definition read_database_password (f : File) : result RestError DatabaseCredential :=
  md ← ok_or (metadata f) SecretNotInspected;
  _ ← ensure (negb (is_symlink md || negb (is_file md) || (MAX_DATABASE_PASSWORD_FILE_BYTES <? file_len md)))
        PasswordNotRegularFile;
  _ ← ensure (Z.land (file_mode md) 63 =? 0) PasswordPermissions;
  raw ← ok_or (contents f) SecretNotRead;
  let password := trim_ascii (take (Z.to_nat (MAX_DATABASE_PASSWORD_FILE_BYTES + 1)) raw) in
  _ ← ensure (negb (bool_decide (password = []) || (MAX_DATABASE_PASSWORD_BYTES <? len password)
                    || existsb is_ascii_control password)) PasswordMalformed;
  Ok (mkDatabaseCredential password (sha256 password)).
End sha.

(** ** JSON values *)

Inductive Json :=
  | JNull
  | JBool (b : bool)
  | JNumber (u64 : option Z)
  | JString (s : str)
  | JArray (l : list Json)
  | JObject (fields : list (str * Json)).

Definition as_str (v : Json) : option str := match v with JString s => Some s | _ => None end.
Definition as_u64 (v : Json) : option Z := match v with JNumber n => n | _ => None end.
Definition as_array (v : Json) : option (list Json) := match v with JArray l => Some l | _ => None end.
Definition as_object (v : Json) : option (list (str * Json)) := match v with JObject o => Some o | _ => None end.
Fixpoint get (key : str) (fields : list (str * Json)) : option Json :=
  match fields with
  | [] => None
  | (k, v) :: rest => if bool_decide (k = key) then Some v else get key rest
  end.
Definition contains_key (key : str) (fields : list (str * Json)) : bool := bool_decide (is_Some (get key fields)).

(** [value.as_str() == Some(s)] *)
Definition is_string (s : str) (v : Json) : bool := bool_decide (as_str v = Some s).

(** [valid_audience] *)
Definition valid_audience (value : option Json) (expected : str) : bool :=
  match value with
  | None => false
  | Some v => is_string expected v
      || match as_array v with Some l => existsb (is_string expected) l | None => false end
  end.

(** ** [JwtVerifier] *)

Record JwtVerifier := mkJwtVerifier {
  issuer : str;
  audience : str;
  roles : gset str }.
Record RequestIdentity := mkRequestIdentity { role : str; claims : str }.

(** [JwtVerifier::from_file] *)
Definition from_file (file : option File) (iss aud : str) (rs : gset str) : result RestError JwtVerifier :=
  _ ← read_jwt_secret file;
  _ ← ensure (negb (negb (valid_jwt_label iss) || negb (valid_jwt_label aud))) BadLabel;
  Ok (mkJwtVerifier iss aud rs).

Section jwt.
Variable b64_decode : str -> option (list byte).
Variable from_slice : list byte -> option Json.
Variable to_json : list (str * Json) -> option str.
Variable hmac_verify : list byte -> list byte -> list byte -> bool.

(** [decode_json_segment] *)
Definition decode_json_segment (value : str) (max_bytes : Z) : result unit Json :=
  _ ← ensure (negb (saturating_mul max_bytes 2 <? len value)) tt;
  bytes ← ok_or (b64_decode value) tt;
  _ ← ensure (negb (max_bytes <? len bytes)) tt;
  ok_or (from_slice bytes) tt.

(** The algorithm header *)
Definition header_ok (header : list (str * Json)) : bool :=
  negb (negb (bool_decide ((get (lit "alg") header ≫= as_str) = Some (lit "HS256")))
        || match get (lit "typ") header with Some v => negb (is_string (lit "JWT") v) | None => false end
        || contains_key (lit "crit") header
        || contains_key (lit "b64") header).

(** [exp] and [nbf] *)
Definition times_ok (now : Z) (c : list (str * Json)) : result unit unit :=
  expires ← ok_or (get (lit "exp") c ≫= as_u64) tt;
  _ ← ensure (negb (saturating_add expires JWT_CLOCK_SKEW_SECONDS <? now)) tt;
  match get (lit "nbf") c with
  | None => Ok tt
  | Some v =>
      not_before ← ok_or (as_u64 v) tt;
      ensure (negb (saturating_add now JWT_CLOCK_SKEW_SECONDS <? not_before)) tt
  end.

(** [JwtVerifier::verify] *)
Definition signed_text (header claims : str) : str := header ++ [x2e] ++ claims.
Definition verify (self : JwtVerifier) (secret_file : option File) (clock : option Z) (token : str)
    : result unit RequestIdentity :=
  _ ← ensure (negb (bool_decide (token = []) || (MAX_JWT_BYTES <? len token))) tt;
  match split_on x2e token with
  | [encoded_header; encoded_claims; encoded_signature] =>
      header ← decode_json_segment encoded_header 1024;
      header ← ok_or (as_object header) tt;
      _ ← ensure (header_ok header) tt;
      signature ← ok_or (b64_decode encoded_signature) tt;
      secret ← map_err (fun _ => tt) (read_jwt_secret secret_file);
      _ ← ensure (hmac_verify secret (signed_text encoded_header encoded_claims) signature) tt;
      c ← decode_json_segment encoded_claims MAX_JWT_CLAIMS_BYTES;
      c ← ok_or (as_object c) tt;
      _ ← ensure (negb (negb (bool_decide ((get (lit "iss") c ≫= as_str) = Some (issuer self)))
                        || negb (valid_audience (get (lit "aud") c) (audience self)))) tt;
      now ← ok_or clock tt;
      _ ← times_ok now c;
      r ← ok_or (get (lit "role") c ≫= as_str) tt;
      _ ← ensure (bool_decide (r ∈ roles self)) tt;
      text ← ok_or (to_json c) tt;
      _ ← ensure (negb (MAX_JWT_CLAIMS_BYTES <? len text)) tt;
      Ok (mkRequestIdentity r text)
  | _ => Err tt
  end.

(** [JwtVerifier::identity] of the [Authorization] header, if it is a visible string *)
Definition request_identity (self : JwtVerifier) (secret_file : option File) (clock : option Z)
    (authorization : option str) : result unit RequestIdentity :=
  token ← ok_or (authorization ≫= strip_prefix (lit "Bearer ")) tt;
  verify self secret_file clock token.
End jwt.

(** ** What a request must show *)

Lemma as_str_some v s : as_str v = Some s <-> v = JString s.
Proof. destruct v; simpl; naive_solver. Qed.
Lemma as_object_some v o : as_object v = Some o <-> v = JObject o.
Proof. destruct v; simpl; naive_solver. Qed.
Lemma as_u64_some v n : as_u64 v = Some n <-> v = JNumber (Some n).
Proof. destruct v; simpl; naive_solver. Qed.
Lemma get_str k h s : (get k h ≫= as_str) = Some s <-> get k h = Some (JString s).
Proof.
  destruct (get k h) as [v|]; simpl; [|done]. rewrite as_str_some. naive_solver.
Qed.
Lemma get_u64 k h n : (get k h ≫= as_u64) = Some n <-> get k h = Some (JNumber (Some n)).
Proof.
  destruct (get k h) as [v|]; simpl; [|done]. rewrite as_u64_some. naive_solver.
Qed.
Lemma is_string_true s v : is_string s v = true <-> v = JString s.
Proof. unfold is_string. rewrite bool_decide_eq_true. apply as_str_some. Qed.

Record header_valid (h : list (str * Json)) : Prop := {
  alg_hs256 : get (lit "alg") h = Some (JString (lit "HS256"));
  typ_jwt : get (lit "typ") h = None \/ get (lit "typ") h = Some (JString (lit "JWT"));
  no_crit : get (lit "crit") h = None;
  no_b64 : get (lit "b64") h = None }.

Lemma header_ok_iff h : header_ok h = true <-> header_valid h.
Proof.
  unfold header_ok, contains_key. rewrite negb_true_iff, !orb_false_iff, negb_false_iff.
  rewrite bool_decide_eq_true, get_str, !bool_decide_eq_false, <- !eq_None_not_Some.
  split.
  - intros [[[Ha Ht] Hc] Hb]. split; [done| |done..].
    destruct (get (lit "typ") h) as [v|]; [right|by left].
    by rewrite negb_false_iff, is_string_true in Ht; subst.
  - intros [Ha Ht Hc Hb]. split_and!; [done| |done..].
    destruct Ht as [->| ->]; [done|]. rewrite negb_false_iff. by apply is_string_true.
Qed.

Lemma audience_iff v a :
  valid_audience v a = true <-> v = Some (JString a) \/ exists l, v = Some (JArray l) /\ JString a ∈ l.
Proof.
  unfold valid_audience. destruct v as [v|]; [|naive_solver].
  rewrite orb_true_iff, is_string_true. destruct v; simpl; try naive_solver.
  rewrite existsb_elem. setoid_rewrite is_string_true. naive_solver.
Qed.
Record claims_valid (self : JwtVerifier) (now : Z) (c : list (str * Json)) : Prop := {
  iss_ours : get (lit "iss") c = Some (JString (issuer self));
  aud_ours : get (lit "aud") c = Some (JString (audience self)) \/
    exists l, get (lit "aud") c = Some (JArray l) /\ JString (audience self) ∈ l;
  not_expired : exists e, get (lit "exp") c = Some (JNumber (Some e)) /\ now <= e + 30 /\ now <= u64_max;
  nbf_reached : get (lit "nbf") c = None \/
    exists n, get (lit "nbf") c = Some (JNumber (Some n)) /\ n <= now + 30 /\ n <= u64_max }.

Section authentic.
Variable b64_decode : str -> option (list byte).
Variable from_slice : list byte -> option Json.
Variable to_json : list (str * Json) -> option str.
Variable hmac_verify : list byte -> list byte -> list byte -> bool.

(** [segment] is base64 of at most [limit] bytes of the JSON object [fields]. *)
Definition encodes (segment : str) (limit : Z) (fields : list (str * Json)) : Prop :=
  exists bytes, b64_decode segment = Some bytes /\ from_slice bytes = Some (JObject fields) /\
    len bytes <= limit /\ len segment <= saturating_mul limit 2.

Record authentic (self : JwtVerifier) (secret_file : option File) (clock : option Z) (token : str)
    (id : RequestIdentity) : Prop := {
  bounded_token : len token <= MAX_JWT_BYTES;
  signed : exists h c s header fields signature secret now,
    (token = signed_text h c ++ x2e :: s /\ x2e ∉ h /\ x2e ∉ c /\ x2e ∉ s) /\
    (encodes h 1024 header /\ header_valid header) /\
    (b64_decode s = Some signature /\ read_jwt_secret secret_file = Ok secret /\
     hmac_verify secret (signed_text h c) signature = true) /\
    (encodes c MAX_JWT_CLAIMS_BYTES fields /\ clock = Some now /\ claims_valid self now fields) /\
    get (lit "role") fields = Some (JString (role id)) /\ role id ∈ roles self /\
    to_json fields = Some (claims id) /\ len (claims id) <= MAX_JWT_CLAIMS_BYTES }.

Lemma decode_segment value limit fields :
  (v ← decode_json_segment b64_decode from_slice value limit; ok_or (as_object v) tt) = Ok fields <->
  encodes value limit fields.
Proof using.
  unfold decode_json_segment, encodes. split.
  - intros H. inv_ok. bool_prop. apply as_object_some in H. subst.
    eexists. split_and!; [done..|lia|lia].
  - intros (bytes & -> & H & Hb & Hl). simpl. rewrite !(proj2 (Z.ltb_ge _ _)) by lia. simpl.
    rewrite H. done.
Qed.

Lemma times_ok_iff now c :
  times_ok now c = Ok tt <->
  (exists e, get (lit "exp") c = Some (JNumber (Some e)) /\ now <= e + 30 /\ now <= u64_max) /\
  (get (lit "nbf") c = None \/ exists n, get (lit "nbf") c = Some (JNumber (Some n)) /\ n <= now + 30 /\ n <= u64_max).
Proof using.
  unfold times_ok, saturating_add, JWT_CLOCK_SKEW_SECONDS. rewrite bind_ok. setoid_rewrite ok_or_ok.
  setoid_rewrite get_u64. setoid_rewrite bind_ok. setoid_rewrite ensure_ok.
  setoid_rewrite negb_true_iff. setoid_rewrite Z.ltb_ge. split.
  - intros (e & He & [] & Hle & Hn). split; [exists e; split; [done|lia]|].
    destruct (get (lit "nbf") c) as [v|]; [right|by left]. apply bind_ok in Hn as (n & Hv & Hn).
    apply ok_or_ok, as_u64_some in Hv as ->. apply ensure_ok, negb_true_iff, Z.ltb_ge in Hn.
    exists n. split; [done|lia].
  - intros [(e & He & Hle) Hn]. exists e. split; [done|]. exists tt. split; [lia|].
    destruct Hn as [->|(n & -> & Hn)]; [done|]. simpl.
    apply ensure_ok, negb_true_iff, Z.ltb_ge. lia.
Qed.

(** A JSON object decoded from a segment, within the continuation that uses it *)
Lemma decode_bind {B} value limit (k : list (str * Json) -> result unit B) b :
  (v ← decode_json_segment b64_decode from_slice value limit; o ← ok_or (as_object v) tt; k o) = Ok b <->
  exists fields, encodes value limit fields /\ k fields = Ok b.
Proof using.
  rewrite bind_ok. split.
  - intros (v & Hv & (o & Ho & Hk)%bind_ok). exists o. split; [|done].
    apply decode_segment. rewrite Hv. exact Ho.
  - intros (fields & He & Hk). apply decode_segment, bind_ok in He as (v & Hv & Ho).
    exists v. split; [done|]. apply bind_ok. by exists fields.
Qed.

Lemma guarded {E B} c (e : E) (r : result E B) b : (ensure c e ≫= fun _ => r) = Ok b <-> c = true /\ r = Ok b.
Proof using. destruct c; simpl; [by intuition|]. split; [done|by intros [? _]]. Qed.

Lemma issued_here self c :
  negb (negb (bool_decide ((get (lit "iss") c ≫= as_str) = Some (issuer self)))
        || negb (valid_audience (get (lit "aud") c) (audience self))) = true <->
  get (lit "iss") c = Some (JString (issuer self)) /\
  (get (lit "aud") c = Some (JString (audience self)) \/
   exists l, get (lit "aud") c = Some (JArray l) /\ JString (audience self) ∈ l).
Proof using.
  rewrite negb_true_iff, orb_false_iff, !negb_false_iff, bool_decide_eq_true, get_str.
  by rewrite audience_iff.
Qed.

Lemma verify_authentic self secret_file clock token id :
  verify b64_decode from_slice to_json hmac_verify self secret_file clock token = Ok id <->
  authentic self secret_file clock token id.
Proof using.
  unfold verify. rewrite guarded, negb_true_iff, orb_false_iff, bool_decide_eq_false, Z.ltb_ge. split.
  - intros [[_ Hlen] H]. split; [done|].
    destruct (split_on x2e token) as [|h [|c [|s [|? ?]]]] eqn:Hsplit; try done.
    apply split_on_three in Hsplit as [Hfree ->].
    apply decode_bind in H as (header & Hh & H). apply guarded in H as [Hok H].
    apply bind_ok in H as (signature & Hsig%ok_or_ok & H).
    apply bind_ok in H as (secret & Hsec%map_err_ok & H). apply guarded in H as [Hmac H].
    apply decode_bind in H as (fields & Hc & H). apply guarded in H as [[Hiss Haud]%issued_here H].
    apply bind_ok in H as (now & Hnow%ok_or_ok & H). apply bind_ok in H as ([] & [Hexp Hnbf]%times_ok_iff & H).
    apply bind_ok in H as (r & Hr%ok_or_ok%get_str & H). apply guarded in H as [Hin%bool_decide_eq_true H].
    apply bind_ok in H as (text & Ht%ok_or_ok & H). apply guarded in H as [Hl [= <-]].
    apply header_ok_iff in Hok. apply negb_true_iff, Z.ltb_ge in Hl.
    exists h, c, s, header, fields, signature, secret, now. unfold signed_text in *. rewrite <- app_assoc. simpl.
    destruct Hfree as (? & ? & ?). by split_and!.
  - intros [Hlen (h & c & s & header & fields & signature & secret & now & (Ht & Hfree) & (Hh & Hok) & (Hsig & Hsec & Hmac)
      & (Hc & Hnow & [Hiss Haud Hexp Hnbf]) & Hr & Hin & Htext & Hl)].
    split. { split; [|done]. intros Hnil. rewrite Hnil in Ht. unfold signed_text in Ht. destruct h; discriminate Ht. }
    rewrite (proj2 (split_on_three x2e token h c s)).
    2:{ split; [done|]. rewrite Ht. unfold signed_text. by rewrite <- app_assoc. }
    apply decode_bind. exists header. split; [done|]. apply guarded. split; [by apply header_ok_iff|].
    rewrite Hsig. simpl. rewrite Hsec. simpl. rewrite Hmac. simpl.
    apply decode_bind. exists fields. split; [done|]. apply guarded. split; [by apply issued_here|].
    rewrite Hnow. simpl. rewrite (proj2 (times_ok_iff now fields)) by done. simpl. rewrite Hr. simpl.
    rewrite bool_decide_eq_true_2 by done. simpl. rewrite Htext. simpl.
    rewrite (proj2 (Z.ltb_ge _ _)) by done. by destruct id.
Qed.

(** C24: a token is accepted exactly when it is authentic.  [verify] returns the identity
    [id] if and only if the token is three base64 segments of bounded size, its header
    asks for HS256 and nothing else, the signature is the HMAC of the first two segments
    under the secret read for this request, the claims name our issuer and audience, the
    clock is within 30 seconds of the claimed interval, and [id] is the claimed role,
    which is one of the configured ones, with the claims as text. *)
Theorem verify_iff_authentic self secret_file clock token id :
  verify b64_decode from_slice to_json hmac_verify self secret_file clock token = Ok id <->
  authentic self secret_file clock token id.
Proof using. apply verify_authentic. Qed.

Lemma request_identity_role self secret_file clock authorization id :
  request_identity b64_decode from_slice to_json hmac_verify self secret_file clock authorization = Ok id ->
  role id ∈ roles self.
Proof using.
  intros (token & _ & H)%bind_ok. apply verify_authentic in H as [_ (? & ? & ? & ? & ? & ? & ? & ? & H)].
  by destruct H as (_ & _ & _ & _ & _ & Hin & _).
Qed.
End authentic.
