(* ===== verification/RestRequests.v ===== *)
(** * Request parsing and database configuration of the REST gateway ([quackgis-rest/src/main.rs])

    The parsers of select lists, orderings and filters and the SQL builder belong to the
    [pg-rest-server] crate and are parameters; [parse_read_request] is the loop of the
    gateway over the query parameters. *)

From S2P Require Import Prelude MigrateConfig MigrateFiles RestTokens.
#[local] Open Scope Z_scope.

Definition RESERVED_PARAMS : list str := [lit "select"; lit "order"; lit "limit"; lit "offset"].

Inductive RequestError :=
  | BadSelect | BadOrder | BadLimit | BadOffset | BadLogic (key : str) | BadFilter (column : str).

Record QualifiedName := mkQualifiedName { name_schema : str; name_table : str }.

(** [parse_nonnegative] *)
Definition parse_nonnegative (value : str) (e : RequestError) : result RequestError Z :=
  n ← ok_or (parse_i64 value) e;
  _ ← ensure (0 <=? n) e;
  Ok n.

(** [str::replace] *)
Fixpoint replace_from (from to s : str) (skip : nat) : str :=
  match s with
  | [] => []
  | b :: rest =>
      match skip with
      | S k => replace_from from to rest k
      | O => if starts_with from s then to ++ replace_from from to rest (length from - 1)
             else b :: replace_from from to rest 0
      end
  end.
Definition replace (from to s : str) : str := replace_from from to s 0.

(** [adapt_quackgis_sql] *)
Definition adapt_quackgis_sql (sql : str) : str :=
  replace (lit "to_jsonb(") (lit "to_json(") (replace (lit "json_agg(") (lit "json_group_array(") sql).

Lemma reserved_params k : k ∈ RESERVED_PARAMS <-> k = lit "select" \/ k = lit "order" \/ k = lit "limit" \/ k = lit "offset".
Proof. unfold RESERVED_PARAMS. rewrite !elem_of_cons, elem_of_nil. tauto. Qed.

(** ** [parse_read_request] *)

Section parsing.
Context {Select Order Condition Logic : Type}.
Variable star : Select.
Variable no_order : Order.
Variable parse_query : str -> list (str * str).
Variable parse_select : str -> option Select.
Variable parse_order : str -> option Order.
Variable parse_logic_filter : str -> str -> option Logic.
Variable parse_filter : str -> str -> option Condition.

Inductive FilterNode := NodeCondition (c : Condition) | NodeLogic (l : Logic).
Record ReadRequest := mkReadRequest {
  rr_table : QualifiedName;
  rr_select : Select;
  rr_filters : list FilterNode;
  rr_order : Order;
  rr_limit : option Z;
  rr_offset : option Z }.

(** One round of the loop over the query parameters *)
Definition read_parameter (r : ReadRequest) (pair : str * str) : result RequestError ReadRequest :=
  let '(key, value) := pair in
  if bool_decide (key = lit "select") then
    select ← ok_or (parse_select value) BadSelect;
    Ok (mkReadRequest (rr_table r) select (rr_filters r) (rr_order r) (rr_limit r) (rr_offset r))
  else if bool_decide (key = lit "order") then
    order ← ok_or (parse_order value) BadOrder;
    Ok (mkReadRequest (rr_table r) (rr_select r) (rr_filters r) order (rr_limit r) (rr_offset r))
  else if bool_decide (key = lit "limit") then
    n ← parse_nonnegative value BadLimit;
    Ok (mkReadRequest (rr_table r) (rr_select r) (rr_filters r) (rr_order r) (Some n) (rr_offset r))
  else if bool_decide (key = lit "offset") then
    n ← parse_nonnegative value BadOffset;
    Ok (mkReadRequest (rr_table r) (rr_select r) (rr_filters r) (rr_order r) (rr_limit r) (Some n))
  else if bool_decide (key = lit "or") || bool_decide (key = lit "and") then
    l ← ok_or (parse_logic_filter key value) (BadLogic key);
    Ok (mkReadRequest (rr_table r) (rr_select r) (rr_filters r ++ [NodeLogic l]) (rr_order r) (rr_limit r) (rr_offset r))
  else if bool_decide (key ∈ RESERVED_PARAMS) then Ok r
  else
    c ← ok_or (parse_filter key value) (BadFilter key);
    Ok (mkReadRequest (rr_table r) (rr_select r) (rr_filters r ++ [NodeCondition c]) (rr_order r) (rr_limit r) (rr_offset r)).

Definition parse_read_request (table query : str) : result RequestError ReadRequest :=
  try_fold read_parameter (parse_query query)
    (mkReadRequest (mkQualifiedName (lit "public") table) star [] no_order None None).

(** ** What a parsed request holds *)

(** The last value of a parameter *)
Definition last_value (key : str) (pairs : list (str * str)) : option str :=
  last (map snd (filter (fun p => p.1 = key) pairs)).
Definition is_filter (p : str * str) : Prop := p.1 ∉ RESERVED_PARAMS.
Definition filter_of (p : str * str) (f : FilterNode) : Prop :=
  match f with
  | NodeLogic l => (p.1 = lit "or" \/ p.1 = lit "and") /\ parse_logic_filter p.1 p.2 = Some l
  | NodeCondition c => (p.1 <> lit "or" /\ p.1 <> lit "and") /\ parse_filter p.1 p.2 = Some c
  end.
(** The value of a page bound, and its range *)
Definition page_bound (key : str) (pairs : list (str * str)) (n : option Z) : Prop :=
  n = (last_value key pairs ≫= parse_i64) /\ match n with Some n => 0 <= n <= i64_max | None => last_value key pairs = None end.

Record reads_query (table : str) (pairs : list (str * str)) (r : ReadRequest) : Prop := {
  request_table : rr_table r = mkQualifiedName (lit "public") table;
  request_filters : Forall2 filter_of (filter is_filter pairs) (rr_filters r);
  request_select : Some (rr_select r) =
    match last_value (lit "select") pairs with Some v => parse_select v | None => Some star end;
  request_order : Some (rr_order r) =
    match last_value (lit "order") pairs with Some v => parse_order v | None => Some no_order end;
  request_limit : page_bound (lit "limit") pairs (rr_limit r);
  request_offset : page_bound (lit "offset") pairs (rr_offset r) }.

Lemma last_value_snoc key pairs p :
  last_value key (pairs ++ [p]) = if bool_decide (p.1 = key) then Some p.2 else last_value key pairs.
Proof using.
  unfold last_value. rewrite filter_app, map_app, filter_cons, filter_nil. case_decide as H.
  - rewrite bool_decide_eq_true_2 by done. apply last_snoc.
  - rewrite bool_decide_eq_false_2 by done. by rewrite app_nil_r.
Qed.

Lemma parse_i64_range s n : parse_i64 s = Some n -> i64_min <= n <= i64_max.
Proof using. unfold parse_i64. intros (z & _ & H)%bind_Some. case_match; simplify_eq. bool_prop. lia. Qed.

Lemma page_bound_skip key pairs p n : p.1 <> key -> page_bound key pairs n -> page_bound key (pairs ++ [p]) n.
Proof using. unfold page_bound. intros H. by rewrite last_value_snoc, bool_decide_eq_false_2. Qed.

Lemma page_bound_set key pairs value e n :
  parse_nonnegative value e = Ok n -> page_bound key (pairs ++ [(key, value)]) (Some n).
Proof using.
  unfold parse_nonnegative, page_bound. intros (m & Hm%ok_or_ok & (u & Hu%ensure_ok & [= <-])%bind_ok)%bind_ok.
  rewrite last_value_snoc, bool_decide_eq_true_2 by done. split; [exact (eq_sym Hm)|].
  apply parse_i64_range in Hm. apply Z.leb_le in Hu. lia.
Qed.

Lemma filter_snoc_skip pairs (p : str * str) fs :
  p.1 ∈ RESERVED_PARAMS -> Forall2 filter_of (filter is_filter pairs) fs ->
  Forall2 filter_of (filter is_filter (pairs ++ [p])) fs.
Proof using.
  intros H. rewrite filter_app, filter_cons, filter_nil, decide_False by (unfold is_filter; naive_solver).
  by rewrite app_nil_r.
Qed.

Lemma filter_snoc pairs (p : str * str) fs f :
  p.1 ∉ RESERVED_PARAMS -> filter_of p f -> Forall2 filter_of (filter is_filter pairs) fs ->
  Forall2 filter_of (filter is_filter (pairs ++ [p])) (fs ++ [f]).
Proof using.
  intros H Hf Hfs. rewrite filter_app, filter_cons, filter_nil, decide_True by done.
  apply Forall2_app; [done|by constructor].
Qed.

Lemma value_skip {A} key pairs (p : str * str) (f : str -> option A) d x :
  p.1 <> key -> Some x = match last_value key pairs with Some v => f v | None => d end ->
  Some x = match last_value key (pairs ++ [p]) with Some v => f v | None => d end.
Proof using. intros H. by rewrite last_value_snoc, bool_decide_eq_false_2. Qed.

Lemma value_set {A} key pairs value (f : str -> option A) d x :
  f value = Some x -> Some x = match last_value key (pairs ++ [(key, value)]) with Some v => f v | None => d end.
Proof using. intros H. by rewrite last_value_snoc, bool_decide_eq_true_2. Qed.

(** Keys with different texts *)
Ltac other_key := cbn [fst]; first [assumption | intros Hkey; subst; discriminate Hkey].
Ltac read_step filters :=
  split; cbn [rr_table rr_select rr_filters rr_order rr_limit rr_offset];
  [ assumption
  | filters
  | first [by apply value_set | apply value_skip; [other_key|assumption]]
  | first [by apply value_set | apply value_skip; [other_key|assumption]]
  | first [by eapply page_bound_set | apply page_bound_skip; [other_key|assumption]]
  | first [by eapply page_bound_set | apply page_bound_skip; [other_key|assumption]] ].

Lemma read_parameter_step table pairs p r r' :
  reads_query table pairs r -> read_parameter r p = Ok r' -> reads_query table (pairs ++ [p]) r'.
Proof using.
  destruct p as [key value]. intros [Ht Hf Hs Ho Hl Hn]. unfold read_parameter.
  case_bool_decide as H1; [|case_bool_decide as H2; [|case_bool_decide as H3; [|case_bool_decide as H4]]].
  1-4: intros (x & Hx & [= <-])%bind_ok; try apply ok_or_ok in Hx; subst key;
    read_step ltac:(apply filter_snoc_skip; [apply reserved_params; cbn [fst]; first [by left|by right; left|by right; right; left|by right; right; right]|assumption]).
  assert (Hfree : key ∉ RESERVED_PARAMS) by (rewrite reserved_params; intros [?|[?|[?|?]]]; contradiction).
  rewrite (bool_decide_eq_false_2 _ Hfree). destruct (_ || _) eqn:H5;
    intros (x & Hx%ok_or_ok & [= <-])%bind_ok;
    read_step ltac:(apply filter_snoc; [exact Hfree|split; [|exact Hx]|assumption]).
  - rewrite orb_true_iff, !bool_decide_eq_true in H5. exact H5.
  - rewrite orb_false_iff, !bool_decide_eq_false in H5. exact H5.
Qed.

(** The parsed request is what the query says.  A successful [parse_read_request] reads
    the named table of schema [public]; every parameter that is not reserved gives one
    filter, in order; the select list, the ordering, the limit and the offset are those of
    the last such parameter; and limit and offset are non-negative 64-bit integers. *)
Theorem read_request_faithful table query r :
  parse_read_request table query = Ok r -> reads_query table (parse_query query) r.
Proof using.
  unfold parse_read_request. intros H.
  loop_inv H (fun pairs r => reads_query table pairs r); [exact H| |].
  - by split.
  - intros pairs p r1 r2 _ Hr Hs. by eapply read_parameter_step.
Qed.
End parsing.

(** ** The database connection *)

Inductive SslMode := SslDisable | SslPrefer | SslRequire.
#[export] Instance ssl_mode_eq_dec : EqDecision SslMode.
Proof. solve_decision. Defined.
Record RestConfig := mkRestConfig { rc_password : option (list byte); rc_hosts : list Host; rc_ssl : SslMode }.

Inductive DatabaseAuthMode := PasswordFileMode | EdgePreauthenticatedMode.
Inductive DatabaseAuthentication := PasswordFile (file : File) | EdgePreauthenticated.
Record DatabaseConnector := mkDatabaseConnector {
  database_url : str;
  connector_ca : option File;
  authentication : DatabaseAuthentication }.

(** The authentication chosen in [DatabaseConnection::new] *)
Definition database_authentication (mode : DatabaseAuthMode) (file : option File)
    : result RestError DatabaseAuthentication :=
  match mode with
  | PasswordFileMode => PasswordFile <$> ok_or file PasswordFileRequired
  | EdgePreauthenticatedMode =>
      _ ← ensure (bool_decide (file = None)) PasswordFileRefused;
      Ok EdgePreauthenticated
  end.

Section database.
Variable sha256 : list byte -> list byte.
Variable parse_url : str -> option RestConfig.
Variable parse_ip : str -> option IpAddr.
Variable parse_certs : list byte -> option (list (list byte)).
Variable root_accepted : list byte -> bool.

(** [DatabaseConnector::credential] *)
Definition credential (self : DatabaseConnector) : result RestError DatabaseCredential :=
  match authentication self with
  | PasswordFile f => read_database_password sha256 f
  | EdgePreauthenticated => Ok (mkDatabaseCredential [] (replicate 32 x00))
  end.

(** [database_config] *)
Definition database_config (url : str) (password : option (list byte)) : result RestError RestConfig :=
  config ← ok_or (parse_url url) BadDatabaseUrl;
  _ ← ensure (negb (bool_decide (is_Some (rc_password config)))) PasswordInUrl;
  Ok (match password with
      | Some p => mkRestConfig (Some p) (rc_hosts config) (rc_ssl config)
      | None => config
      end).

(** [validate_loopback_database_hosts] *)
Definition loopback_tcp (h : Host) : bool :=
  match h with
  | HostTcp n => match parse_ip n with Some a => is_loopback a | None => false end
  | HostUnix _ => false
  end.
Definition validate_loopback_database_hosts (config : RestConfig) : result RestError unit :=
  ensure (negb (bool_decide (rc_hosts config = []) || existsb (fun h => negb (loopback_tcp h)) (rc_hosts config)))
    HostsNotLoopback.

(** [connect_database], up to the dialled connection *)
Definition connect_database (url : str) (ca : option File) (password : option (list byte)) (edge : bool)
    : result RestError Dialed :=
  config ← database_config url password;
  config ← (if edge then
              _ ← ensure (bool_decide (ca = None)) CaRefused;
              _ ← validate_loopback_database_hosts config;
              Ok (mkRestConfig (rc_password config) (rc_hosts config) SslDisable)
            else Ok config);
  match ca with
  | Some f =>
      raw ← ok_or (contents f) CaNotRead;
      certificates ← ok_or (parse_certs raw) CaNotRead;
      _ ← ensure (negb (bool_decide (certificates = []))) CaEmpty;
      _ ← ensure (forallb root_accepted certificates) CaNotRead;
      Ok (mkDialed (rc_password config) (rc_hosts config) (TransportTls certificates None))
  | None =>
      _ ← ensure (negb (bool_decide (rc_ssl config = SslRequire))) TlsWithoutCa;
      Ok (mkDialed (rc_password config) (rc_hosts config) TransportPlaintext)
  end.

(** [DatabaseConnector::connect] *)
Definition is_edge (a : DatabaseAuthentication) : bool :=
  match a with EdgePreauthenticated => true | PasswordFile _ => false end.
Definition connector_connect (self : DatabaseConnector) (c : DatabaseCredential) : result RestError Dialed :=
  let edge := is_edge (authentication self) in
  connect_database (database_url self) (connector_ca self) (if edge then None else Some (RestTokens.password c)) edge.

(** A connection sends the password of the file and no other, or none and only to
    loopback addresses; it is encrypted when a CA is configured or the URL asks for it. *)
Record database_policy (self : DatabaseConnector) (c : DatabaseCredential) (d : Dialed) : Prop := {
  policy_password : dial_password d = if is_edge (authentication self) then None else Some (RestTokens.password c);
  policy_edge : authentication self = EdgePreauthenticated ->
    transport d = TransportPlaintext /\ dial_hosts d <> [] /\
    Forall (fun h => exists n a, h = HostTcp n /\ parse_ip n = Some a /\ is_loopback a = true) (dial_hosts d);
  policy_ca : forall f, connector_ca self = Some f ->
    exists raw roots, contents f = Some raw /\ parse_certs raw = Some roots /\ roots <> [] /\
      transport d = TransportTls roots None;
  policy_require : forall config, parse_url (database_url self) = Some config -> is_edge (authentication self) = false ->
    rc_ssl config = SslRequire -> transport d <> TransportPlaintext }.

Lemma loopback_hosts config :
  validate_loopback_database_hosts config = Ok tt ->
  rc_hosts config <> [] /\
  Forall (fun h => exists n a, h = HostTcp n /\ parse_ip n = Some a /\ is_loopback a = true) (rc_hosts config).
Proof using.
  unfold validate_loopback_database_hosts. rewrite ensure_ok, negb_true_iff, orb_false_iff, bool_decide_eq_false.
  intros [Hn He]. split; [done|]. apply Forall_forall. intros h Hh.
  assert (Hl : loopback_tcp h = true).
  { destruct (loopback_tcp h) eqn:Hl; [done|]. rewrite <- He. apply existsb_elem. exists h. by rewrite Hl. }
  destruct h as [n|u]; [|done]. simpl in Hl. destruct (parse_ip n) as [a|] eqn:Ha; [|done]. by exists n, a.
Qed.

Lemma configured url password config :
  database_config url password = Ok config ->
  exists parsed, parse_url url = Some parsed /\ rc_password config = password /\
    rc_hosts config = rc_hosts parsed /\ rc_ssl config = rc_ssl parsed.
Proof using.
  unfold database_config. intros (parsed & Hp%ok_or_ok & (u & Hu%ensure_ok & [= <-])%bind_ok)%bind_ok.
  exists parsed. split; [done|]. rewrite negb_true_iff, bool_decide_eq_false, <- eq_None_not_Some in Hu.
  by destruct password.
Qed.

(** The gateway's database connections follow the policy.  Whenever a connection is
    opened, the password sent is that of the password file, or none for a
    pre-authenticated edge, which is then reached only on literal loopback addresses; a
    configured CA means TLS with its roots; and a URL that requires TLS is never
    connected in plain text. *)
Theorem database_connection_policy self c d : connector_connect self c = Ok d -> database_policy self c d.
Proof using.
  unfold connector_connect, connect_database. intros (config & Hc & (config' & He & H)%bind_ok)%bind_ok.
  destruct (configured _ _ _ Hc) as (parsed & Hp & Hpw & Hh & Hssl).
  assert (Hf : rc_password config' = rc_password config /\ rc_hosts config' = rc_hosts config /\
    (is_edge (authentication self) = false -> rc_ssl config' = rc_ssl config) /\
    (is_edge (authentication self) = true -> connector_ca self = None /\ validate_loopback_database_hosts config = Ok tt)).
  { destruct (is_edge (authentication self)); [|injection He as <-; by repeat split].
    apply bind_ok in He as (? & Hca%ensure_ok%bool_decide_eq_true & He).
    apply bind_ok in He as ([] & Hl & [= <-]). by repeat split. }
  destruct Hf as (Hp' & Hh' & Hs' & Hedge). destruct (connector_ca self) as [f|] eqn:Hca.
  - apply bind_ok in H as (raw & Hraw%ok_or_ok & H). apply bind_ok in H as (roots & Hroots%ok_or_ok & H).
    apply bind_ok in H as (? & Hne%ensure_ok & H). apply bind_ok in H as (? & Hadd%ensure_ok & [= <-]).
    rewrite negb_true_iff, bool_decide_eq_false in Hne. split; cbn.
    + by rewrite Hp', Hpw.
    + intros Ha. rewrite Ha in Hedge. by destruct (Hedge eq_refl).
    + intros f' Hf'. rewrite Hca in Hf'. injection Hf' as <-. by exists raw, roots.
    + done.
  - apply bind_ok in H as (? & Hr%ensure_ok & [= <-]). rewrite negb_true_iff, bool_decide_eq_false in Hr. split; cbn.
    + by rewrite Hp', Hpw.
    + intros Ha. rewrite Ha in Hedge. destruct (Hedge eq_refl) as [_ Hl%loopback_hosts]. by rewrite Hh'.
    + intros f Hf. by rewrite Hca in Hf.
    + intros config0 Hc0 Ha Hreq. rewrite Hp in Hc0. injection Hc0 as <-. destruct Hr. rewrite (Hs' Ha). congruence.
Qed.
End database.

(** ** Witnesses *)

Definition demo_pairs (q : str) : list (str * str) := [(lit "id", q); (lit "limit", lit "10"); (lit "select", lit "name")].
Lemma read_request_faithful_witness :
  exists r : @ReadRequest str str str str,
    rr_limit r = Some 10 /\ reads_query (lit "*") [] Some Some (fun _ => Some) (fun _ => Some) (lit "roads") (demo_pairs (lit "eq.1")) r.
Proof.
  destruct (parse_read_request (Logic := str) (lit "*") [] demo_pairs Some Some (fun _ => Some) (fun _ => Some) (lit "roads") (lit "eq.1"))
    as [r|] eqn:H; [|discriminate H]. exists r. split; [by injection H as <-|].
  apply (read_request_faithful _ _ demo_pairs _ _ _ _ _ (lit "eq.1") _ H).
Defined.
Definition demo_connector : DatabaseConnector := mkDatabaseConnector (lit "postgres") None EdgePreauthenticated.
Definition demo_url (_ : str) : option RestConfig := Some (mkRestConfig None [HostTcp (lit "127.0.0.1")] SslPrefer).
Definition demo_ip (_ : str) : option IpAddr := Some (V4 [127; 0; 0; 1]).
Lemma database_connection_policy_witness :
  database_policy demo_url demo_ip (fun _ => None) demo_connector (mkDatabaseCredential [] [])
    (mkDialed None [HostTcp (lit "127.0.0.1")] TransportPlaintext).
Proof.
  apply (database_connection_policy demo_url demo_ip (fun _ => None) (fun _ => true)). reflexivity.
Defined.
