(* ===== verification/RestGateway.v ===== *)
(** * The REST gateway: connection, schema caches and handlers ([quackgis-rest/src/main.rs])

    The state of the process is the active database client with the counter of connection
    generations, the schema cache of every role, and the list of the calls made to the
    database so far, the latest first.  What the database, the files and the clock answer
    is a function of that list.  A call whose answer does not arrive within the statement
    timeout is [Elapsed]: the request's future is dropped where it stands.

    A request is a resumption: it runs up to the next lock it waits for ([Wait]), and is
    resumed on the state other requests have left there.  The calls of a request that holds
    the lock of the connection are one step, since what other requests may do meanwhile,
    checking a token and using the schema caches, touches nothing these calls use. *)

From S2P Require Import Prelude MigrateConfig MigrateChecksum MigrateFiles RestTokens RestRequests.
#[local] Open Scope Z_scope.

(** ** Data *)

Record PgError := mkPgError { pg_closed : bool; pg_unsupported : bool; pg_message : option str }.
Inductive DbError :=
  | PgFailed (e : PgError)
  | Refused (e : RestError)
  | EpochsChanged
  | GenerationExhausted
  | MissingTables.

(** [SchemaValidation] and [EpochValidation] *)
Inductive SchemaValidation :=
  | Epochs (schema security connection_generation : Z)
  | Revision (digest : list byte).
Inductive EpochValidation := Available (v : SchemaValidation) | Unsupported.
#[export] Instance schema_validation_eq_dec : EqDecision SchemaValidation.
Proof. solve_decision. Defined.

Record Column := mkColumn { column_name : str; pg_type : str; column_nullable : bool; default_expr : option str }.
(** The tables of schema [public], each with its columns in order *)
Notation SchemaCache := (gmap str (list Column)).
Record DiscoveredSchema := mkDiscoveredSchema { discovered_schema : SchemaCache; discovered_validation : SchemaValidation }.
Record SchemaCacheEntry := mkSchemaCacheEntry {
  entry_role : str;
  entry_schema : SchemaCache;
  entry_validation : SchemaValidation }.

(** A row of [information_schema.columns] *)
Record ColumnRow := mkColumnRow {
  row_table : str;
  row_column : str;
  row_type : str;
  row_nullable : str;
  row_default : option str }.

Inductive Call (Client : Type) :=
  | CallConnect (d : Dialed)
  | CallEpochs (c : Client)
  | CallBegin (c : Client)
  | CallExecute (c : Client) (sql : str)
  | CallColumns (c : Client)
  | CallSetClaims (c : Client) (claims : str)
  | CallPrepare (c : Client) (sql : str)
  | CallQuery (c : Client) (sql : str) (parameters : list str)
  | CallPing (c : Client)
  | CallCommit (c : Client).
Arguments CallConnect {Client}. Arguments CallEpochs {Client}. Arguments CallBegin {Client}.
Arguments CallExecute {Client}. Arguments CallColumns {Client}. Arguments CallSetClaims {Client}.
Arguments CallPrepare {Client}. Arguments CallQuery {Client}. Arguments CallPing {Client}.
Arguments CallCommit {Client}.

Inductive Answer (A : Type) := Replied (r : result PgError A) | Elapsed.
Arguments Replied {A}. Arguments Elapsed {A}.

Class Backend := {
  Client : Type;
  connect_answer : list (Call Client) -> Dialed -> Answer Client;
  epochs_answer : list (Call Client) -> Client -> Answer (Z * Z);
  begin_answer : list (Call Client) -> Client -> Answer unit;
  execute_answer : list (Call Client) -> Client -> str -> Answer unit;
  columns_answer : list (Call Client) -> Client -> Answer (list ColumnRow);
  claims_answer : list (Call Client) -> Client -> str -> Answer unit;
  prepare_answer : list (Call Client) -> Client -> str -> Answer unit;
  query_answer : list (Call Client) -> Client -> str -> list str -> Answer str;
  ping_answer : list (Call Client) -> Client -> Answer unit;
  commit_answer : list (Call Client) -> Client -> Answer unit;
  is_closed : list (Call Client) -> Client -> bool;
  lock_elapsed : list (Call Client) -> bool;
  (* the files and the clock *)
  connector : list (Call Client) -> DatabaseConnector;
  secret_file : list (Call Client) -> option File;
  clock : list (Call Client) -> option Z }.

(** Parsing, printing and digests of other crates *)
Class Codecs := {
  sha256 : list byte -> list byte;
  parse_url : str -> option RestConfig;
  parse_ip : str -> option IpAddr;
  parse_certs : list byte -> option (list (list byte));
  root_accepted : list byte -> bool;
  b64_decode : str -> option (list byte);
  from_slice : list byte -> option Json;
  to_json : list (str * Json) -> option str;
  hmac_verify : list byte -> list byte -> list byte -> bool;
  error_text : DbError -> str;
  (* the [pg-rest-server] crate *)
  Select : Type;
  Order : Type;
  Condition : Type;
  Logic : Type;
  star : Select;
  no_order : Order;
  parse_query : str -> list (str * str);
  parse_select : str -> option Select;
  parse_order : str -> option Order;
  parse_logic_filter : str -> str -> option Logic;
  parse_filter : str -> str -> option Condition;
  request_error_text : RequestError -> str;
  build_sql : SchemaCache -> ReadRequest (Select := Select) (Order := Order) (Condition := Condition) (Logic := Logic) ->
    result str (str * list str) }.

Record ActiveDatabaseClient {B : Backend} := mkActiveDatabaseClient {
  client : Client;
  credential_revision : list byte;
  generation : Z;
  epoch_capability : option bool }.
Record State {B : Backend} := mkState {
  active : option ActiveDatabaseClient;
  next_generation : Z;
  caches : gmap str SchemaCacheEntry;
  trace : list (Call Client) }.
Arguments mkActiveDatabaseClient {B}. Arguments mkState {B}.

Inductive Outcome (A : Type) := Done (a : A) | Failed (e : DbError) | TimedOut.
Arguments Done {A}. Arguments Failed {A}. Arguments TimedOut {A}.
(** A request: finished, or waiting for a lock *)
Inductive Task {B : Backend} (A : Type) := Finish (o : Outcome A) | Wait (resume : State -> State * Task A).
Arguments Finish {B A}. Arguments Wait {B A}.

(** [update_schema_revision]: the bytes hashed for one value *)
Definition revision_bytes (value : option str) : list byte :=
  match value with
  | Some v => u64_to_be_bytes (len v) ++ v
  | None => u64_to_be_bytes u64_max
  end.
Definition row_bytes (r : ColumnRow) : list byte :=
  revision_bytes (Some (row_table r)) ++ revision_bytes (Some (row_column r)) ++ revision_bytes (Some (row_type r))
  ++ revision_bytes (Some (row_nullable r)) ++ revision_bytes (row_default r).

(** [table.columns.push(..)] of the entry of the row's table *)
Definition push_column (tables : SchemaCache) (r : ColumnRow) : SchemaCache :=
  <[row_table r := default [] (tables !! row_table r) ++
      [mkColumn (row_column r) (row_type r) (eq_ignore_ascii_case (row_nullable r) (lit "YES")) (row_default r)]]> tables.
Definition exposed_rows (exposed : gset str) (rows : list ColumnRow) : list ColumnRow :=
  filter (fun r => row_table r ∈ exposed) rows.
(** The loop of [discover_schema]: the tables, and the bytes of the revision *)
Definition build_tables (exposed : gset str) (rows : list ColumnRow) : SchemaCache :=
  foldl push_column ∅ (exposed_rows exposed rows).
Definition revision_input (exposed : gset str) (rows : list ColumnRow) : list byte :=
  concat (map row_bytes (exposed_rows exposed rows)).

Definition set_role_sql (role : str) : str := lit "SET LOCAL ROLE " ++ role.

(** [SchemaCacheEntry::matches] *)
Definition entry_matches (e : SchemaCacheEntry) (role : str) (v : SchemaValidation) : bool :=
  bool_decide (entry_role e = role) && bool_decide (entry_validation e = v).
Definition new_entry (role : str) (d : DiscoveredSchema) : SchemaCacheEntry :=
  mkSchemaCacheEntry role (discovered_schema d) (discovered_validation d).

Section gateway.
Context {backend : Backend} {codecs : Codecs}.

(** ** The monad of a request *)

Definition M (A : Type) : Type := State -> State * Task A.
Definition mret {A} (a : A) : M A := fun st => (st, Finish (Done a)).
Definition mfail {A} (e : DbError) : M A := fun st => (st, Finish (Failed e)).
(** What follows a task, given the outcome of the task *)
Fixpoint task_bind {A B} (t : Task A) (k : Outcome A -> M B) : M B :=
  fun st => match t with
            | Finish o => k o st
            | Wait resume => (st, Wait (fun st1 => let '(st2, t2) := resume st1 in task_bind t2 k st2))
            end.
Definition obind {A B} (m : M A) (k : Outcome A -> M B) : M B := fun st => let '(st', t) := m st in task_bind t k st'.
Definition mbind {A B} (m : M A) (k : A -> M B) : M B :=
  obind m (fun o st => match o with
                       | Done a => k a st
                       | Failed e => (st, Finish (Failed e))
                       | TimedOut => (st, Finish TimedOut)
                       end).
Definition mresult {A} (r : result RestError A) : M A :=
  match r with Ok a => mret a | Err e => mfail (Refused e) end.
(** The result of a future that is inspected: a dropped future is not. *)
Definition attempt {A} (m : M A) : M (result DbError A) :=
  obind m (fun o st => match o with
                       | Done a => (st, Finish (Done (Ok a)))
                       | Failed e => (st, Finish (Done (Err e)))
                       | TimedOut => (st, Finish TimedOut)
                       end).
(** [tokio::time::timeout(statement_timeout, m)] *)
Definition with_timeout {A} (m : M A) : M (Outcome A) := obind m mret.
#[local] Notation "'let*' x := m 'in' k" := (mbind m (fun x => k)) (at level 200, x name, right associativity).

Definition get_state : M State := fun st => (st, Finish (Done st)).
Definition ask {A} (c : Call Client) (answer : list (Call Client) -> Answer A) : M A :=
  fun st => (mkState (active st) (next_generation st) (caches st) (c :: trace st),
             Finish (match answer (trace st) with
                     | Replied (Ok a) => Done a
                     | Replied (Err e) => Failed (PgFailed e)
                     | Elapsed => TimedOut
                     end)).
Definition set_active (a : option ActiveDatabaseClient) : M unit :=
  fun st => (mkState a (next_generation st) (caches st) (trace st), Finish (Done tt)).
Definition set_cache (role : str) (e : SchemaCacheEntry) : M unit :=
  fun st => (mkState (active st) (next_generation st) (<[role := e]> (caches st)) (trace st), Finish (Done tt)).
Definition wait_lock : M unit := fun st => (st, Wait (fun st1 => (st1, Finish (Done tt)))).
(** The lock of the connection is waited for within the timeout. *)
Definition lock_database : M unit :=
  fun st => (st, Wait (fun st1 => (st1, Finish (if lock_elapsed (trace st1) then TimedOut else Done tt)))).

(** ** [DatabaseConnection] *)

(** [DatabaseConnection::next_generation] *)
Definition take_generation : M Z :=
  fun st => let g := next_generation st in
            if g + 1 <=? u64_max then (mkState (active st) (g + 1) (caches st) (trace st), Finish (Done g))
            else (st, Finish (Failed GenerationExhausted)).

(** [DatabaseConnection::active] *)
Definition must_replace (a : option ActiveDatabaseClient) (tr : list (Call Client)) (c : DatabaseCredential) : bool :=
  match a with
  | None => true
  | Some a => is_closed tr (client a) || negb (bool_decide (credential_revision a = revision c))
  end.
Definition replace_client (conn : DatabaseConnector) (c : DatabaseCredential) : M ActiveDatabaseClient :=
  let* _ := set_active None in
  let* d := mresult (connector_connect parse_url parse_ip parse_certs root_accepted conn c) in
  let* cl := ask (CallConnect d) (fun tr => connect_answer tr d) in
  let* g := take_generation in
  let a := mkActiveDatabaseClient cl (revision c) g None in
  let* _ := set_active (Some a) in
  mret a.
Definition active_client : M ActiveDatabaseClient :=
  let* _ := lock_database in
  let* st := get_state in
  let conn := connector (trace st) in
  match credential sha256 conn with
  | Err e => let* _ := set_active None in mfail (Refused e)
  | Ok c =>
      match active st with
      | Some a => if must_replace (Some a) (trace st) c then replace_client conn c else mret a
      | None => replace_client conn c
      end
  end.

Definition with_capability (a : ActiveDatabaseClient) (b : bool) : ActiveDatabaseClient :=
  mkActiveDatabaseClient (client a) (credential_revision a) (generation a) (Some b).
Definition query_epochs (c : Client) : M (Z * Z) := ask (CallEpochs c) (fun tr => epochs_answer tr c).
Definition error_closed (e : DbError) : bool := match e with PgFailed e => pg_closed e | _ => false end.
(** [if result.is_err_and(is_closed) { active.take(); }], then the result *)
Definition take_if_closed {A} (r : result DbError A) : M A :=
  match r with
  | Ok a => mret a
  | Err e => let* _ := (if error_closed e then set_active None else mret tt) in mfail e
  end.

(** [DatabaseConnection::epoch_validation] *)
Definition epoch_validation : M EpochValidation :=
  let* a := active_client in
  if bool_decide (epoch_capability a = Some false) then mret Unsupported
  else
    let* r := attempt (query_epochs (client a)) in
    match r with
    | Ok (schema, security) =>
        let* _ := set_active (Some (with_capability a true)) in
        mret (Available (Epochs schema security (generation a)))
    | Err (PgFailed e) =>
        if pg_unsupported e then
          let* _ := set_active (Some (with_capability a false)) in mret Unsupported
        else take_if_closed (Err (PgFailed e))
    | Err e => take_if_closed (Err e)
    end.

(** The free function [discover_schema] *)
Definition discover_on (c : Client) (exposed : gset str) (role : str) (connection_generation : option Z)
    : M DiscoveredSchema :=
  let* _ := ask (CallBegin c) (fun tr => begin_answer tr c) in
  let* before := match connection_generation with
                 | Some _ => let* e := query_epochs c in mret (Some e)
                 | None => mret None
                 end in
  let* _ := ask (CallExecute c (set_role_sql role)) (fun tr => execute_answer tr c (set_role_sql role)) in
  let* rows := ask (CallColumns c) (fun tr => columns_answer tr c) in
  let* validation :=
    match connection_generation, before with
    | Some g, Some e =>
        let* after := query_epochs c in
        if bool_decide (after = e) then mret (Epochs e.1 e.2 g) else mfail EpochsChanged
    | _, _ => mret (Revision (sha256 (revision_input exposed rows)))
    end in
  let* _ := ask (CallCommit c) (fun tr => commit_answer tr c) in
  mret (mkDiscoveredSchema (build_tables exposed rows) validation).

(** [DatabaseConnection::discover_schema] *)
Definition use_epochs (a : ActiveDatabaseClient) : M bool :=
  match epoch_capability a with
  | Some available => mret available
  | None =>
      let* r := attempt (query_epochs (client a)) in
      match r with
      | Ok _ => let* _ := set_active (Some (with_capability a true)) in mret true
      | Err (PgFailed e) =>
          if pg_unsupported e then let* _ := set_active (Some (with_capability a false)) in mret false
          else mfail (PgFailed e)
      | Err e => mfail e
      end
  end.
Definition discover_schema (exposed : gset str) (role : str) : M DiscoveredSchema :=
  let* a := active_client in
  let* epochs := use_epochs a in
  let* r := attempt (discover_on (client a) exposed role (if epochs then Some (generation a) else None)) in
  take_if_closed r.

(** [DatabaseConnection::ready] *)
Definition database_ready : M unit :=
  let* a := active_client in
  let* r := attempt (ask (CallPing (client a)) (fun tr => ping_answer tr (client a))) in
  take_if_closed r.

(** [execute_read_with_client] and [DatabaseConnection::execute_read] *)
Definition execute_read_with_client (c : Client) (id : RequestIdentity) (sql : str) (parameters : list str) : M str :=
  let* _ := ask (CallBegin c) (fun tr => begin_answer tr c) in
  let* _ := ask (CallExecute c (set_role_sql (role id))) (fun tr => execute_answer tr c (set_role_sql (role id))) in
  let* _ := ask (CallSetClaims c (claims id)) (fun tr => claims_answer tr c (claims id)) in
  let* _ := ask (CallPrepare c sql) (fun tr => prepare_answer tr c sql) in
  let* body := ask (CallQuery c sql parameters) (fun tr => query_answer tr c sql parameters) in
  let* _ := ask (CallCommit c) (fun tr => commit_answer tr c) in
  mret body.
Definition execute_read (id : RequestIdentity) (sql : str) (parameters : list str) : M str :=
  let* a := active_client in
  let* r := attempt (execute_read_with_client (client a) id sql parameters) in
  take_if_closed r.

(** ** [role_schema] *)

Definition lookup_cache (role : str) (v : EpochValidation) : M (option SchemaCache) :=
  match v with
  | Unsupported => mret None
  | Available v =>
      let* _ := wait_lock in
      let* st := get_state in
      mret (match caches st !! role with
            | Some e => if entry_matches e role v then Some (entry_schema e) else None
            | None => None
            end)
  end.
Definition store_cache (role : str) (d : DiscoveredSchema) : M SchemaCache :=
  let* _ := wait_lock in
  let* st := get_state in
  let insert := let* _ := set_cache role (new_entry role d) in mret (discovered_schema d) in
  match caches st !! role with
  | Some e => if entry_matches e role (discovered_validation d) then mret (entry_schema e) else insert
  | None => insert
  end.
Definition discover_and_store (exposed : gset str) (role : str) : M (option SchemaCache) :=
  let* d := with_timeout (discover_schema exposed role) in
  match d with
  | Done d => let* s := store_cache role d in mret (Some s)
  | _ => mret None
  end.
(** [None] is [Err(())] *)
Definition role_schema (exposed : gset str) (role : str) (force_reload : bool) : M (option SchemaCache) :=
  if force_reload then discover_and_store exposed role
  else
    let* v := with_timeout epoch_validation in
    match v with
    | Done v =>
        let* cached := lookup_cache role v in
        match cached with
        | Some s => mret (Some s)
        | None => discover_and_store exposed role
        end
    | _ => mret None
    end.

(** ** Handlers *)

Inductive Response :=
  | ResponseBody (body : option str)
  | ResponseText (text : string)
  | ResponseNoContent
  | ResponseOpenApi (paths : list str) (role : str)
  | ResponseError (status : Z) (code : string) (message : str).

Definition unauthorized : Response := ResponseError 401 "PGRST301" (lit "invalid JWT").
Definition unavailable (message : string) : Response := ResponseError 503 "QGRST503" (lit message).
Definition method_or_route_not_found : Response := ResponseError 404 "PGRST205" (lit "route not found").
Definition live : Response := ResponseText "ok".

(** [bounded_error] *)
Definition bounded_error (e : DbError) : str :=
  let message := match e with
                 | PgFailed e' => default (error_text e) (pg_message e')
                 | _ => error_text e
                 end in
  utf8_encode (take 512 (chars message)).

(** The identity of the [Authorization] header *)
Definition authenticate (jwt : JwtVerifier) (authorization : option str) : M (result unit RequestIdentity) :=
  let* st := get_state in
  mret (request_identity b64_decode from_slice to_json hmac_verify jwt (secret_file (trace st)) (clock (trace st)) authorization).

Record App := mkApp { app_jwt : JwtVerifier; exposed_tables : gset str }.

(** [ready] *)
Definition ready (app : App) : M Response :=
  let* st := get_state in
  match read_jwt_secret (secret_file (trace st)) with
  | Err _ => mret (unavailable "JWT signing key unavailable")
  | Ok _ =>
      let* r := with_timeout database_ready in
      match r with Done _ => mret (ResponseText "ready") | _ => mret (unavailable "database unavailable") end
  end.

(** [openapi] *)
Definition openapi (app : App) (authorization : option str) : M Response :=
  let* id := authenticate (app_jwt app) authorization in
  match id with
  | Err _ => mret unauthorized
  | Ok id =>
      let* cache := role_schema (exposed_tables app) (role id) false in
      match cache with
      | None => mret (unavailable "schema validation failed")
      | Some cache => mret (ResponseOpenApi (map (fun kv => x2f :: kv.1) (map_to_list cache)) (role id))
      end
  end.

(** [reload] *)
Definition reload (app : App) (authorization : option str) : M Response :=
  let* id := authenticate (app_jwt app) authorization in
  match id with
  | Err _ => mret unauthorized
  | Ok id =>
      let* cache := role_schema (exposed_tables app) (role id) true in
      match cache with
      | None => mret (unavailable "schema reload failed")
      | Some _ => mret ResponseNoContent
      end
  end.

(** [read_table_response], with [head] for HEAD requests *)
Definition run_read (id : RequestIdentity) (output : str * list str) (head : bool) : M Response :=
  let* r := with_timeout (execute_read id (adapt_quackgis_sql output.1) output.2) in
  match r with
  | Done body => mret (ResponseBody (if head then None else Some body))
  | Failed e => mret (ResponseError 400 "QGRST400" (bounded_error e))
  | TimedOut => mret (ResponseError 504 "QGRST504" (lit "query timed out"))
  end.
Definition read_table_response (app : App) (table : str) (query : option str) (authorization : option str)
    (head : bool) : M Response :=
  let* id := authenticate (app_jwt app) authorization in
  match id with
  | Err _ => mret unauthorized
  | Ok id =>
      match parse_read_request star no_order parse_query parse_select parse_order parse_logic_filter parse_filter
              table (default [] query) with
      | Err e => mret (ResponseError 400 "PGRST100" (request_error_text e))
      | Ok request =>
          let* cache := role_schema (exposed_tables app) (role id) false in
          match cache with
          | None => mret (unavailable "schema validation failed")
          | Some cache =>
              match build_sql cache request with
              | Err message => mret (ResponseError 404 "PGRST205" message)
              | Ok output => run_read id output head
              end
          end
      end
  end.

(** ** Start-up: the loop of [main] over the roles, in order *)

Fixpoint discover_roles (exposed : gset str) (rs : list str) (seen : gset str) : M (gset str) :=
  match rs with
  | [] => mret seen
  | r :: rest =>
      let* d := discover_schema exposed r in
      let* _ := set_cache r (new_entry r d) in
      discover_roles exposed rest (seen ∪ dom (discovered_schema d))
  end.
Definition startup (app : App) : M unit :=
  let* seen := discover_roles (exposed_tables app) (sort_by str_compare (elements (roles (app_jwt app)))) ∅ in
  if bool_decide (exposed_tables app ∖ seen = ∅) then mret tt else mfail MissingTables.
(** [DatabaseConnection::new]: the first client has generation 1. *)
Definition new_connection : M unit :=
  let* st := get_state in
  let conn := connector (trace st) in
  let* c := mresult (credential sha256 conn) in
  let* d := mresult (connector_connect parse_url parse_ip parse_certs root_accepted conn c) in
  let* cl := ask (CallConnect d) (fun tr => connect_answer tr d) in
  let* _ := set_active (Some (mkActiveDatabaseClient cl (revision c) 1 None)) in
  let* _ := (fun st => (mkState (active st) 2 (caches st) (trace st), Finish (Done tt))) in
  mret tt.
Definition main (app : App) : M unit :=
  let* _ := new_connection in
  startup app.
(** Nothing else runs until the server has started. *)
Definition before_start : State := mkState None 1 ∅ [].
Fixpoint run_alone {A} (t : Task A) (st : State) : State * Outcome A :=
  match t with
  | Finish o => (st, o)
  | Wait resume => let '(st', t') := resume st in run_alone t' st'
  end.
Definition alone {A} (m : M A) (st : State) : State * Outcome A := let '(st', t) := m st in run_alone t st'.
Definition started (app : App) (st : State) : Prop := alone (main app) before_start = (st, Done tt).

(** The routes of [build_router] that use the state *)
Inductive Request :=
  | GetReady
  | GetOpenapi (authorization : option str)
  | PostReload (authorization : option str)
  | GetTable (table : str) (query authorization : option str) (head : bool).
Definition handle (app : App) (r : Request) : M Response :=
  match r with
  | GetReady => ready app
  | GetOpenapi a => openapi app a
  | PostReload a => reload app a
  | GetTable t q a head => read_table_response app t q a head
  end.

(** ** Requests served together

    A request that arrives runs up to its first lock; a waiting request is resumed; a
    request whose client goes away is dropped where it waits. *)
Record Serving := mkServing {
  request : Request;
  arrived : list (Call Client);  (* the calls made before it arrived *)
  task : Task Response }.
Definition accept (app : App) (r : Request) (st : State) : State * Serving :=
  let '(st', t) := handle app r st in (st', mkServing r (trace st) t).
Definition resume_with (s : Serving) (resume : State -> State * Task Response) (st : State) : State * Serving :=
  let '(st', t) := resume st in (st', mkServing (request s) (arrived s) t).
Inductive serves (app : App) : State * list Serving -> State * list Serving -> Prop :=
  | serve_request r st pool st' s :
      accept app r st = (st', s) -> serves app (st, pool) (st', pool ++ [s])
  | serve_resume i s resume st pool st' s' :
      pool !! i = Some s -> task s = Wait resume -> resume_with s resume st = (st', s') ->
      serves app (st, pool) (st', <[i := s']> pool)
  | serve_drop i st pool :
      serves app (st, pool) (st, delete i pool).
End gateway.
