(* ===== verification/RestSafety.v ===== *)
(** * What the REST gateway guarantees

    Requests interleave at the locks.  Every step of a request keeps the invariant [Inv],
    whatever steps of other requests come between: [hoare] is a program logic in which the
    invariant holds at every lock, and an assertion survives a wait when it is [stable].
    [EpochLaw] states what the schema and
    security epochs of a server mean: while they do not change, a role sees the same
    columns. *)

From S2P Require Import Prelude MigrateConfig MigrateChecksum MigrateFiles RestTokens RestRequests RestGateway.
#[local] Open Scope Z_scope.

Create HintDb gateway.

(** ** Revisions are unambiguous *)

Lemma revision_bytes_split a b x y :
  (forall v, a = Some v -> len v < u64_max) -> (forall v, b = Some v -> len v < u64_max) ->
  revision_bytes a ++ x = revision_bytes b ++ y -> a = b /\ x = y.
Proof.
  intros Ha Hb. destruct a as [v|], b as [w|]; cbn [revision_bytes]; rewrite <- ?app_assoc; intros H;
    apply app_inj_1 in H as [Hn H]; try by rewrite !u64_to_be_bytes_length.
  - apply u64_to_be_bytes_inj in Hn; [|pose proof (len_nonneg v); specialize (Ha v eq_refl); lia
      |pose proof (len_nonneg w); specialize (Hb w eq_refl); lia].
    apply app_inj_1 in H as [-> ->]; [done|]. unfold len in Hn. lia.
  - apply u64_to_be_bytes_inj in Hn; [|pose proof (len_nonneg v); specialize (Ha v eq_refl); lia|unfold u64_max; lia].
    specialize (Ha v eq_refl). lia.
  - apply u64_to_be_bytes_inj in Hn; [|unfold u64_max; lia|pose proof (len_nonneg w); specialize (Hb w eq_refl); lia].
    specialize (Hb w eq_refl). lia.
  - done.
Qed.

(** No value of a row has 2^64 - 1 bytes. *)
Definition row_sized (r : ColumnRow) : Prop :=
  Forall (fun v => len v < u64_max) (row_table r :: row_column r :: row_type r :: row_nullable r :: option_list (row_default r)).

Lemma row_bytes_split r r' x y :
  row_sized r -> row_sized r' -> row_bytes r ++ x = row_bytes r' ++ y -> r = r' /\ x = y.
Proof.
  unfold row_sized, row_bytes. rewrite !Forall_cons. intros (H1 & H2 & H3 & H4 & H5) (K1 & K2 & K3 & K4 & K5).
  rewrite <- !app_assoc. intros H.
  apply revision_bytes_split in H as [E1 H]; [|by intros v [= <-]..].
  apply revision_bytes_split in H as [E2 H]; [|by intros v [= <-]..].
  apply revision_bytes_split in H as [E3 H]; [|by intros v [= <-]..].
  apply revision_bytes_split in H as [E4 H]; [|by intros v [= <-]..].
  apply revision_bytes_split in H as [E5 ->]; [destruct r, r'; simpl in *; by simplify_eq| |].
  - intros v Hv. rewrite Hv in H5. by apply Forall_inv in H5.
  - intros v Hv. rewrite Hv in K5. by apply Forall_inv in K5.
Qed.

Lemma row_bytes_cons r x : row_bytes r ++ x <> [].
Proof.
  intros H. apply (f_equal length) in H. unfold row_bytes in H. cbn [revision_bytes] in H.
  rewrite !length_app, u64_to_be_bytes_length in H. simpl in H. lia.
Qed.

Lemma Forall_filtered {A} (P Q : A -> Prop) `{!forall x, Decision (Q x)} l : Forall P l -> Forall P (filter Q l).
Proof. rewrite !Forall_forall. intros HP x [_ Hx]%list_elem_of_filter. by apply HP. Qed.

Lemma revision_input_inj exposed rows rows' :
  Forall row_sized rows -> Forall row_sized rows' ->
  revision_input exposed rows = revision_input exposed rows' ->
  exposed_rows exposed rows = exposed_rows exposed rows'.
Proof.
  unfold revision_input, exposed_rows. intros Hs Hs'.
  assert (Hf : Forall row_sized (filter (fun r => row_table r ∈ exposed) rows)) by by apply Forall_filtered.
  assert (Hf' : Forall row_sized (filter (fun r => row_table r ∈ exposed) rows')) by by apply Forall_filtered.
  revert Hf Hf'. generalize (filter (fun r => row_table r ∈ exposed) rows) as l.
  generalize (filter (fun r => row_table r ∈ exposed) rows') as l'.
  intros l' l Hl. revert l'. induction Hl as [|r l Hr Hl IH]; intros [|r' l'] Hl' H; simpl in H.
  - done.
  - by destruct (row_bytes_cons r' (concat (map row_bytes l'))).
  - by destruct (row_bytes_cons r (concat (map row_bytes l))).
  - apply Forall_cons in Hl' as [Hr' Hl']. apply row_bytes_split in H as [-> H]; [|done..].
    by rewrite (IH l').
Qed.

Lemma build_tables_exposed exposed rows : dom (build_tables exposed rows) ⊆ exposed.
Proof.
  unfold build_tables, exposed_rows. assert (H : forall l (s : gmap str (list Column)), Forall (fun r => row_table r ∈ exposed) l ->
    dom s ⊆ exposed -> dom (foldl push_column s l) ⊆ exposed).
  { induction l as [|r l IH]; intros s Hl Hd; [done|]. apply Forall_cons in Hl as [Hr Hl]. simpl. apply IH; [done|].
    intros t [c Hc]%elem_of_dom. unfold push_column in Hc.
    destruct (decide (row_table r = t)) as [<-|Hne]; [done|]. rewrite lookup_insert_ne in Hc by done.
    apply Hd, elem_of_dom. by exists c. }
  apply H; [|set_solver]. apply Forall_forall. intros r Hr. by apply list_elem_of_filter in Hr as [? _].
Qed.

(** ** The trace of calls *)

Class EpochLaw {backend : Backend} := {
  catalog : Client -> str -> Z * Z -> list ColumnRow;
  catalog_law tr c r e rows :
    epochs_answer (CallBegin c :: tr) c = Replied (Ok e) ->
    columns_answer (CallExecute c (set_role_sql r) :: CallEpochs c :: CallBegin c :: tr) c = Replied (Ok rows) ->
    epochs_answer (CallColumns c :: CallExecute c (set_role_sql r) :: CallEpochs c :: CallBegin c :: tr) c
      = Replied (Ok e) ->
    rows = catalog c r e;
  columns_sized tr c rows : columns_answer tr c = Replied (Ok rows) -> Forall row_sized rows }.

Section safety.
Context {backend : Backend} {codecs : Codecs} {law : EpochLaw}.
Variable app : App.

(** [r] and [cl] are the role and claims of a token that was verified. *)
Definition verified (r cl : str) : Prop :=
  exists tr authorization,
    request_identity b64_decode from_slice to_json hmac_verify (app_jwt app) (secret_file tr) (clock tr) authorization
    = Ok (mkRequestIdentity r cl).

(** What each call finds before it *)
Definition call_ok (call : Call Client) (before : list (Call Client)) : Prop :=
  match call with
  | CallExecute c sql => exists r, r ∈ roles (app_jwt app) /\ sql = set_role_sql r
  | CallColumns c => exists r rest, before = CallExecute c (set_role_sql r) :: rest
  | CallPrepare c sql => exists r cl rest, verified r cl /\
      before = CallSetClaims c cl :: CallExecute c (set_role_sql r) :: CallBegin c :: rest
  | CallQuery c sql _ => exists rest, before = CallPrepare c sql :: rest
  | _ => True
  end.
Fixpoint scoped (tr : list (Call Client)) : Prop :=
  match tr with
  | [] => True
  | call :: before => call_ok call before /\ scoped before
  end.

Lemma scoped_suffix post tr : scoped (post ++ tr) -> scoped tr.
Proof using. induction post as [|c post IH]; [done|]. intros [_ H]. by apply IH. Qed.

(** [asked]: the epochs [e] were read on [c] after [tr0]; [listed]: the columns [rows] were
    read on [c] as role [r]. *)
Definition asked (tr0 tr : list (Call Client)) (c : Client) (e : Z * Z) : Prop :=
  exists pre, CallEpochs c :: pre `suffix_of` tr /\ tr0 `suffix_of` pre /\ epochs_answer pre c = Replied (Ok e).
Definition listed (tr0 tr : list (Call Client)) (c : Client) (r : str) (rows : list ColumnRow) : Prop :=
  exists pre, CallColumns c :: CallExecute c (set_role_sql r) :: pre `suffix_of` tr /\ tr0 `suffix_of` pre /\
    columns_answer (CallExecute c (set_role_sql r) :: pre) c = Replied (Ok rows).

Lemma asked_mono tr0 tr1 tr tr' c e :
  tr0 `suffix_of` tr1 -> tr `suffix_of` tr' -> asked tr1 tr c e -> asked tr0 tr' c e.
Proof using. intros H0 H (pre & Hp & H1 & He). exists pre. split_and!; [by etrans|by etrans|done]. Qed.
Lemma listed_mono tr0 tr1 tr tr' c r rows :
  tr0 `suffix_of` tr1 -> tr `suffix_of` tr' -> listed tr1 tr c r rows -> listed tr0 tr' c r rows.
Proof using. intros H0 H (pre & Hp & H1 & He). exists pre. split_and!; [by etrans|by etrans|done]. Qed.

(** ** The invariant

    [clients] tells which client every connection generation stands for. *)

Definition entry_ok (tr : list (Call Client)) (clients : gmap Z Client) (r : str) (e : SchemaCacheEntry) : Prop :=
  entry_role e = r /\ exists rows, Forall row_sized rows /\ entry_schema e = build_tables (exposed_tables app) rows /\
    match entry_validation e with
    | Epochs s q g => exists c, clients !! g = Some c /\ rows = catalog c r (s, q)
    | Revision d => d = sha256 (revision_input (exposed_tables app) rows) /\ exists c, listed [] tr c r rows
    end.

(** [c] was opened with a credential of revision [rev] that was on file then. *)
Definition dialled (tr : list (Call Client)) (c : Client) (rev : list byte) : Prop :=
  exists pre cred d, CallConnect d :: pre `suffix_of` tr /\ credential sha256 (connector pre) = Ok cred /\
    connector_connect parse_url parse_ip parse_certs root_accepted (connector pre) cred = Ok d /\
    connect_answer pre d = Replied (Ok c) /\ rev = revision cred.

Record Inv (clients : gmap Z Client) (st : State) : Prop := {
  inv_scoped : scoped (trace st);
  inv_active : forall a, active st = Some a ->
    clients !! generation a = Some (client a) /\ dialled (trace st) (client a) (credential_revision a);
  inv_clients : forall g c, clients !! g = Some c -> g < next_generation st;
  inv_caches : forall r e, caches st !! r = Some e -> entry_ok (trace st) clients r e }.

Definition grows (c : gmap Z Client) (st : State) (c' : gmap Z Client) (st' : State) : Prop :=
  c ⊆ c' /\ trace st `suffix_of` trace st'.

Lemma grows_refl c st : grows c st c st.
Proof using. by split. Qed.
Lemma grows_trans c1 st1 c2 st2 c3 st3 : grows c1 st1 c2 st2 -> grows c2 st2 c3 st3 -> grows c1 st1 c3 st3.
Proof using. intros [H1 H2] [H3 H4]. split; by etrans. Qed.

(** ** Triples

    Assertions speak of the clients and the state.  A task is safe when every step of it
    keeps the invariant, whatever other requests do to the state while it waits. *)

Definition assn : Type := gmap Z Client -> State -> Prop.
Definition stable (P : assn) : Prop := forall c st c' st', grows c st c' st' -> P c st -> P c' st'.

Fixpoint safe {A} (t : Task A) (c : gmap Z Client) (st : State) (Q : Outcome A -> assn) : Prop :=
  match t with
  | Finish o => Q o c st
  | Wait resume => forall c1 st1, Inv c1 st1 -> grows c st c1 st1 ->
      exists c2, Inv c2 (resume st1).1 /\ grows c1 st1 c2 (resume st1).1 /\ safe (resume st1).2 c2 (resume st1).1 Q
  end.
Definition triple {A} (P : assn) (m : M A) (Q : Outcome A -> assn) : Prop :=
  forall c st, Inv c st -> P c st ->
    exists c', Inv c' (m st).1 /\ grows c st c' (m st).1 /\ safe (m st).2 c' (m st).1 Q.

(** [Q] for a value, [E] for a failure or a timeout *)
Definition ends {A} (Q : A -> assn) (E : Prop) (o : Outcome A) : assn :=
  match o with Done a => Q a | _ => fun _ _ => E end.
Definition hoare {A} (P : assn) (m : M A) (Q : A -> assn) (E : Prop) : Prop := triple P m (ends Q E).

Lemma task_bind_safe {A B} (k : Outcome A -> M B) (Q : Outcome A -> assn) (R : Outcome B -> assn) :
  (forall o, triple (Q o) (k o) R) ->
  forall t c st, Inv c st -> safe t c st Q ->
    exists c', Inv c' (task_bind t k st).1 /\ grows c st c' (task_bind t k st).1 /\
      safe (task_bind t k st).2 c' (task_bind t k st).1 R.
Proof using.
  intros Hk. fix IH 1. intros [o|resume] c st Hi Hs; [by apply Hk|]. exists c.
  split; [done|]. split; [by apply grows_refl|]. intros c1 st1 Hi1 Hg1. specialize (Hs c1 st1 Hi1 Hg1).
  change (safe (task_bind (Wait resume) k st).2) with (safe (Wait (fun st1 => let '(st2, t2) := resume st1 in task_bind t2 k st2))).
  cbn beta iota. destruct (resume st1) as [st2 t2]. destruct Hs as (c2 & Hi2 & Hg2 & Hs2). cbn in Hi2, Hg2, Hs2.
  destruct (IH t2 c2 st2 Hi2 Hs2) as (c3 & Hi3 & Hg3 & Hs3). exists c3. split_and!; [done| |done].
  by eapply grows_trans.
Qed.

Lemma triple_obind {A B} P (m : M A) Q (k : Outcome A -> M B) R :
  triple P m Q -> (forall o, triple (Q o) (k o) R) -> triple P (obind m k) R.
Proof using.
  intros Hm Hk c st Hi HP. unfold obind. destruct (Hm c st Hi HP) as (c1 & Hi1 & Hg1 & Hs1).
  destruct (m st) as [st1 t]. cbn in Hi1, Hg1, Hs1.
  destruct (task_bind_safe k Q R Hk t c1 st1 Hi1 Hs1) as (c2 & Hi2 & Hg2 & Hs2). exists c2. split_and!; [done| |done].
  by eapply grows_trans.
Qed.
(** A step that ends at once *)
Lemma triple_now {A} P (f : State -> State) (o : State -> Outcome A) (Q : Outcome A -> assn) :
  (forall c st, Inv c st -> P c st -> exists c', Inv c' (f st) /\ grows c st c' (f st) /\ Q (o st) c' (f st)) ->
  triple P (fun st => (f st, Finish (o st))) Q.
Proof using. exact (fun H => H). Qed.
Lemma triple_ret {A} (P : assn) o (Q : Outcome A -> assn) :
  (forall c st, P c st -> Q o c st) -> triple P (fun st => (st, Finish o)) Q.
Proof using. intros H c st Hi HP. exists c. split_and!; [done|apply grows_refl|by apply H]. Qed.
Lemma safe_mono {A} (Q Q' : Outcome A -> assn) :
  (forall o c st, Q o c st -> Q' o c st) -> forall t c st, safe t c st Q -> safe t c st Q'.
Proof using.
  intros H. fix IH 1. intros [o|resume] c st Hs; [by apply H|]. intros c1 st1 Hi1 Hg1. specialize (Hs c1 st1 Hi1 Hg1).
  destruct (resume st1) as [st2 t2]. destruct Hs as (c2 & Hi2 & Hg2 & Hs2). exists c2. split_and!; [done..|].
  exact (IH t2 c2 st2 Hs2).
Qed.

Lemma safe_conseq {A} (P P' : assn) (m : M A) (Q Q' : A -> assn) (E E' : Prop) :
  hoare P' m Q' E' -> (forall c st, P c st -> P' c st) -> (forall a c st, Q' a c st -> Q a c st) -> (E' -> E) ->
  hoare P m Q E.
Proof using.
  intros H HP HQ HE c st Hi Hst. destruct (H c st Hi (HP _ _ Hst)) as (c' & Hi' & Hg & Hs). exists c'. split_and!; [done..|].
  eapply safe_mono; [|exact Hs]. intros [a|e|]; cbn; [apply HQ|done|done].
Qed.
Lemma safe_pre {A} (P P' : assn) (m : M A) Q E : hoare P' m Q E -> (forall c st, P c st -> P' c st) -> hoare P m Q E.
Proof using. intros H HP. by eapply safe_conseq. Qed.
Lemma safe_post {A} P (m : M A) (Q Q' : A -> assn) E : hoare P m Q' E -> (forall a c st, Q' a c st -> Q a c st) -> hoare P m Q E.
Proof using. intros H HQ. by eapply safe_conseq. Qed.
Lemma safe_ret {A} (P : assn) (a : A) (Q : A -> assn) E : (forall c st, P c st -> Q a c st) -> hoare P (mret a) Q E.
Proof using. intros H. by apply (triple_ret P (Done a)). Qed.
Lemma safe_fail {A} (P : assn) e (Q : A -> assn) : hoare P (mfail e) Q True.
Proof using. by apply (triple_ret P (Failed e)). Qed.
Lemma safe_bind {A B} P (m : M A) Q (k : A -> M B) R E :
  hoare P m Q E -> (forall a, hoare (Q a) (k a) R E) -> hoare P (mbind m k) R E.
Proof using.
  intros Hm Hk. eapply triple_obind; [exact Hm|]. intros [a|e|]; [apply Hk| |]; by apply (triple_ret (fun _ _ => E)).
Qed.
Lemma safe_ret_bind {A B} P (a : A) (k : A -> M B) R E : hoare P (k a) R E -> hoare P (mbind (mret a) k) R E.
Proof using. done. Qed.
Lemma safe_timeout {A} P (m : M A) Q E F :
  hoare P m Q E -> hoare P (with_timeout m) (fun o => match o with Done a => Q a | _ => fun _ _ => True end) F.
Proof using.
  intros H. eapply triple_obind; [exact H|]. intros o. apply triple_ret. by destruct o.
Qed.
(** What was known stays known, also when the operation fails. *)
Lemma safe_attempt {A} (F P : assn) (m : M A) Q E :
  stable F -> (forall c st, P c st -> F c st) -> hoare P m Q E ->
  hoare P (attempt m) (fun r => match r with Ok a => Q a | Err _ => F end) True.
Proof using.
  intros HF HPF H c st Hi HP. destruct (H c st Hi HP) as (c1 & Hi1 & Hg1 & Hs1). specialize (HPF c st HP).
  unfold attempt, obind. destruct (m st) as [st1 t]. cbn in Hi1, Hg1, Hs1.
  assert (HF1 : F c1 st1) by by eapply HF.
  enough (Ht : forall t c1 st1, Inv c1 st1 -> F c1 st1 -> safe t c1 st1 (ends Q E) ->
    safe t c1 st1 (fun o c st => F c st /\ ends Q E o c st)).
  { pose proof (Ht t c1 st1 Hi1 HF1 Hs1) as Hs. clear Hs1. set (k := fun o st => _).
    destruct (task_bind_safe k (fun o c st => F c st /\ ends Q E o c st)
      (ends (fun r => match r with Ok a => Q a | Err _ => F end) True)) with (t := t) (c := c1) (st := st1)
      as (c2 & Hi2 & Hg2 & Hs2); [|done|done|].
    - intros [a|e|] c2 st2 Hi2 [HF2 Hq]; (exists c2; split_and!; [done|apply grows_refl|done]).
    - exists c2. split_and!; [done|by eapply grows_trans|done]. }
  clear -HF. fix IH 1. intros [o|resume] c1 st1 Hi1 HF1 Hs; [by split|].
  intros c2 st2 Hi2 Hg2. specialize (Hs c2 st2 Hi2 Hg2). destruct (resume st2) as [st3 t3].
  destruct Hs as (c3 & Hi3 & Hg3 & Hs3). exists c3. split_and!; [done..|].
  refine (IH t3 c3 st3 Hi3 _ Hs3). eapply HF; [|exact HF1]. by eapply grows_trans.
Qed.
Lemma safe_result {A} (P : assn) (r : result RestError A) : hoare P (mresult r) (fun a c st => r = Ok a /\ P c st) True.
Proof using. destruct r; [by apply safe_ret|by apply safe_fail]. Qed.
Lemma safe_exists {A X} (P : X -> assn) (m : M A) Q E :
  (forall x, hoare (P x) m Q E) -> hoare (fun c st => exists x, P x c st) m Q E.
Proof using. intros H c st Hi [x HP]. by apply (H x). Qed.
Lemma safe_pure {A} (X : Prop) P (m : M A) Q E : (X -> hoare P m Q E) -> hoare (fun c st => X /\ P c st) m Q E.
Proof using. intros H c st Hi [HX HP]. by apply H. Qed.
Lemma safe_wait P E : stable P -> hoare P wait_lock (fun _ => P) E.
Proof using.
  intros HP c st Hi H. exists c. split_and!; [done|apply grows_refl|]. intros c1 st1 Hi1 Hg. exists c1.
  split_and!; [done|apply grows_refl|]. by eapply HP.
Qed.
Lemma safe_lock P : stable P -> hoare P lock_database (fun _ => P) True.
Proof using.
  intros HP c st Hi H. exists c. split_and!; [done|apply grows_refl|]. intros c1 st1 Hi1 Hg. exists c1.
  split_and!; [done|apply grows_refl|]. cbn. destruct (lock_elapsed _); [done|]. by eapply HP.
Qed.

(** ** Calls *)

Lemma entry_ok_mono tr tr' clients clients' r e :
  tr `suffix_of` tr' -> clients ⊆ clients' -> entry_ok tr clients r e -> entry_ok tr' clients' r e.
Proof using.
  intros Ht Hc [Hr (rows & Hs & Hb & Hv)]. split; [done|]. exists rows. split_and!; [done..|].
  destruct (entry_validation e).
  - destruct Hv as (c & Hl & ->). exists c. split; [|done]. by eapply lookup_weaken.
  - destruct Hv as (-> & c & Hl). split; [done|]. exists c. by eapply (listed_mono [] [] tr).
Qed.

(** The clients include [c0] and the calls so far are [tr], or follow [tr]. *)
Definition At (c0 : gmap Z Client) (tr : list (Call Client)) : assn := fun c st => c0 ⊆ c /\ trace st = tr.
Definition Since (c0 : gmap Z Client) (tr : list (Call Client)) : assn := fun c st => c0 ⊆ c /\ tr `suffix_of` trace st.

Lemma since_stable c0 tr : stable (Since c0 tr).
Proof using. intros c st c' st' [Hc Ht] [H1 H2]. split; by etrans. Qed.
Lemma at_since c0 tr0 c1 tr c st : c0 ⊆ c1 -> tr0 `suffix_of` tr -> At c1 tr c st -> Since c0 tr0 c st.
Proof using. intros Hc Ht [H <-]. split; [by etrans|done]. Qed.
Lemma since_since c0 tr0 c1 tr c st : c0 ⊆ c1 -> tr0 `suffix_of` tr -> Since c1 tr c st -> Since c0 tr0 c st.
Proof using. intros Hc Ht [H1 H2]. split; by etrans. Qed.
(** A step may be reasoned about from the state it starts in. *)
Lemma safe_get {A} (P : assn) (k : State -> M A) Q E :
  (forall c st, Inv c st -> P c st -> hoare (fun c' st' => c' = c /\ st' = st) (k st) Q E) -> hoare P (mbind get_state k) Q E.
Proof using. intros H c st Hi HP. by apply (H c st Hi HP). Qed.
Lemma safe_at {A} (P : assn) (m : M A) Q E :
  (forall c st, Inv c st -> P c st -> hoare (fun c' st' => At c (trace st) c' st' /\ st' = st) m Q E) -> hoare P m Q E.
Proof using. intros H c st Hi HP. by apply (H c st Hi HP). Qed.

Lemma dialled_mono tr tr' c rev : tr `suffix_of` tr' -> dialled tr c rev -> dialled tr' c rev.
Proof using. intros H (pre & cred & d & Hp & Hd). exists pre, cred, d. split; [by etrans|done]. Qed.
Lemma suffix_push (c : Call Client) tr0 tr : tr0 `suffix_of` tr -> tr0 `suffix_of` c :: tr.
Proof using. apply suffix_cons_r. Qed.
Lemma suffix_same (tr : list (Call Client)) : tr `suffix_of` tr.
Proof using. done. Qed.
#[local] Hint Resolve suffix_push suffix_same since_stable : gateway.

Lemma safe_ask {A} c0 tr call (answer : list (Call Client) -> Answer A) :
  call_ok call tr ->
  hoare (At c0 tr) (ask call answer) (fun a c st => answer tr = Replied (Ok a) /\ At c0 (call :: tr) c st) True.
Proof using.
  intros Hok. apply triple_now. intros c st [Hs Ha Hg Hc] [Hsub Ht]. exists c. cbn. split_and!.
  - split; cbn; [by rewrite Ht in *| |done|].
    + intros a Hact. destruct (Ha a Hact) as [H1 H2]. split; [done|]. eapply dialled_mono; [|exact H2]. by apply suffix_push.
    + intros r e He. apply (entry_ok_mono (trace st) _ c c); [|done|by apply Hc]. rewrite Ht. by apply suffix_push.
  - split; [done|]. by apply suffix_push.
  - rewrite Ht. destruct (answer tr) as [[a|e]|]; cbn; [|done..]. by split.
Qed.
(** One call of a sequence *)
Lemma ask_step {A B} c0 tr call (answer : list (Call Client) -> Answer A) (k : A -> M B) Q :
  call_ok call tr -> (forall a, answer tr = Replied (Ok a) -> hoare (At c0 (call :: tr)) (k a) Q True) ->
  hoare (At c0 tr) (mbind (ask call answer) k) Q True.
Proof using.
  intros Hok Hk. eapply safe_bind; [by apply safe_ask|]. intros a. apply safe_pure, Hk.
Qed.

(** What a discovery found *)
Definition discovered (tr0 tr : list (Call Client)) (c : Client) (g : option Z) (r : str) (d : DiscoveredSchema) : Prop :=
  match g with
  | Some g => exists e, asked tr0 tr c e /\ Forall row_sized (catalog c r e) /\
      d = mkDiscoveredSchema (build_tables (exposed_tables app) (catalog c r e)) (Epochs e.1 e.2 g)
  | None => exists rows, listed tr0 tr c r rows /\ Forall row_sized rows /\
      d = mkDiscoveredSchema (build_tables (exposed_tables app) rows)
            (Revision (sha256 (revision_input (exposed_tables app) rows)))
  end.
Lemma discovered_mono tr0 tr1 tr tr' c g r d :
  tr0 `suffix_of` tr1 -> tr `suffix_of` tr' -> discovered tr1 tr c g r d -> discovered tr0 tr' c g r d.
Proof using.
  intros H H'. destruct g; intros (x & Hx & Hr); exists x; (split; [|done]);
    [by eapply (asked_mono tr0 tr1 tr)|by eapply (listed_mono tr0 tr1 tr)].
Qed.

Lemma discover_epochs c0 tr c r g :
  r ∈ roles (app_jwt app) ->
  hoare (At c0 tr) (discover_on c (exposed_tables app) r (Some g))
    (fun d c1 st => c0 ⊆ c1 /\ discovered tr (trace st) c (Some g) r d) True.
Proof using.
  intros Hr. apply ask_step; [done|]. intros ? _.
  eapply (safe_bind _ _ (fun b c1 st => exists e, (b = Some e /\ epochs_answer (CallBegin c :: tr) c = Replied (Ok e)) /\
    At c0 (CallEpochs c :: CallBegin c :: tr) c1 st)).
  { apply ask_step; [done|]. intros e He. apply safe_ret. intros c1 st Hst. by exists e. }
  intros before. apply safe_exists. intros e. apply safe_pure. intros [-> He].
  apply ask_step; [by exists r|]. intros ? _. apply ask_step; [by eexists _, _|]. intros rows Hrows.
  eapply (safe_bind _ _ (fun v c1 st => (v = Epochs e.1 e.2 g /\ rows = catalog c r e) /\
    At c0 (CallEpochs c :: CallColumns c :: CallExecute c (set_role_sql r) :: CallEpochs c :: CallBegin c :: tr) c1 st)).
  { apply ask_step; [done|]. intros after Ha. case_bool_decide as Heq; [|apply safe_fail].
    subst after. apply safe_ret. intros c1 st Hst. split; [|done]. split; [done|]. by eapply catalog_law. }
  intros v. apply safe_pure. intros [-> ->]. apply ask_step; [done|]. intros ? _.
  apply safe_ret. intros c1 st [Hc ->]. split; [done|]. exists e. split; [|split; [by eapply columns_sized|done]].
  exists (CallBegin c :: tr). split_and!; [|auto with gateway|done]. auto 10 with gateway.
Qed.

Lemma discover_revision c0 tr c r :
  r ∈ roles (app_jwt app) ->
  hoare (At c0 tr) (discover_on c (exposed_tables app) r None)
    (fun d c1 st => c0 ⊆ c1 /\ discovered tr (trace st) c None r d) True.
Proof using.
  intros Hr. apply ask_step; [done|]. intros ? _. apply safe_ret_bind.
  apply ask_step; [by exists r|]. intros ? _. apply ask_step; [by eexists _, _|]. intros rows Hrows.
  apply safe_ret_bind. apply ask_step; [done|]. intros ? _.
  apply safe_ret. intros c1 st [Hc ->]. split; [done|]. exists rows. split; [|split; [by eapply columns_sized|done]].
  exists (CallBegin c :: tr). split_and!; [auto with gateway|auto with gateway|done].
Qed.

(** ** The active client *)

Lemma safe_set_active c0 tr a :
  (forall x, a = Some x -> c0 !! generation x = Some (client x) /\ dialled tr (client x) (credential_revision x)) ->
  hoare (At c0 tr) (set_active a) (fun _ => At c0 tr) True.
Proof using.
  intros H. apply triple_now. intros c st [Hs Ha Hg Hc] [Hsub Ht]. exists c. split_and!; [|by split|by split].
  split; cbn; [done| |done..]. intros x Hx. destruct (H x Hx) as [H1 H2]. split; [by eapply lookup_weaken|by rewrite Ht].
Qed.
Lemma safe_drop_active P : stable P -> hoare P (set_active None) (fun _ => P) True.
Proof using.
  intros HP. apply safe_at. intros c st _ H.
  eapply safe_conseq; [apply (safe_set_active c (trace st)); done|by intros c' st' [Hat _]| |done].
  intros ? c' st' [Hc Ht]. eapply HP; [|exact H]. split; [done|]. by rewrite Ht.
Qed.

(** The connection was opened with the credential that was on file during the request. *)
Definition up_to_date (tr0 tr : list (Call Client)) (c : Client) : Prop :=
  exists pre cred, tr0 `suffix_of` pre /\ pre `suffix_of` tr /\ credential sha256 (connector pre) = Ok cred /\
    dialled tr c (revision cred).
Definition Acquired (c0 : gmap Z Client) (tr0 : list (Call Client)) (a : ActiveDatabaseClient) : assn :=
  fun c st => (c !! generation a = Some (client a) /\ dialled (trace st) (client a) (credential_revision a)) /\
    up_to_date tr0 (trace st) (client a) /\ Since c0 tr0 c st.

(** A new generation stands for the new client. *)
Lemma safe_generation c0 tr cl :
  hoare (At c0 tr) take_generation (fun g c st => c !! g = Some cl /\ At c0 tr c st) True.
Proof using.
  intros c st Hi [Hsub Ht]. pose proof Hi as [Hs Ha Hg Hc]. unfold take_generation.
  destruct (_ <=? u64_max); cbn; [|by exists c; split_and!; [|apply grows_refl|]].
  set (g := next_generation st). assert (Hn : c !! g = None).
  { apply eq_None_not_Some. intros [x Hl]. specialize (Hg _ _ Hl). lia. }
  assert (Hext : c ⊆ <[g := cl]> c) by by apply insert_subseteq.
  exists (<[g := cl]> c). split_and!.
  - split; cbn; [done| | |].
    + intros a Hact. destruct (Ha a Hact) as [H1 H2]. split; [by eapply lookup_weaken|done].
    + intros g' x Hl. destruct (decide (g = g')) as [<-|Hne]; [lia|]. rewrite lookup_insert_ne in Hl by done.
      specialize (Hg _ _ Hl). lia.
    + intros r e He. apply (entry_ok_mono (trace st) _ c); [done|done|by apply Hc].
  - by split.
  - apply lookup_insert_eq.
  - split; [by etrans|done].
Qed.

Lemma replace_client_ok c0 tr cred :
  credential sha256 (connector tr) = Ok cred ->
  hoare (At c0 tr) (replace_client (connector tr) cred) (Acquired c0 tr) True.
Proof using.
  intros Hcred. eapply safe_bind; [by apply safe_set_active|]. intros ?.
  eapply safe_bind; [apply safe_result|]. intros d. apply safe_pure. intros Hd.
  apply ask_step; [done|]. intros cl Hcl.
  assert (Hdial : dialled (CallConnect d :: tr) cl (revision cred)) by (exists tr, cred, d; by split_and!).
  eapply safe_bind; [apply (safe_generation _ _ cl)|]. intros g. apply safe_at. intros c st _ [Hg Hat].
  eapply safe_pre; [|by intros c' st' [Hst _]; exact Hst]. destruct Hat as [Hsub Htr]. rewrite Htr.
  eapply safe_bind; [apply safe_set_active; by intros x [= <-]|]. intros ?. apply safe_ret.
  intros c' st' [Hc' Ht']. split; [split; cbn; [by eapply lookup_weaken|by rewrite Ht']|]. split.
  - exists tr, cred. rewrite Ht'. split_and!; [done|by apply suffix_push|done|done].
  - split; [by etrans|]. rewrite Ht'. by apply suffix_push.
Qed.

Lemma active_client_ok c0 tr0 : hoare (Since c0 tr0) active_client (Acquired c0 tr0) True.
Proof using.
  eapply safe_bind; [apply safe_lock, since_stable|]. intros ?. apply safe_get. intros c st Hi [Hc Ht].
  assert (Hat : forall c' st', c' = c /\ st' = st -> At c (trace st) c' st') by by intros ? ? [-> ->].
  assert (Hrep : forall cred, credential sha256 (connector (trace st)) = Ok cred ->
    hoare (fun c' st' => c' = c /\ st' = st) (replace_client (connector (trace st)) cred) (Acquired c0 tr0) True).
  { intros cred Hcred. eapply safe_conseq; [by apply (replace_client_ok c)|exact Hat| |done].
    intros x c' st' (Hl & (pre & cr & Hp & Hd) & Hs).
    split; [done|]. split; [|by eapply since_since]. exists pre, cr. split; [by etrans|done]. }
  cbv zeta. destruct (credential sha256 (connector (trace st))) as [cred|e] eqn:Hcred.
  - destruct (active st) as [x|] eqn:Hact; [|by apply Hrep].
    destruct (must_replace (Some x) (trace st) cred) eqn:Hm; [by apply Hrep|].
    apply safe_ret. intros ? ? [-> ->]. destruct (inv_active _ _ Hi x Hact) as [H1 H2].
    split; [done|]. split; [|by split]. exists (trace st), cred. split_and!; [done..|].
    simpl in Hm. apply orb_false_iff in Hm as [_ Hm]. rewrite negb_false_iff, bool_decide_eq_true in Hm. by rewrite <- Hm.
  - eapply safe_bind; [|intros; apply safe_fail].
    eapply safe_pre; [by apply (safe_set_active c (trace st))|exact Hat].
Qed.

(** Operations on the client that was acquired *)
Definition Working (c0 : gmap Z Client) (tr0 : list (Call Client)) (c1 : gmap Z Client) (tr : list (Call Client))
    (a : ActiveDatabaseClient) : Prop :=
  (c0 ⊆ c1 /\ tr0 `suffix_of` tr) /\ (c1 !! generation a = Some (client a) /\
    dialled tr (client a) (credential_revision a)) /\ up_to_date tr0 tr (client a).

Lemma safe_acquired {A} c0 tr0 (k : ActiveDatabaseClient -> M A) Q :
  (forall a c1 tr, Working c0 tr0 c1 tr a -> hoare (At c1 tr) (k a) Q True) ->
  hoare (Since c0 tr0) (mbind active_client k) Q True.
Proof using.
  intros H. eapply safe_bind; [apply active_client_ok|]. intros a. apply safe_at. intros c st Hi (Hl & Hu & Hs).
  eapply safe_pre; [by apply (H a c (trace st))|]. by intros c' st' [? _].
Qed.

Lemma take_if_closed_ok {A} (Q : A -> assn) (P : assn) (r : result DbError A) :
  stable P -> hoare (fun c st => match r with Ok a => Q a c st | Err _ => P c st end) (take_if_closed r) Q True.
Proof using.
  intros HP. destruct r as [a|e]; [by apply safe_ret|]. eapply (safe_bind _ _ (fun _ => P)); [|intros ?; apply safe_fail].
  destruct (error_closed e); [by apply safe_drop_active|by apply safe_ret].
Qed.
(** An operation whose result is inspected for a closed connection *)
Lemma safe_checked {A} c0 tr (m : M A) Q :
  hoare (At c0 tr) m Q True -> hoare (At c0 tr) (mbind (attempt m) take_if_closed) Q True.
Proof using.
  intros H. eapply safe_bind; [eapply (safe_attempt (Since c0 tr)); [apply since_stable| |exact H]|].
  - intros c st. by apply at_since.
  - intros r. eapply safe_pre; [apply (take_if_closed_ok Q (Since c0 tr)), since_stable|]. by destruct r.
Qed.

Lemma set_capability c0 tr a b :
  c0 !! generation a = Some (client a) /\ dialled tr (client a) (credential_revision a) ->
  hoare (Since c0 tr) (set_active (Some (with_capability a b))) (fun _ => Since c0 tr) True.
Proof using.
  intros [Hl Hd]. apply safe_at. intros c st _ [Hc Ht].
  eapply safe_conseq; [apply (safe_set_active c (trace st))|by intros c' st' [? _]| |done].
  - intros x [= <-]. split; [by eapply lookup_weaken|by eapply dialled_mono].
  - intros ? c' st' Hat. eapply at_since; [..|exact Hat]; done.
Qed.

(** ** Validation and discovery *)

Definition Validated (c0 : gmap Z Client) (tr0 : list (Call Client)) (v : EpochValidation) : assn :=
  fun c st => match v with
              | Available (Epochs s q g) => exists cl, c !! g = Some cl /\ asked tr0 (trace st) cl (s, q)
              | Available (Revision _) => False
              | Unsupported => True
              end /\ Since c0 tr0 c st.

Lemma validated_stable c0 tr0 v : stable (Validated c0 tr0 v).
Proof using.
  intros c st c' st' [Hc Ht] [Hv Hs]. split; [|by eapply since_stable].
  destruct v as [[s q g|]|]; [|done..]. destruct Hv as (cl & Hl & Ha). exists cl.
  split; [by eapply lookup_weaken|]. by eapply asked_mono.
Qed.

Lemma query_epochs_attempt c0 tr cl :
  hoare (At c0 tr) (attempt (query_epochs cl))
    (fun r c st => match r with Ok e => asked tr (trace st) cl e /\ Since c0 tr c st | Err _ => Since c0 tr c st end) True.
Proof using.
  eapply safe_post; [eapply (safe_attempt (Since c0 tr));
    [apply since_stable|intros c st; by apply at_since|by apply safe_ask]|].
  intros [e|e] c st; [|done]. intros [He Hat]. split; [|eapply at_since; [done| |exact Hat]; by apply suffix_push].
  destruct Hat as [_ ->]. by exists tr.
Qed.

Lemma epoch_validation_ok c0 tr0 : hoare (Since c0 tr0) epoch_validation (Validated c0 tr0) True.
Proof using.
  apply safe_acquired. intros a c1 tr ((Hc & Ht) & Hl & _).
  assert (Hin : forall c st, Since c1 tr c st -> Since c0 tr0 c st) by (intros c st; by apply since_since).
  case_bool_decide as Hcap. { apply safe_ret. intros c st Hst. split; [done|]. by eapply at_since. }
  eapply safe_bind; [apply query_epochs_attempt|]. intros [[s q]|e].
  - apply safe_at. intros c st _ [Ha [Hc' Ht']].
    eapply safe_bind.
    { eapply safe_pre; [apply (set_capability c (trace st)); destruct Hl as [H1 H2]; split; [by eapply lookup_weaken|by eapply dialled_mono]|].
      intros c' st' [Hat _]. by eapply at_since. }
    intros ?. apply safe_ret. intros c' st' [H1 H2]. split.
    + exists (client a). split; [eapply lookup_weaken; [by apply Hl|by etrans]|]. by eapply asked_mono.
    + split; by repeat (etrans; [eassumption|]).
  - assert (Htake : hoare (Since c1 tr) (take_if_closed (A := EpochValidation) (Err e)) (Validated c0 tr0) True).
    { apply (take_if_closed_ok (Validated c0 tr0) (Since c1 tr) (Err e)), since_stable. }
    destruct e as [e| | | |]; try exact Htake. destruct (pg_unsupported e); [|exact Htake].
    eapply safe_bind; [by apply set_capability|]. intros ?. apply safe_ret. intros c st Hst. split; [done|by apply Hin].
Qed.

Lemma use_epochs_ok c0 tr a :
  c0 !! generation a = Some (client a) /\ dialled tr (client a) (credential_revision a) ->
  hoare (At c0 tr) (use_epochs a) (fun _ => Since c0 tr) True.
Proof using.
  intros Hl. unfold use_epochs. destruct (epoch_capability a) as [b|].
  { apply safe_ret. intros c st. by apply at_since. }
  assert (Hset : forall b, hoare (Since c0 tr)
    (mbind (set_active (Some (with_capability a b))) (fun _ => mret b)) (fun _ => Since c0 tr) True).
  { intros b. eapply safe_bind; [by apply set_capability|]. intros ?. by apply safe_ret. }
  eapply safe_bind; [apply query_epochs_attempt|]. intros [e|e].
  - eapply safe_pre; [apply Hset|]. by intros c st [_ ?].
  - destruct e as [e| | | |]; [|apply safe_fail..]. destruct (pg_unsupported e); [apply Hset|apply safe_fail].
Qed.

Definition Discovered (c0 : gmap Z Client) (tr0 : list (Call Client)) (r : str) (d : DiscoveredSchema) : assn :=
  fun c st => exists cl g, (forall n, g = Some n -> c !! n = Some cl) /\ discovered tr0 (trace st) cl g r d /\ Since c0 tr0 c st.

Lemma discovered_stable c0 tr0 r d : stable (Discovered c0 tr0 r d).
Proof using.
  intros c st c' st' [Hc Ht] (cl & g & Hg & Hd & Hs). exists cl, g. split_and!.
  - intros n Hn. eapply lookup_weaken; [by apply Hg|done].
  - by eapply discovered_mono.
  - by eapply since_stable.
Qed.

Lemma discover_schema_ok c0 tr0 r :
  r ∈ roles (app_jwt app) -> hoare (Since c0 tr0) (discover_schema (exposed_tables app) r) (Discovered c0 tr0 r) True.
Proof using.
  intros Hr. apply safe_acquired. intros a c1 tr ((Hc & Ht) & Hl & _).
  eapply safe_bind; [by apply use_epochs_ok|]. intros epochs. apply safe_at. intros c st _ [Hc1 Ht1].
  eapply safe_pre; [|by intros c' st' [Hat _]; exact Hat].
  apply safe_checked. set (g := if epochs then Some (generation a) else None).
  assert (Hd : hoare (At c (trace st)) (discover_on (client a) (exposed_tables app) r g)
    (fun d c' st' => c ⊆ c' /\ discovered (trace st) (trace st') (client a) g r d) True).
  { subst g. destruct epochs; [by apply discover_epochs|by apply discover_revision]. }
  eapply safe_post; [exact Hd|]. intros d c' st' [Hc' Hdis]. exists (client a), g. split_and!.
  - subst g. destruct epochs; [|done]. intros n [= <-]. eapply lookup_weaken; [by apply Hl|by etrans].
  - eapply discovered_mono; [|done|exact Hdis]. by etrans.
  - split; [by do 2 (etrans; [eassumption|])|]. etrans; [exact Ht|]. etrans; [exact Ht1|].
    destruct g; destruct Hdis as (x & (pre & Hp & Hq & _) & _); (etrans; [exact Hq|]); (etrans; [|exact Hp]); auto with gateway.
Qed.

(** ** The schema caches *)

(** [s] comes from other columns that were listed for the role before, and SHA-256 collides on those
    and [rows]. *)
Definition collides (tr : list (Call Client)) (r : str) (rows : list ColumnRow) (s : SchemaCache) : Prop :=
  exists c rows', listed [] tr c r rows' /\ s = build_tables (exposed_tables app) rows' /\
    revision_input (exposed_tables app) rows' <> revision_input (exposed_tables app) rows /\
    sha256 (revision_input (exposed_tables app) rows') = sha256 (revision_input (exposed_tables app) rows).

(** [s] is the schema a role sees now: for the epochs read during the request, or, on a
    server without epochs, the columns listed during the request. *)
Definition fresh (tr0 tr : list (Call Client)) (r : str) (s : SchemaCache) : Prop :=
  (exists c e, asked tr0 tr c e /\ s = build_tables (exposed_tables app) (catalog c r e)) \/
  (exists c rows, listed tr0 tr c r rows /\ (s = build_tables (exposed_tables app) rows \/ collides tr r rows s)).
Definition Fresh (c0 : gmap Z Client) (tr0 : list (Call Client)) (r : str) (s : SchemaCache) : assn :=
  fun c st => dom s ⊆ exposed_tables app /\ fresh tr0 (trace st) r s /\ Since c0 tr0 c st.

Lemma entry_exposed tr clients r e : entry_ok tr clients r e -> dom (entry_schema e) ⊆ exposed_tables app.
Proof using. intros [_ (rows & _ & -> & _)]. apply build_tables_exposed. Qed.

Lemma lookup_cache_ok c0 tr0 r v :
  hoare (Validated c0 tr0 v) (lookup_cache r v) (fun o c st => from_option (fun s => Fresh c0 tr0 r s c st) (Since c0 tr0 c st) o) False.
Proof using.
  destruct v as [v|]; [|apply safe_ret; by intros c st [_ ?]].
  eapply safe_bind; [apply safe_wait, validated_stable|]. intros ?. apply safe_get. intros c st Hi [Hv Hs].
  apply safe_ret. intros ? ? [-> ->]. destruct v as [s q g|]; [|done]. destruct Hv as (cl & Hg & Hask).
  destruct (caches st !! r) as [e|] eqn:He; [|done]. destruct (entry_matches e r (Epochs s q g)) eqn:Hm; [|done].
  unfold entry_matches in Hm. apply andb_true_iff in Hm as [_ Hval%bool_decide_eq_true].
  pose proof (inv_caches _ _ Hi _ _ He) as Hok. split; [by eapply entry_exposed|].
  split; [|done]. left. destruct Hok as [_ (rows & _ & Hb & Hrows)]. rewrite Hval in Hrows.
  destruct Hrows as (c' & Hg' & ->). rewrite Hg in Hg'. injection Hg' as <-. by exists cl, (s, q).
Qed.

Lemma new_entry_ok clients tr0 tr c g r d :
  (forall n, g = Some n -> clients !! n = Some c) -> discovered tr0 tr c g r d -> entry_ok tr clients r (new_entry r d).
Proof using.
  intros Hg Hd. split; [done|]. destruct g as [n|].
  - destruct Hd as (e & _ & Hs & ->). exists (catalog c r e). split_and!; [done..|]. cbn.
    exists c. split; [by apply Hg|]. by destruct e.
  - destruct Hd as (rows & Hl & Hs & ->). exists rows. split_and!; [done..|]. cbn. split; [done|].
    exists c. eapply listed_mono; [| |exact Hl]; [apply suffix_nil|done].
Qed.

Lemma discovered_fresh tr0 tr c g r d : discovered tr0 tr c g r d -> fresh tr0 tr r (discovered_schema d).
Proof using.
  destruct g; [intros (e & Ha & _ & ->)|intros (rows & Hl & _ & ->)].
  - left. by exists c, e.
  - right. exists c, rows. split; [done|]. by left.
Qed.

(** A cached schema with the validation of the discovered one is the discovered one. *)
Lemma matching_fresh clients tr0 tr c g r d e :
  (forall n, g = Some n -> clients !! n = Some c) -> discovered tr0 tr c g r d -> entry_ok tr clients r e ->
  entry_validation e = discovered_validation d -> fresh tr0 tr r (entry_schema e).
Proof using.
  intros Hg Hd [_ (rows & Hs & -> & Hv)] Hval. rewrite Hval in Hv. destruct g as [n|].
  - destruct Hd as ([s q] & Ha & _ & ->). cbn in Hv. destruct Hv as (c' & Hl & ->). rewrite (Hg n eq_refl) in Hl.
    injection Hl as <-. left. by exists c, (s, q).
  - destruct Hd as (rows' & Hl & Hs' & ->). cbn in Hv. right. exists c, rows'. split; [done|].
    destruct (decide (revision_input (exposed_tables app) rows' = revision_input (exposed_tables app) rows)) as [Heq|Hne].
    + left. unfold build_tables. by rewrite (revision_input_inj _ _ _ Hs' Hs Heq).
    + right. destruct Hv as (Hv & c' & Hl'). by exists c', rows.
Qed.

Lemma fresh_mono tr0 tr1 tr tr' r s : tr0 `suffix_of` tr1 -> tr `suffix_of` tr' -> fresh tr1 tr r s -> fresh tr0 tr' r s.
Proof using.
  intros H0 H [(c & e & Ha & Hs)|(c & rows & Hl & Hs)]; [left|right].
  - exists c, e. split; [|done]. by eapply asked_mono.
  - exists c, rows. split; [by eapply listed_mono|]. destruct Hs as [Hs|(c' & rows' & Hl' & Hs)]; [by left|right].
    exists c', rows'. split; [|done]. eapply listed_mono; [done|exact H|exact Hl'].
Qed.

(** An entry that was discovered is stored. *)
Lemma set_cache_ok c0 tr0 r d E :
  hoare (Discovered c0 tr0 r d) (set_cache r (new_entry r d)) (fun _ => Discovered c0 tr0 r d) E.
Proof using.
  apply triple_now. intros c st [Hs Ha Hn Hcs] Hd. exists c. pose proof Hd as (cl & g & Hg & Hdis & _).
  split_and!; [|by split|exact Hd]. split; cbn; [done..|]. intros r' e. destruct (decide (r = r')) as [<-|Hne].
  - rewrite lookup_insert_eq. intros [= <-]. by eapply new_entry_ok.
  - rewrite lookup_insert_ne by done. apply Hcs.
Qed.

Lemma store_cache_ok c0 tr0 r d : hoare (Discovered c0 tr0 r d) (store_cache r d) (Fresh c0 tr0 r) False.
Proof using.
  eapply safe_bind; [apply safe_wait, discovered_stable|]. intros ?. apply safe_get. intros c st Hi Hd.
  assert (Hnew : hoare (fun c' st' => c' = c /\ st' = st)
    (mbind (set_cache r (new_entry r d)) (fun _ => mret (discovered_schema d))) (Fresh c0 tr0 r) False).
  { eapply safe_bind; [eapply safe_pre; [apply set_cache_ok|]; intros ? ? [-> ->]; exact Hd|].
    intros ?. apply safe_ret. intros c' st' (cl & g & Hg & Hdis & Hs). split; [|split; [by eapply discovered_fresh|done]].
    destruct g; destruct Hdis as (? & _ & _ & ->); apply build_tables_exposed. }
  cbv zeta. destruct (caches st !! r) as [e|] eqn:He; [|exact Hnew].
  destruct (entry_matches e r (discovered_validation d)) eqn:Hm; [|exact Hnew].
  apply andb_true_iff in Hm as [_ Hval%bool_decide_eq_true]. pose proof (inv_caches _ _ Hi _ _ He) as Hok.
  destruct Hd as (cl & g & Hg & Hdis & Hs). apply safe_ret. intros ? ? [-> ->].
  split; [by eapply entry_exposed|]. split; [|done]. by eapply matching_fresh.
Qed.

Lemma role_schema_ok c0 tr0 r force :
  r ∈ roles (app_jwt app) ->
  hoare (Since c0 tr0) (role_schema (exposed_tables app) r force)
    (fun o c st => from_option (fun s => Fresh c0 tr0 r s c st) True o) False.
Proof using.
  intros Hr.
  assert (Hd : hoare (Since c0 tr0) (discover_and_store (exposed_tables app) r)
    (fun o c st => from_option (fun s => Fresh c0 tr0 r s c st) True o) False).
  { eapply safe_bind; [by eapply safe_timeout, discover_schema_ok|]. intros [d|e|]; [|by apply safe_ret..].
    eapply safe_bind; [apply store_cache_ok|]. intros s. by apply safe_ret. }
  unfold role_schema. destruct force; [exact Hd|].
  eapply safe_bind; [eapply safe_timeout, epoch_validation_ok|]. intros [v|e|]; [|by apply safe_ret..].
  eapply safe_bind; [apply lookup_cache_ok|]. intros [s|]; [by apply safe_ret|exact Hd].
Qed.

(** ** Reads *)

(** The calls of a read, the latest first *)
Definition read_calls (c : Client) (id : RequestIdentity) (sql : str) (ps : list str) : list (Call Client) :=
  [CallCommit c; CallQuery c sql ps; CallPrepare c sql; CallSetClaims c (claims id);
   CallExecute c (set_role_sql (role id)); CallBegin c].
(** They ran after [tr0], together, on an up-to-date connection, and gave [body]. *)
Definition ran (tr0 : list (Call Client)) (id : RequestIdentity) (sql : str) (ps : list str) (body : str)
    (tr : list (Call Client)) : Prop :=
  exists c pre, tr0 `suffix_of` pre /\ up_to_date tr0 pre c /\ read_calls c id sql ps ++ pre `suffix_of` tr /\
    query_answer (drop 2 (read_calls c id sql ps) ++ pre) c sql ps = Replied (Ok body).

Lemma execute_read_ok c0 tr0 id sql ps :
  verified (role id) (claims id) -> role id ∈ roles (app_jwt app) ->
  hoare (Since c0 tr0) (execute_read id sql ps) (fun body c st => ran tr0 id sql ps body (trace st)) True.
Proof using.
  intros Hv Hr. apply safe_acquired. intros a c1 tr ((Hc & Ht) & _ & Hu).
  apply safe_checked. unfold execute_read_with_client. set (c := client a).
  apply ask_step; [done|]. intros ? _. apply ask_step; [by exists (role id)|]. intros ? _.
  apply ask_step; [done|]. intros ? _. apply ask_step; [by exists (role id), (claims id), tr|]. intros ? _.
  apply ask_step; [by eexists|]. intros body Hb. apply ask_step; [done|]. intros ? _.
  apply safe_ret. intros c' st [_ ->]. by exists c, tr.
Qed.

(** ** Handlers *)

Lemma authenticate_ok P authorization E :
  hoare P (authenticate (app_jwt app) authorization)
    (fun r c st => match r with
                   | Ok id => verified (role id) (claims id) /\ role id ∈ roles (app_jwt app)
                   | Err _ => True
                   end /\ P c st) E.
Proof using.
  apply safe_get. intros c st Hi HP. apply safe_ret. intros ? ? [-> ->]. split; [|done].
  destruct (request_identity _ _ _ _ _ _ _ _) as [id|] eqn:H; [|done]. split.
  - exists (trace st), authorization. rewrite H. by destruct id.
  - by eapply request_identity_role.
Qed.

(** What a successful read returned *)
Definition read_served (tr0 : list (Call Client)) (table : str) (query : option str) (head : bool) (b : option str)
    (tr : list (Call Client)) : Prop :=
  exists id request cache output body,
    verified (role id) (claims id) /\
    parse_read_request star no_order parse_query parse_select parse_order parse_logic_filter parse_filter table
      (default [] query) = Ok request /\
    dom cache ⊆ exposed_tables app /\ fresh tr0 tr (role id) cache /\
    build_sql cache request = Ok output /\
    ran tr0 id (adapt_quackgis_sql output.1) output.2 body tr /\ b = if head then None else Some body.

Lemma ran_mono tr0 tr1 id sql ps body tr : tr0 `suffix_of` tr1 -> ran tr1 id sql ps body tr -> ran tr0 id sql ps body tr.
Proof using.
  intros H (c & pre & Hp & (p & cred & H1 & H2) & Hs & Hq). exists c, pre. split_and!; [by etrans| |done..].
  exists p, cred. by split; [etrans|].
Qed.

Lemma read_table_ok c0 tr0 table query authorization head :
  hoare (Since c0 tr0) (read_table_response app table query authorization head)
    (fun r c st => match r with ResponseBody b => read_served tr0 table query head b (trace st) | _ => True end) False.
Proof using.
  eapply safe_bind; [apply authenticate_ok|]. intros [id|[]]; [|by apply safe_ret].
  apply safe_pure. intros [Hv Hr]. destruct (parse_read_request _ _ _ _ _ _ _ _ _) as [request|e] eqn:Hp;
    [|by apply safe_ret].
  eapply safe_bind; [by apply role_schema_ok|]. intros [cache|]; [|by apply safe_ret].
  destruct (build_sql cache request) as [output|e] eqn:Hb; [|by apply safe_ret].
  apply safe_at. intros c st _ (Hdom & Hf & Hs).
  eapply safe_bind.
  - eapply (safe_timeout _ _ (fun body c' st' => ran (trace st) id (adapt_quackgis_sql output.1) output.2 body (trace st'))).
    eapply safe_pre; [by apply (execute_read_ok c (trace st))|]. intros c' st' [Hat _]. by eapply at_since.
  - intros [body|e|]; [|by apply safe_ret..]. apply safe_ret. intros c' st' Hran.
    exists id, request, cache, output, body. split_and!; [done..| |done|by eapply ran_mono; [apply Hs|]|done].
    eapply fresh_mono; [done| |exact Hf]. destruct Hran as (cl & pre & H1 & _ & H2 & _). etrans; [exact H1|].
    etrans; [|exact H2]. by apply suffix_app_r.
Qed.

Lemma database_ready_ok c0 tr0 : hoare (Since c0 tr0) database_ready (fun _ _ _ => True) True.
Proof using.
  apply safe_acquired. intros a c1 tr _. apply safe_checked. eapply safe_post; [by apply safe_ask|done].
Qed.

(** Every handler answers. *)
Definition served (tr0 : list (Call Client)) (r : Request) (resp : Response) (tr : list (Call Client)) : Prop :=
  match r, resp with
  | GetTable table query _ head, ResponseBody b => read_served tr0 table query head b tr
  | GetOpenapi _, ResponseOpenApi paths role => exists cache, fresh tr0 tr role cache /\ dom cache ⊆ exposed_tables app /\
      paths = map (fun kv => x2f :: kv.1) (map_to_list cache)
  | _, _ => True
  end.
Lemma handle_ok c0 tr0 r :
  hoare (Since c0 tr0) (handle app r) (fun resp c st => served tr0 r resp (trace st)) False.
Proof using.
  destruct r as [|a|a|t q a head]; cbn [handle].
  - apply safe_get. intros c st Hi Hs. destruct (read_jwt_secret _); [|by apply safe_ret].
    eapply safe_bind; [eapply safe_timeout; eapply safe_pre; [apply database_ready_ok|]; intros ? ? [-> ->]; exact Hs|].
    intros [u|e|]; by apply safe_ret.
  - eapply safe_bind; [apply authenticate_ok|]. intros [id|[]]; [|by apply safe_ret]. apply safe_pure. intros [_ Hr].
    eapply safe_bind; [by apply role_schema_ok|]. intros [s|]; [|by apply safe_ret].
    apply safe_ret. intros c st (Hd & Hf & _). by exists s.
  - eapply safe_bind; [apply authenticate_ok|]. intros [id|[]]; [|by apply safe_ret]. apply safe_pure. intros [_ Hr].
    eapply safe_bind; [by apply role_schema_ok|]. intros [s|]; by apply safe_ret.
  - eapply safe_post; [apply read_table_ok|]. by intros [] c st.
Qed.

Lemma ran_later tr0 id sql ps body tr tr' : tr `suffix_of` tr' -> ran tr0 id sql ps body tr -> ran tr0 id sql ps body tr'.
Proof using. intros H (c & pre & Hp & Hu & Hs & Hq). exists c, pre. split_and!; [done|done|by etrans|done]. Qed.
Lemma served_later tr0 r resp tr tr' : tr `suffix_of` tr' -> served tr0 r resp tr -> served tr0 r resp tr'.
Proof using.
  intros H. destruct r as [|a|a|t q a head]; destruct resp as [b| | |paths role|]; try done; cbn.
  - intros (cache & Hf & Hd). exists cache. split; [by eapply fresh_mono|done].
  - intros (id & request & cache & output & body & Hv & Hp & Hd & Hf & Hb & Hr & He).
    exists id, request, cache, output, body. split_and!; [done..|by eapply fresh_mono|done|by eapply ran_later|done].
Qed.

(** ** Requests served together *)

Definition serving_ok (c : gmap Z Client) (st : State) (s : Serving) : Prop :=
  exists c1 st1, grows c1 st1 c st /\
    safe (task s) c1 st1 (ends (fun resp _ st' => served (arrived s) (request s) resp (trace st')) False).
Definition pool_ok (sys : State * list Serving) : Prop :=
  exists c, Inv c sys.1 /\ Forall (serving_ok c sys.1) sys.2.

Lemma serving_later c st c' st' s : grows c st c' st' -> serving_ok c st s -> serving_ok c' st' s.
Proof using. intros H (c1 & st1 & Hg & Hs). exists c1, st1. split; [by eapply grows_trans|done]. Qed.
Lemma pool_later c st c' st' pool : grows c st c' st' -> Forall (serving_ok c st) pool -> Forall (serving_ok c' st') pool.
Proof using. intros H Hp. eapply Forall_impl; [exact Hp|]. intros s. by apply serving_later. Qed.

Lemma pool_step sys sys' : serves app sys sys' -> pool_ok sys -> pool_ok sys'.
Proof using.
  intros [r st pool st' s Ha|i s resume st pool st' s' Hi Ht Hr|i st pool] (c & Hinv & Hpool); cbn in Hinv, Hpool.
  - unfold accept in Ha. destruct (handle_ok c (trace st) r c st Hinv) as (c' & Hi' & Hg & Hs); [by split|].
    destruct (handle app r st) as [st1 t]. injection Ha as <- <-. exists c'. split; [done|].
    apply Forall_app. split; [by eapply pool_later|]. apply Forall_singleton. exists c', st1. by split; [apply grows_refl|].
  - rewrite Forall_lookup in Hpool. destruct (Hpool i s Hi) as (c1 & st1 & Hg1 & Hs1). rewrite Ht in Hs1.
    destruct (Hs1 c st Hinv Hg1) as (c' & Hi' & Hg & Hs). unfold resume_with in Hr.
    destruct (resume st) as [st2 t]. injection Hr as <- <-. exists c'. split; [done|].
    apply Forall_insert; [apply (pool_later c st); [done|by apply Forall_lookup]|]. exists c', st2. by split; [apply grows_refl|].
  - exists c. split; [done|]. by apply Forall_delete.
Qed.

(** ** Start-up *)

Lemma run_alone_ok {A} (Q : Outcome A -> assn) :
  forall t c st, Inv c st -> safe t c st Q ->
    exists c', Inv c' (run_alone t st).1 /\ Q (run_alone t st).2 c' (run_alone t st).1.
Proof using.
  fix IH 1. intros [o|resume] c st Hi Hs; [by exists c|]. destruct (Hs c st Hi (grows_refl _ _)) as (c1 & Hi1 & _ & Hs1).
  cbn. destruct (resume st) as [st1 t1]. exact (IH t1 c1 st1 Hi1 Hs1).
Qed.

Lemma new_connection_ok : hoare (fun c st => c = ∅ /\ st = before_start) new_connection (fun _ => Since ∅ []) True.
Proof using.
  apply safe_get. intros c st _ [-> ->]. cbv zeta. cbn [trace before_start].
  eapply safe_bind; [apply safe_result|]. intros cred. apply safe_pure. intros Hcred.
  eapply safe_bind; [apply safe_result|]. intros d. apply safe_pure. intros Hd.
  intros c st Hi [-> ->]. unfold mbind, obind, ask. cbn [trace before_start].
  assert (Hi0 : Inv ∅ (mkState None 1 ∅ [CallConnect d])).
  { split; cbn; [done..| |]; intros ? ? H; by rewrite lookup_empty in H. }
  destruct (connect_answer [] d) as [[cl|e]|] eqn:Hcl; [|by exists ∅; split_and!; [|split; [|by apply suffix_cons_r]|]..].
  cbn. exists {[1 := cl]}. split_and!; [|by split; [apply map_empty_subseteq|by apply suffix_cons_r]|by split; [apply map_empty_subseteq|apply suffix_nil]].
  split; cbn; [done| | |by intros ? ? H; rewrite lookup_empty in H].
  - intros a [= <-]. cbn. split; [apply lookup_singleton_eq|]. by exists [], cred, d.
  - intros g x [<- _]%lookup_singleton_Some. lia.
Qed.

Lemma discover_roles_ok rs seen :
  Forall (fun r => r ∈ roles (app_jwt app)) rs ->
  hoare (Since ∅ []) (discover_roles (exposed_tables app) rs seen) (fun _ => Since ∅ []) True.
Proof using.
  intros Hrs. revert seen. induction Hrs as [|r rs Hr Hrs IH]; intros seen; [by apply safe_ret|].
  eapply safe_bind; [by apply discover_schema_ok|]. intros d. eapply safe_bind; [apply set_cache_ok|]. intros ?.
  eapply safe_pre; [apply IH|]. by intros c st (? & ? & _ & _ & Hs).
Qed.

Lemma started_ok st : started app st -> pool_ok (st, []).
Proof using.
  assert (H : hoare (fun c st => c = ∅ /\ st = before_start) (main app) (fun _ => Since ∅ []) True).
  { eapply safe_bind; [apply new_connection_ok|]. intros ?. eapply safe_bind; [apply discover_roles_ok|].
    - apply Forall_forall. intros r. by rewrite sort_by_perm, elem_of_elements.
    - intros seen. case_bool_decide; [by apply safe_ret|apply safe_fail]. }
  unfold started, alone. destruct (H ∅ before_start) as (c & Hi & _ & Hs); [|done|].
  { split; cbn; [done..| |]; intros ? ? E; by rewrite lookup_empty in E. }
  destruct (main app before_start) as [st0 t]. intros Hrun. destruct (run_alone_ok _ t c st0 Hi Hs) as (c' & Hi' & _).
  rewrite Hrun in Hi'. by exists c'.
Qed.

Lemma reachable_ok st0 sys : started app st0 -> rtc (serves app) (st0, []) sys -> pool_ok sys.
Proof using.
  intros H0%started_ok Hr. revert H0. induction Hr as [|x y z Hxy Hyz IH]; [done|]. intros Hx. by apply IH, (pool_step x).
Qed.
End safety.
