(* ===== verification/RestOutcomes.v ===== *)
(** * What the REST gateway does: its start and the requests it serves

    The theorems about [main] and about any number of requests served together, and a
    small database on which they are applied. *)

From S2P Require Import Prelude MigrateConfig MigrateChecksum MigrateFiles RestTokens RestRequests RestGateway RestSafety.
#[local] Open Scope Z_scope.

(** ** A computation that runs alone *)

Section alone.
Context {backend : Backend} {codecs : Codecs}.

Lemma run_alone_bind {A B} (k : Outcome A -> M B) :
  forall t st, (let '(st', t') := task_bind t k st in run_alone t' st') =
               (let '(st', o) := run_alone t st in alone (k o) st').
Proof.
  fix IH 1. intros [o|resume] st; [done|]. cbn. destruct (resume st) as [st1 t1]. exact (IH t1 st1).
Qed.
Lemma alone_bind {A B} (m : M A) (k : A -> M B) st :
  alone (mbind m k) st =
    match alone m st with
    | (st', Done a) => alone (k a) st'
    | (st', Failed e) => (st', Failed e)
    | (st', TimedOut) => (st', TimedOut)
    end.
Proof.
  unfold mbind, obind, alone. destruct (m st) as [st1 t]. rewrite run_alone_bind.
  by destruct (run_alone t st1) as [st2 [a|e|]].
Qed.
Lemma alone_done {A B} (m : M A) (k : A -> M B) st st' b :
  alone (mbind m k) st = (st', Done b) -> exists st1 a, alone m st = (st1, Done a) /\ alone (k a) st1 = (st', Done b).
Proof. rewrite alone_bind. destruct (alone m st) as [st1 [a|e|]]; [|done..]. by exists st1, a. Qed.
Lemma alone_attempt {A} (m : M A) st : (alone (attempt m) st).1 = (alone m st).1.
Proof.
  unfold attempt, obind, alone. destruct (m st) as [st1 t]. rewrite run_alone_bind.
  by destruct (run_alone t st1) as [st2 [a|e|]].
Qed.

(** The schema caches are not touched. *)
Definition keeps_caches {A} (m : M A) : Prop := forall st, caches (alone m st).1 = caches st.
Lemma keeps_caches_bind {A B} (m : M A) (k : A -> M B) : keeps_caches m -> (forall a, keeps_caches (k a)) -> keeps_caches (mbind m k).
Proof.
  intros Hm Hk st. rewrite alone_bind. specialize (Hm st). destruct (alone m st) as [st1 [a|e|]]; [|done..].
  cbn in Hm. by rewrite Hk.
Qed.
Lemma keeps_caches_attempt {A} (m : M A) : keeps_caches m -> keeps_caches (attempt m).
Proof. intros Hm st. by rewrite alone_attempt. Qed.
Lemma keeps_caches_now {A} (f : State -> State) (o : State -> Outcome A) :
  (forall st, caches (f st) = caches st) -> keeps_caches (fun st => (f st, Finish (o st))).
Proof. done. Qed.
Lemma keeps_caches_ask {A} c (answer : list (Call Client) -> Answer A) : keeps_caches (ask c answer).
Proof. done. Qed.
Lemma keeps_caches_get : keeps_caches get_state.
Proof. done. Qed.
Lemma keeps_caches_ret {A} (a : A) : keeps_caches (mret a).
Proof. done. Qed.
Lemma keeps_caches_fail {A} e : keeps_caches (mfail (A := A) e).
Proof. done. Qed.
Lemma keeps_caches_set a : keeps_caches (set_active a).
Proof. done. Qed.
Lemma keeps_caches_lock : keeps_caches lock_database.
Proof. done. Qed.
Lemma keeps_caches_result {A} (r : result RestError A) : keeps_caches (mresult r).
Proof. by destruct r. Qed.
Lemma keeps_caches_generation : keeps_caches take_generation.
Proof. intros st. unfold alone, take_generation. by destruct (_ <=? _). Qed.
#[local] Hint Resolve keeps_caches_ask keeps_caches_get keeps_caches_ret keeps_caches_fail keeps_caches_set keeps_caches_lock keeps_caches_result keeps_caches_generation
  keeps_caches_attempt keeps_caches_bind : gateway.

Ltac keeps_caches := repeat first
  [ progress intros
  | apply keeps_caches_bind
  | progress auto with gateway
  | match goal with |- keeps_caches (match ?x with _ => _ end) => destruct x end ].

Lemma keeps_caches_active : keeps_caches active_client.
Proof. unfold active_client, replace_client. cbv zeta. keeps_caches. Qed.
Lemma keeps_caches_discover exposed r : keeps_caches (discover_schema exposed r).
Proof.
  unfold discover_schema. apply keeps_caches_bind; [apply keeps_caches_active|]. intros a. apply keeps_caches_bind; [unfold use_epochs, query_epochs; keeps_caches|].
  intros epochs. apply keeps_caches_bind; [apply keeps_caches_attempt; unfold discover_on, query_epochs; keeps_caches|].
  intros [d|e]; unfold take_if_closed; keeps_caches.
Qed.

Lemma discover_roles_caches exposed rs seen st st' seen' :
  NoDup rs -> alone (discover_roles exposed rs seen) st = (st', Done seen') ->
  (forall r, r ∉ rs -> caches st' !! r = caches st !! r) /\
  (forall r, r ∈ rs -> exists e, caches st' !! r = Some e /\ entry_role e = r) /\
  (forall t, t ∈ seen' -> t ∈ seen \/ exists r e, r ∈ rs /\ caches st' !! r = Some e /\ t ∈ dom (entry_schema e)).
Proof.
  intros Hnd. revert seen st. induction Hnd as [|r rs Hr Hnd IH]; intros seen st H.
  { injection H as <- <-. split_and!; [done|by intros r Hr%elem_of_nil|auto]. }
  cbn [discover_roles] in H. apply alone_done in H as (st1 & d & Hd & H).
  apply alone_done in H as (st2 & [] & [= <-] & H).
  pose proof (keeps_caches_discover exposed r st) as Hq. rewrite Hd in Hq. cbn in Hq.
  destruct (IH _ _ H) as (H1 & H2 & H3). cbn [caches] in H1.
  assert (Hrr : caches st' !! r = Some (new_entry r d)) by (rewrite H1 by done; apply lookup_insert_eq).
  split_and!.
  - intros r' [Hne Hn]%not_elem_of_cons. rewrite H1 by done. by rewrite lookup_insert_ne, Hq.
  - intros r' [->|Hin]%elem_of_cons; [by eexists|by apply H2].
  - intros t Ht. destruct (H3 t Ht) as [[Hs|Hs]%elem_of_union|(r' & e & Hin & He)].
    + by left.
    + right. exists r, (new_entry r d). split; [apply list_elem_of_here|done].
    + right. exists r', e. split; [by apply list_elem_of_further|done].
Qed.
End alone.

(** When the server starts, the schema of every configured role has been discovered and
    cached under that role, and every exposed table is in the schema of some role. *)
Theorem startup_complete {backend : Backend} {codecs : Codecs} app st :
  started app st ->
  (forall r, r ∈ roles (app_jwt app) -> exists e, caches st !! r = Some e /\ entry_role e = r) /\
  (forall t, t ∈ exposed_tables app ->
     exists r e, r ∈ roles (app_jwt app) /\ caches st !! r = Some e /\ t ∈ dom (entry_schema e)).
Proof.
  intros H. apply alone_done in H as (st1 & ? & _ & H). apply alone_done in H as (st2 & seen & Hd & H).
  case_bool_decide as Hm; [|done]. injection H as ->.
  set (rs := sort_by str_compare (elements (roles (app_jwt app)))) in *.
  assert (Hrs : forall r, r ∈ rs <-> r ∈ roles (app_jwt app)) by (intros r; unfold rs; by rewrite sort_by_perm, elem_of_elements).
  assert (Hnd : NoDup rs) by (unfold rs; rewrite sort_by_perm; apply NoDup_elements).
  destruct (discover_roles_caches _ _ _ _ _ _ Hnd Hd) as (_ & H2 & H3). split.
  - intros r Hr. by apply H2, Hrs.
  - intros t Ht. assert (Hs : t ∈ seen) by (apply dec_stable; set_solver).
    destruct (H3 t Hs) as [?%not_elem_of_empty|(r & e & Hin & He)]; [done|]. exists r, e. split; [by apply Hrs|done].
Qed.

(** C23: Whatever requests are served, in whatever order they are resumed or dropped, every
    statement that came from a request was prepared right after a transaction took the
    role and the claims of one verified token, every query was run right after it was
    prepared, and the only other statements are the roles configured. *)
Theorem transactions_scoped {backend : Backend} {codecs : Codecs} {law : EpochLaw} app st0 st pool :
  started app st0 -> rtc (serves app) (st0, []) (st, pool) -> scoped app (trace st).
Proof.
  intros H0 Hr. destruct (reachable_ok app st0 (st, pool) H0 Hr) as (c & Hi & _). by eapply inv_scoped.
Qed.

(** C22: Whatever else is served meanwhile, a request that has ended was answered, a read that
    succeeded ran under the identity of a verified token on a connection opened with the
    credential then on file, with the SQL built from the query and from a schema that holds
    exposed tables only and is what the role saw during that request, and the paths listed
    for a role come from such a schema too.  What the role saw is, on a server with schema and security
    epochs, the columns it sees at the epochs read during the request (as long as these do not change a
    role sees the same columns: EpochLaw); on another, the columns listed during the request, unless the
    schema comes from other columns, listed for the same role before, and SHA-256 collides on these two. *)
Theorem requests_served {backend : Backend} {codecs : Codecs} {law : EpochLaw} app st0 st pool s o :
  started app st0 -> rtc (serves app) (st0, []) (st, pool) -> s ∈ pool -> task s = Finish o ->
  exists resp, o = Done resp /\ served app (arrived s) (request s) resp (trace st).
Proof.
  intros H0 Hr Hs Ht. destruct (reachable_ok app st0 (st, pool) H0 Hr) as (c & Hi & Hp).
  rewrite Forall_forall in Hp. destruct (Hp s Hs) as (c1 & st1 & [_ Hg] & Hsafe). rewrite Ht in Hsafe.
  destruct o as [resp|e|]; [|done..]. exists resp. split; [done|]. by eapply served_later.
Qed.

(** ** A small database *)

Definition demo_secret : list byte := replicate 32 x6b.
Definition demo_file : File := mkFile (Some (mkMetadata false true 32 384)) (Some demo_secret).
Definition demo_rows : list ColumnRow := [mkColumnRow (lit "roads") (lit "id") (lit "int4") (lit "NO") None].
#[local] Instance demo_backend : Backend := {|
  Client := Z;
  connect_answer _ _ := Replied (Ok 7);
  epochs_answer _ _ := Replied (Ok (3, 5));
  begin_answer _ _ := Replied (Ok tt);
  execute_answer _ _ _ := Replied (Ok tt);
  columns_answer _ _ := Replied (Ok demo_rows);
  claims_answer _ _ _ := Replied (Ok tt);
  prepare_answer _ _ _ := Replied (Ok tt);
  query_answer _ _ _ _ := Replied (Ok (lit "[]"));
  ping_answer _ _ := Replied (Ok tt);
  commit_answer _ _ := Replied (Ok tt);
  is_closed _ _ := false;
  lock_elapsed _ := false;
  connector _ := mkDatabaseConnector (lit "postgres") None EdgePreauthenticated;
  secret_file _ := Some demo_file;
  clock _ := Some 100 |}.
Definition demo_claims : list (str * Json) :=
  [(lit "iss", JString (lit "quack")); (lit "aud", JString (lit "rest"));
   (lit "exp", JNumber (Some 90)); (lit "role", JString (lit "viewer"))].
#[local] Instance demo_codecs : Codecs := {|
  sha256 x := x;
  parse_url _ := Some (mkRestConfig None [HostTcp (lit "127.0.0.1")] SslPrefer);
  parse_ip _ := Some (V4 [127; 0; 0; 1]);
  parse_certs _ := None;
  root_accepted _ := false;
  b64_decode := Some;
  from_slice b := if bool_decide (b = lit "h") then Some (JObject [(lit "alg", JString (lit "HS256"))])
                  else if bool_decide (b = lit "c") then Some (JObject demo_claims) else None;
  to_json _ := Some (lit "{}");
  hmac_verify key _ signature := bool_decide (signature = key);
  error_text _ := [];
  Select := str;
  Order := str;
  Condition := str;
  Logic := str;
  star := lit "*";
  no_order := [];
  parse_query q := [(lit "select", q)];
  parse_select := Some;
  parse_order := Some;
  parse_logic_filter _ := Some;
  parse_filter _ := Some;
  request_error_text _ := [];
  build_sql cache r := match cache !! name_table (rr_table r) with
                       | Some _ => Ok (lit "SELECT " ++ rr_select r, [])
                       | None => Err (lit "no such table")
                       end |}.
#[local] Instance demo_law : EpochLaw.
Proof.
  refine {| catalog := fun _ _ _ => demo_rows |}.
  - intros tr c r e rows _ [= <-] _. done.
  - intros tr c rows [= <-]. repeat constructor; vm_compute; done.
Defined.
Definition demo_app : App := mkApp (mkJwtVerifier (lit "quack") (lit "rest") {[lit "viewer"]}) {[lit "roads"]}.
Definition demo_start : State := (alone (main demo_app) before_start).1.
Definition demo_read : Request := GetTable (lit "roads") (Some (lit "id")) (Some (lit "Bearer h.c." ++ demo_secret)) false.
Definition demo_pool : State * list Serving := let '(st, s) := accept demo_app demo_read demo_start in (st, [s]).
Definition resume_first (sys : State * list Serving) : State * list Serving :=
  match sys with
  | (st, s :: pool) => match task s with
                       | Wait resume => let '(st', s') := resume_with s resume st in (st', s' :: pool)
                       | Finish _ => sys
                       end
  | _ => sys
  end.
Lemma resume_first_serves sys : rtc (serves demo_app) sys (resume_first sys).
Proof.
  destruct sys as [st [|s pool]]; [done|]. cbn. destruct (task s) as [o|resume] eqn:Ht; [done|].
  destruct (resume_with s resume st) as [st' s'] eqn:Hr. apply rtc_once. by apply (serve_resume demo_app 0 s resume st (s :: pool)).
Qed.
Lemma demo_starts : started demo_app demo_start.
Proof. vm_compute. done. Qed.
Definition demo_served : State * list Serving := Nat.iter 3 resume_first demo_pool.
Lemma demo_serves : rtc (serves demo_app) (demo_start, []) demo_served.
Proof.
  unfold demo_served, demo_pool. destruct (accept demo_app demo_read demo_start) as [st s] eqn:Ha.
  eapply rtc_l; [by apply (serve_request demo_app demo_read demo_start [])|].
  do 3 (etrans; [apply resume_first_serves|]). done.
Qed.

Lemma demo_finished : exists s, demo_served.2 = [s] /\ task s = Finish (Done (ResponseBody (Some (lit "[]")))).
Proof.
  assert (H : map task demo_served.2 = [Finish (Done (ResponseBody (Some (lit "[]"))))]) by (vm_compute; reflexivity).
  revert H. generalize demo_served.2. intros [|s [|? ?]] H; [done| |done]. exists s. split; [done|]. by injection H.
Qed.
Lemma demo_role : lit "viewer" ∈ roles (app_jwt demo_app).
Proof. change (lit "viewer" ∈ ({[lit "viewer"]} : gset str)). by apply elem_of_singleton_2. Qed.

Lemma startup_complete_witness : exists e, caches demo_start !! lit "viewer" = Some e /\ entry_role e = lit "viewer".
Proof. destruct (startup_complete demo_app demo_start demo_starts) as [H _]. exact (H _ demo_role). Defined.
Lemma transactions_scoped_witness : scoped demo_app (trace demo_served.1).
Proof.
  apply (transactions_scoped demo_app demo_start demo_served.1 demo_served.2 demo_starts).
  rewrite <- (surjective_pairing demo_served). exact demo_serves.
Defined.
Lemma requests_served_witness : exists s, demo_served.2 = [s] /\
  exists resp, Done (ResponseBody (Some (lit "[]"))) = Done resp /\ served demo_app (arrived s) (request s) resp (trace demo_served.1).
Proof.
  destruct demo_finished as (s & Hp & Ht). exists s. split; [exact Hp|].
  apply (requests_served demo_app demo_start demo_served.1 demo_served.2 s); [exact demo_starts| | |exact Ht].
  - rewrite <- (surjective_pairing demo_served). exact demo_serves.
  - rewrite Hp. apply list_elem_of_here.
Defined.
