(* ===== verification/SpatialRewrite.v ===== *)
(** * PostGIS spellings ([quackgis-server/src/spatial_compat.rs])

    [rewrite_postgis_sql] reads a statement once, from left to right.  Each round of its
    loop is a [Piece]: text copied as it is (a literal, a quoted identifier, a comment, one
    character), or an unquoted identifier, which is respelled when it is called and known.
    The remaining input stands for the byte index of the code. *)

From S2P Require Import Prelude.
#[local] Open Scope Z_scope.

(** ** The scanner *)

Definition is_identifier_start (b : byte) : bool := is_ascii_alphabetic b || bool_decide (b = x5f).
Definition is_identifier_continue (b : byte) : bool :=
  is_ascii_alphanumeric b || bool_decide (b = x5f) || bool_decide (b = x24).

Fixpoint span (p : byte -> bool) (s : str) : str * str :=
  match s with
  | b :: rest => if p b then let '(t, u) := span p rest in (b :: t, u) else ([], s)
  | [] => ([], [])
  end.

(** [copy_quoted] after the opening quote *)
Fixpoint copy_quoted (quote : byte) (s : str) : str * str :=
  match s with
  | [] => ([], [])
  | b :: rest =>
      if bool_decide (b = quote) then
        match rest with
        | c :: rest' => if bool_decide (c = quote) then let '(t, u) := copy_quoted quote rest' in (b :: c :: t, u)
                        else ([b], rest)
        | [] => ([b], [])
        end
      else let '(t, u) := copy_quoted quote rest in (b :: t, u)
  end.

(** [copy_line_comment] after the two dashes *)
Definition copy_line_comment (s : str) : str * str := span (fun b => negb (bool_decide (b = x0a))) s.

(** [copy_block_comment] after the opening, [depth] comments deep *)
Fixpoint copy_block_comment (depth : nat) (s : str) : str * str :=
  match depth, s with
  | O, _ => ([], s)
  | _, [] => ([], [])
  | S d, b :: rest =>
      let one := let '(t, u) := copy_block_comment depth rest in (b :: t, u) in
      match rest with
      | c :: rest' =>
          if bool_decide (b = x2f) && bool_decide (c = x2a) then
            let '(t, u) := copy_block_comment (S depth) rest' in (b :: c :: t, u)
          else if bool_decide (b = x2a) && bool_decide (c = x2f) then
            let '(t, u) := copy_block_comment d rest' in (b :: c :: t, u)
          else one
      | [] => one
      end
  end.

(** [dollar_delimiter_end] on what follows a dollar sign: the rest of the delimiter *)
Definition dollar_delimiter_end (s : str) : option str :=
  match s with
  | b :: rest =>
      if bool_decide (b = x24) then Some [b]
      else if is_identifier_start b then
        let '(t, u) := span is_identifier_continue rest in
        match u with
        | c :: _ => if bool_decide (c = x24) then Some (b :: t ++ [c]) else None
        | [] => None
        end
      else None
  | [] => None
  end.

(** [str::find]: the text before the first occurrence of [needle] *)
Fixpoint find (needle s : str) : option str :=
  if starts_with needle s then Some []
  else match s with
       | [] => None
       | b :: rest => (fun t => b :: t) <$> find needle rest
       end.

(** [copy_dollar_quoted] after the opening delimiter *)
Definition copy_dollar_quoted (delimiter body : str) : str * str :=
  match find delimiter body with
  | Some t => (t ++ delimiter, drop (length t + length delimiter) body)
  | None => (body, [])
  end.

(** [rewrite_function_name] *)
Definition known_functions : list (string * string) :=
  [("postgis_lib_version", "quackgis_postgis_lib_version"); ("postgis_version", "quackgis_postgis_version");
   ("st_geomfromewkt", "quackgis_st_geomfromewkt"); ("st_makepoint", "ST_Point");
   ("st_asbinary", "quackgis_st_asbinary"); ("st_ashexewkb", "quackgis_st_ashexewkb");
   ("geometrytype", "quackgis_geometry_type"); ("st_geometrytype", "quackgis_st_geometry_type");
   ("st_numpoints", "ST_NPoints"); ("st_curvetoline", "quackgis_st_curvetoline");
   ("st_hasarc", "quackgis_st_hasarc"); ("st_srid", "quackgis_st_srid"); ("st_zmflag", "quackgis_st_zmflag");
   ("st_extent", "quackgis_st_extent"); ("st_3dextent", "quackgis_st_3dextent");
   ("postgis_geos_version", "quackgis_postgis_geos_version");
   ("postgis_proj_version", "quackgis_postgis_proj_version")]%string.
Definition lookup_function (table : list (string * string)) (identifier : str) : option str :=
  (fun kv : string * string => lit kv.2) <$> List.find (fun kv => eq_ignore_ascii_case identifier (lit kv.1)) table.
Definition rewrite_function_name (identifier : str) : option str := lookup_function known_functions identifier.

(** The length of the character a byte starts *)
Definition char_len (b : byte) : nat :=
  if bz b <? 128 then 1 else if bz b <? 224 then 2 else if bz b <? 240 then 3 else 4.

Definition next_is_call (s : str) : bool :=
  match (span is_ascii_whitespace s).2 with
  | b :: _ => bool_decide (b = x28)
  | [] => false
  end.

(** One round of the loop: what is read, and what is left *)
Inductive Piece := Verbatim (text : str) | Name (identifier : str) (called : bool).
Definition piece_text (p : Piece) : str := match p with Verbatim t => t | Name t _ => t end.

Definition verbatim (opening : str) (r : str * str) : Piece * str := (Verbatim (opening ++ r.1), r.2).
Definition one_char (b : byte) (rest : str) : Piece * str :=
  (Verbatim (b :: take (char_len b - 1) rest), drop (char_len b - 1) rest).
Definition next_piece (b : byte) (rest : str) : Piece * str :=
  if bool_decide (b = x27) || bool_decide (b = x22) then verbatim [b] (copy_quoted b rest)
  else if bool_decide (b = x2d) && bool_decide (head rest = Some x2d) then
    verbatim [b; x2d] (copy_line_comment (tail rest))
  else if bool_decide (b = x2f) && bool_decide (head rest = Some x2a) then
    verbatim [b; x2a] (copy_block_comment 1 (tail rest))
  else if bool_decide (b = x24) then
    match dollar_delimiter_end rest with
    | Some delimiter => verbatim (b :: delimiter) (copy_dollar_quoted (b :: delimiter) (drop (length delimiter) rest))
    | None => (Verbatim [b], rest)
    end
  else if is_identifier_start b then
    let '(t, u) := span is_identifier_continue rest in (Name (b :: t) (next_is_call u), u)
  else one_char b rest.

(** Every round consumes input, so as many rounds as there are bytes are enough. *)
Fixpoint pieces_fuel (fuel : nat) (s : str) : list Piece :=
  match fuel, s with
  | S n, b :: rest => let '(p, u) := next_piece b rest in p :: pieces_fuel n u
  | _, _ => []
  end.
Definition pieces (s : str) : list Piece := pieces_fuel (length s) s.

Definition render (p : Piece) : str :=
  match p with
  | Verbatim t => t
  | Name t called => if called then default t (rewrite_function_name t) else t
  end.
Definition rewrite_postgis_sql (sql : str) : str := concat (map render (pieces sql)).

Example rewrites_calls :
  rewrite_postgis_sql (lit "SELECT ST_MakePoint(1), 'st_srid(', $$ st_srid( $$, a -- st_srid(") =
  lit "SELECT ST_Point(1), 'st_srid(', $$ st_srid( $$, a -- st_srid(".
Proof. vm_compute. reflexivity. Qed.

(** ** Reading splits the input *)

Lemma span_split p s : (span p s).1 ++ (span p s).2 = s.
Proof. induction s as [|b s IH]; simpl; [done|]. destruct (p b); [|done]. destruct (span p s). simpl in *. by rewrite IH. Qed.
Lemma span_all p s : Forall (fun b => p b = true) (span p s).1.
Proof. induction s as [|b s IH]; simpl; [done|]. destruct (p b) eqn:Hb; [|done]. destruct (span p s). by constructor. Qed.
Lemma span_stop p s : match (span p s).2 with b :: _ => p b = false | [] => True end.
Proof. induction s as [|b s IH]; simpl; [done|]. destruct (p b) eqn:Hb; [|done]. by destruct (span p s). Qed.
Lemma span_app p t u :
  Forall (fun b => p b = true) t -> match u with b :: _ => p b = false | [] => True end -> span p (t ++ u) = (t, u).
Proof.
  intros Ht Hu. induction Ht as [|b t Hb Ht IH]; simpl.
  - destruct u as [|c u]; simpl; [done|]. by rewrite Hu.
  - by rewrite Hb, IH.
Qed.

Lemma quoted_split q s : (copy_quoted q s).1 ++ (copy_quoted q s).2 = s.
Proof.
  induction s as [[|b rest] IH] using list_len_ind; [done|]. cbn [copy_quoted]. case_bool_decide.
  - destruct rest as [|c rest']; [done|]. case_bool_decide; [|done].
    assert (Hr := IH rest' ltac:(simpl; lia)). destruct (copy_quoted q rest'). simpl in *. by rewrite Hr.
  - assert (Hr := IH rest ltac:(simpl; lia)). destruct (copy_quoted q rest). simpl in *. by rewrite Hr.
Qed.
(** What a literal is does not depend on what follows it, unless that is another quote. *)
Lemma quoted_app q x s :
  (copy_quoted q s).2 <> [] \/ x = [] -> match x with b :: _ => b <> q | [] => True end ->
  copy_quoted q ((copy_quoted q s).1 ++ x) = ((copy_quoted q s).1, x).
Proof.
  intros H Hx. induction s as [[|b rest] IH] using list_len_ind; [by destruct H as [H| ->]|].
  cbn [copy_quoted] in *. case_bool_decide as Hb.
  - destruct rest as [|c rest'].
    + destruct H as [H| ->]; [done|]. simpl. by rewrite bool_decide_eq_true_2.
    + case_bool_decide as Hc.
      * specialize (IH rest' ltac:(simpl; lia)). destruct (copy_quoted q rest') as [t u]. simpl in *.
        rewrite bool_decide_eq_true_2, bool_decide_eq_true_2 by done. by rewrite IH.
      * simpl. rewrite bool_decide_eq_true_2 by done. destruct x as [|d x]; [done|]. by rewrite bool_decide_eq_false_2.
  - specialize (IH rest ltac:(simpl; lia)). destruct (copy_quoted q rest) as [t u]. simpl in *.
    rewrite bool_decide_eq_false_2 by done. by rewrite IH.
Qed.
Lemma quoted_stop q s : match (copy_quoted q s).2 with b :: _ => b <> q | [] => True end.
Proof.
  induction s as [[|b rest] IH] using list_len_ind; [done|]. cbn [copy_quoted]. case_bool_decide.
  - destruct rest as [|c rest']; [done|]. case_bool_decide; [|done].
    specialize (IH rest' ltac:(simpl; lia)). by destruct (copy_quoted q rest').
  - specialize (IH rest ltac:(simpl; lia)). by destruct (copy_quoted q rest).
Qed.

Lemma block_split s d : (copy_block_comment d s).1 ++ (copy_block_comment d s).2 = s.
Proof.
  revert d. induction s as [s IH] using list_len_ind. intros [|d]; [by destruct s|]. destruct s as [|b rest]; [done|].
  cbn [copy_block_comment].
  assert (H1 := IH rest ltac:(simpl; lia) (S d)). destruct rest as [|c rest'].
  { by destruct (copy_block_comment (S d) []); simpl in *; rewrite H1. }
  assert (H2 := IH rest' ltac:(simpl; lia) (S (S d))). assert (H3 := IH rest' ltac:(simpl; lia) d).
  destruct (_ && _); [by destruct (copy_block_comment (S (S d)) rest'); simpl in *; rewrite H2|].
  destruct (_ && _); [by destruct (copy_block_comment d rest'); simpl in *; rewrite H3|].
  destruct (copy_block_comment (S d) (c :: rest')). cbn [fst snd app] in *. by rewrite H1.
Qed.
Lemma block_app x s d :
  (copy_block_comment d s).2 <> [] \/ x = [] ->
  copy_block_comment d ((copy_block_comment d s).1 ++ x) = ((copy_block_comment d s).1, x).
Proof.
  revert d. induction s as [s IH] using list_len_ind. intros [|d] H; [by destruct s, x|]. destruct s as [|b rest].
  { by destruct H as [H| ->]. }
  cbn [copy_block_comment] in *.
  assert (H1 := IH rest ltac:(simpl; lia) (S d)). destruct rest as [|c rest'].
  { destruct H as [H| ->]; done. }
  assert (H2 := IH rest' ltac:(simpl; lia) (S (S d))). assert (H3 := IH rest' ltac:(simpl; lia) d).
  destruct (bool_decide (b = x2f) && bool_decide (c = x2a)) eqn:E1.
  { destruct (copy_block_comment (S (S d)) rest'). cbn [fst snd app copy_block_comment] in *. rewrite E1. by rewrite H2. }
  destruct (bool_decide (b = x2a) && bool_decide (c = x2f)) eqn:E2.
  { destruct (copy_block_comment d rest'). cbn [fst snd app copy_block_comment] in *. rewrite E1, E2. by rewrite H3. }
  destruct (copy_block_comment (S d) (c :: rest')) as [t u] eqn:Ht. cbn [fst snd app] in *.
  assert (Hhd : exists t', t = c :: t').
  { pose proof (block_split (c :: rest') (S d)) as Hs. rewrite Ht in Hs. cbn [fst snd] in Hs.
    destruct t as [|c' t']; [|injection Hs as -> _; by eexists]. cbn [copy_block_comment] in Ht.
    destruct rest'; repeat case_match; try done; by destruct (copy_block_comment _ _). }
  destruct Hhd as [t' ->]. specialize (H1 H). cbn [app] in *. cbn [copy_block_comment] in H1 |- *. rewrite E1, E2.
  by rewrite H1.
Qed.

(** A dollar sign continues an identifier, so the scan for the end of a tag never stops
    at one: the only delimiter that is recognised is the empty tag. *)
Lemma delimiter_untagged s delimiter : dollar_delimiter_end s = Some delimiter -> delimiter = [x24] /\ head s = Some x24.
Proof.
  unfold dollar_delimiter_end. destruct s as [|b rest]; [done|]. case_bool_decide as Hb; [by subst; intros [= <-]|].
  destruct (is_identifier_start b); [|done]. pose proof (span_stop is_identifier_continue rest) as Hs.
  destruct (span is_identifier_continue rest) as [t [|c u]]; [done|]. case_bool_decide as Hc; [|done]. subst c. done.
Qed.
Lemma delimiter_none s : head s <> Some x24 -> dollar_delimiter_end s = None.
Proof. destruct (dollar_delimiter_end s) eqn:H; [|done]. by apply delimiter_untagged in H as [_ ?]. Qed.
Lemma delimiter_some s : head s = Some x24 -> dollar_delimiter_end s = Some [x24].
Proof. destruct s as [|b s]; [done|]. intros [= ->]. done. Qed.

Lemma starts_with_app (p x : str) : starts_with p (p ++ x) = true.
Proof. apply bool_decide_eq_true. by rewrite take_app_length. Qed.
Lemma starts_with_true (p s : str) : starts_with p s = true -> s = p ++ drop (length p) s.
Proof. intros H%bool_decide_eq_true. by rewrite <- H at 1; rewrite take_drop. Qed.
Lemma find_app needle s t x :
  find needle s = Some t -> find needle (t ++ needle ++ x) = Some t /\ s = t ++ needle ++ drop (length t + length needle) s.
Proof.
  revert t. induction s as [|b s IH]; intros t H; cbn [find] in H.
  - destruct (starts_with needle []) eqn:Hs; [|done]. injection H as <-.
    apply starts_with_true in Hs. destruct needle; [|done]. split; [by destruct x|done].
  - destruct (starts_with needle (b :: s)) eqn:Hs.
    + injection H as <-. split; [|by apply starts_with_true]. cbn [app].
      pose proof (starts_with_app needle x) as Ha. destruct (needle ++ x) as [|c y]; cbn [find]; by rewrite Ha.
    + destruct (find needle s) as [t'|] eqn:Ht; [|done]. injection H as <-. destruct (IH t' eq_refl) as [H1 H2].
      cbn [app find length Nat.add drop]. split; [|by rewrite <- H2].
      assert (Hn : starts_with needle (b :: t' ++ needle ++ x) = false).
      { apply bool_decide_eq_false. apply bool_decide_eq_false in Hs. intros He. apply Hs. rewrite H2.
        revert He. generalize (drop (length t' + length needle) s). intros y.
        change (take (length needle) ((b :: t') ++ needle ++ x) = needle -> take (length needle) ((b :: t') ++ needle ++ y) = needle).
        assert (Ht' : forall z, take (length needle) (((b :: t') ++ needle) ++ z) = take (length needle) ((b :: t') ++ needle)).
        { intros z. apply take_app_le. rewrite length_app. lia. }
        by rewrite !(app_assoc (b :: t')), !Ht'. }
      by rewrite Hn, H1.
Qed.

Lemma dollar_split d body : (copy_dollar_quoted d body).1 ++ (copy_dollar_quoted d body).2 = body.
Proof.
  unfold copy_dollar_quoted. destruct (find d body) as [t|] eqn:H; cbn [fst snd]; [|apply app_nil_r].
  destruct (find_app d body t [] H) as [_ He]. rewrite <- app_assoc. by rewrite <- He.
Qed.
Lemma dollar_app d body x :
  (copy_dollar_quoted d body).2 <> [] \/ x = [] ->
  copy_dollar_quoted d ((copy_dollar_quoted d body).1 ++ x) = ((copy_dollar_quoted d body).1, x).
Proof.
  unfold copy_dollar_quoted. destruct (find d body) as [t|] eqn:H; cbn [fst snd].
  - intros _. destruct (find_app d body t x H) as [Hf _]. rewrite <- app_assoc, Hf. f_equal.
    rewrite app_assoc. by rewrite drop_app_length' by (by rewrite length_app).
  - intros [?| ->]; [done|]. rewrite app_nil_r. by rewrite H.
Qed.

Lemma next_piece_split b rest p u : next_piece b rest = (p, u) -> piece_text p ++ u = b :: rest /\ head (piece_text p) = Some b.
Proof.
  unfold next_piece, verbatim, one_char. intros H.
  destruct (_ || _). { injection H as <- <-. cbn. by rewrite quoted_split. }
  destruct (bool_decide (b = x2d) && bool_decide (head rest = Some x2d)) eqn:E1.
  { apply andb_true_iff in E1 as [_ E1%bool_decide_eq_true]. injection H as <- <-. destruct rest as [|c rest]; [done|].
    injection E1 as ->. cbn. unfold copy_line_comment. by rewrite span_split. }
  destruct (bool_decide (b = x2f) && bool_decide (head rest = Some x2a)) eqn:E2.
  { apply andb_true_iff in E2 as [_ E2%bool_decide_eq_true]. injection H as <- <-. destruct rest as [|c rest]; [done|].
    injection E2 as ->. cbn [piece_text app tail]. by rewrite block_split. }
  destruct (bool_decide (b = x24)).
  { destruct (dollar_delimiter_end rest) as [d|] eqn:Hd; [|by injection H as <- <-].
    apply delimiter_untagged in Hd as [-> Hh]. injection H as <- <-. destruct rest as [|c rest]; [done|]. injection Hh as ->.
    cbn [piece_text app length drop]. by rewrite dollar_split. }
  destruct (is_identifier_start b).
  { pose proof (span_split is_identifier_continue rest) as Hs. destruct (span is_identifier_continue rest) as [t v].
    injection H as <- <-. cbn in *. by rewrite Hs. }
  injection H as <- <-. cbn [piece_text app]. by rewrite take_drop.
Qed.
Lemma next_piece_shorter b rest p u : next_piece b rest = (p, u) -> (length u <= length rest)%nat.
Proof.
  intros [H Hh]%next_piece_split. apply (f_equal length) in H. rewrite length_app in H.
  destruct (piece_text p); [done|]. simpl in H. lia.
Qed.

Lemma pieces_enough n s : (length s <= n)%nat -> pieces_fuel n s = pieces s.
Proof.
  unfold pieces. revert n. induction s as [s IH] using list_len_ind. intros [|n] Hn; destruct s as [|b rest]; [done|simpl in Hn; lia|done|].
  cbn [pieces_fuel length]. destruct (next_piece b rest) as [p u] eqn:Hp. pose proof (next_piece_shorter _ _ _ _ Hp).
  simpl in Hn. f_equal. rewrite (IH u ltac:(simpl; lia) n), (IH u ltac:(simpl; lia) (length rest)) by lia. done.
Qed.
Lemma pieces_step b rest p u : next_piece b rest = (p, u) -> pieces (b :: rest) = p :: pieces u.
Proof.
  intros Hp. unfold pieces at 1. cbn [pieces_fuel length]. rewrite Hp. by rewrite pieces_enough by by eapply next_piece_shorter.
Qed.
Lemma rewrite_step b rest p u : next_piece b rest = (p, u) -> rewrite_postgis_sql (b :: rest) = render p ++ rewrite_postgis_sql u.
Proof. intros Hp. unfold rewrite_postgis_sql. by rewrite (pieces_step _ _ _ _ Hp). Qed.

(** ** Respelled names *)

Definition is_name (t : str) : Prop :=
  match t with b :: t' => is_identifier_start b = true /\ Forall (fun c => is_identifier_continue c = true) t' | [] => False end.
Definition is_nameb (t : str) : bool :=
  match t with b :: t' => is_identifier_start b && forallb is_identifier_continue t' | [] => false end.
Lemma known_targets : forallb (fun kv => is_nameb (lit kv.2) && bool_decide (rewrite_function_name (lit kv.2) = None)) known_functions = true.
Proof. vm_compute. reflexivity. Qed.
Lemma rewritten_name t t' : rewrite_function_name t = Some t' -> is_name t' /\ rewrite_function_name t' = None.
Proof.
  unfold rewrite_function_name at 1, lookup_function. destruct (List.find _ known_functions) as [kv|] eqn:Hf; [|done].
  apply List.find_some in Hf as [Hin _]. intros [= <-]. pose proof known_targets as Hk. rewrite forallb_forall in Hk.
  apply Hk, andb_true_iff in Hin as [Hn Hr%bool_decide_eq_true]. split; [|done].
  unfold is_nameb in Hn. destruct (lit kv.2) as [|b s]; [done|]. apply andb_true_iff in Hn as [Hb Hs].
  split; [done|]. by apply Forall_forall; intros c Hc%list_elem_of_In; rewrite forallb_forall in Hs; apply Hs.
Qed.

(** What follows a piece, before and after: nothing, the same byte, or a name *)
Definition similar (u v : str) : Prop :=
  match u, v with
  | [], [] => True
  | x :: _, y :: _ => x = y \/ (is_identifier_start x = true /\ is_identifier_start y = true)
  | _, _ => False
  end.
Lemma similar_nil u v : similar u v -> u = [] -> v = [].
Proof. intros H ->. by destruct v. Qed.
Lemma similar_ends u v : similar u v -> u <> [] \/ v = [].
Proof. intros H. destruct u; [right; by apply (similar_nil [] v)|by left]. Qed.
Lemma similar_head u v (P : byte -> Prop) :
  similar u v -> (forall b, is_identifier_start b = true -> P b) ->
  match u with b :: _ => P b | [] => True end -> match v with b :: _ => P b | [] => True end.
Proof. intros H HP. destruct u as [|x u], v as [|y v]; simpl in *; try done. destruct H as [->|[_ H]]; [done|auto]. Qed.
Lemma similar_head_ne u v (c : byte) :
  similar u v -> is_identifier_start c = false -> head u <> Some c -> head v <> Some c.
Proof.
  intros H Hc Hu. destruct u as [|x u], v as [|y v]; simpl in *; try done.
  destruct H as [->|[_ H]]; [done|]. intros [= ->]. congruence.
Qed.
Lemma start_continue b : is_identifier_start b = true -> is_identifier_continue b = true.
Proof.
  unfold is_identifier_start, is_identifier_continue, is_ascii_alphanumeric. rewrite !orb_true_iff. tauto.
Qed.

(** ** The kinds of pieces *)

Definition is_quote (b : byte) : bool := bool_decide (b = x27) || bool_decide (b = x22).
(** [b] opens nothing when [rest] follows. *)
Definition is_plain (b : byte) (rest : str) : Prop :=
  is_quote b = false /\ is_identifier_start b = false /\ b <> x24 /\
  (b = x2d -> head rest <> Some x2d) /\ (b = x2f -> head rest <> Some x2a).

Lemma next_quoted b rest : is_quote b = true -> next_piece b rest = verbatim [b] (copy_quoted b rest).
Proof. unfold next_piece, is_quote. by intros ->. Qed.
Lemma next_line rest : next_piece x2d (x2d :: rest) = verbatim [x2d; x2d] (copy_line_comment rest).
Proof. done. Qed.
Lemma next_block rest : next_piece x2f (x2a :: rest) = verbatim [x2f; x2a] (copy_block_comment 1 rest).
Proof. done. Qed.
Lemma next_dollars rest : next_piece x24 (x24 :: rest) = verbatim [x24; x24] (copy_dollar_quoted [x24; x24] rest).
Proof. done. Qed.
Lemma next_dollar rest : head rest <> Some x24 -> next_piece x24 rest = (Verbatim [x24], rest).
Proof. intros H. unfold next_piece. cbn -[dollar_delimiter_end]. by rewrite delimiter_none. Qed.
Lemma start_plain b : is_identifier_start b = true ->
  is_quote b = false /\ b <> x24 /\ b <> x2d /\ b <> x2f /\ is_ascii_whitespace b = false /\ b <> x28 /\ b <> x2a /\ b <> x0a.
Proof. intros H. destruct b; try discriminate H; split_and!; done. Qed.
Lemma next_name b t u :
  is_name (b :: t) -> match u with c :: _ => is_identifier_continue c = false | [] => True end ->
  next_piece b (t ++ u) = (Name (b :: t) (next_is_call u), u).
Proof.
  intros [Hb Ht] Hu. destruct (start_plain b Hb) as (Hq & H1 & H2 & H3 & _). unfold next_piece. fold (is_quote b).
  rewrite Hq, (bool_decide_eq_false_2 (b = x2d)), (bool_decide_eq_false_2 (b = x2f)), (bool_decide_eq_false_2 (b = x24)) by done.
  cbn [andb]. rewrite Hb. by rewrite span_app.
Qed.
Lemma next_char b rest : is_plain b rest -> next_piece b rest = one_char b rest.
Proof.
  intros (Hq & Hi & Hd & Hl & Hb). unfold next_piece. fold (is_quote b). rewrite Hq, Hi, (bool_decide_eq_false_2 (b = x24)) by done.
  assert (E1 : bool_decide (b = x2d) && bool_decide (head rest = Some x2d) = false).
  { apply andb_false_iff. rewrite !bool_decide_eq_false. destruct (decide (b = x2d)); auto. }
  assert (E2 : bool_decide (b = x2f) && bool_decide (head rest = Some x2a) = false).
  { apply andb_false_iff. rewrite !bool_decide_eq_false. destruct (decide (b = x2f)); auto. }
  by rewrite E1, E2.
Qed.

Inductive reads : str -> Piece -> str -> Prop :=
  | reads_quoted b rest : is_quote b = true -> reads (b :: rest) (Verbatim (b :: (copy_quoted b rest).1)) (copy_quoted b rest).2
  | reads_line rest :
      reads (x2d :: x2d :: rest) (Verbatim (x2d :: x2d :: (copy_line_comment rest).1)) (copy_line_comment rest).2
  | reads_block rest :
      reads (x2f :: x2a :: rest) (Verbatim (x2f :: x2a :: (copy_block_comment 1 rest).1)) (copy_block_comment 1 rest).2
  | reads_dollars rest :
      reads (x24 :: x24 :: rest) (Verbatim (x24 :: x24 :: (copy_dollar_quoted [x24; x24] rest).1))
        (copy_dollar_quoted [x24; x24] rest).2
  | reads_dollar rest : head rest <> Some x24 -> reads (x24 :: rest) (Verbatim [x24]) rest
  | reads_name t u : is_name t -> match u with c :: _ => is_identifier_continue c = false | [] => True end ->
      reads (t ++ u) (Name t (next_is_call u)) u
  | reads_char b rest : is_plain b rest ->
      reads (b :: rest) (Verbatim (b :: take (char_len b - 1) rest)) (drop (char_len b - 1) rest).

Lemma reads_next b rest : reads (b :: rest) (next_piece b rest).1 (next_piece b rest).2.
Proof.
  destruct (is_quote b) eqn:Hq. { rewrite next_quoted by done. by apply reads_quoted. }
  destruct (decide (b = x24)) as [->|Hd].
  { destruct (decide (head rest = Some x24)) as [Hh|Hh]; [|rewrite next_dollar by done; by apply reads_dollar].
    destruct rest as [|c rest]; [done|]. injection Hh as ->. rewrite next_dollars. apply reads_dollars. }
  destruct (is_identifier_start b) eqn:Hi.
  { pose proof (span_all is_identifier_continue rest) as Ha. pose proof (span_stop is_identifier_continue rest) as Hs.
    pose proof (span_split is_identifier_continue rest) as Hr. destruct (span is_identifier_continue rest) as [t u]. cbn [fst snd] in *.
    subst rest. rewrite next_name by done. by apply (reads_name (b :: t) u). }
  destruct (decide (b = x2d /\ head rest = Some x2d)) as [[-> Hh]|Hl].
  { destruct rest as [|c rest]; [done|]. injection Hh as ->. rewrite next_line. apply reads_line. }
  destruct (decide (b = x2f /\ head rest = Some x2a)) as [[-> Hh]|Hb].
  { destruct rest as [|c rest]; [done|]. injection Hh as ->. rewrite next_block. apply reads_block. }
  assert (Hp : is_plain b rest) by (split_and!; [done..|tauto|tauto]). rewrite next_char by done. by apply reads_char.
Qed.

Lemma reads_cons b s p u : reads (b :: s) p u -> next_piece b s = (p, u).
Proof.
  intros H. inversion H; subst.
  - by apply next_quoted.
  - apply next_line.
  - apply next_block.
  - apply next_dollars.
  - by apply next_dollar.
  - destruct t as [|b' t]; [done|]. simplify_eq/=. by apply next_name.
  - by apply next_char.
Qed.

Lemma take_again {A} n (l v : list A) : length (take n l) = n \/ v = [] -> take n (take n l ++ v) = take n l.
Proof. intros [H| ->]; [by rewrite take_app_length'|]. rewrite app_nil_r. apply take_idemp. Qed.
Lemma drop_again {A} n (l v : list A) : length (take n l) = n \/ v = [] -> drop n (take n l ++ v) = v.
Proof. intros [H| ->]; [by rewrite drop_app_length'|]. rewrite app_nil_r. apply drop_ge. rewrite length_take. lia. Qed.

(** What is read is read again when what follows looks the same. *)
Lemma reads_stable s p u v :
  reads s p u -> similar u v -> next_is_call v = next_is_call u ->
  exists p', reads (render p ++ v) p' v /\ render p' = render p.
Proof.
  intros H Hsim Hcall. pose proof (similar_ends u v Hsim) as Hend. destruct H as [b rest Hq|rest|rest|rest|rest Hh|t u Ht Hu|b rest Hp].
  - pose proof (reads_quoted b ((copy_quoted b rest).1 ++ v) Hq) as H. rewrite quoted_app in H; [by eexists|done|].
    apply (similar_head _ v (fun c => c <> b) Hsim); [|apply quoted_stop]. intros c Hc ->. by destruct (start_plain b Hc) as [? _]; congruence.
  - pose proof (reads_line ((copy_line_comment rest).1 ++ v)) as H. unfold copy_line_comment in *. rewrite span_app in H; [by eexists|apply span_all|].
    pose proof (span_stop (fun b => negb (bool_decide (b = x0a))) rest) as Hst. destruct (span _ rest).2 as [|x y]; [by destruct v|].
    destruct v as [|z v]; [done|]. destruct Hsim as [<-|[Hx _]]; [done|]. apply start_plain in Hx as (_ & _ & _ & _ & _ & _ & _ & Hx).
    by apply negb_false_iff, bool_decide_eq_true in Hst.
  - pose proof (reads_block ((copy_block_comment 1 rest).1 ++ v)) as H. rewrite block_app in H by done. by eexists.
  - pose proof (reads_dollars ((copy_dollar_quoted [x24; x24] rest).1 ++ v)) as H. rewrite dollar_app in H by done. by eexists.
  - exists (Verbatim [x24]). split; [|done]. apply reads_dollar. by eapply similar_head_ne.
  - assert (Hv : match v with c :: _ => is_identifier_continue c = false | [] => True end).
    { destruct u as [|x u], v as [|y v]; try done. destruct Hsim as [<-|[Hx _]]; [done|]. apply start_continue in Hx. congruence. }
    assert (Hn : is_name (render (Name t (next_is_call u))) /\ render (Name (render (Name t (next_is_call u))) (next_is_call v)) = render (Name t (next_is_call u))).
    { rewrite Hcall. cbn [render]. destruct (next_is_call u); [|done]. destruct (rewrite_function_name t) as [t'|] eqn:Hr.
      - destruct (rewritten_name t t' Hr) as [Hn' Hr']. change (default t (Some t')) with t'. by rewrite Hr'.
      - change (default t None) with t. by rewrite Hr. }
    destruct Hn as [Hn Hr]. eexists. split; [by apply reads_name|exact Hr].
  - exists (Verbatim (b :: take (char_len b - 1) rest)). split; [|done]. cbn [render app].
    assert (Hp' : is_plain b (take (char_len b - 1) rest ++ v)).
    { destruct Hp as (H1 & H2 & H3 & H4 & H5). split_and!; [done..| |]; intros ->; cbn; by apply (similar_head_ne rest v); auto. }
    pose proof (reads_char b _ Hp') as H. rewrite take_again, drop_again in H; [done|..];
      (destruct Hend as [Hne| ->]; [left|by right]); apply length_take_le; destruct (drop (char_len b - 1) rest) eqn:Hd; [done| |done|];
      apply (f_equal length) in Hd; rewrite length_drop in Hd; simpl in Hd; lia.
Qed.

Lemma next_call_space b s : is_ascii_whitespace b = true -> next_is_call (b :: s) = next_is_call s.
Proof. intros H. unfold next_is_call. cbn [span]. rewrite H. by destruct (span is_ascii_whitespace s). Qed.
Lemma next_call_other b s : is_ascii_whitespace b = false -> next_is_call (b :: s) = bool_decide (b = x28).
Proof. intros H. unfold next_is_call. cbn [span]. by rewrite H. Qed.

Lemma is_name_head t : is_name t -> exists b t', t = b :: t' /\ is_identifier_start b = true.
Proof. destruct t as [|b t]; [done|]. intros [H _]. by exists b, t. Qed.
(** The first byte of a piece stays, unless the piece is a name. *)
Lemma render_head s p u b rest :
  reads s p u -> s = b :: rest -> exists c t, render p = c :: t /\ (c = b \/ (is_identifier_start b = true /\ is_identifier_start c = true)).
Proof.
  intros [b' r _|r|r|r|r _|t v Ht _|b' r _] Hs; cbn [render]; try (injection Hs as <- _; eexists _, _; split; [done|by left]).
  apply is_name_head in Ht as (x & t' & -> & Hx). injection Hs as <- _.
  destruct (next_is_call v); [|eexists _, _; split; [done|by left]].
  destruct (rewrite_function_name (x :: t')) as [n|] eqn:Hr; [|eexists _, _; split; [done|by left]].
  apply rewritten_name in Hr as [(y & n' & -> & Hy)%is_name_head _]. eexists _, _. split; [done|by right].
Qed.

Lemma rewrite_cons b rest :
  exists p u, reads (b :: rest) p u /\ rewrite_postgis_sql (b :: rest) = render p ++ rewrite_postgis_sql u /\ (length u <= length rest)%nat.
Proof.
  exists (next_piece b rest).1, (next_piece b rest).2. split; [apply reads_next|].
  split; [by apply rewrite_step, surjective_pairing|]. by eapply next_piece_shorter, surjective_pairing.
Qed.

Lemma rewrite_similar s :
  similar s (rewrite_postgis_sql s) /\ next_is_call (rewrite_postgis_sql s) = next_is_call s.
Proof.
  induction s as [[|b rest] IH] using list_len_ind; [done|].
  destruct (rewrite_cons b rest) as (p & u & Hr & -> & Hu). destruct (render_head _ _ _ _ _ Hr eq_refl) as (c & t & Hc & Hbc).
  rewrite Hc. split. { destruct Hbc as [->|[? ?]]; [by left|by right]. }
  destruct (is_ascii_whitespace b) eqn:Hw.
  - destruct Hbc as [->|[Hb _]]; [|by apply start_plain in Hb as (_ & _ & _ & _ & Hb & _); congruence].
    assert (Hp : p = Verbatim [b] /\ u = rest).
    { assert (Hpl : is_plain b rest) by (destruct b; try discriminate Hw; split_and!; first [done|intros ?; discriminate]).
      apply reads_cons in Hr. rewrite next_char in Hr by done. assert (Hl : char_len b = 1%nat) by by destruct b.
      unfold one_char in Hr. rewrite Hl in Hr. by injection Hr as <- <-. }
    destruct Hp as [-> ->]. injection Hc as <-. cbn [app]. rewrite !next_call_space by done. apply (IH rest). simpl. lia.
  - assert (Hwc : is_ascii_whitespace c = false).
    { destruct Hbc as [->|[_ Hx]]; [done|]. by apply start_plain in Hx as (_ & _ & _ & _ & ? & _). }
    cbn [app]. rewrite !next_call_other by done. apply bool_decide_ext. destruct Hbc as [->|[Hb Hx]]; [done|].
    apply start_plain in Hb as (_ & _ & _ & _ & _ & Hb & _). apply start_plain in Hx as (_ & _ & _ & _ & _ & Hx & _). done.
Qed.

(** Respelling a statement that was already respelled changes nothing: the names that are
    introduced are read as names again and are no longer known, and literals, quoted
    identifiers and comments are still found where they were. *)
Theorem rewrite_idempotent sql : rewrite_postgis_sql (rewrite_postgis_sql sql) = rewrite_postgis_sql sql.
Proof.
  induction sql as [[|b rest] IH] using list_len_ind; [done|].
  destruct (rewrite_cons b rest) as (p & u & Hr & -> & Hu). destruct (rewrite_similar u) as [Hs Hn].
  destruct (reads_stable _ _ _ _ Hr Hs Hn) as (p' & Hr' & Hp').
  destruct (render_head _ _ _ _ _ Hr eq_refl) as (c & t & Hc & _). rewrite Hc in *. cbn [app] in *.
  rewrite (rewrite_step _ _ _ _ (reads_cons _ _ _ _ Hr')), Hp', IH by (simpl; lia). done.
Qed.

(** The statement is a sequence of pieces, and the calls of known functions are all that
    is spelled differently. *)
Inductive tokens : str -> list Piece -> Prop :=
  | tokens_nil : tokens [] []
  | tokens_cons s p u ps : reads s p u -> tokens u ps -> tokens s (p :: ps).

Lemma reads_split s p u : reads s p u -> s = piece_text p ++ u /\ (length u < length s)%nat.
Proof.
  intros H. destruct s as [|b rest].
  { inversion H; subst. destruct t; [done|]. done. }
  apply reads_cons in H. pose proof (next_piece_shorter _ _ _ _ H). apply next_piece_split in H as [H _]. split; [done|simpl; lia].
Qed.
Lemma reads_pieces s ps : tokens s ps -> ps = pieces s.
Proof.
  induction 1 as [|s p u ps Hr Ht ->]; [done|]. destruct s as [|b rest].
  { apply reads_split in Hr as [_ Hr]. simpl in Hr. lia. }
  symmetry. by apply pieces_step, reads_cons.
Qed.
Lemma pieces_tokens s : tokens s (pieces s).
Proof.
  induction s as [[|b rest] IH] using list_len_ind; [constructor|].
  rewrite (pieces_step b rest (next_piece b rest).1 (next_piece b rest).2) by apply surjective_pairing.
  econstructor; [apply reads_next|]. apply IH. pose proof (next_piece_shorter b rest _ _ (surjective_pairing _)). simpl. lia.
Qed.

(** Respelling is by tokens: a statement splits in exactly one way into literals, quoted
    identifiers, comments, [$$] quotes, names and single characters; the pieces together are
    the statement, and the result is the pieces with the known names that are called
    replaced. *)
Theorem rewrite_by_tokens sql :
  exists ps, (tokens sql ps /\ forall qs, tokens sql qs -> qs = ps) /\
    sql = concat (map piece_text ps) /\ rewrite_postgis_sql sql = concat (map render ps).
Proof.
  exists (pieces sql). split; [split; [apply pieces_tokens|apply reads_pieces]|]. split; [|done].
  induction (pieces_tokens sql) as [|s p u ps Hr Ht IH]; [done|]. cbn. rewrite <- IH. by apply reads_split in Hr as [? _].
Qed.

(** A tagged dollar quote is not recognised: its body is respelled like code. *)
Theorem tagged_dollar_quote_respelled :
  rewrite_postgis_sql (lit "SELECT $q$ st_srid(g) $q$") = lit "SELECT $q$ quackgis_st_srid(g) $q$".
Proof. vm_compute. reflexivity. Qed.
(** Neither is a backslash escape: after it, the rest of an escape string is read as code. *)
Theorem escape_string_respelled :
  rewrite_postgis_sql (lit "SELECT E'\' st_srid('") = lit "SELECT E'\' quackgis_st_srid('".
Proof. vm_compute. reflexivity. Qed.
