(* ===== verification/Utf8.v ===== *)
(** * UTF-8

    Lemmas about the UTF-8 strings of the prelude: decoding reads one string after another,
    and encoding restores the bytes. *)

From S2P Require Import Prelude.

(** Every well-formed string begins with one encoded character. *)
Inductive utf8_char : str -> Z -> Prop :=
  | char1 b : bz b < 128 -> utf8_char [b] (bz b)
  | char2 b0 b1 : in_range 194 223 b0 = true -> utf8_cont b1 = true ->
      utf8_char [b0; b1] ((bz b0 mod 32) * 64 + utf8_low b1)
  | char3 b0 b1 b2 : in_range 224 239 b0 = true -> utf8_second3 b0 b1 = true -> utf8_cont b2 = true ->
      utf8_char [b0; b1; b2] ((bz b0 mod 16) * 4096 + utf8_low b1 * 64 + utf8_low b2)
  | char4 b0 b1 b2 b3 : in_range 240 244 b0 = true -> utf8_second4 b0 b1 = true -> utf8_cont b2 = true -> utf8_cont b3 = true ->
      utf8_char [b0; b1; b2; b3] ((bz b0 mod 8) * 262144 + utf8_low b1 * 4096 + utf8_low b2 * 64 + utf8_low b3).

Lemma in_range_iff lo hi b : in_range lo hi b = true <-> lo <= bz b <= hi.
Proof. unfold in_range. lia. Qed.

Lemma decode_char e c s : utf8_char e c -> utf8_decode (e ++ s) = cons c <$> utf8_decode s.
Proof.
  destruct 1 as [b H|b0 b1 H0 H1|b0 b1 b2 H0 H1 H2|b0 b1 b2 b3 H0 H1 H2 H3]; cbn [app utf8_decode].
  - by rewrite (proj2 (Z.ltb_lt _ _) H).
  - pose proof (proj1 (in_range_iff _ _ _) H0). rewrite (proj2 (Z.ltb_ge _ _)) by lia. by rewrite H0, H1.
  - pose proof (proj1 (in_range_iff _ _ _) H0). rewrite (proj2 (Z.ltb_ge _ _)) by lia.
    assert (in_range 194 223 b0 = false) as -> by (unfold in_range; lia). by rewrite H0, H1, H2.
  - pose proof (proj1 (in_range_iff _ _ _) H0). rewrite (proj2 (Z.ltb_ge _ _)) by lia.
    assert (in_range 194 223 b0 = false) as -> by (unfold in_range; lia).
    assert (in_range 224 239 b0 = false) as -> by (unfold in_range; lia). by rewrite H0, H1, H2, H3.
Qed.

Lemma decode_some s cs : utf8_decode s = Some cs ->
  (s = [] /\ cs = []) \/ exists e c s' cs', s = e ++ s' /\ cs = c :: cs' /\ utf8_char e c /\ utf8_decode s' = Some cs'.
Proof.
  destruct s as [|b0 r0]; [intros [= <-]; by left|]. cbn [utf8_decode]. intros H. right.
  destruct (bz b0 <? 128) eqn:H0.
  { destruct (utf8_decode r0) as [cs'|] eqn:Hr; [|done]. injection H as <-. exists [b0], (bz b0), r0, cs'. split_and!; try done.
    constructor. lia. }
  destruct r0 as [|b1 r1]; [done|]. destruct (in_range 194 223 b0 && utf8_cont b1) eqn:H1.
  { apply andb_true_iff in H1 as [H1 H2]. destruct (utf8_decode r1) as [cs'|] eqn:Hr; [|done]. injection H as <-.
    eexists [b0; b1], _, r1, cs'. split_and!; try done. by constructor. }
  destruct r1 as [|b2 r2]; [done|]. destruct (in_range 224 239 b0 && utf8_second3 b0 b1 && utf8_cont b2) eqn:H2.
  { apply andb_true_iff in H2 as [[H2 H3]%andb_true_iff H4]. destruct (utf8_decode r2) as [cs'|] eqn:Hr; [|done]. injection H as <-.
    eexists [b0; b1; b2], _, r2, cs'. split_and!; try done. by constructor. }
  destruct r2 as [|b3 r3]; [done|].
  destruct (in_range 240 244 b0 && utf8_second4 b0 b1 && utf8_cont b2 && utf8_cont b3) eqn:H3; [|done].
  apply andb_true_iff in H3 as [[[H3 H4]%andb_true_iff H5]%andb_true_iff H6]. destruct (utf8_decode r3) as [cs'|] eqn:Hr; [|done]. injection H as <-.
  eexists [b0; b1; b2; b3], _, r3, cs'. split_and!; try done. by constructor.
Qed.

Ltac dlia := Z.to_euclidean_division_equations; lia.

Lemma encode_char e c : utf8_char e c -> utf8_encode_char c = e.
Proof.
  assert (Hz : forall z b, z = bz b -> zb z = b) by (intros z b ->; apply zb_bz).
  unfold utf8_encode_char. destruct 1 as [b H|b0 b1 H0 H1|b0 b1 b2 H0 H1 H2|b0 b1 b2 b3 H0 H1 H2 H3].
  - rewrite (proj2 (Z.ltb_lt _ _) H). by rewrite zb_bz.
  - apply in_range_iff in H0. unfold utf8_cont in H1. apply in_range_iff in H1. unfold utf8_low.
    assert (Hm : bz b0 mod 32 = bz b0 - 192) by dlia. assert (Hl : bz b1 mod 64 = bz b1 - 128) by dlia. rewrite Hm, Hl.
    rewrite (proj2 (Z.ltb_ge _ _)), (proj2 (Z.ltb_lt _ _)) by dlia. repeat f_equal; apply Hz; dlia.
  - apply in_range_iff in H0. unfold utf8_cont in H2. apply in_range_iff in H2.
    assert (H1' : 128 <= bz b1 <= 191 /\ (bz b0 = 224 -> 160 <= bz b1)).
    { unfold utf8_second3, utf8_cont, in_range in H1. destruct (bz b0 =? 224) eqn:?, (bz b0 =? 237) eqn:?; lia. }
    clear H1. unfold utf8_low. assert (Hm : bz b0 mod 16 = bz b0 - 224) by dlia. assert (Hl : bz b1 mod 64 = bz b1 - 128) by dlia.
    assert (Hk : bz b2 mod 64 = bz b2 - 128) by dlia. rewrite Hm, Hl, Hk.
    rewrite (proj2 (Z.ltb_ge _ _)) by dlia. rewrite (proj2 (Z.ltb_ge _ _)) by dlia. rewrite (proj2 (Z.ltb_lt _ _)) by dlia.
    repeat f_equal; apply Hz; dlia.
  - apply in_range_iff in H0. unfold utf8_cont in H2, H3. apply in_range_iff in H2, H3.
    assert (H1' : 128 <= bz b1 <= 191 /\ (bz b0 = 240 -> 144 <= bz b1)).
    { unfold utf8_second4, utf8_cont, in_range in H1. destruct (bz b0 =? 240) eqn:?, (bz b0 =? 244) eqn:?; lia. }
    clear H1. unfold utf8_low. assert (Hm : bz b0 mod 8 = bz b0 - 240) by dlia. assert (Hl : bz b1 mod 64 = bz b1 - 128) by dlia.
    assert (Hk : bz b2 mod 64 = bz b2 - 128) by dlia. assert (Hj : bz b3 mod 64 = bz b3 - 128) by dlia. rewrite Hm, Hl, Hk, Hj.
    rewrite (proj2 (Z.ltb_ge _ _)) by dlia. rewrite (proj2 (Z.ltb_ge _ _)) by dlia. rewrite (proj2 (Z.ltb_ge _ _)) by dlia.
    repeat f_equal; apply Hz; dlia.
Qed.

Lemma utf8_char_length e c : utf8_char e c -> (0 < length e)%nat.
Proof. destruct 1; cbn; lia. Qed.

Lemma utf8_decode_encode s cs : utf8_decode s = Some cs -> utf8_encode cs = s.
Proof.
  revert cs. induction s as [s IH] using list_len_ind. intros cs [[-> ->]|(e & c & s' & cs' & -> & -> & He & Hs)]%decode_some; [done|].
  cbn. rewrite (encode_char _ _ He). f_equal. apply IH; [|done]. rewrite length_app. pose proof (utf8_char_length _ _ He). lia.
Qed.
Lemma utf8_decode_app s t cs ds : utf8_decode s = Some cs -> utf8_decode t = Some ds -> utf8_decode (s ++ t) = Some (cs ++ ds).
Proof.
  revert cs. induction s as [s IH] using list_len_ind. intros cs [[-> ->]|(e & c & s' & cs' & -> & -> & He & Hs)]%decode_some Ht; [done|].
  rewrite <- app_assoc, (decode_char _ _ _ He), (IH s' ltac:(rewrite length_app; pose proof (utf8_char_length _ _ He); lia) cs'); done.
Qed.
(** Bytes of ASCII are their own characters. *)
Lemma utf8_decode_bytes s : Forall (fun b => bz b < 128) s -> utf8_decode s = Some (map bz s).
Proof. induction 1 as [|b s Hb Hs IH]; [done|]. cbn. by rewrite (proj2 (Z.ltb_lt _ _) Hb), IH. Qed.
Lemma char_ascii e c : utf8_char e c -> c < 128 -> e = [zb c].
Proof. intros He Hc. rewrite <- (encode_char _ _ He). unfold utf8_encode_char. by rewrite (proj2 (Z.ltb_lt _ _) Hc). Qed.
