(* ===== verification/PrivilegeInquiry.v ===== *)
(** * Privilege inquiry ([quackgis-server/src/pgwire_server/duckdb.rs])

    Calls of [has_schema_privilege], [has_table_privilege], [has_any_column_privilege],
    [has_column_privilege] and [pg_has_role] are answered from the role catalog.  Without a
    catalog identity the object must be a name literal and the call becomes a boolean
    ([literal_privilege_inquiry_replacement]); with it the call becomes a comparison of the
    object's registered name with the names the role has privileges on
    ([privilege_object_match]).

    A statement is its text and the expressions in it, with the expressions nested in each
    kept where the parser's visitor finds them. *)

From S2P Require Import Prelude RoleCatalog RoleSession Utf8 SqlSyntax.
#[local] Open Scope Z_scope.

(** ** Syntax *)

Inductive DataType := Text | Custom (name : ObjectName) (modifiers : list str) | OtherType (text : str).
Inductive Value := SingleQuotedString (s : str) | Number (text : str) (long : bool) | Boolean (b : bool)
  | Null | Placeholder (name : str) | OtherValue (text : str).
Inductive BinaryOperator := Or | And | Equal | NotEqual | OtherBinary (text : str).
(** [others] are the expressions in the parts of a call that are not plain arguments. *)
Inductive Expr :=
  | Identifier (i : Ident)
  | ValueExpr (v : Value)
  | Cast (data_type : DataType) (kind : str) (e : Expr)
  | Nested (e : Expr)
  | BinaryOp (lhs : Expr) (op : BinaryOperator) (rhs : Expr)
  | FunctionCall (head : FunctionHead) (arguments : list (option Expr)) (others : list Expr)
  | OtherExpr (text : str) (children : list Expr).
Record Statement := mkStatement { statement_shape : str; expressions : list Expr }.

(** [user_error(code, ...)], less the message *)
Inductive PgWireError := UserError (code : string).

(** ** Names *)

(** [pg_identifier_matches] and [function_name_ends_with] *)
Definition pg_identifier_matches (i : Ident) (expected : str) : bool :=
  match quote_style i with
  | Some _ => bool_decide (ident_value i = expected)
  | None => eq_ignore_ascii_case (ident_value i) expected
  end.
Definition function_name_ends_with (name : ObjectName) (expected : str) : bool :=
  match last name with Some (PartIdentifier i) => pg_identifier_matches i expected | _ => false end.

Inductive PrivilegeInquiryFunction := InquireSchema | InquireTable | InquireAnyColumn | InquireColumn | InquireRole.
#[export] Instance inquiry_function_eq_dec : EqDecision PrivilegeInquiryFunction.
Proof. solve_decision. Defined.

(** [privilege_inquiry_function] *)
Definition inquiry_functions : list (str * PrivilegeInquiryFunction) :=
  [(lit "has_schema_privilege", InquireSchema); (lit "has_table_privilege", InquireTable);
   (lit "has_any_column_privilege", InquireAnyColumn); (lit "has_column_privilege", InquireColumn);
   (lit "pg_has_role", InquireRole)].
Definition inquiry_named (i : Ident) : option PrivilegeInquiryFunction :=
  snd <$> List.find (fun f => pg_identifier_matches i f.1) inquiry_functions.
Definition privilege_inquiry_function (name : ObjectName) : option PrivilegeInquiryFunction :=
  match name with
  | [PartIdentifier f] => inquiry_named f
  | [PartIdentifier schema; PartIdentifier f] =>
      if pg_identifier_matches schema (lit "pg_catalog") then inquiry_named f else None
  | _ => None
  end.
(** [privilege_inquiry_name_ends_with] *)
Definition privilege_inquiry_name_ends_with (name : ObjectName) : bool :=
  existsb (fun f => function_name_ends_with name f.1) inquiry_functions.

(** Tests of one character that hold of ASCII only *)
Definition ascii_char (p : byte -> bool) (c : Z) : bool := (c <? 128) && p (zb c).
Definition char_to_ascii_lowercase (c : Z) : Z := if (65 <=? c) && (c <=? 90) then c + 32 else c.
Definition quote_char : Z := 34.

(** [parse_pg_identifier], on the characters that are left *)
Fixpoint quoted_identifier (cs : list Z) : option (list Z * list Z) :=
  match cs with
  | [] => None
  | c :: rest =>
      if c =? quote_char then
        match rest with
        | d :: rest' =>
            if d =? quote_char then '(i, r) ← quoted_identifier rest'; Some (quote_char :: i, r) else Some ([], rest)
        | [] => Some ([], [])
        end
      else '(i, r) ← quoted_identifier rest; Some (c :: i, r)
  end.
Definition identifier_char (c : Z) : bool := (c =? 95) || (c =? 36) || ascii_char is_ascii_alphanumeric c.
Fixpoint take_identifier (cs : list Z) : list Z * list Z :=
  match cs with
  | c :: rest => if identifier_char c then let (i, r) := take_identifier rest in (char_to_ascii_lowercase c :: i, r) else ([], cs)
  | [] => ([], [])
  end.
Definition parse_pg_identifier (cs : list Z) : option (list Z * list Z) :=
  match cs with
  | [] => None
  | c :: rest =>
      if c =? quote_char then
        '(i, r) ← quoted_identifier rest; if bool_decide (i = []) then None else Some (i, r)
      else if negb (c =? 95) && negb (ascii_char is_ascii_alphabetic c) then None
      else let (i, r) := take_identifier rest in Some (char_to_ascii_lowercase c :: i, r)
  end.
(** [skip_pg_name_whitespace] *)
Definition skip_pg_name_whitespace (cs : list Z) : list Z := trim_start_chars cs.
(** [raw.trim().chars()] *)
Definition trimmed_chars (raw : str) : list Z := rev (trim_start_chars (rev (trim_start_chars (chars raw)))).
(** [parse_pg_qualified_name] *)
Definition parse_pg_qualified_name (raw : str) : option (list str) :=
  '(first, rest) ← parse_pg_identifier (trimmed_chars raw);
  match skip_pg_name_whitespace rest with
  | [] => Some [utf8_encode first]
  | 46 :: rest =>
      '(second, rest) ← parse_pg_identifier (skip_pg_name_whitespace rest);
      if bool_decide (skip_pg_name_whitespace rest = []) then Some [utf8_encode first; utf8_encode second] else None
  | _ => None
  end.
(** [parse_pg_table_name] *)
Definition parse_pg_table_name (raw : str) : option (str * str) :=
  parts ← parse_pg_qualified_name raw;
  match parts with
  | [table] => Some (lit "main", table)
  | [schema; table] => Some (if eq_ignore_ascii_case schema (lit "public") then lit "main" else schema, table)
  | _ => None
  end.

(** [canonical_pg_identifier] *)
Definition plain_identifier (value : str) : bool :=
  match value with
  | b :: rest =>
      (bool_decide (b = x5f) || is_ascii_lowercase b) &&
      forallb (fun b => bool_decide (b = x5f) || bool_decide (b = x24) || is_ascii_lowercase b || is_ascii_digit b) rest
  | [] => false
  end.
Definition canonical_pg_identifier (value : str) : str :=
  if plain_identifier value then value else quote_with quote_byte value.

(** ** Arguments *)

(** [owned_plain_function_arguments] *)
Definition owned_plain_function_arguments (f : FunctionHead) (arguments : list (option Expr)) : option (list Expr) :=
  if uses_odbc_syntax f || has_parameters f || has_filter f || has_null_treatment f || has_over f || has_within_group f then None
  else if negb (args_listed f) || args_modified f then None
  else mapM id arguments.

(** [custom_pg_cast_target] and [maintained_text_cast] *)
Definition custom_pg_cast_target (t : DataType) : option (Ident * bool) :=
  match t with
  | Custom name [] =>
      match name with
      | [PartIdentifier target] => Some (target, false)
      | [PartIdentifier schema; PartIdentifier target] =>
          if pg_identifier_matches schema (lit "pg_catalog") then Some (target, true) else None
      | _ => None
      end
  | _ => None
  end.
Definition maintained_text_cast (t : DataType) : bool :=
  match t with
  | Text => true
  | _ => match custom_pg_cast_target t with
         | Some (target, qualified) => qualified && pg_identifier_matches target (lit "text")
         | None => false
         end
  end.

(** [string_literal] *)
Fixpoint string_literal (e : Expr) : option str :=
  match e with
  | ValueExpr (SingleQuotedString s) => Some s
  | Cast t _ e => if maintained_text_cast t then string_literal e else None
  | Nested e => string_literal e
  | _ => None
  end.

(** [parse::<u32>] *)
Definition parse_u32 (s : str) : option Z :=
  z ← match s with
      | x2b :: r => parse_decimal_digits r
      | _ => parse_decimal_digits s
      end;
  if z <=? u32_max then Some z else None.

(** [resolve_inquiry_role] *)
Fixpoint inquiry_role_name (e : Expr) (identity : SessionIdentity) (catalog : RoleCatalog) : option str :=
  match e with
  | ValueExpr (SingleQuotedString name) => Some name
  | ValueExpr (Number oid _) => role_name <$> (parse_u32 oid ≫= role_by_oid catalog)
  | Identifier i =>
      match quote_style i with
      | Some _ => None
      | None =>
          let name := to_ascii_lowercase (ident_value i) in
          if bool_decide (name ∈ [lit "current_user"; lit "current_role"; lit "user"]) then Some (identity_current_user identity)
          else if bool_decide (name = lit "session_user") then Some (identity_session_user identity)
          else None
      end
  | Cast _ _ e | Nested e => inquiry_role_name e identity catalog
  | _ => None
  end.
Definition resolve_inquiry_role (e : Expr) (identity : SessionIdentity) (catalog : RoleCatalog) (allow_public : bool)
    : result PgWireError str :=
  name ← ok_or (inquiry_role_name e identity catalog) (UserError "0A000");
  if allow_public && eq_ignore_ascii_case name (lit "PUBLIC") then Ok (lit "PUBLIC")
  else ok_or (role_name <$> role catalog name) (UserError "42704").

(** ** Privileges *)

Record RequestedPrivilege := mkRequestedPrivilege { privilege_name : str; grant_option : bool }.

(** [valid_privilege_name], [table_privilege] and [role_privilege] *)
Definition privilege_names (kind : PrivilegeInquiryFunction) : list str :=
  match kind with
  | InquireSchema => [lit "CREATE"; lit "USAGE"]
  | InquireTable =>
      [lit "SELECT"; lit "INSERT"; lit "UPDATE"; lit "DELETE"; lit "TRUNCATE"; lit "REFERENCES"; lit "TRIGGER"; lit "MAINTAIN"]
  | InquireAnyColumn | InquireColumn => [lit "SELECT"; lit "INSERT"; lit "UPDATE"; lit "REFERENCES"]
  | InquireRole => [lit "MEMBER"; lit "USAGE"; lit "SET"]
  end.
Definition valid_privilege_name (kind : PrivilegeInquiryFunction) (name : str) : bool :=
  bool_decide (name ∈ privilege_names kind).
Definition table_privilege (name : str) : option TablePrivilege :=
  if bool_decide (name = lit "SELECT") then Some TableSelect
  else if bool_decide (name = lit "INSERT") then Some TableInsert
  else if bool_decide (name = lit "UPDATE") then Some TableUpdate
  else if bool_decide (name = lit "DELETE") then Some TableDelete
  else if bool_decide (name = lit "MAINTAIN") then Some TableMaintain
  else None.
Definition role_privilege (name : str) : option RolePrivilege :=
  if bool_decide (name = lit "MEMBER") then Some RoleMember
  else if bool_decide (name = lit "USAGE") then Some RoleUsage
  else if bool_decide (name = lit "SET") then Some RoleSet
  else None.

(** [str::split_whitespace] and [str::strip_suffix] *)
Fixpoint whitespace_words (word : list Z) (cs : list Z) : list (list Z) :=
  let finished := if bool_decide (word = []) then [] else [rev word] in
  match cs with
  | [] => finished
  | c :: rest => if is_whitespace c then finished ++ whitespace_words [] rest else whitespace_words (c :: word) rest
  end.
Definition split_whitespace (s : str) : list str := map utf8_encode (whitespace_words [] (chars s)).
Definition strip_suffix (suffix s : str) : option str := @rev byte <$> strip_prefix (rev suffix) (rev s).

(** [parse_requested_privileges] *)
Definition normalized_privilege (part : str) : str := join (lit " ") (map to_ascii_uppercase (split_whitespace part)).
Definition requested_privilege (kind : PrivilegeInquiryFunction) (part : str) : result PgWireError RequestedPrivilege :=
  let normalized := normalized_privilege part in
  let '(name, grant) :=
    match strip_suffix (lit " WITH GRANT OPTION") normalized with
    | Some name => (name, true)
    | None =>
        match (if bool_decide (kind = InquireRole) then strip_suffix (lit " WITH ADMIN OPTION") normalized else None) with
        | Some name => (name, true)
        | None => (normalized, false)
        end
    end in
  _ ← ensure (negb (bool_decide (name = []) || negb (valid_privilege_name kind name))) (UserError "22023");
  Ok (mkRequestedPrivilege name grant).
Definition parse_requested_privileges (e : Expr) (kind : PrivilegeInquiryFunction)
    : result PgWireError (list RequestedPrivilege) :=
  raw ← ok_or (string_literal e) (UserError "0A000");
  collect (requested_privilege kind) (split_on x2c raw).

(** ** Answers without a catalog identity *)

(** [identity_required_for_dynamic_privilege] *)
Definition identity_required_for_dynamic_privilege : PgWireError := UserError "0A000".

Definition single_name (raw : str) : option str :=
  match parse_pg_qualified_name raw with Some [name] => Some name | _ => None end.
(** [literal_privilege_inquiry_replacement] *)
Definition literal_privilege_inquiry_replacement (kind : PrivilegeInquiryFunction) (r : str) (object : Expr) (column : option Expr)
    (privileges : list RequestedPrivilege) (identity : SessionIdentity) (catalog : RoleCatalog) : result PgWireError Expr :=
  allowed ←
    match kind with
    | InquireSchema =>
        schema ← ok_or (string_literal object ≫= single_name) identity_required_for_dynamic_privilege;
        let schema := if eq_ignore_ascii_case schema (lit "public") then lit "main" else schema in
        Ok (existsb (fun p => negb (grant_option p) && bool_decide (privilege_name p = lit "USAGE")
                              && has_schema_privilege catalog r schema SchemaUsage) privileges)
    | InquireTable | InquireAnyColumn | InquireColumn =>
        '(schema, table) ← ok_or (string_literal object ≫= parse_pg_table_name) identity_required_for_dynamic_privilege;
        _ ← match column with
            | Some column => ok_or (string_literal column ≫= single_name) identity_required_for_dynamic_privilege
            | None => Ok []
            end;
        Ok (existsb (fun p => negb (grant_option p) &&
                              match table_privilege (privilege_name p) with
                              | Some q => has_table_privilege catalog r schema table q
                              | None => false
                              end) privileges)
    | InquireRole =>
        target ← resolve_inquiry_role object identity catalog false;
        Ok (existsb (fun p => negb (grant_option p) &&
                              match role_privilege (privilege_name p) with
                              | Some q => has_role_privilege catalog r target q
                              | None => false
                              end) privileges)
    end;
  Ok (ValueExpr (Boolean allowed)).

(** ** Answers with a catalog identity *)

(** [private_function], [private_scalar_function] and [registered_object_text] *)
Definition private_head (name : str) : FunctionHead :=
  mkFunctionHead [PartIdentifier (mkIdent name None)] false false false false false false true false.
Definition private_function (name : str) (arguments : list Expr) : Expr :=
  FunctionCall (private_head name) (map Some arguments) [].
Definition private_scalar_function (name : str) (argument : Expr) : Expr := private_function name [argument].
Definition registered_object_text (resolver renderer : str) (argument : Expr) : Expr :=
  private_scalar_function renderer (private_scalar_function resolver argument).

(** [configured_schema_privileges], [configured_table_privileges] and
    [configured_role_privileges]; the sets are enumerated in some order. *)
Definition configured_schema_privileges (catalog : RoleCatalog) (r : str) (requested : list RequestedPrivilege) : list str :=
  let usage := existsb (fun p => bool_decide (privilege_name p = lit "USAGE") && negb (grant_option p)) requested in
  map (fun schema => if eq_ignore_ascii_case schema (lit "main") then lit "public" else canonical_pg_identifier schema)
    (List.filter (fun schema => usage && has_schema_privilege catalog r schema SchemaUsage)
       (remove_dups (map schema_grant_schema (schema_grants catalog)))).
Definition configured_tables (catalog : RoleCatalog) : list (str * str) :=
  map (fun o => (owner_schema o, owner_table o)) (table_owners catalog) ++
  map (fun g => (table_grant_schema g, table_grant_table g)) (table_grants catalog).
Definition requested_table_privileges (requested : list RequestedPrivilege) : list TablePrivilege :=
  remove_dups (omap (fun p => if grant_option p then None else table_privilege (privilege_name p)) requested).
Definition table_text (schema table : str) : str :=
  if eq_ignore_ascii_case schema (lit "main") then canonical_pg_identifier table
  else canonical_pg_identifier schema ++ lit "." ++ canonical_pg_identifier table.
Definition configured_table_privileges (catalog : RoleCatalog) (r : str) (requested : list RequestedPrivilege) : list str :=
  map (fun t => table_text t.1 t.2)
    (List.filter (fun t => existsb (has_table_privilege catalog r t.1 t.2) (requested_table_privileges requested))
       (remove_dups (configured_tables catalog))).
Definition requested_role_privileges (requested : list RequestedPrivilege) : list RolePrivilege :=
  remove_dups (omap (fun p => if grant_option p then None else role_privilege (privilege_name p)) requested).
Definition configured_role_privileges (catalog : RoleCatalog) (member : str) (requested : list RequestedPrivilege) : list str :=
  map role_name
    (List.filter (fun r => existsb (has_role_privilege catalog member (role_name r)) (requested_role_privileges requested))
       (roles catalog)).

(** [privilege_object_match] *)
Definition compare_name (normalized : Expr) (value : str) : Expr :=
  BinaryOp normalized Equal (ValueExpr (SingleQuotedString (to_ascii_lowercase value))).
Definition privilege_object_match (resolved : Expr) (allowed : list str) : Expr :=
  let normalized := private_scalar_function (lit "lower") resolved in
  match map (compare_name normalized) (dedup (sort_by str_compare allowed)) with
  | [] => BinaryOp resolved NotEqual resolved
  | first :: comparisons => foldl (fun l r => BinaryOp l Or r) first comparisons
  end.

(** [privilege_inquiry_replacement] *)
Definition registered_replacement (kind : PrivilegeInquiryFunction) (r : str) (object : Expr) (column : option Expr)
    (privileges : list RequestedPrivilege) (catalog : RoleCatalog) : Expr :=
  let tables := privilege_object_match (registered_object_text (lit "quackgis_pg_regclass") (lit "quackgis_pg_regclass_text") object)
                  (configured_table_privileges catalog r privileges) in
  match kind with
  | InquireSchema =>
      privilege_object_match (registered_object_text (lit "quackgis_pg_regnamespace") (lit "quackgis_pg_regnamespace_text") object)
        (configured_schema_privileges catalog r privileges)
  | InquireTable | InquireAnyColumn => tables
  | InquireColumn =>
      BinaryOp tables And (private_function (lit "quackgis_pg_attribute_exists") (object :: option_list column))
  | InquireRole =>
      privilege_object_match (registered_object_text (lit "quackgis_pg_regrole") (lit "quackgis_pg_regrole_text") object)
        (configured_role_privileges catalog r privileges)
  end.
(** The role, the object, the column and the privileges of a call with [n] arguments, the role
    left out, or with the role first *)
Definition inquiry_arguments (kind : PrivilegeInquiryFunction) (arguments : list Expr)
    : option (option Expr * Expr * option Expr * Expr) :=
  match kind, arguments with
  | InquireColumn, [object; column; privileges] => Some (None, object, Some column, privileges)
  | InquireColumn, [r; object; column; privileges] => Some (Some r, object, Some column, privileges)
  | InquireColumn, _ => None
  | _, [object; privileges] => Some (None, object, None, privileges)
  | _, [r; object; privileges] => Some (Some r, object, None, privileges)
  | _, _ => None
  end.
Record Inquiry := mkInquiry {
  inquiry_kind : PrivilegeInquiryFunction;
  inquiry_role : str;
  inquiry_object : Expr;
  inquiry_column : option Expr;
  inquiry_privileges : list RequestedPrivilege }.
Definition read_inquiry (f : FunctionHead) (arguments : list (option Expr)) (identity : SessionIdentity) (catalog : RoleCatalog)
    : result PgWireError Inquiry :=
  kind ← ok_or (privilege_inquiry_function (function_name f)) (UserError "0A000");
  arguments ← ok_or (owned_plain_function_arguments f arguments) (UserError "0A000");
  '(explicit, object, column, requested) ← ok_or (inquiry_arguments kind arguments) (UserError "42883");
  r ← match explicit with
      | Some e => resolve_inquiry_role e identity catalog (negb (bool_decide (kind = InquireRole)))
      | None => Ok (identity_current_user identity)
      end;
  privileges ← parse_requested_privileges requested kind;
  Ok (mkInquiry kind r object column privileges).
Definition privilege_inquiry_replacement (f : FunctionHead) (arguments : list (option Expr)) (identity : SessionIdentity)
    (catalog : RoleCatalog) (catalog_identity_enabled : bool) : result PgWireError Expr :=
  q ← read_inquiry f arguments identity catalog;
  if negb catalog_identity_enabled then
    literal_privilege_inquiry_replacement (inquiry_kind q) (inquiry_role q) (inquiry_object q) (inquiry_column q)
      (inquiry_privileges q) identity catalog
  else
    Ok (registered_replacement (inquiry_kind q) (inquiry_role q) (inquiry_object q) (inquiry_column q)
          (inquiry_privileges q) catalog).

(** ** Statements *)

(** What the parser's visitors do: [visit_expressions] calls its function on an expression
    before those nested in it, [visit_expressions_mut] after them. *)
Fixpoint visit_expr (f : Expr -> result PgWireError unit) (e : Expr) : result PgWireError unit :=
  _ ← f e;
  match e with
  | Identifier _ | ValueExpr _ => Ok tt
  | Cast _ _ e | Nested e => visit_expr f e
  | BinaryOp l _ r => _ ← visit_expr f l; visit_expr f r
  | FunctionCall _ arguments others =>
      _ ← collect (fun a => match a with Some e => visit_expr f e | None => Ok tt end) arguments;
      _ ← collect (visit_expr f) others; Ok tt
  | OtherExpr _ children => _ ← collect (visit_expr f) children; Ok tt
  end.
Fixpoint visit_expr_mut (f : Expr -> result PgWireError Expr) (e : Expr) : result PgWireError Expr :=
  e ← match e with
      | Identifier _ | ValueExpr _ => Ok e
      | Cast t k e => e ← visit_expr_mut f e; Ok (Cast t k e)
      | Nested e => e ← visit_expr_mut f e; Ok (Nested e)
      | BinaryOp l op r => l ← visit_expr_mut f l; r ← visit_expr_mut f r; Ok (BinaryOp l op r)
      | FunctionCall h arguments others =>
          arguments ← collect (fun a => match a with Some e => e ← visit_expr_mut f e; Ok (Some e) | None => Ok None end) arguments;
          others ← collect (visit_expr_mut f) others;
          Ok (FunctionCall h arguments others)
      | OtherExpr t children => children ← collect (visit_expr_mut f) children; Ok (OtherExpr t children)
      end;
  f e.

Definition is_inquiry (e : Expr) : bool :=
  match e with FunctionCall f _ _ => privilege_inquiry_name_ends_with (function_name f) | _ => false end.

(** [validate_privilege_inquiry] *)
Definition validate_inquiry (enabled : bool) (context : option (SessionIdentity * RoleCatalog)) (e : Expr) : result PgWireError unit :=
  match e with
  | FunctionCall f arguments _ =>
      if negb (privilege_inquiry_name_ends_with (function_name f)) then Ok tt
      else match context with
           | Some (identity, catalog) =>
               _ ← privilege_inquiry_replacement f arguments identity catalog enabled; Ok tt
           | None => Err (UserError "0A000")
           end
  | _ => Ok tt
  end.
Definition validate_privilege_inquiry (s : Statement) (enabled : bool) (context : option (SessionIdentity * RoleCatalog))
    : result PgWireError unit :=
  _ ← collect (visit_expr (validate_inquiry enabled context)) (expressions s); Ok tt.

(** [rewrite_privilege_inquiry] *)
Definition rewrite_inquiry (enabled : bool) (identity : SessionIdentity) (catalog : RoleCatalog) (e : Expr) : result PgWireError Expr :=
  match e with
  | FunctionCall f arguments _ =>
      if negb (privilege_inquiry_name_ends_with (function_name f)) then Ok e
      else privilege_inquiry_replacement f arguments identity catalog enabled
  | _ => Ok e
  end.
Definition rewrite_privilege_inquiry (s : Statement) (identity : SessionIdentity) (catalog : RoleCatalog) (enabled : bool)
    : result PgWireError Statement :=
  es ← collect (visit_expr_mut (rewrite_inquiry enabled identity catalog)) (expressions s);
  Ok (mkStatement (statement_shape s) es).
