(* ===== verification/PrivilegeNames.v ===== *)
(** * Names in privilege inquiries

    A name printed by [canonical_pg_identifier] is read back by [parse_pg_qualified_name], and
    printed names agree up to case exactly when the names do. *)

From S2P Require Import Prelude RoleCatalog RoleSession Utf8 SqlSyntax PrivilegeInquiry.
#[local] Open Scope Z_scope.

(** ** Printed names as characters *)

Definition double_char (cs : list Z) : list Z := concat (map (fun c => if c =? quote_char then [quote_char; quote_char] else [c]) cs).

Lemma double_byte_app c s t : double_byte c (s ++ t) = double_byte c s ++ double_byte c t.
Proof. unfold double_byte. by rewrite map_app, concat_app. Qed.
Lemma double_byte_free c s : c ∉ s -> double_byte c s = s.
Proof.
  induction s as [|b s IH]; intros H; [done|]. unfold double_byte. cbn. rewrite bool_decide_eq_false_2 by set_solver.
  cbn. f_equal. apply IH. set_solver.
Qed.
Lemma char_no_quote e c : utf8_char e c -> c <> quote_char -> quote_byte ∉ e.
Proof.
  intros He Hc Hq. destruct He as [b H|b0 b1 H0 H1|b0 b1 b2 H0 H1 H2|b0 b1 b2 b3 H0 H1 H2 H3].
  - apply list_elem_of_singleton in Hq as <-. by destruct Hc.
  - apply in_range_iff in H0. unfold utf8_cont in H1. apply in_range_iff in H1.
    repeat (apply elem_of_cons in Hq as [<-|Hq]; [cbn in *; lia|]). by apply elem_of_nil in Hq.
  - apply in_range_iff in H0. unfold utf8_cont in H2. apply in_range_iff in H2.
    assert (128 <= bz b1) by (unfold utf8_second3, utf8_cont, in_range in H1; repeat case_match; lia).
    repeat (apply elem_of_cons in Hq as [<-|Hq]; [cbn in *; lia|]). by apply elem_of_nil in Hq.
  - apply in_range_iff in H0. unfold utf8_cont in H2, H3. apply in_range_iff in H2, H3.
    assert (128 <= bz b1) by (unfold utf8_second4, utf8_cont, in_range in H1; repeat case_match; lia).
    repeat (apply elem_of_cons in Hq as [<-|Hq]; [cbn in *; lia|]). by apply elem_of_nil in Hq.
Qed.
Lemma decode_double s cs : utf8_decode s = Some cs -> utf8_decode (double_byte quote_byte s) = Some (double_char cs).
Proof.
  revert cs. induction s as [s IH] using list_len_ind. intros cs [[-> ->]|(e & c & s' & cs' & -> & -> & He & Hs)]%decode_some; [done|].
  assert (Hl : (length s' < length (e ++ s'))%nat) by (rewrite length_app; pose proof (utf8_char_length _ _ He); lia).
  rewrite double_byte_app. unfold double_char. cbn [map concat]. fold (double_char cs'). destruct (c =? quote_char) eqn:Hc.
  - apply Z.eqb_eq in Hc as ->. rewrite (char_ascii _ _ He) by done. apply utf8_decode_app; [done|by apply IH].
  - rewrite (double_byte_free quote_byte e) by (eapply char_no_quote; [exact He|lia]).
    rewrite (decode_char _ _ _ He), (IH s' Hl cs' Hs). done.
Qed.
Lemma decode_quoted s cs : utf8_decode s = Some cs ->
  utf8_decode (quote_with quote_byte s) = Some (quote_char :: double_char cs ++ [quote_char]).
Proof.
  intros H. unfold quote_with. change (quote_byte :: ?l) with ([quote_byte] ++ l).
  rewrite (utf8_decode_app [quote_byte] _ [quote_char] (double_char cs ++ [quote_char])); [done|done|].
  apply utf8_decode_app; [by apply decode_double|done].
Qed.

(** ** Reading *)

Definition starts_quote (cs : list Z) : bool := match cs with c :: _ => c =? quote_char | [] => false end.
Lemma quoted_read cs rest : starts_quote rest = false -> quoted_identifier (double_char cs ++ quote_char :: rest) = Some (cs, rest).
Proof.
  intros Hr. induction cs as [|c cs IH]; cbn.
  - destruct rest as [|d rest]; [done|]. cbn in Hr. by rewrite Hr.
  - unfold double_char in IH |- *. cbn [map concat]. destruct (c =? quote_char) eqn:Hc; cbn [app quoted_identifier].
    + apply Z.eqb_eq in Hc as ->. cbn. by rewrite IH.
    + rewrite Hc, IH. done.
Qed.

Lemma plain_identifier_chars s : plain_identifier s = true -> exists b r,
  s = b :: r /\ (b = x5f \/ is_ascii_lowercase b = true) /\
  Forall (fun b => bz b < 128 /\ identifier_char (bz b) = true /\ char_to_ascii_lowercase (bz b) = bz b) s.
Proof.
  destruct s as [|b r]; [done|]. cbn. intros [Hb Hr]%andb_true_iff. exists b, r. split; [done|].
  assert (Hone : forall b, bool_decide (b = x5f) || bool_decide (b = x24) || is_ascii_lowercase b || is_ascii_digit b = true ->
    bz b < 128 /\ identifier_char (bz b) = true /\ char_to_ascii_lowercase (bz b) = bz b).
  { clear. intros b. destruct b; vm_compute; intros H; try discriminate H; split_and!; reflexivity. }
  split.
  - apply orb_true_iff in Hb as [Hb%bool_decide_eq_true|Hb]; auto.
  - constructor.
    + apply Hone. destruct (bool_decide (b = x5f)); [done|]. cbn in Hb |- *. rewrite Hb. by rewrite orb_true_r.
    + rewrite forallb_forall in Hr. apply Forall_forall. intros x Hx. apply Hone, Hr. by apply list_elem_of_In.
Qed.

Definition stops (rest : list Z) : Prop :=
  match rest with c :: _ => c <> quote_char /\ identifier_char c = false | [] => True end.
(** Printed characters that neither begin nor end with whitespace *)
Definition tight (ps : list Z) : Prop :=
  exists a b, head ps = Some a /\ last ps = Some b /\ is_whitespace a = false /\ is_whitespace b = false.

Lemma take_identifier_plain r rest :
  Forall (fun b => bz b < 128 /\ identifier_char (bz b) = true /\ char_to_ascii_lowercase (bz b) = bz b) r -> stops rest ->
  take_identifier (map bz r ++ rest) = (map bz r, rest).
Proof.
  intros H Hs. induction H as [|b r (Hb & Hi & Hl) Hr IH]; cbn.
  - destruct rest as [|c rest]; [done|]. destruct Hs as [_ Hs]. cbn. by rewrite Hs.
  - by rewrite Hi, IH, Hl.
Qed.
Lemma not_whitespace_char c : identifier_char c = true -> is_whitespace c = false.
Proof.
  unfold identifier_char, ascii_char. intros H. destruct (is_whitespace c) eqn:Hw; [exfalso|done].
  assert (Hc : c < 128) by (destruct (Z.ltb_spec c 128); [done|]; lia).
  assert (Hv : c ∈ [9; 10; 11; 12; 13; 32]).
  { unfold is_whitespace in Hw. assert (9 <= c <= 13 \/ c = 32) as [?| ->] by lia; [|set_solver].
    assert (c = 9 \/ c = 10 \/ c = 11 \/ c = 12 \/ c = 13) as Hd by lia. set_solver. }
  repeat (apply elem_of_cons in Hv as [->|Hv]; [vm_compute in H; discriminate H|]). by apply elem_of_nil in Hv.
Qed.

Lemma printed_identifier s cs rest :
  utf8_decode s = Some cs -> s <> [] -> stops rest ->
  exists ps, utf8_decode (canonical_pg_identifier s) = Some ps /\ tight ps /\ parse_pg_identifier (ps ++ rest) = Some (cs, rest).
Proof.
  intros Hd Hne Hs. unfold canonical_pg_identifier. destruct (plain_identifier s) eqn:Hp.
  - destruct (plain_identifier_chars s Hp) as (b & r & -> & Hb & Hf). exists cs. split; [done|].
    assert (cs = map bz (b :: r)) as ->.
    { rewrite utf8_decode_bytes in Hd; [by injection Hd as <-|]. eapply Forall_impl; [exact Hf|]. by intros x (Hx & _). }
    split.
    + destruct (last (map bz (b :: r))) as [z|] eqn:Hl; [|by apply last_None in Hl]. exists (bz b), z. split_and!; [done..| |].
      * apply not_whitespace_char. apply Forall_cons_1 in Hf as [(_ & Hi & _) _]. done.
      * apply last_Some_elem_of in Hl. apply list_elem_of_fmap in Hl as (x & -> & Hx). rewrite Forall_forall in Hf.
        apply not_whitespace_char. by destruct (Hf x Hx) as (_ & Hi & _).
    + cbn [map app]. unfold parse_pg_identifier. apply Forall_cons_1 in Hf as [(Hb1 & Hb2 & Hb3) Hr].
      assert (Hh : (bz b =? quote_char) = false /\ negb (bz b =? 95) && negb (ascii_char is_ascii_alphabetic (bz b)) = false).
      { clear -Hb. destruct Hb as [->|Hb]; [done|]. revert Hb. destruct b; vm_compute; intros H; try discriminate H; done. }
      destruct Hh as [-> ->]. by rewrite take_identifier_plain, Hb3.
  - exists (quote_char :: double_char cs ++ [quote_char]). split; [by apply decode_quoted|]. split.
    + exists quote_char, quote_char. split_and!; [done| |done..]. by rewrite app_comm_cons, last_snoc.
    + cbn [app parse_pg_identifier]. rewrite Z.eqb_refl, <- app_assoc. cbn [app].
      rewrite quoted_read by (destruct rest as [|c rest]; [done|]; destruct Hs as [Hs _]; cbn; lia). cbn.
      rewrite bool_decide_eq_false_2; [done|]. intros ->. apply decode_some in Hd as [[-> _]|(? & ? & ? & ? & _ & ? & _)]; done.
Qed.

Lemma trim_start_tight c cs : is_whitespace c = false -> trim_start_chars (c :: cs) = c :: cs.
Proof. intros H. cbn. by rewrite H. Qed.
Lemma trimmed_tight raw ps : utf8_decode raw = Some ps -> tight ps -> trimmed_chars raw = ps.
Proof.
  intros Hd (a & b & Ha & Hb & Hwa & Hwb). unfold trimmed_chars, chars. rewrite Hd. change (default [] (Some ps)) with ps.
  assert (Hs : trim_start_chars ps = ps) by (destruct ps; [done|]; injection Ha as ->; by apply trim_start_tight).
  rewrite Hs. apply last_Some in Hb as [l ->]. rewrite rev_app_distr. change (rev [b]) with [b]. cbn [app].
  rewrite trim_start_tight by done. change (rev (b :: rev l)) with (rev (rev l) ++ [b]). by rewrite rev_involutive.
Qed.
Lemma tight_app ps qs rs : tight ps -> tight rs -> tight (ps ++ qs ++ rs).
Proof.
  intros (a & b & Ha & Hb & Hwa & Hwb) (c & d & Hc & Hd & Hwc & Hwd). exists a, d. split_and!; [|by rewrite !last_app, Hd|done..].
  destruct ps; [done|exact Ha].
Qed.

Lemma single_name_read s cs : utf8_decode s = Some cs -> s <> [] -> parse_pg_qualified_name (canonical_pg_identifier s) = Some [s].
Proof.
  intros Hd Hs. destruct (printed_identifier s cs [] Hd Hs I) as (ps & Hps & Ht & Hp). unfold parse_pg_qualified_name.
  rewrite (trimmed_tight _ _ Hps Ht). rewrite app_nil_r in Hp. rewrite Hp. cbn. by rewrite (utf8_decode_encode _ _ Hd).
Qed.
Lemma two_names_read s t cs ds : utf8_decode s = Some cs -> utf8_decode t = Some ds -> s <> [] -> t <> [] ->
  parse_pg_qualified_name (canonical_pg_identifier s ++ lit "." ++ canonical_pg_identifier t) = Some [s; t].
Proof.
  intros Hs Ht Hns Hnt. destruct (printed_identifier t ds [] Ht Hnt I) as (qs & Hqs & Htq & Hq).
  destruct (printed_identifier s cs (46 :: qs) Hs Hns) as (ps & Hps & Htp & Hp); [done|].
  assert (Hd : utf8_decode (canonical_pg_identifier s ++ lit "." ++ canonical_pg_identifier t) = Some (ps ++ [46] ++ qs)).
  { apply utf8_decode_app; [done|]. by apply (utf8_decode_app (lit ".") _ [46]). }
  unfold parse_pg_qualified_name. rewrite (trimmed_tight _ _ Hd) by by apply tight_app. cbn [app]. rewrite Hp. cbn [mbind option_bind].
  change (skip_pg_name_whitespace (46 :: qs)) with (46 :: qs). cbn [mbind option_bind].
  assert (skip_pg_name_whitespace qs = qs) as ->.
  { destruct Htq as (a & b & Ha & _ & Hwa & _). destruct qs; [done|]. injection Ha as ->. by apply trim_start_tight. }
  rewrite app_nil_r in Hq. rewrite Hq. cbn. by rewrite (utf8_decode_encode _ _ Hs), (utf8_decode_encode _ _ Ht).
Qed.

(** ** Printed names up to case *)

Lemma lowercase_byte_quote b : byte_to_ascii_lowercase b = quote_byte <-> b = quote_byte.
Proof. split; [|by intros ->]. destruct b; vm_compute; intros H; try discriminate H; done. Qed.
Lemma lowercase_double s : to_ascii_lowercase (double_byte quote_byte s) = double_byte quote_byte (to_ascii_lowercase s).
Proof.
  induction s as [|b s IH]; [done|]. unfold to_ascii_lowercase, double_byte in *. cbn [map concat]. rewrite map_app, IH.
  destruct (decide (b = quote_byte)) as [->|Hb]; [done|]. rewrite !bool_decide_eq_false_2; [done|by rewrite lowercase_byte_quote|done].
Qed.
Lemma double_byte_inj c s t : double_byte c s = double_byte c t -> s = t.
Proof.
  revert t. unfold double_byte. induction s as [|a s IH]; intros [|b t] H; cbn in H; [done|by case_bool_decide|by case_bool_decide|].
  repeat case_bool_decide; subst; cbn in H; simplify_eq; f_equal; auto.
Qed.
Lemma canonical_ci a b : ascii_ci (canonical_pg_identifier a) (canonical_pg_identifier b) -> ascii_ci a b.
Proof.
  assert (Hmixed : forall a b, plain_identifier a = true -> ascii_ci a (quote_with quote_byte b) -> False).
  { intros [|x r] y Hp H; [done|]. unfold ascii_ci, quote_with in H. cbn in H. injection H as Hx _. apply lowercase_byte_quote in Hx as ->. done. }
  unfold canonical_pg_identifier. destruct (plain_identifier a) eqn:Ha, (plain_identifier b) eqn:Hb; [done|..].
  - intros H. by destruct (Hmixed _ _ Ha H).
  - intros H. symmetry in H. by destruct (Hmixed _ _ Hb H).
  - unfold ascii_ci, quote_with. change (to_ascii_lowercase (quote_byte :: ?l)) with (quote_byte :: to_ascii_lowercase l).
    unfold to_ascii_lowercase. rewrite !map_app. fold (to_ascii_lowercase (double_byte quote_byte a)).
    fold (to_ascii_lowercase (double_byte quote_byte b)). rewrite !lowercase_double. intros H. injection H as H.
    apply app_inj_tail in H as [H _]. by apply double_byte_inj in H.
Qed.
