(* ===== verification/PrivilegeOutcomes.v ===== *)
(** * What privilege inquiries answer

    Both answers agree with the authorization relations of the role catalog, and no inquiry is
    left in a statement that was accepted. *)

From S2P Require Import Prelude RoleCatalog RoleSession Utf8 SqlSyntax PrivilegeInquiry PrivilegeNames.
#[local] Open Scope Z_scope.

(** ** Specification *)

Inductive Target := SchemaTarget (s : str) | TableTarget (s t : str) | RoleTarget (r : str).

Definition schema_authorized (c : RoleCatalog) (r schema : str) : Prop :=
  (public_name r \/ known c r) /\
  exists g, g ∈ schema_grants c /\ ascii_ci (schema_grant_schema g) schema /\ SchemaUsage ∈ schema_grant_privileges g /\
    (schema_grant_role g = None \/ exists n, schema_grant_role g = Some n /\ ~ public_name r /\ inherits c r n).

(** Role [r] has a requested privilege on a target; no privilege comes with its grant option. *)
Definition privilege_holds (c : RoleCatalog) (r : str) (target : Target) (p : RequestedPrivilege) : Prop :=
  grant_option p = false /\
  match target with
  | SchemaTarget s => privilege_name p = lit "USAGE" /\ schema_authorized c r s
  | TableTarget s t => exists q, table_privilege (privilege_name p) = Some q /\ table_authorized c r s t q
  | RoleTarget n => exists q, role_privilege (privilege_name p) = Some q /\
      known c r /\ known c n /\ rtc (member_edge (memberships c) q) r n
  end.
Definition some_privilege_holds (c : RoleCatalog) (r : str) (target : Target) (ps : list RequestedPrivilege) : Prop :=
  exists p, p ∈ ps /\ privilege_holds c r target p.

(** ** Name literals *)

(** What the name literal of an inquiry stands for *)
Definition literal_target (q : Inquiry) (identity : SessionIdentity) (c : RoleCatalog) : option Target :=
  match inquiry_kind q with
  | InquireSchema =>
      s ← string_literal (inquiry_object q) ≫= single_name;
      Some (SchemaTarget (if eq_ignore_ascii_case s (lit "public") then lit "main" else s))
  | InquireTable | InquireAnyColumn | InquireColumn =>
      '(s, t) ← string_literal (inquiry_object q) ≫= parse_pg_table_name; Some (TableTarget s t)
  | InquireRole => match resolve_inquiry_role (inquiry_object q) identity c false with Ok n => Some (RoleTarget n) | Err _ => None end
  end.

Lemma existsb_holds c r target ps (f : RequestedPrivilege -> bool) :
  (forall p, f p = true <-> privilege_holds c r target p) -> existsb f ps = true <-> some_privilege_holds c r target ps.
Proof. intros Hf. rewrite existsb_elem. unfold some_privilege_holds. by setoid_rewrite Hf. Qed.
Lemma schema_test c r s p :
  negb (grant_option p) && bool_decide (privilege_name p = lit "USAGE") && has_schema_privilege c r s SchemaUsage = true <->
  privilege_holds c r (SchemaTarget s) p.
Proof. rewrite !andb_true_iff, negb_true_iff, bool_decide_eq_true, has_schema_privilege_spec. unfold privilege_holds, schema_authorized. tauto. Qed.
Lemma table_test c r s t p :
  negb (grant_option p) && match table_privilege (privilege_name p) with Some q => has_table_privilege c r s t q | None => false end = true <->
  privilege_holds c r (TableTarget s t) p.
Proof.
  rewrite andb_true_iff, negb_true_iff. unfold privilege_holds. destruct (table_privilege (privilege_name p)) as [q|].
  - rewrite has_table_privilege_authorized. naive_solver.
  - naive_solver.
Qed.
Lemma role_test c r n p :
  negb (grant_option p) && match role_privilege (privilege_name p) with Some q => has_role_privilege c r n q | None => false end = true <->
  privilege_holds c r (RoleTarget n) p.
Proof.
  rewrite andb_true_iff, negb_true_iff. unfold privilege_holds. destruct (role_privilege (privilege_name p)) as [q|].
  - rewrite has_role_privilege_rtc. naive_solver.
  - naive_solver.
Qed.

Lemma literal_answer q identity c e :
  literal_privilege_inquiry_replacement (inquiry_kind q) (inquiry_role q) (inquiry_object q) (inquiry_column q)
    (inquiry_privileges q) identity c = Ok e ->
  exists target b, literal_target q identity c = Some target /\ e = ValueExpr (Boolean b) /\
    (b = true <-> some_privilege_holds c (inquiry_role q) target (inquiry_privileges q)).
Proof.
  unfold literal_privilege_inquiry_replacement, literal_target. intros H. apply bind_ok in H as (b & H & [= <-]).
  assert (Htable : forall target, ('(schema, table) ← ok_or (string_literal (inquiry_object q) ≫= parse_pg_table_name) identity_required_for_dynamic_privilege;
    _ ← match inquiry_column q with
        | Some column => ok_or (string_literal column ≫= single_name) identity_required_for_dynamic_privilege
        | None => Ok []
        end;
    Ok (existsb (fun p => negb (grant_option p) && match table_privilege (privilege_name p) with
      | Some q0 => has_table_privilege c (inquiry_role q) schema table q0 | None => false end) (inquiry_privileges q))) = Ok b ->
    target = ('(s, t) ← string_literal (inquiry_object q) ≫= parse_pg_table_name; Some (TableTarget s t)) ->
    exists t b0, target = Some t /\ ValueExpr (Boolean b) = ValueExpr (Boolean b0) /\
      (b0 = true <-> some_privilege_holds c (inquiry_role q) t (inquiry_privileges q))).
  { intros target Ht ->. apply bind_ok in Ht as ([s t] & Hn%ok_or_ok & Ht). apply bind_ok in Ht as (? & _ & [= <-]). rewrite Hn.
    eexists _, _. split_and!; [done..|]. apply existsb_holds. intros p. apply table_test. }
  destruct (inquiry_kind q); [|by eapply Htable..|].
  - apply bind_ok in H as (s & Hs%ok_or_ok & [= <-]). rewrite Hs. eexists _, _. split_and!; [done..|]. apply existsb_holds. intros p. apply schema_test.
  - apply bind_ok in H as (n & Hn & [= <-]). rewrite Hn. eexists _, _. split_and!; [done..|]. apply existsb_holds. intros p. apply role_test.
Qed.

(** ** Registered names

    The value of a comparison of texts; a text that is missing is NULL.  [lower] of the
    database folds more than ASCII. *)
Class SqlTexts := {
  lower : str -> str;
  lower_ascii s : Forall (fun b => bz b < 128) s -> lower s = to_ascii_lowercase s;
  other_text : Expr -> option str;
  other_truth : Expr -> option bool }.

Section registered.
Context {texts : SqlTexts}.

Fixpoint text (e : Expr) : option str :=
  match e with
  | ValueExpr (SingleQuotedString s) => Some s
  | FunctionCall f [Some a] [] => if bool_decide (f = private_head (lit "lower")) then lower <$> text a else other_text e
  | _ => other_text e
  end.
Definition kleene_or (a b : option bool) : option bool :=
  match a, b with
  | Some true, _ | _, Some true => Some true
  | Some false, Some false => Some false
  | _, _ => None
  end.
Definition kleene_and (a b : option bool) : option bool :=
  match a, b with
  | Some false, _ | _, Some false => Some false
  | Some true, Some true => Some true
  | _, _ => None
  end.
Fixpoint truth (e : Expr) : option bool :=
  match e with
  | BinaryOp l Or r => kleene_or (truth l) (truth r)
  | BinaryOp l And r => kleene_and (truth l) (truth r)
  | BinaryOp l Equal r => match text l, text r with Some a, Some b => Some (bool_decide (a = b)) | _, _ => None end
  | BinaryOp l NotEqual r => match text l, text r with Some a, Some b => Some (negb (bool_decide (a = b))) | _, _ => None end
  | ValueExpr (Boolean b) => Some b
  | _ => other_truth e
  end.

(** The database's lower case of a name is the server's, which folds ASCII letters only: so it is
    for every name in ASCII. *)
Definition folds_as_ascii (s : str) : Prop := lower s = to_ascii_lowercase s.
Lemma ascii_folds s : Forall (fun b => bz b < 128) s -> folds_as_ascii s.
Proof using. apply lower_ascii. Qed.

Lemma match_truth resolved allowed x :
  text resolved = Some x -> folds_as_ascii x ->
  truth (privilege_object_match resolved allowed) = Some (existsb (eq_ignore_ascii_case x) allowed).
Proof using.
  intros Hx Ha. set (n := private_scalar_function (lit "lower") resolved).
  assert (Hone : forall v, truth (compare_name n v) = Some (eq_ignore_ascii_case x v)).
  { intros v. unfold compare_name, n, private_scalar_function, private_function. cbn [truth text map].
    rewrite bool_decide_eq_true_2 by done. rewrite Hx. cbn. by rewrite Ha. }
  assert (Hmany : forall l first b, truth first = Some b ->
    truth (foldl (fun l r => BinaryOp l Or r) first (map (compare_name n) l)) = Some (b || existsb (eq_ignore_ascii_case x) l)).
  { induction l as [|v l IH]; intros first b Hf; cbn [map foldl existsb]; [by rewrite orb_false_r|].
    rewrite (IH _ (b || eq_ignore_ascii_case x v)); [by rewrite orb_assoc|]. cbn [truth]. rewrite Hf, Hone.
    by destruct b, (eq_ignore_ascii_case x v). }
  assert (Hall : truth (privilege_object_match resolved allowed) = Some (existsb (eq_ignore_ascii_case x) (dedup (sort_by str_compare allowed)))).
  { unfold privilege_object_match. fold n. destruct (dedup (sort_by str_compare allowed)) as [|v l]; cbn [map existsb].
    - cbn [truth]. rewrite Hx. by rewrite bool_decide_eq_true_2.
    - by rewrite (Hmany l _ _ (Hone v)). }
  rewrite Hall. f_equal. apply eq_true_iff_eq. rewrite !existsb_elem. by setoid_rewrite dedup_elem; setoid_rewrite sort_by_perm.
Qed.

(** The registered name of a target, and the targets whose name the catalog spells as it is
    registered *)
Definition target_text (target : Target) : str :=
  match target with
  | SchemaTarget s => if bool_decide (s = lit "main") then lit "public" else canonical_pg_identifier s
  | TableTarget s t => table_text s t
  | RoleTarget n => canonical_pg_identifier n
  end.
Definition spelled (c : RoleCatalog) (target : Target) : Prop :=
  match target with
  | SchemaTarget s => s = lit "main" \/ (~ ascii_ci s (lit "public") /\ ~ ascii_ci s (lit "main"))
  | TableTarget s t => s = lit "main" /\ forall o, o ∈ configured_tables c -> ascii_ci o.2 t -> o.2 = t
  | RoleTarget n => known c n /\ plain_identifier n = true
  end.
Definition object_of (kind : PrivilegeInquiryFunction) (target : Target) : Prop :=
  match kind, target with
  | InquireSchema, SchemaTarget _ => True
  | InquireTable, TableTarget _ _ | InquireAnyColumn, TableTarget _ _ | InquireColumn, TableTarget _ _ => True
  | InquireRole, RoleTarget _ => True
  | _, _ => False
  end.

Lemma configured_main c t : catalog_wf c -> t ∈ configured_tables c -> t.1 = lit "main".
Proof using.
  intros Hwf Ht. apply elem_of_app in Ht as [Ht|Ht]; apply list_elem_of_fmap in Ht as (o & -> & Ho); cbn.
  - pose proof (wf_owner c Hwf) as H. rewrite Forall_forall in H. by destruct (H o Ho) as (_ & ? & _).
  - pose proof (wf_table_grant c Hwf) as H. rewrite Forall_forall in H. by destruct (H o Ho) as (_ & ? & _).
Qed.
Lemma authorized_configured c r s t q : table_authorized c r s t q -> exists o, o ∈ configured_tables c /\ ascii_ci o.2 t.
Proof using.
  intros [o Ho _ Ht _ _|g Hg _ Ht _ _ _|g n Hg _ Ht _ _ _ _].
  - exists (owner_schema o, owner_table o). split; [|done]. apply elem_of_app. left. by apply (list_elem_of_fmap_2 (fun o => (owner_schema o, owner_table o))).
  - exists (table_grant_schema g, table_grant_table g). split; [|done]. apply elem_of_app. right.
    by apply (list_elem_of_fmap_2 (fun g => (table_grant_schema g, table_grant_table g))).
  - exists (table_grant_schema g, table_grant_table g). split; [|done]. apply elem_of_app. right.
    by apply (list_elem_of_fmap_2 (fun g => (table_grant_schema g, table_grant_table g))).
Qed.
Lemma requested_tables ps q :
  q ∈ requested_table_privileges ps <-> exists p, p ∈ ps /\ grant_option p = false /\ table_privilege (privilege_name p) = Some q.
Proof using.
  unfold requested_table_privileges. rewrite elem_of_remove_dups, list_elem_of_omap. split.
  - intros (p & Hp & H). exists p. by destruct (grant_option p).
  - intros (p & Hp & Hg & H). exists p. by rewrite Hg.
Qed.
Lemma requested_roles ps q :
  q ∈ requested_role_privileges ps <-> exists p, p ∈ ps /\ grant_option p = false /\ role_privilege (privilege_name p) = Some q.
Proof using.
  unfold requested_role_privileges. rewrite elem_of_remove_dups, list_elem_of_omap. split.
  - intros (p & Hp & H). exists p. by destruct (grant_option p).
  - intros (p & Hp & Hg & H). exists p. by rewrite Hg.
Qed.

Lemma tables_answer c r ps s t :
  catalog_wf c -> spelled c (TableTarget s t) ->
  existsb (eq_ignore_ascii_case (table_text s t)) (configured_table_privileges c r ps) = true <->
  some_privilege_holds c r (TableTarget s t) ps.
Proof using.
  intros Hwf (-> & Hsp). rewrite existsb_elem. unfold configured_table_privileges.
  change (table_text (lit "main") t) with (canonical_pg_identifier t). split.
  - intros (v & Hv & Hc). apply list_elem_of_fmap in Hv as ([s' t'] & -> & Hv). cbn [fst snd] in *.
    apply list_elem_of_In, filter_In in Hv as [Hin He]. apply list_elem_of_In in Hin. rewrite elem_of_remove_dups in Hin.
    pose proof (configured_main c _ Hwf Hin) as Hs. cbn in Hs. subst s'. change (table_text (lit "main") t') with (canonical_pg_identifier t') in Hc.
    apply eq_ignore_ascii_case_true, canonical_ci in Hc. assert (t' = t) as -> by (apply (Hsp _ Hin); cbn; by symmetry).
    apply existsb_elem in He as (q & Hq & He). apply requested_tables in Hq as (p & Hp & Hg & Hq).
    exists p. split; [done|]. split; [done|]. exists q. split; [done|]. by apply has_table_privilege_authorized.
  - intros (p & Hp & Hg & q & Hq & Ha). destruct (authorized_configured _ _ _ _ _ Ha) as ([s' t'] & Hin & Hc). cbn in Hc.
    assert (t' = t) as -> by (by apply (Hsp _ Hin)). pose proof (configured_main c _ Hwf Hin) as Hs. cbn in Hs. subst s'.
    exists (canonical_pg_identifier t). split; [|apply eq_ignore_ascii_case_refl]. apply list_elem_of_fmap. exists (lit "main", t).
    split; [done|]. apply list_elem_of_In, filter_In. split; [apply list_elem_of_In; by rewrite elem_of_remove_dups|].
    apply existsb_elem. exists q. split; [apply requested_tables; eauto|]. by apply has_table_privilege_authorized.
Qed.

Lemma schemas_answer c r ps s :
  catalog_wf c -> spelled c (SchemaTarget s) ->
  existsb (eq_ignore_ascii_case (target_text (SchemaTarget s))) (configured_schema_privileges c r ps) = true <->
  some_privilege_holds c r (SchemaTarget s) ps.
Proof using.
  intros Hwf Hsp. pose proof (wf_schema_grant c Hwf) as Hmain. rewrite Forall_forall in Hmain.
  assert (Hall : forall v, v ∈ configured_schema_privileges c r ps <->
    v = lit "public" /\ existsb (fun p => bool_decide (privilege_name p = lit "USAGE") && negb (grant_option p)) ps = true /\
    schema_authorized c r (lit "main")).
  { intros v. unfold configured_schema_privileges. rewrite list_elem_of_fmap. split.
    - intros (s' & -> & Hs'). apply list_elem_of_In, filter_In in Hs' as [Hin Hb]. apply list_elem_of_In in Hin.
      rewrite elem_of_remove_dups in Hin. apply list_elem_of_fmap in Hin as (g & -> & Hg). destruct (Hmain g Hg) as (_ & Hs & _).
      rewrite Hs in Hb |- *. apply andb_true_iff in Hb as [Hu Hb]. split_and!; [done..|]. by apply has_schema_privilege_spec in Hb.
    - intros (-> & Hu & Ha). exists (lit "main"). split; [done|]. apply list_elem_of_In, filter_In. split.
      + destruct Ha as (_ & g & Hg & _). apply list_elem_of_In. rewrite elem_of_remove_dups. apply list_elem_of_fmap. exists g.
        by destruct (Hmain g Hg) as (_ & Hs & _).
      + rewrite Hu. by apply has_schema_privilege_spec. }
  rewrite existsb_elem. setoid_rewrite Hall. setoid_rewrite existsb_elem. destruct Hsp as [->|[Hp Hm]].
  - change (target_text (SchemaTarget (lit "main"))) with (lit "public"). split.
    + intros (v & (-> & (p & Hin & Hb) & Ha) & _). apply andb_true_iff in Hb as [Hn%bool_decide_eq_true Hg%negb_true_iff].
      exists p. split; [done|]. split; [done|]. by split.
    + intros (p & Hin & Hg & Hn & Ha). exists (lit "public"). split_and!; try done. exists p. split; [done|].
      by rewrite Hg, bool_decide_eq_true_2.
  - split.
    + intros (v & (-> & _) & Hc). exfalso. unfold target_text in Hc. rewrite bool_decide_eq_false_2 in Hc by (intros ->; by apply Hm).
      apply eq_ignore_ascii_case_true in Hc. change (lit "public") with (canonical_pg_identifier (lit "public")) in Hc.
      by apply canonical_ci in Hc.
    + intros (p & _ & _ & _ & _ & g & Hg & Hc & _). destruct Hm. destruct (Hmain g Hg) as (_ & Hs & _). rewrite Hs in Hc. by symmetry.
Qed.

Lemma role_name_lower n : Forall (fun b => role_name_rest b = true) n -> to_ascii_lowercase n = n.
Proof using.
  induction 1 as [|b n Hb Hn IH]; [done|]. unfold to_ascii_lowercase in *. cbn. rewrite IH. f_equal.
  revert Hb. clear. destruct b; vm_compute; intros H; try discriminate H; done.
Qed.
Lemma roles_answer c r ps n :
  catalog_wf c -> spelled c (RoleTarget n) ->
  existsb (eq_ignore_ascii_case (canonical_pg_identifier n)) (configured_role_privileges c r ps) = true <->
  some_privilege_holds c r (RoleTarget n) ps.
Proof using.
  intros Hwf [[ro Hro] Hp]. unfold canonical_pg_identifier. rewrite Hp, existsb_elem. unfold configured_role_privileges.
  pose proof (wf_role c Hwf) as Hok. rewrite Forall_forall in Hok. apply (wf_index c Hwf) in Hro as [Hro Hrn]. split.
  - intros (v & Hv & Hc). apply list_elem_of_fmap in Hv as (r' & -> & Hv). apply list_elem_of_In, filter_In in Hv as [Hin He].
    apply list_elem_of_In in Hin. apply eq_ignore_ascii_case_true in Hc. unfold ascii_ci in Hc.
    destruct (Hok _ Hin) as ((_ & _ & _ & Hv) & _). destruct (Hok _ Hro) as ((_ & _ & _ & Hv') & _). rewrite Hrn in Hv'.
    rewrite !role_name_lower in Hc by done. subst n. apply existsb_elem in He as (q & Hq & He).
    apply requested_roles in Hq as (p & Hps & Hg & Hq). exists p. split; [done|]. split; [done|]. exists q. split; [done|].
    rewrite Hc. by apply has_role_privilege_rtc.
  - intros (p & Hps & Hg & q & Hq & Ha). exists n. split; [|apply eq_ignore_ascii_case_refl]. apply list_elem_of_fmap. exists ro.
    split; [done|]. apply list_elem_of_In, filter_In. split; [by apply list_elem_of_In|]. apply existsb_elem. exists q.
    split; [apply requested_roles; eauto|]. rewrite Hrn. by apply has_role_privilege_rtc.
Qed.

Definition object_text (kind : PrivilegeInquiryFunction) (object : Expr) : Expr :=
  match kind with
  | InquireSchema => registered_object_text (lit "quackgis_pg_regnamespace") (lit "quackgis_pg_regnamespace_text") object
  | InquireRole => registered_object_text (lit "quackgis_pg_regrole") (lit "quackgis_pg_regrole_text") object
  | _ => registered_object_text (lit "quackgis_pg_regclass") (lit "quackgis_pg_regclass_text") object
  end.
Lemma registered_answer kind r object column ps c target :
  catalog_wf c -> object_of kind target -> spelled c target -> folds_as_ascii (target_text target) ->
  text (object_text kind object) = Some (target_text target) ->
  exists b, (b = true <-> some_privilege_holds c r target ps) /\
    truth (registered_replacement kind r object column ps c) =
      if bool_decide (kind = InquireColumn)
      then kleene_and (Some b) (other_truth (private_function (lit "quackgis_pg_attribute_exists") (object :: option_list column)))
      else Some b.
Proof using.
  intros Hwf Hk Hsp Ha Ht. destruct kind, target; try done; eexists;
    (split; [|cbn [registered_replacement truth]; by rewrite (match_truth _ _ _ Ht Ha)]).
  - by apply schemas_answer.
  - by apply tables_answer.
  - by apply tables_answer.
  - by apply tables_answer.
  - by apply roles_answer.
Qed.
End registered.

(** ** Whole statements *)

Section expr_induction.
Variable P : Expr -> Prop.
Definition P_arg (a : option Expr) : Prop := match a with Some e => P e | None => True end.
Hypothesis P_leaf : forall e, match e with Identifier _ | ValueExpr _ => True | _ => False end -> P e.
Hypothesis P_cast : forall t k e, P e -> P (Cast t k e).
Hypothesis P_nested : forall e, P e -> P (Nested e).
Hypothesis P_binary : forall l op r, P l -> P r -> P (BinaryOp l op r).
Hypothesis P_call : forall h arguments others, Forall P_arg arguments -> Forall P others -> P (FunctionCall h arguments others).
Hypothesis P_other : forall t children, Forall P children -> P (OtherExpr t children).

Fixpoint expr_nested_ind (e : Expr) : P e :=
  let list_ind := fix go (es : list Expr) : Forall P es :=
    match es with [] => List.Forall_nil P | e :: es => List.Forall_cons P e es (expr_nested_ind e) (go es) end in
  let args_ind := fix go (l : list (option Expr)) : Forall P_arg l :=
    match l with
    | [] => List.Forall_nil P_arg
    | Some e :: l => List.Forall_cons P_arg (Some e) l (expr_nested_ind e) (go l)
    | None :: l => List.Forall_cons P_arg None l I (go l)
    end in
  match e with
  | Identifier i => P_leaf (Identifier i) I
  | ValueExpr v => P_leaf (ValueExpr v) I
  | Cast t k e => P_cast t k e (expr_nested_ind e)
  | Nested e => P_nested e (expr_nested_ind e)
  | BinaryOp l op r => P_binary l op r (expr_nested_ind l) (expr_nested_ind r)
  | FunctionCall h a o => P_call h a o (args_ind a) (list_ind o)
  | OtherExpr t cs => P_other t cs (list_ind cs)
  end.
End expr_induction.

(** No inquiry in an expression *)
Fixpoint clean (e : Expr) : bool :=
  negb (is_inquiry e) &&
  match e with
  | Identifier _ | ValueExpr _ => true
  | Cast _ _ e | Nested e => clean e
  | BinaryOp l _ r => clean l && clean r
  | FunctionCall _ arguments others =>
      forallb (fun a => match a with Some e => clean e | None => true end) arguments && forallb clean others
  | OtherExpr _ children => forallb clean children
  end.

Lemma private_clean name arguments :
  privilege_inquiry_name_ends_with [PartIdentifier (mkIdent name None)] = false -> forallb clean arguments = true ->
  clean (private_function name arguments) = true.
Proof.
  intros Hn Ha. unfold private_function. cbn [clean is_inquiry private_head function_name]. rewrite Hn. cbn [negb andb forallb].
  rewrite andb_true_r. induction arguments as [|e es IH]; [done|]. cbn in Ha |- *. apply andb_true_iff in Ha as [-> Ha]. by apply IH.
Qed.
Lemma match_clean resolved allowed : clean resolved = true -> clean (privilege_object_match resolved allowed) = true.
Proof.
  intros H. unfold privilege_object_match. set (n := private_scalar_function _ _).
  assert (Hn : clean n = true) by (apply private_clean; [vm_compute; reflexivity|]; cbn; by rewrite H). clearbody n.
  assert (Hm : forall l first, clean first = true -> clean (foldl (fun l r => BinaryOp l Or r) first (map (compare_name n) l)) = true).
  { induction l as [|v l IH]; intros first Hf; [done|]. cbn [map foldl]. apply IH. cbn. by rewrite Hf, Hn. }
  destruct (dedup (sort_by str_compare allowed)) as [|v l]; cbn [map]; [cbn; by rewrite H|]. apply Hm. cbn. by rewrite Hn.
Qed.
Lemma registered_clean kind r object column ps c :
  clean object = true -> forallb clean (option_list column) = true -> clean (registered_replacement kind r object column ps c) = true.
Proof.
  intros Ho Hc. assert (Ht : forall a b, privilege_inquiry_name_ends_with [PartIdentifier (mkIdent a None)] = false ->
    privilege_inquiry_name_ends_with [PartIdentifier (mkIdent b None)] = false -> clean (registered_object_text a b object) = true).
  { intros a b Ha Hb. unfold registered_object_text, private_scalar_function. apply private_clean; [done|]. cbn [forallb].
    rewrite private_clean; [done|done|]. cbn. by rewrite Ho. }
  destruct kind; cbn [registered_replacement]; try (apply match_clean, Ht; vm_compute; reflexivity).
  cbn [clean is_inquiry negb andb]. rewrite match_clean by (apply Ht; vm_compute; reflexivity).
  rewrite private_clean; [done|vm_compute; reflexivity|]. cbn. by rewrite Ho.
Qed.

Lemma plain_arguments f arguments es : owned_plain_function_arguments f arguments = Some es -> arguments = map Some es.
Proof.
  unfold owned_plain_function_arguments. destruct (_ || _); [done|]. destruct (_ || _); [done|].
  revert es. induction arguments as [|[e|] l IH]; intros es H; [by injection H as <-| |done].
  cbn in H. destruct (mapM id l) as [es'|]; [|done]. injection H as <-. cbn. by rewrite (IH es').
Qed.
Lemma inquiry_arguments_in kind es ex ob col req : inquiry_arguments kind es = Some (ex, ob, col, req) ->
  ob ∈ es /\ (forall e, col = Some e -> e ∈ es).
Proof.
  destruct kind; destruct es as [|a [|b [|c [|d [|]]]]]; try done; intros [= <- <- <- <-]; split; try set_solver.
Qed.
Lemma replacement_clean f arguments identity c enabled e :
  privilege_inquiry_replacement f arguments identity c enabled = Ok e ->
  forallb (fun a => match a with Some e => clean e | None => true end) arguments = true -> clean e = true.
Proof.
  unfold privilege_inquiry_replacement, read_inquiry. intros H Hcl. apply bind_ok in H as (q & Hq & H).
  apply bind_ok in Hq as (kind & _ & Hq). apply bind_ok in Hq as (es & Hes%ok_or_ok & Hq).
  apply bind_ok in Hq as ([[[ex ob] col] req] & Ha%ok_or_ok & Hq). apply bind_ok in Hq as (r & _ & Hq).
  apply bind_ok in Hq as (ps & _ & [= <-]). cbn [inquiry_kind inquiry_role inquiry_object inquiry_column inquiry_privileges] in H.
  destruct enabled; cbn [negb] in H.
  - injection H as <-. apply plain_arguments in Hes as ->. destruct (inquiry_arguments_in _ _ _ _ _ _ Ha) as [Ho Hc].
    rewrite forallb_forall in Hcl. assert (Hin : forall e, e ∈ es -> clean e = true).
    { intros e He. by apply (Hcl (Some e)), in_map, list_elem_of_In. }
    apply registered_clean; [by apply Hin|]. destruct col as [col|]; [|done]. cbn. by rewrite Hin by auto.
  - unfold literal_privilege_inquiry_replacement in H. by apply bind_ok in H as (b & _ & [= <-]).
Qed.

(** *** After rewriting *)

Section rewriting.
Context (enabled : bool) (identity : SessionIdentity) (c : RoleCatalog).
Abbreviation rewrite_all := (visit_expr_mut (rewrite_inquiry enabled identity c)).
Abbreviation rewrite_argument :=
  (fun a => match a with Some e => e ← rewrite_all e; Ok (Some e) | None => Ok None end).
Abbreviation validate_all := (visit_expr (validate_inquiry enabled (Some (identity, c)))).

Lemma rewritten_list es es' : Forall (fun e => forall e', rewrite_all e = Ok e' -> clean e' = true) es ->
  collect rewrite_all es = Ok es' -> forallb clean es' = true.
Proof using.
  intros H Hc%collect_ok. induction Hc as [|e e' es es' He Hes IH]; [done|]. apply Forall_cons_1 in H as [H1 H2].
  cbn. by rewrite (H1 _ He), IH.
Qed.
Lemma rewritten_arguments l l' : Forall (P_arg (fun e => forall e', rewrite_all e = Ok e' -> clean e' = true)) l ->
  collect rewrite_argument l = Ok l' -> forallb (fun a => match a with Some e => clean e | None => true end) l' = true.
Proof using.
  intros H Hc%collect_ok. induction Hc as [|a a' l l' Ha Hl IH]; [done|]. apply Forall_cons_1 in H as [H1 H2].
  cbn. rewrite IH by done. destruct a as [e|]; [|by injection Ha as <-].
  apply bind_ok in Ha as (e' & He & [= <-]). by rewrite (H1 _ He).
Qed.
Lemma rewritten_clean e : forall e', rewrite_all e = Ok e' -> clean e' = true.
Proof using.
  induction e as [e He|t k e IH|e IH|l op r IHl IHr|h arguments others IHa IHo|t children IH] using expr_nested_ind; intros e'.
  - destruct e; try done; intros [= <-]; done.
  - cbn [visit_expr_mut]. intros H. apply bind_ok in H as (x & H & Hf). apply bind_ok in H as (y & H & [= <-]). injection Hf as <-. exact (IH _ H).
  - cbn [visit_expr_mut]. intros H. apply bind_ok in H as (x & H & Hf). apply bind_ok in H as (y & H & [= <-]). injection Hf as <-. exact (IH _ H).
  - cbn [visit_expr_mut]. intros H. apply bind_ok in H as (x & H & Hf). apply bind_ok in H as (l' & Hl & H).
    apply bind_ok in H as (r' & Hr & [= <-]). injection Hf as <-. cbn. by rewrite (IHl _ Hl), (IHr _ Hr).
  - cbn [visit_expr_mut]. intros H. apply bind_ok in H as (x & H & Hf). apply bind_ok in H as (l' & Hl & H).
    apply bind_ok in H as (o' & Ho & [= <-]). apply (rewritten_arguments _ _ IHa) in Hl. apply (rewritten_list _ _ IHo) in Ho.
    cbn [rewrite_inquiry] in Hf. destruct (privilege_inquiry_name_ends_with (function_name h)) eqn:Hi; cbn [negb] in Hf.
    + by eapply replacement_clean.
    + injection Hf as <-. cbn [clean is_inquiry]. by rewrite Hi, Hl, Ho.
  - cbn [visit_expr_mut]. intros H. apply bind_ok in H as (x & H & Hf). apply bind_ok in H as (cs & Hc & [= <-]).
    injection Hf as <-. cbn. by apply (rewritten_list _ _ IH).
Qed.

(** *** Accepted statements are rewritten *)

Lemma literal_stable e s : string_literal e = Some s -> rewrite_all e = Ok e.
Proof using.
  revert s. induction e as [e He|t k e IH|e IH|l op r _ _|h arguments others _ _|t children _] using expr_nested_ind; intros s H; try done.
  - by destruct e.
  - cbn in H |- *. destruct (maintained_text_cast t); [|done]. by rewrite (IH _ H).
  - cbn in H |- *. by rewrite (IH _ H).
Qed.
Lemma role_name_stable e n : inquiry_role_name e identity c = Some n -> rewrite_all e = Ok e.
Proof using.
  revert n. induction e as [e He|t k e IH|e IH|l op r _ _|h arguments others _ _|t children _] using expr_nested_ind; intros n H; try done.
  - by destruct e.
  - cbn in H |- *. by rewrite (IH _ H).
  - cbn in H |- *. by rewrite (IH _ H).
Qed.
Lemma role_stable e p n : resolve_inquiry_role e identity c p = Ok n -> rewrite_all e = Ok e.
Proof using. unfold resolve_inquiry_role. intros H. apply bind_ok in H as (m & H%ok_or_ok & _). by eapply role_name_stable. Qed.

Lemma rewritten_plain f arguments es l' :
  owned_plain_function_arguments f arguments = Some es -> collect rewrite_argument arguments = Ok l' ->
  exists es', owned_plain_function_arguments f l' = Some es' /\ Forall2 (fun e e' => rewrite_all e = Ok e') es es'.
Proof using.
  intros Hp Hc. pose proof (plain_arguments _ _ _ Hp) as ->. unfold owned_plain_function_arguments in *.
  destruct (_ || _); [done|]. destruct (_ || _); [done|]. clear Hp. apply collect_ok in Hc. revert l' Hc.
  induction es as [|e es IH]; intros l' Hc; cbn [map] in Hc.
  - inversion Hc; subst. by exists [].
  - inversion Hc as [|x y xs ys Hx Hxs]; subst. apply bind_ok in Hx as (e' & He & [= <-]). destruct (IH _ Hxs) as (es' & Hes & Hf).
    exists (e' :: es'). split; [|by constructor]. cbn in Hes |- *. by rewrite Hes.
Qed.
Lemma rewritten_inquiry_arguments kind es es' ex ob col req :
  Forall2 (fun e e' => rewrite_all e = Ok e') es es' -> inquiry_arguments kind es = Some (ex, ob, col, req) ->
  exists ex' ob' col' req', inquiry_arguments kind es' = Some (ex', ob', col', req') /\
    option_Forall2 (fun e e' => rewrite_all e = Ok e') ex ex' /\ rewrite_all ob = Ok ob' /\
    option_Forall2 (fun e e' => rewrite_all e = Ok e') col col' /\ rewrite_all req = Ok req'.
Proof using.
  intros H Hi. destruct kind, es as [|a [|b [|x [|d [|? ?]]]]]; try discriminate Hi; injection Hi as <- <- <- <-;
    repeat match goal with
           | H : Forall2 _ (_ :: _) _ |- _ => apply Forall2_cons_inv_l in H as (? & ? & ? & ? & ->)
           | H : Forall2 _ [] _ |- _ => apply Forall2_nil_inv_l in H as ->
           end;
    eexists _, _, _, _; (split; [reflexivity|]); split_and!; first [assumption|constructor; assumption|constructor].
Qed.

Lemma read_rewritten f arguments l' q :
  read_inquiry f arguments identity c = Ok q -> collect rewrite_argument arguments = Ok l' ->
  exists ob' col', rewrite_all (inquiry_object q) = Ok ob' /\ option_Forall2 (fun e e' => rewrite_all e = Ok e') (inquiry_column q) col' /\
    read_inquiry f l' identity c = Ok (mkInquiry (inquiry_kind q) (inquiry_role q) ob' col' (inquiry_privileges q)).
Proof using.
  unfold read_inquiry. intros Hq Hc. apply bind_ok in Hq as (kind & Hk & Hq). rewrite Hk. cbn [mbind result_bind].
  apply bind_ok in Hq as (es & Hes%ok_or_ok & Hq). destruct (rewritten_plain _ _ _ _ Hes Hc) as (es' & -> & Hf). cbn [ok_or mbind result_bind].
  apply bind_ok in Hq as ([[[ex ob] col] req] & Ha%ok_or_ok & Hq).
  destruct (rewritten_inquiry_arguments _ _ _ _ _ _ _ Hf Ha) as (ex' & ob' & col' & req' & -> & Hex & Hob & Hcol & Hreq).
  cbn [ok_or mbind result_bind]. apply bind_ok in Hq as (r & Hr & Hq). apply bind_ok in Hq as (ps & Hps & [= <-]).
  exists ob', col'. cbn [inquiry_object inquiry_column inquiry_kind inquiry_role inquiry_privileges]. split; [done|]. split; [done|].
  assert (Hrole : match ex' with Some e => resolve_inquiry_role e identity c (negb (bool_decide (kind = InquireRole)))
    | None => Ok (identity_current_user identity) end = Ok r).
  { destruct Hex as [e e' He|]; [|done]. rewrite (role_stable _ _ _ Hr) in He. by injection He as <-. }
  rewrite Hrole. cbn [mbind result_bind]. assert (req' = req) as ->.
  { unfold parse_requested_privileges in Hps. apply bind_ok in Hps as (raw & Hraw%ok_or_ok & _). rewrite (literal_stable _ _ Hraw) in Hreq.
    by injection Hreq as <-. }
  by rewrite Hps.
Qed.
Lemma replacement_rewritten f arguments l' e :
  privilege_inquiry_replacement f arguments identity c enabled = Ok e -> collect rewrite_argument arguments = Ok l' ->
  exists e', privilege_inquiry_replacement f l' identity c enabled = Ok e'.
Proof using.
  unfold privilege_inquiry_replacement. intros H Hc. apply bind_ok in H as (q & Hq & H).
  destruct (read_rewritten _ _ _ _ Hq Hc) as (ob' & col' & Hob & Hcol & ->). cbn [mbind result_bind]. revert H Hob Hcol.
  cbn [inquiry_object inquiry_column inquiry_kind inquiry_role inquiry_privileges]. generalize rewrite_all, literal_stable, role_stable.
  intros rw Hlit Hrole H Hob Hcol. destruct enabled; cbn [negb] in H |- *; [by eexists|].
  assert (Hsame : ob' = inquiry_object q /\ (inquiry_kind q <> InquireSchema -> inquiry_kind q <> InquireRole -> col' = inquiry_column q)).
  { unfold literal_privilege_inquiry_replacement in H. apply bind_ok in H as (b & H & _).
    assert (Hobj : forall s, string_literal (inquiry_object q) = Some s -> ob' = inquiry_object q).
    { intros s Hs. rewrite (Hlit _ _ Hs) in Hob. by injection Hob as <-. }
    assert (Hcolumn : forall s, ok_or (match inquiry_column q with Some x => string_literal x ≫= single_name | None => Some [] end)
      identity_required_for_dynamic_privilege = Ok s -> col' = inquiry_column q).
    { intros s Hs%ok_or_ok. destruct Hcol as [x x' Hx|]; [|done]. destruct (string_literal x) as [raw|] eqn:Hr; [|done].
      rewrite (Hlit _ _ Hr) in Hx. by injection Hx as <-. }
    destruct (inquiry_kind q).
    2-4: (apply bind_ok in H as ([s t] & Hs%ok_or_ok & H); apply bind_ok in H as (x & Hx & _);
      split; [destruct (string_literal (inquiry_object q)); [by eapply Hobj|done]|]; intros _ _; apply (Hcolumn x);
      by destruct (inquiry_column q)).
    - apply bind_ok in H as (s & Hs%ok_or_ok & _). split; [|done]. destruct (string_literal (inquiry_object q)); [by eapply Hobj|done].
    - apply bind_ok in H as (n & Hn & _). split; [|done]. rewrite (Hrole _ _ _ Hn) in Hob. by injection Hob as <-. }
  destruct Hsame as [-> Hc2]. exists e. unfold literal_privilege_inquiry_replacement in H |- *.
  destruct (inquiry_kind q); try exact H; rewrite Hc2 by done; exact H.
Qed.

Lemma validated_list {A B} (f : A -> result PgWireError unit) (g : A -> result PgWireError B) l us :
  Forall (fun a => f a = Ok tt -> exists b, g a = Ok b) l -> collect f l = Ok us -> exists bs, collect g l = Ok bs.
Proof using.
  intros H Hc%collect_ok. induction Hc as [|a [] l us Ha Hl IH]; [by exists []|]. apply Forall_cons_1 in H as [H1 H2].
  destruct (H1 Ha) as [b Hb]. destruct (IH H2) as [bs Hbs]. exists (b :: bs). cbn. by rewrite Hb, Hbs.
Qed.
Lemma validated_rewritten e : validate_all e = Ok tt -> exists e', rewrite_all e = Ok e'.
Proof using.
  induction e as [e He|t k e IH|e IH|l op r IHl IHr|h arguments others IHa IHo|t children IH] using expr_nested_ind.
  - intros _. exists e. by destruct e.
  - cbn. intros H. destruct (IH H) as [e' ->]. by eexists.
  - cbn. intros H. destruct (IH H) as [e' ->]. by eexists.
  - cbn. intros H. apply bind_ok in H as ([] & Hl & Hr). destruct (IHl Hl) as [l' ->]. destruct (IHr Hr) as [r' ->]. by eexists.
  - cbn [visit_expr visit_expr_mut]. intros H. apply bind_ok in H as ([] & Hf & H). apply bind_ok in H as (us & Ha & H).
    apply bind_ok in H as (vs & Ho & _). destruct (validated_list _ rewrite_all _ _ IHo Ho) as [others' Ho'].
    assert (exists arguments', collect rewrite_argument arguments = Ok arguments') as [arguments' Ha'].
    { eapply validated_list; [|exact Ha]. eapply Forall_impl; [exact IHa|]. intros [e|] He; [|by exists None]. intros Hv. destruct (He Hv) as [e' ->]. by exists (Some e'). }
    rewrite Ha', Ho'. cbn [mbind result_bind rewrite_inquiry]. cbn [validate_inquiry] in Hf.
    destruct (privilege_inquiry_name_ends_with (function_name h)); cbn [negb] in Hf |- *; [|by eexists].
    apply bind_ok in Hf as (e & Hf & _). by eapply replacement_rewritten.
  - cbn [visit_expr visit_expr_mut]. intros H. apply bind_ok in H as ([] & _ & H). apply bind_ok in H as (us & Hc & _).
    destruct (validated_list _ rewrite_all _ _ IH Hc) as [cs ->]. by eexists.
Qed.
End rewriting.

(** Without a role configuration only statements without inquiries are accepted. *)
Lemma validated_clean enabled e : visit_expr (validate_inquiry enabled None) e = Ok tt -> clean e = true.
Proof.
  assert (Hlist : forall A (g : A -> bool) (f : A -> result PgWireError unit) l us,
    Forall (fun a => f a = Ok tt -> g a = true) l -> collect f l = Ok us -> forallb g l = true).
  { intros A g f l us H Hc%collect_ok. induction Hc as [|a [] l us Ha Hl IH]; [done|]. apply Forall_cons_1 in H as [H1 H2].
    cbn. by rewrite (H1 Ha), IH. }
  induction e as [e He|t k e IH|e IH|l op r IHl IHr|h arguments others IHa IHo|t children IH] using expr_nested_ind.
  - by destruct e.
  - exact IH.
  - exact IH.
  - cbn. intros H. apply bind_ok in H as ([] & Hl & Hr). by rewrite IHl, IHr.
  - cbn [visit_expr]. intros H. apply bind_ok in H as ([] & Hf & H). apply bind_ok in H as (us & Ha & H). apply bind_ok in H as (vs & Ho & _).
    cbn [validate_inquiry] in Hf. cbn [clean is_inquiry]. destruct (privilege_inquiry_name_ends_with (function_name h)); [done|].
    rewrite (Hlist _ _ _ _ _ IHo Ho). cbn [negb andb]. rewrite andb_true_r. eapply Hlist; [|exact Ha].
    eapply Forall_impl; [exact IHa|]. by intros [e|].
  - cbn [visit_expr]. intros H. apply bind_ok in H as ([] & _ & H). apply bind_ok in H as (us & Hc & _). by eapply Hlist.
Qed.

(** ** Results *)

(** C9: An inquiry about a named object is answered as the role catalog decides: the call
    becomes TRUE exactly when the role it asks about (the current user, or the role it names)
    has one of the listed privileges on the object its name literal stands for, without its
    grant option. *)
Theorem literal_inquiry_iff f arguments identity c e :
  privilege_inquiry_replacement f arguments identity c false = Ok e ->
  exists q target b, read_inquiry f arguments identity c = Ok q /\ literal_target q identity c = Some target /\
    e = ValueExpr (Boolean b) /\ (b = true <-> some_privilege_holds c (inquiry_role q) target (inquiry_privileges q)).
Proof.
  unfold privilege_inquiry_replacement. intros H. apply bind_ok in H as (q & Hq & H).
  destruct (literal_answer q identity c e H) as (target & b & Ht & He & Hb). by exists q, target, b.
Qed.

(** C10: With a catalog identity the expression a call becomes has the same value: TRUE exactly
    when the role has one of the privileges on the object whose registered name is compared, and
    otherwise FALSE, for objects that the role configuration spells as they are registered and whose
    registered name has in the database the lower case that folds ASCII letters only, as every name in
    ASCII has (of other names a held privilege may be denied: other_spelling_denied and
    other_letters_denied).  A column inquiry holds in addition only if the column exists. *)
Theorem registered_inquiry_iff {texts : SqlTexts} f arguments identity c e q target :
  catalog_wf c -> privilege_inquiry_replacement f arguments identity c true = Ok e ->
  read_inquiry f arguments identity c = Ok q -> object_of (inquiry_kind q) target -> spelled c target ->
  folds_as_ascii (target_text target) ->
  text (object_text (inquiry_kind q) (inquiry_object q)) = Some (target_text target) ->
  exists b, (b = true <-> some_privilege_holds c (inquiry_role q) target (inquiry_privileges q)) /\
    truth e = if bool_decide (inquiry_kind q = InquireColumn)
              then kleene_and (Some b) (other_truth (private_function (lit "quackgis_pg_attribute_exists")
                                                        (inquiry_object q :: option_list (inquiry_column q))))
              else Some b.
Proof.
  intros Hwf H Hq Hk Hs Hf Ht. unfold privilege_inquiry_replacement in H. rewrite Hq in H. injection H as <-. by apply registered_answer.
Qed.

(** C6: A statement that was accepted is rewritten, and no inquiry is left in it: every call,
    however nested, was answered from the role catalog.  Without a role configuration only
    statements without inquiries are accepted. *)
Theorem inquiries_rewritten s enabled identity c :
  (validate_privilege_inquiry s enabled (Some (identity, c)) = Ok tt ->
   exists s', rewrite_privilege_inquiry s identity c enabled = Ok s' /\ statement_shape s' = statement_shape s /\
     forallb clean (expressions s') = true) /\
  (validate_privilege_inquiry s enabled None = Ok tt -> forallb clean (expressions s) = true).
Proof.
  unfold validate_privilege_inquiry, rewrite_privilege_inquiry. split; intros H; apply bind_ok in H as (us & H & _).
  - eapply (validated_list _ (visit_expr_mut (rewrite_inquiry enabled identity c))) in H as [es Hes].
    + rewrite Hes. eexists. split_and!; [done..|]. cbn. eapply rewritten_list; [|exact Hes]. apply Forall_forall. intros e _. apply rewritten_clean.
    + apply Forall_forall. intros e _. apply validated_rewritten.
  - apply collect_ok in H. induction H as [|e [] es us He Hes IH]; [done|]. cbn. by rewrite (validated_clean _ _ He), IH.
Qed.

(** Printed names are read back: a name, or two separated by a dot, that are quoted where
    [canonical_pg_identifier] quotes them, are the names [parse_pg_qualified_name] returns. *)
Theorem qualified_name_round_trip s t cs ds :
  utf8_decode s = Some cs -> utf8_decode t = Some ds -> s <> [] -> t <> [] ->
  parse_pg_qualified_name (canonical_pg_identifier s) = Some [s] /\
  parse_pg_qualified_name (canonical_pg_identifier s ++ lit "." ++ canonical_pg_identifier t) = Some [s; t].
Proof. intros Hs Ht Hns Hnt. split; [by eapply single_name_read|by eapply two_names_read]. Qed.

(** *** Examples *)

Module Example.
Definition literal (s : string) : Expr := ValueExpr (SingleQuotedString (lit s)).
Definition call (name : string) (arguments : list Expr) : Expr :=
  FunctionCall (private_head (lit name)) (map Some arguments) [].
Definition arguments : list Expr := [literal "alice"; literal "roads"; literal "insert, select with grant option"].
Definition asked : list (option Expr) := map Some arguments.
Definition alice : SessionIdentity := mkSessionIdentity (lit "alice") (lit "alice") 0 ∅.
Definition head : FunctionHead := private_head (lit "has_table_privilege").

Lemma asked_answer : privilege_inquiry_replacement head asked alice sample_catalog false = Ok (ValueExpr (Boolean true)).
Proof. vm_compute. reflexivity. Qed.
Lemma literal_inquiry_iff_witness :
  exists q target b, read_inquiry head asked alice sample_catalog = Ok q /\ literal_target q alice sample_catalog = Some target /\
    ValueExpr (Boolean true) = ValueExpr (Boolean b) /\
    (b = true <-> some_privilege_holds sample_catalog (inquiry_role q) target (inquiry_privileges q)).
Proof. exact (literal_inquiry_iff head asked alice sample_catalog (ValueExpr (Boolean true)) asked_answer). Defined.

(** A database that registers the table as [roads] *)
#[export] Instance texts : SqlTexts := {
  lower := to_ascii_lowercase; lower_ascii s _ := eq_refl; other_text _ := Some (lit "roads"); other_truth _ := None }.
Definition inquiry : Inquiry :=
  mkInquiry InquireTable (lit "alice") (literal "roads") None
    [mkRequestedPrivilege (lit "INSERT") false; mkRequestedPrivilege (lit "SELECT") true].
Lemma asked_read : read_inquiry head asked alice sample_catalog = Ok inquiry.
Proof. vm_compute. reflexivity. Qed.
Lemma asked_registered : privilege_inquiry_replacement head asked alice sample_catalog true =
  Ok (registered_replacement InquireTable (lit "alice") (literal "roads") None (inquiry_privileges inquiry) sample_catalog).
Proof. vm_compute. reflexivity. Qed.
Lemma sample_wf : catalog_wf sample_catalog.
Proof. exact (try_from_wf sample_document sample_catalog sample_catalog_ok). Qed.
Lemma sample_tables : configured_tables sample_catalog = [(lit "main", lit "Places"); (lit "main", lit "roads")].
Proof. vm_compute. reflexivity. Qed.
Lemma roads_spelled : spelled sample_catalog (TableTarget (lit "main") (lit "roads")).
Proof.
  split; [done|]. rewrite sample_tables. intros o Ho Hc.
  apply elem_of_cons in Ho as [->|Ho]; [vm_compute in Hc; discriminate Hc|]. by apply list_elem_of_singleton in Ho as ->.
Qed.
Lemma registered_inquiry_iff_witness :
  exists b, (b = true <-> some_privilege_holds sample_catalog (lit "alice") (TableTarget (lit "main") (lit "roads")) (inquiry_privileges inquiry)) /\
    truth (registered_replacement InquireTable (lit "alice") (literal "roads") None (inquiry_privileges inquiry) sample_catalog) = Some b.
Proof.
  apply (registered_inquiry_iff head asked alice sample_catalog _ inquiry (TableTarget (lit "main") (lit "roads")) sample_wf asked_registered asked_read).
  - exact I.
  - exact roads_spelled.
  - reflexivity.
  - reflexivity.
Defined.

(** [SELECT has_table_privilege('roads', 'SELECT') OR pg_has_role('editors', 'USAGE')] *)
Definition statement : Statement :=
  mkStatement (lit "SELECT ?") [BinaryOp (call "has_table_privilege" [literal "roads"; literal "SELECT"]) Or
                                         (call "pg_has_role" [literal "editors"; literal "USAGE"])].
Lemma accepted : validate_privilege_inquiry statement false (Some (alice, sample_catalog)) = Ok tt.
Proof. vm_compute. reflexivity. Qed.
Lemma inquiries_rewritten_witness :
  exists s', rewrite_privilege_inquiry statement alice sample_catalog false = Ok s' /\ statement_shape s' = lit "SELECT ?" /\
    forallb clean (expressions s') = true.
Proof. exact (proj1 (inquiries_rewritten statement false alice sample_catalog) accepted). Defined.

Lemma qualified_name_round_trip_witness :
  parse_pg_qualified_name (canonical_pg_identifier (lit "Places")) = Some [lit "Places"] /\
  parse_pg_qualified_name (canonical_pg_identifier (lit "Places") ++ lit "." ++ canonical_pg_identifier (lit "roads")) = Some [lit "Places"; lit "roads"].
Proof. by apply (qualified_name_round_trip (lit "Places") (lit "roads") (map bz (lit "Places")) (map bz (lit "roads"))). Defined.

(** A grant on [Places] covers the table registered as [places], but the comparison of registered
    names says that the role does not have the privilege. *)
Definition lower_places : SqlTexts := {|
  lower := to_ascii_lowercase; lower_ascii s _ := eq_refl; other_text _ := Some (lit "places"); other_truth _ := None |}.
Theorem other_spelling_denied :
  has_table_privilege sample_catalog (lit "editors") (lit "main") (lit "places") TableSelect = true /\
  @truth lower_places (registered_replacement InquireTable (lit "editors") (literal "places") None
    [mkRequestedPrivilege (lit "SELECT") false] sample_catalog) = Some false.
Proof. split; vm_compute; reflexivity. Qed.

(** So it is with a table whose name has a capital letter outside ASCII, although the configuration
    spells it as it is registered: the database lowers that letter, the server does not. *)
Definition ete_document : RoleConfigDocument :=
  mkRoleConfigDocument [mkRoleConfig 100 (lit "alice") true true] [] [mkTableOwnerConfig (lit "Été") (lit "alice")]
    [mkSchemaGrantConfig (lit "public") (lit "PUBLIC") [CfgSchemaUsage]] [].
Definition ete_catalog : RoleCatalog :=
  match try_from ete_document with Ok c => c | Err _ => mkRoleCatalog [] [] [] [] [] ∅ end.
Definition quoted_ete : str := canonical_pg_identifier (lit "Été").
Lemma lower_ete_ascii s : Forall (fun b => bz b < 128) s ->
  (if bool_decide (s = quoted_ete) then canonical_pg_identifier (lit "été") else to_ascii_lowercase s) = to_ascii_lowercase s.
Proof.
  intros Hs. case_bool_decide as He; [|done]. exfalso. subst s. rewrite Forall_forall in Hs.
  assert (existsb (fun b => 128 <=? bz b) quoted_ete = true) as (b & Hin & Hb)%existsb_elem by (vm_compute; reflexivity).
  specialize (Hs b Hin). lia.
Qed.
Definition lower_ete : SqlTexts := {|
  lower s := if bool_decide (s = quoted_ete) then canonical_pg_identifier (lit "été") else to_ascii_lowercase s;
  lower_ascii := lower_ete_ascii; other_text _ := Some quoted_ete; other_truth _ := None |}.
Theorem other_letters_denied :
  try_from ete_document = Ok ete_catalog /\ quoted_ete = target_text (TableTarget (lit "main") (lit "Été")) /\
  has_table_privilege ete_catalog (lit "alice") (lit "main") (lit "Été") TableSelect = true /\
  @truth lower_ete (registered_replacement InquireTable (lit "alice") (literal "Été") None
    [mkRequestedPrivilege (lit "SELECT") false] ete_catalog) = Some false.
Proof. split_and!; vm_compute; reflexivity. Qed.
End Example.
