(* ===== verification/SessionCommands.v ===== *)
(** * Statements of a client session ([quackgis-server/src/pgwire_server/duckdb.rs])

    A statement is validated before anything else happens to it: it is classified, and SET,
    RESET, SHOW, CALL, COPY and [set_config] are read into commands.  The parser and its syntax
    tree are [sqlparser]'s; a [Statement] keeps what the code here and the statement policy look
    at.  The passes that emulate the PostgreSQL catalog are arguments of the validation: one
    that respells and refuses statements, one that refuses others, and one that gives the text
    the engine runs. *)

From S2P Require Import Prelude RoleCatalog RoleSession Auth StatementPolicy Storage SpatialRewrite PrivilegeInquiry Cursors SqlSyntax.
#[local] Open Scope Z_scope.

(** ** Syntax *)

Inductive ContextModifier := ModifierLocal | ModifierSession | ModifierGlobal.
(** An assigned value is kept with the text it prints as. *)
Inductive Set_ :=
  | SetRole (context_modifier : option ContextModifier) (role_name : option Ident)
  | SingleAssignment (scope : option ContextModifier) (hivevar : bool) (variable : ObjectName) (values : list (Expr * str))
  | OtherSet.
Inductive ResetTarget := ConfigurationParameter (name : ObjectName) | ResetAll.
Inductive TransactionMode := ReadOnlyAccess | OtherMode.
Inductive SelectItem := UnnamedExpr (e : Expr) | ExprWithAlias (e : Expr) (alias : Ident) | OtherItem.
(** The parts of a query and of its SELECT beside the projection *)
Inductive QueryFeature :=
  | With | OrderBy | Limit | FetchRows | Locks | ForClause | Settings | FormatClause | PipeOperators
  | OptimizerHints | Distinct | SelectModifiers | Top | TopBeforeDistinct | Exclude | Into | From | LateralViews | Prewhere
  | Selection | ConnectBy | GroupBy | ClusterBy | DistributeBy | SortBy | Having | NamedWindow | Qualify
  | WindowBeforeQualify | ValueTableMode | OtherFlavor.
#[export] Instance query_feature_eq_dec : EqDecision QueryFeature.
Proof. solve_decision. Defined.
Record Select := mkSelect { projection : list SelectItem; features : list QueryFeature }.

(** The second part of some statements is what [StatementPolicy] looks at. *)
Inductive Statement :=
  | Query (select : option Select) (query : StatementPolicy.Query)
  | CreateTable (name : StatementPolicy.ObjectName)
  | Comment (object_type : CommentObject) (name : StatementPolicy.ObjectName)
  | Insert (table : TableObject) (source : option StatementPolicy.Query)
  | Update (table : TableWithJoins) (visited : list StatementPolicy.Expr)
  | Delete (from : list TableWithJoins) (using_ : bool) (tables : list StatementPolicy.ObjectName)
  | Drop (object_type : ObjectType) (names : list StatementPolicy.ObjectName) (cascade restrict purge temporary has_table : bool)
  | StartTransaction (modes : list TransactionMode) (modifier : bool) (statements : list StatementPolicy.Statement)
      (exception has_end_keyword : bool)
  | Commit (chain end_ modifier : bool)
  | Rollback (chain savepoint : bool)
  | SetStatement (s : Set_)
  | Reset (r : ResetTarget)
  | ShowVariable (variable : list Ident)
  | Call (f : FunctionHead) (arguments : list (option Expr))
  | CopyStatement (table : option (ObjectName * list Ident)) (to stdin : bool) (options legacy_options values : nat)
  | DeclareStatement (stmts : list Declaration)
  | FetchStatement (name : Cursors.Ident) (direction : FetchDirection) (into : option StatementPolicy.ObjectName)
  | CloseStatement (cursor : option Cursors.Ident)
  | OtherStatement (s : StatementPolicy.Statement).

(** The statement as [StatementPolicy] and as [Cursors] see it *)
Definition policy_statement (s : Statement) : StatementPolicy.Statement :=
  match s with
  | Query _ q => StQuery q
  | CreateTable name => StCreateTable name
  | Comment t name => StComment t name
  | Insert table source => StInsert table source
  | Update table visited => StUpdate table visited
  | Delete from using_ tables => StDelete from using_ tables
  | Drop t names c r p m h => StDrop t names c r p m h
  | StartTransaction _ _ statements _ _ => StStartTransaction statements
  | Commit _ _ _ => StCommit
  | Rollback _ _ => StRollback
  | SetStatement _ => StSet
  | Reset _ => StReset
  | ShowVariable _ => StShowVariable
  | Call _ _ => StOther
  | CopyStatement _ to _ _ _ _ => StCopy to
  | DeclareStatement _ => StDeclare
  | FetchStatement _ _ into => StFetch into
  | CloseStatement _ => StClose
  | OtherStatement s => s
  end.
Definition is_read_only (m : TransactionMode) : bool := match m with ReadOnlyAccess => true | OtherMode => false end.
Definition cursor_statement (s : Statement) : CursorStatement :=
  match s with
  | DeclareStatement stmts => StmtDeclare stmts
  | FetchStatement name direction into => StmtFetch name direction (negb (is_none into))
  | CloseStatement cursor => StmtClose cursor
  | Commit chain end_ modifier => StmtCommit chain end_ modifier
  | Rollback chain savepoint => StmtRollback chain savepoint
  | StartTransaction modes modifier statements exception has_end_keyword =>
      StmtBegin (map is_read_only modes)
        (negb (modifier || negb (bool_decide (length statements = 0%nat)) || exception || has_end_keyword))
  | _ => StmtOther
  end.

(** ** Commands *)

Inductive StatementKind :=
  | KindRead | KindWrite (command : string) | KindBegin (read_only : bool) | KindCommit | KindRollback | KindSessionSet
  | KindRole | KindRequestContext | KindMaintenance | KindCopy | KindSqlCursor.
#[export] Instance statement_kind_eq_dec : EqDecision StatementKind.
Proof. solve_decision. Defined.
Inductive ProtocolMode := Simple | Extended.
Record CopyTarget := mkCopyTarget { copy_table : EngineTableRef; copy_columns : list str }.
Inductive RoleCommand := RoleSet (role : option str) (local : bool) | RoleReset.
Inductive RequestContextValue := LiteralValue (value : str) | BoundParameter.
Record RequestContextCommand := mkRequestContextCommand {
  request_name : str;
  request_value : RequestContextValue;
  result_name : str }.
Record MaintenanceCommand := mkMaintenanceCommand {
  maintained_schema : str;
  maintained_table : str;
  max_compacted_files : option Z;
  max_file_size : option Z;
  min_file_size : option Z }.

(** [RoleCommand::tag] *)
Definition role_tag (r : RoleCommand) : string := match r with RoleSet _ _ => "SET" | RoleReset => "RESET" end.

(** [normalize_sql] *)
Definition normalize_sql (sql : str) : result PgWireError str :=
  let sql := trim sql in
  _ ← ensure (negb (bool_decide (sql = []))) (UserError "42601");
  Ok (trim (default sql (strip_suffix (lit ";") sql))).

(** [object_name_values] *)
Definition object_name_values (name : ObjectName) : option (list str) :=
  mapM (fun part => match part with PartIdentifier i => Some (ident_value i) | PartFunction _ => None end) name.

(** [supported_session_set] *)
Definition trim_apostrophes (s : str) : str := trim_matches (fun b => bool_decide (b = x27)) s.
Definition supported_session_set (s : Set_) : bool :=
  match s with
  | SingleAssignment None false variable [(e, text)] =>
      match object_name_values variable with
      | Some [name] =>
          let name := to_ascii_lowercase name in
          let value := to_ascii_lowercase (trim_apostrophes text) in
          if bool_decide (name = lit "standard_conforming_strings") then bool_decide (value = lit "on")
          else if bool_decide (name = lit "client_encoding") then bool_decide (value ∈ [lit "utf8"; lit "unicode"])
          else if bool_decide (name = lit "client_min_messages")
               then bool_decide (value ∈ [lit "error"; lit "warning"; lit "notice"])
          else if bool_decide (name = lit "extra_float_digits") then bool_decide (value = lit "3")
          else if bool_decide (name = lit "datestyle") then bool_decide (value = lit "iso")
          else if bool_decide (name = lit "application_name")
               then match e with
                    | ValueExpr (SingleQuotedString v) => (len v <=? 64) && negb (existsb is_control (chars v))
                    | _ => false
                    end
          else false
      | _ => false
      end
  | _ => false
  end.

(** [parse_role_command] *)
Definition role_identifier (i : Ident) : str :=
  match quote_style i with Some _ => ident_value i | None => to_ascii_lowercase (ident_value i) end.
Definition parse_role_command (s : Statement) : option RoleCommand :=
  match s with
  | SetStatement (SetRole (Some ModifierGlobal) _) => None
  | SetStatement (SetRole modifier role_name) =>
      Some (RoleSet (role_identifier <$> role_name) (match modifier with Some ModifierLocal => true | _ => false end))
  | Reset (ConfigurationParameter [PartIdentifier role]) =>
      if pg_identifier_matches role (lit "role") then Some RoleReset else None
  | _ => None
  end.

(** [pg_function_name_matches], [plain_function_arguments] and [string_literal_expression] *)
Definition pg_function_name_matches (name : ObjectName) (expected : str) : bool :=
  match name with
  | [PartIdentifier f] => pg_identifier_matches f expected
  | [PartIdentifier schema; PartIdentifier f] =>
      pg_identifier_matches schema (lit "pg_catalog") && pg_identifier_matches f expected
  | _ => false
  end.
Definition string_literal_expression (e : Expr) : option str :=
  match e with ValueExpr (SingleQuotedString s) => Some s | _ => None end.

(** [request_context_query_shape] *)
Definition request_context_query_shape (s : Select) : bool :=
  bool_decide (features s = []) && bool_decide (length (projection s) = 1%nat).

(** [parse_request_context_command] *)
Definition item_function (i : SelectItem) : option (FunctionHead * list (option Expr) * str) :=
  match i with
  | UnnamedExpr (FunctionCall f arguments _) => Some (f, arguments, lit "set_config")
  | ExprWithAlias (FunctionCall f arguments _) alias => Some (f, arguments, ident_value alias)
  | _ => None
  end.
Definition request_value_of (e : Expr) : result PgWireError RequestContextValue :=
  match e with
  | ValueExpr (SingleQuotedString s) => Ok (LiteralValue s)
  | ValueExpr (Placeholder p) => if bool_decide (p = lit "$1") then Ok BoundParameter else Err (UserError "0A000")
  | _ => Err (UserError "0A000")
  end.
Definition parse_request_context_command (s : Statement) : result PgWireError (option RequestContextCommand) :=
  match s with
  | Query (Some select) _ =>
      match head (projection select) ≫= item_function with
      | Some (f, arguments, name) =>
          if negb (pg_function_name_matches (function_name f) (lit "set_config")) then Ok None
          else
            _ ← ensure (request_context_query_shape select) (UserError "0A000");
            _ ← ensure (negb ((63 <? len name) || existsb is_control (chars name))) (UserError "42601");
            arguments ← ok_or (owned_plain_function_arguments f arguments) (UserError "0A000");
            match arguments with
            | [setting; value; local] =>
                setting ← ok_or (string_literal_expression setting) (UserError "42501");
                _ ← ensure (bool_decide (setting = REQUEST_JWT_CLAIMS)) (UserError "42501");
                _ ← match local with ValueExpr (Boolean true) => Ok tt | _ => Err (UserError "0A000") end;
                value ← request_value_of value;
                Ok (Some (mkRequestContextCommand setting value name))
            | _ => Err (UserError "42601")
            end
      | None => Ok None
      end
  | _ => Ok None
  end.

(** [parse_maintenance_call] *)
Definition parse_u64 (s : str) : option Z :=
  z ← match s with x2b :: r => parse_decimal_digits r | _ => parse_decimal_digits s end;
  if z <=? u64_max then Some z else None.
Definition maintenance_string (e : option Expr) : result PgWireError str :=
  match e with
  | Some (ValueExpr (SingleQuotedString v)) =>
      _ ← ensure (negb (bool_decide (v = []) || (128 <? len v) || existsb is_control (chars v))) (UserError "22023");
      Ok v
  | _ => Err (UserError "42601")
  end.
Definition maintenance_limit (e : option Expr) : result PgWireError (option Z) :=
  match e with
  | Some (ValueExpr Null) => Ok None
  | Some (ValueExpr (Number text false)) =>
      match parse_u64 text with
      | Some z => if 0 <? z then Ok (Some z) else Err (UserError "22023")
      | None => Err (UserError "22023")
      end
  | _ => Err (UserError "42601")
  end.
Definition parse_maintenance_call (s : Statement) : result PgWireError (option MaintenanceCommand) :=
  match s with
  | Call f arguments =>
      name ← ok_or (object_name_values (function_name f)) (UserError "0A000");
      match name with
      | [name] =>
          if negb (eq_ignore_ascii_case name (lit "quackgis_merge_adjacent_files")) then Ok None
          else
            _ ← ensure (negb (uses_odbc_syntax f || has_parameters f || has_filter f || has_null_treatment f
                              || has_over f || has_within_group f)) (UserError "0A000");
            _ ← ensure (args_listed f && negb (args_modified f)) (UserError "42601");
            match arguments with
            | [schema; table; files; max_size; min_size] =>
                schema ← maintenance_string schema;
                _ ← ensure (eq_ignore_ascii_case schema (lit "main") || eq_ignore_ascii_case schema (lit "public"))
                      (UserError "0A000");
                table ← maintenance_string table;
                files ← maintenance_limit files;
                max_size ← maintenance_limit max_size;
                min_size ← maintenance_limit min_size;
                Ok (Some (mkMaintenanceCommand (lit "main") table files max_size min_size))
            | _ => Err (UserError "42601")
            end
      | _ => Ok None
      end
  | _ => Ok None
  end.

(** [supported_show_variable], and the text of SHOW *)
Inductive SessionVariable := SearchPath | ClientEncoding | StandardConformingStrings | ServerVersion | ServerVersionNum.
Definition session_variables : list (str * SessionVariable) :=
  [(lit "search_path", SearchPath); (lit "client_encoding", ClientEncoding);
   (lit "standard_conforming_strings", StandardConformingStrings); (lit "server_version", ServerVersion);
   (lit "server_version_num", ServerVersionNum)].
Definition supported_show_variable (variable : list Ident) : option SessionVariable :=
  match variable with
  | [name] => snd <$> List.find (fun v => eq_ignore_ascii_case (ident_value name) v.1) session_variables
  | _ => None
  end.
Definition show_text (v : SessionVariable) : str :=
  match v with
  | SearchPath => lit "SELECT 'public'::VARCHAR AS search_path"
  | ClientEncoding => lit "SELECT 'UTF8'::VARCHAR AS client_encoding"
  | StandardConformingStrings => lit "SELECT 'on'::VARCHAR AS standard_conforming_strings"
  | ServerVersion => lit "SELECT '18.4'::VARCHAR AS server_version"
  | ServerVersionNum => lit "SELECT '180004'::VARCHAR AS server_version_num"
  end.

(** ** Validation *)

Section validation.
(** [Parser::parse_sql] of the PostgreSQL dialect; [None] is a syntax error. *)
Context (parse : str -> option (list Statement)).
Definition parse_statements (sql : str) : result PgWireError (list Statement) := ok_or (parse sql) (UserError "42601").

(** [parse_copy_target] *)
Definition public_or_main (schema : str) : bool :=
  eq_ignore_ascii_case schema (lit "public") || eq_ignore_ascii_case schema (lit "main").
Definition copy_table_name (parts : list str) : option str :=
  match parts with
  | [table] => Some table
  | [schema; table] => if public_or_main schema then Some table else None
  | [catalog; schema; table] =>
      if eq_ignore_ascii_case catalog (lit "quackgis") && public_or_main schema then Some table else None
  | _ => None
  end.
Definition parse_copy_target (sql : str) : result PgWireError (option CopyTarget) :=
  normalized ← normalize_sql sql;
  if match split_whitespace normalized with token :: _ => negb (eq_ignore_ascii_case token (lit "copy")) | [] => true end
  then Ok None
  else
    statements ← parse_statements normalized;
    match statements with
    | [CopyStatement (Some (table_name, columns)) false true options legacy_options values] =>
        _ ← ensure (bool_decide (options + legacy_options + values = 0)%nat) (UserError "0A000");
        _ ← ensure (negb (bool_decide (length columns = 0%nat))) (UserError "42601");
        parts ← ok_or (object_name_values table_name) (UserError "42601");
        table ← ok_or (copy_table_name parts) (UserError "0A000");
        Ok (Some (mkCopyTarget (mkEngineTableRef (lit "quackgis") (lit "main") table) (map ident_value columns)))
    | _ => Err (UserError "0A000")
    end.

(** [validate_session_set_batch] *)
Definition is_session_set (s : Statement) : bool := match s with SetStatement s => supported_session_set s | _ => false end.
Definition validate_session_set_batch (sql : str) : result PgWireError (option nat) :=
  normalized ← normalize_sql sql;
  statements ← parse_statements normalized;
  if (length statements <=? 1)%nat then Ok None
  else
    _ ← ensure (length statements <=? 8)%nat (UserError "54000");
    _ ← ensure (forallb is_session_set statements) (UserError "0A000");
    Ok (Some (length statements)).

(** [parse_sql_cursor_input] *)
Inductive SqlCursorInput := CursorCommand (c : SqlCursorCommand) | CursorBatch (b : SqlCursorBatch).
Definition parse_sql_cursor_input (sql : str) : result PgWireError (option SqlCursorInput) :=
  normalized ← normalize_sql sql;
  statements ← parse_statements normalized;
  match statements with
  | [s] => c ← parse_sql_cursor_statement (cursor_statement s); Ok (option_map CursorCommand c)
  | [s; t] => b ← parse_sql_cursor_batch (cursor_statement s) (cursor_statement t); Ok (option_map CursorBatch b)
  | _ => Ok None
  end.
Definition parse_sql_cursor_command (sql : str) : result PgWireError (option SqlCursorCommand) :=
  input ← parse_sql_cursor_input sql;
  Ok (match input with Some (CursorCommand c) => Some c | _ => None end).

(** [validate_failed_transaction_command] *)
Definition failed_transaction_error : PgWireError := UserError "25P02".
Definition validate_failed_transaction_command (sql : str) : result PgWireError unit :=
  normalized ← normalize_sql sql;
  statements ← parse_statements normalized;
  match statements with
  | [s] => match transaction_end_command (cursor_statement s) with Some _ => Ok tt | None => Err failed_transaction_error end
  | _ => Err failed_transaction_error
  end.

(** The kind of a statement in [validate_statement_with_catalog_identity] *)
Definition statement_kind (mode : ProtocolMode) (s : Statement) (role : option RoleCommand)
    (request : option RequestContextCommand) : result PgWireError StatementKind :=
  let unsupported := Err (UserError "0A000") in
  let role_kind := if is_none role then unsupported else Ok KindRole in
  match s with
  | Query _ _ => Ok (if is_none request then KindRead else KindRequestContext)
  | CreateTable _ => Ok (KindWrite "CREATE TABLE")
  | Comment (CommentTable | CommentColumn) _ => Ok (KindWrite "COMMENT")
  | Insert _ _ => Ok (KindWrite "INSERT")
  | Update _ _ => Ok (KindWrite "UPDATE")
  | Delete _ _ _ => Ok (KindWrite "DELETE")
  | Drop ObjectTable [_] false false false false false => Ok (KindWrite "DROP TABLE")
  | StartTransaction _ _ _ _ _ =>
      match supported_transaction_begin (cursor_statement s) with Some ro => Ok (KindBegin ro) | None => unsupported end
  | Commit false false false => Ok KindCommit
  | Rollback false false => Ok KindRollback
  | SetStatement set => if supported_session_set set then Ok KindSessionSet else role_kind
  | Reset _ => role_kind
  | ShowVariable variable => if is_none (supported_show_variable variable) then unsupported else Ok KindRead
  | Call _ _ =>
      match mode with
      | Simple => c ← parse_maintenance_call s; _ ← ok_or c (UserError "0A000"); Ok KindMaintenance
      | Extended => unsupported
      end
  | _ => unsupported
  end.

(** The passes over the statement: those before a request-context command is read, those
    after it, and those that give the text for the engine. *)
Context (prepare_statement : Statement -> result PgWireError Statement)
  (check_statement : Statement -> Statement -> option RequestContextCommand -> bool -> option SessionIdentity -> option RoleCatalog ->
                     result PgWireError unit)
  (execution_text : Statement -> bool -> option SessionIdentity -> option RoleCatalog -> result PgWireError str).

Record ValidatedStatement := mkValidated {
  valid_sql : str;
  valid_kind : StatementKind;
  valid_ast : Statement;
  valid_role : option RoleCommand;
  valid_request : option RequestContextCommand }.

(** [validate_statement_with_catalog_identity] *)
Definition validate_statement_with_catalog_identity (sql : str) (mode : ProtocolMode) (enabled : bool)
    (identity : option SessionIdentity) (catalog : option RoleCatalog) : result PgWireError ValidatedStatement :=
  sql ← normalize_sql sql;
  statements ← parse_statements (rewrite_postgis_sql sql);
  match statements with
  | [parsed] =>
      s ← prepare_statement parsed;
      request ← parse_request_context_command s;
      _ ← check_statement parsed s request enabled identity catalog;
      let role := parse_role_command s in
      kind ← statement_kind mode s role request;
      text ← match s with
             | ShowVariable variable =>
                 match supported_show_variable variable with Some v => Ok (show_text v) | None => Err (UserError "0A000") end
             | _ => execution_text s enabled identity catalog
             end;
      Ok (mkValidated text kind s role request)
  | _ => Err (UserError "0A000")
  end.

(** [SimpleStatementKind] and [validate_simple_sql_with_catalog_identity] *)
Inductive SimpleStatementKind :=
  | SimpleRead | SimpleWrite (command : string) | SimpleBegin (read_only : bool) | SimpleCommit | SimpleRollback
  | SimpleSessionSet | SimpleSessionSetBatch (count : nat) | SimpleRole (c : RoleCommand)
  | SimpleRequestContext (c : RequestContextCommand) | SimpleMaintenance (c : MaintenanceCommand) | SimpleCopy (t : CopyTarget).
Definition simple_kind (v : ValidatedStatement) : result PgWireError SimpleStatementKind :=
  match valid_kind v with
  | KindRead => Ok SimpleRead
  | KindWrite command => Ok (SimpleWrite command)
  | KindBegin ro => Ok (SimpleBegin ro)
  | KindCommit => Ok SimpleCommit
  | KindRollback => Ok SimpleRollback
  | KindSessionSet => Ok SimpleSessionSet
  | KindRole => c ← ok_or (valid_role v) (UserError "XX000"); Ok (SimpleRole c)
  | KindRequestContext => c ← ok_or (valid_request v) (UserError "XX000"); Ok (SimpleRequestContext c)
  | KindMaintenance =>
      c ← parse_maintenance_call (valid_ast v); c ← ok_or c (UserError "XX000"); Ok (SimpleMaintenance c)
  | KindCopy | KindSqlCursor => Err (UserError "XX000")
  end.
Definition validate_simple_sql_with_catalog_identity (sql : str) (enabled : bool) (identity : option SessionIdentity)
    (catalog : option RoleCatalog) : result PgWireError (str * SimpleStatementKind * option Statement) :=
  copy ← parse_copy_target sql;
  match copy with
  | Some target => sql ← normalize_sql sql; Ok (sql, SimpleCopy target, None)
  | None =>
      batch ← validate_session_set_batch sql;
      match batch with
      | Some count => Ok (sql, SimpleSessionSetBatch count, None)
      | None =>
          v ← validate_statement_with_catalog_identity sql Simple enabled identity catalog;
          kind ← simple_kind v;
          Ok (valid_sql v, kind, Some (valid_ast v))
      end
  end.
End validation.
