(* ===== verification/SessionHandlers.v ===== *)
(** * The query handlers of a client connection ([quackgis-server/src/pgwire_server/duckdb.rs])

    The simple protocol runs one text at a time; the extended protocol prepares statements,
    binds them to portals and executes those.  Both authorize a statement under the identity the
    connection has when it is validated, and a prepared statement remembers the epoch of that
    identity.  The prepared statements, portals and messages are those of the vendored [pgwire]
    crate; the storage session behind the handlers is an [Engine], whose operations are taken with
    the admission, the worker and the error mapping around them. *)

From S2P Require Import Prelude RoleCatalog RoleSession Auth StatementPolicy Storage PrivilegeInquiry Cursors SqlSyntax SessionCommands.
#[local] Open Scope Z_scope.

(** ** Prepared statements *)

Section handlers.
(** A row, and the Arrow batch of bound parameters *)
Context {Row Params : Type}.
Abbreviation Rows := (list (result PgWireError Row)).

(** [DuckDbStatement] *)
Record DuckDbStatement := mkStatement {
  sql : str;
  copy_target : option CopyTarget;
  sql_cursor_command : option SqlCursorCommand;
  kind : StatementKind;
  parameters : nat;
  result_schema : list SchemaField;
  catalog_epoch : option Z;
  role_command : option RoleCommand;
  request_command : option RequestContextCommand;
  statement_epoch : Z }.

Record Portal := mkPortal {
  portal_statement : DuckDbStatement;
  portal_parameters : list (option (list byte));
  portal_format : Format;
  portal_state : PortalExecutionState (Row := Row) }.

(** ** The storage session *)

Class Engine (World : Type) := {
  engine_state : World -> EngineTransactionState;
  open_session : World -> result PgWireError unit * World;
  (** a writer permit *)
  acquire_writer : World -> result PgWireError unit * World;
  (** drops the streams of portals and cursors that are gone *)
  release : World -> World;
  begin_with_access : bool -> World -> result PgWireError unit * World;
  commit : World -> result PgWireError unit * World;
  rollback : World -> result PgWireError unit * World;
  (** [resolve_result_origins]: the catalog epoch the columns of a read were resolved at *)
  resolve_origins : option Statement -> World -> result PgWireError (option Z) * World;
  query : str -> option Params -> option Z -> World -> result PgWireError (list SchemaField * Rows) * World;
  update : str -> option Params -> World -> result PgWireError (option Z) * World;
  ingest : CopyTarget -> World -> result PgWireError unit * World;
  maintain : MaintenanceCommand -> World -> result PgWireError (option Z) * World;
  describe : str -> World -> result PgWireError (nat * list SchemaField * option Z) * World }.
Context {World : Type} `{Engine World}.

(** What the server is configured with, and what comes from outside: the parser, the catalog passes
    of the validation, the decoding of bound parameters, the text of the first one, a row of one
    text, and the order in which the cursors of a hash map are visited *)
Class Server := {
  auth : AuthConfig;
  catalog_identity_enabled : bool;
  parse : str -> option (list Statement);
  prepare_statement : Statement -> result PgWireError Statement;
  check_statement : Statement -> Statement -> option RequestContextCommand -> bool -> option SessionIdentity -> option RoleCatalog ->
                    result PgWireError unit;
  execution_text : Statement -> bool -> option SessionIdentity -> option RoleCatalog -> result PgWireError str;
  decode_parameters : DuckDbStatement -> list (option (list byte)) -> result PgWireError Params;
  text_parameter : Params -> result PgWireError str;
  text_row : str -> Row;
  cursor_order : gmap str (SqlCursorMetadata (Row := Row)) -> list str }.
Context `{Server}.

(** What reaches the engine *)
Inductive EngineCall :=
  | CallDescribe (text : str)
  | CallQuery (text : str)
  | CallUpdate (command : string) (text : str)
  | CallIngest (target : CopyTarget)
  | CallMaintain (command : MaintenanceCommand).

(** ** The connection *)

(** [login] is the user of the startup message; [calls] records the calls that reached the
    engine, each with the identity of the connection at that moment. *)
Record Connection := mkConnection {
  login : option str;
  roles : option (RoleSessionState RoleCatalog);
  status : TransactionStatus;
  session_open : bool;
  world : World;
  cursors_of : Cursors (Row := Row);
  statements : gmap str DuckDbStatement;
  portals : gmap str Portal;
  calls : list (option SessionIdentity * EngineCall) }.
Definition set_roles (r : RoleSessionState RoleCatalog) (c : Connection) : Connection :=
  mkConnection (login c) (Some r) (status c) (session_open c) (world c) (cursors_of c) (statements c) (portals c) (calls c).
Definition set_status (t : TransactionStatus) (c : Connection) : Connection :=
  mkConnection (login c) (roles c) t (session_open c) (world c) (cursors_of c) (statements c) (portals c) (calls c).
Definition set_world (opened : bool) (w : World) (c : Connection) : Connection :=
  mkConnection (login c) (roles c) (status c) opened w (cursors_of c) (statements c) (portals c) (calls c).
Definition set_cursors_of (k : Cursors) (c : Connection) : Connection :=
  mkConnection (login c) (roles c) (status c) (session_open c) (world c) k (statements c) (portals c) (calls c).
Definition set_store (s : gmap str DuckDbStatement) (p : gmap str Portal) (c : Connection) : Connection :=
  mkConnection (login c) (roles c) (status c) (session_open c) (world c) (cursors_of c) s p (calls c).
Definition identity_now (c : Connection) : option SessionIdentity :=
  match roles c with
  | Some r => match identity r with Ok i => Some i | Err _ => None end
  | None => None
  end.
Definition add_call (k : EngineCall) (c : Connection) : Connection :=
  mkConnection (login c) (roles c) (status c) (session_open c) (world c) (cursors_of c) (statements c) (portals c)
    (calls c ++ [(identity_now c, k)]).

(** Handlers: a connection is passed on, and [?] returns early with what was changed so far. *)
Definition Handler (A : Type) : Type := Connection -> result PgWireError A * Connection.
#[export] Instance handler_ret : MRet Handler := fun A a c => (Ok a, c).
#[export] Instance handler_bind : MBind Handler := fun A B k m c =>
  match m c with (Ok a, c) => k a c | (Err e, c) => (Err e, c) end.
Definition returns {A} (a : A) : Handler A := fun c => (Ok a, c).
Definition throw {A} (e : PgWireError) : Handler A := fun c => (Err e, c).
Definition try_ {A} (r : result PgWireError A) : Handler A := fun c => (r, c).
Definition require (b : bool) (e : PgWireError) : Handler unit := try_ (ensure b e).
Definition look {A} (f : Connection -> A) : Handler A := fun c => (Ok (f c), c).
Definition change (f : Connection -> Connection) : Handler unit := fun c => (Ok tt, f c).
Definition on_engine {A} (f : World -> result PgWireError A * World) : Handler A := fun c =>
  let '(r, w) := f (world c) in (r, set_world (session_open c) w c).
Definition call {A} (k : EngineCall) (f : World -> result PgWireError A * World) : Handler A :=
  _ ← change (add_call k); on_engine f.

(** ** Sessions of the connection *)


(** [role_session_error] *)
Definition role_session_error (e : RoleSessionErrorKind) : PgWireError :=
  UserError (match e with
             | ErrUnknownRole => "42704" | ErrPermissionDenied => "42501" | ErrNoTransaction => "25001"
             | ErrInvalidInput => "22023" | ErrInternal => "XX000"
             end).
(** [client_role_session] *)
Definition client_role_session : Handler (RoleSessionState RoleCatalog) := fun c =>
  match roles c with
  | Some r => (Ok r, c)
  | None =>
      match start_role_session auth (login c) with
      | Ok r => (Ok r, set_roles r c)
      | Err _ => (Err (UserError "XX000"), c)
      end
  end.
Definition client_identity : Handler SessionIdentity :=
  r ← client_role_session; try_ (map_err role_session_error (identity r)).
(** A change of the role session *)
Definition on_roles (f : RoleSessionState RoleCatalog -> result RoleSessionErrorKind (RoleSessionState RoleCatalog)) : Handler unit :=
  r ← client_role_session;
  r ← try_ (map_err role_session_error (f r));
  change (set_roles r).
(** [client_session] *)
Definition client_session : Handler unit := fun c =>
  if session_open c then (Ok tt, c)
  else let '(r, w) := open_session (world c) in (r, set_world (is_ok r) w c).

(** [client.transaction_status() == Error] *)
Definition in_failed_block : Handler bool := look (fun c => bool_decide (status c = StatusError)).

(** ** Authorization *)

Definition no_denials : Counters := mkCounters 0 0.
Definition denied {A} (r : Counters * result Denial A) : result PgWireError A := map_err (fun _ => UserError "42501") r.2.
(** [authorize_statement], [authorize_copy] and [authorize_maintenance] *)
Definition authorized_statement (i : SessionIdentity) (s : Statement) : result PgWireError unit :=
  denied (StatementPolicy.authorize_statement auth (Some (identity_session_user i)) (Some (identity_current_user i))
            (policy_statement s) no_denials).
Definition authorize_statement (s : Statement) : Handler unit := i ← client_identity; try_ (authorized_statement i s).
Definition authorized_copy (i : SessionIdentity) (t : CopyTarget) : result PgWireError unit :=
  denied (authorize_copy_target auth (Some (identity_session_user i)) (Some (identity_current_user i))
            (ref_schema (copy_table t)) (ref_table (copy_table t)) no_denials).
Definition authorize_copy (t : CopyTarget) : Handler unit := i ← client_identity; try_ (authorized_copy i t).
Definition authorized_maintenance (i : SessionIdentity) (m : MaintenanceCommand) : result PgWireError unit :=
  let outer_allowed := allows_maintenance auth (Some (identity_session_user i)) (maintained_schema m, maintained_table m) in
  let role_allowed := is_none_or (role_catalog auth) (fun catalog =>
    allows_table_operation catalog (identity_current_user i) (maintained_schema m) (maintained_table m) TableMaintain) in
  ensure (outer_allowed && role_allowed) (UserError "42501").
Definition authorize_maintenance (m : MaintenanceCommand) : Handler unit :=
  i ← client_identity; try_ (authorized_maintenance i m).

(** ** Statements *)

Definition validated (text : str) (mode : ProtocolMode) (i : SessionIdentity) : result PgWireError ValidatedStatement :=
  validate_statement_with_catalog_identity parse prepare_statement check_statement execution_text text mode
    catalog_identity_enabled (Some i) (role_catalog auth).

(** [DuckDbParser::parse_sql] *)
Definition described (v : ValidatedStatement) (epoch : Z) : Handler DuckDbStatement :=
  _ ← client_session;
  '(count, schema, catalog) ← call (CallDescribe (valid_sql v)) (describe (valid_sql v));
  returns (mkStatement (valid_sql v) None None (valid_kind v) count schema catalog None None epoch).
Definition prepared (v : ValidatedStatement) (epoch : Z) : Handler DuckDbStatement :=
  match valid_kind v with
  | KindRequestContext =>
      r ← try_ (ok_or (valid_request v) (UserError "XX000"));
      returns (mkStatement (valid_sql v) None None KindRequestContext
                 (match request_value r with LiteralValue _ => 0 | BoundParameter => 1 end)
                 [mkSchemaField (result_name r) (lit "Utf8") false] None None (Some r) epoch)
  | KindBegin _ | KindCommit | KindRollback | KindSessionSet | KindRole =>
      returns (mkStatement (valid_sql v) None None (valid_kind v) 0 [] None (valid_role v) None epoch)
  | _ => described v epoch
  end.
Definition fetched_schema (command : SqlCursorCommand) (k : Cursors (Row := Row)) : result PgWireError (list SchemaField) :=
  match command with
  | Fetch name _ => m ← sql_cursor_metadata k name; Ok (planned_schema (Cursors.cursor_statement m))
  | _ => Ok []
  end.
(** A failed block takes its end only. *)
Definition refuse_in_failed_block (text : str) : Handler unit :=
  fun c => (if bool_decide (status c = StatusError) then validate_failed_transaction_command parse text else Ok tt, c).
Definition parse_sql (text : str) : Handler DuckDbStatement :=
  i ← client_identity;
  _ ← refuse_in_failed_block text;
  copy ← try_ (parse_copy_target parse text);
  match copy with
  | Some target =>
      _ ← authorize_copy target;
      returns (mkStatement (trim text) (Some target) None KindCopy 0 [] None None None (identity_epoch i))
  | None =>
      command ← try_ (parse_sql_cursor_command parse text);
      match command with
      | Some command =>
          failed ← in_failed_block;
          _ ← require (negb failed) failed_transaction_error;
          k ← look cursors_of;
          schema ← try_ (fetched_schema command k);
          text ← try_ (normalize_sql text);
          returns (mkStatement text None (Some command) KindSqlCursor 0 schema None None None (identity_epoch i))
      | None =>
          v ← try_ (validated text Extended i);
          _ ← authorize_statement (valid_ast v);
          prepared v (identity_epoch i)
      end
  end.

(** ** Transactions *)

Inductive Response :=
  | ExecutionTag (tag : string) (rows : option Z)
  | QueryRows (rows : Rows)
  | TransactionStart
  | TransactionEnd (tag : string)
  | ErrorResponse (e : PgWireError)
  | CopyIn.
Definition Responses : Type := list Response.

(** [usize::try_from] of the affected rows *)
Definition affected_rows (n : option Z) : option Z := n ≫= (fun n => if 0 <=? n then Some n else None).

(** [begin_transaction] and [end_transaction] *)
Definition begin_transaction (read_only : bool) : Handler Response :=
  _ ← on_engine (begin_with_access read_only); returns TransactionStart.
Definition end_transaction (command : TransactionEndCommand) : Handler Response :=
  failed ← in_failed_block;
  _ ← client_role_session;
  _ ← client_session;
  _ ← on_engine acquire_writer;
  k ← look cursors_of;
  let '(k, closed) := close_all_sql_cursors k (cursor_order (cursors k)) in
  _ ← change (set_cursors_of k);
  _ ← try_ closed;
  _ ← change (fun c => set_world (session_open c) (release (world c)) (set_store (statements c) ∅ c));
  state ← look (fun c => engine_state (world c));
  let commits := match command with CommitCommand => true | RollbackCommand => false end in
  match state with
  | Idle =>
      _ ← require (negb (commits && failed)) (FatalError "XX000");
      _ ← on_roles RoleSession.end_transaction;
      returns (TransactionEnd (if commits then "COMMIT" else "ROLLBACK"))
  | Quarantined => throw (FatalError "XX000")
  | Active =>
      let rolls_back := negb commits || failed in
      _ ← on_engine (fun w => if rolls_back then let '(r, w) := rollback w in (map_err (fun _ => UserError "XX000") r, w)
                              else let '(r, w) := commit w in (map_err (fun _ => FatalError "XX000") r, w));
      _ ← on_roles RoleSession.end_transaction;
      returns (TransactionEnd (if rolls_back then "ROLLBACK" else "COMMIT"))
  end.

(** ** Cursors *)

(** The tests of [handle_sql_cursor] that come before a DECLAREd query is parsed, and those
    before a FETCH opens its query *)
Definition may_declare (k : Cursors (Row := Row)) (name : str) : result PgWireError unit :=
  _ ← ensure (negb (cursors_poisoned k)) (UserError "XX000");
  _ ← ensure (negb (bool_decide (is_Some (cursors k !! name)))) (UserError "42P03");
  ensure (negb (MAX_SQL_CURSORS_PER_SESSION <=? Z.of_nat (size (cursors k)))) (UserError "54000").
Definition fetch_opens (k : Cursors (Row := Row)) (name : str) (rows : Z) (f : Format) : option Planned :=
  match sql_cursor_metadata k name with
  | Err _ => None
  | Ok m =>
      let f := if cursor_binary m then UnifiedBinary else f in
      match sql_cursor_result_formats f (field_count (Cursors.cursor_statement m)), portal m with
      | Ok requested, Initial =>
          if (rows =? 0) || match result_formats m with Some formats => negb (bool_decide (formats = requested)) | None => false end
          then None else Some (Cursors.cursor_statement m)
      | _, _ => None
      end
  end.

(** [result_schema_compatible] *)
Definition result_schema_compatible (expected actual : list SchemaField) : bool := bool_decide (expected = actual).
(** [execute_sql_cursor_query] *)
Definition open_cursor (p : Planned) : Handler Rows :=
  i ← client_identity;
  _ ← require (identity_epoch i =? session_epoch p) (UserError "0A000");
  _ ← client_session;
  '(schema, rows) ← call (CallQuery (planned_sql p)) (query (planned_sql p) None (planned_catalog p));
  _ ← require (result_schema_compatible (planned_schema p) schema) (UserError "0A000");
  returns rows.

Definition planned_of (s : DuckDbStatement) : Planned :=
  mkPlanned (bool_decide (kind s = KindRead)) (parameters s) (result_schema s) (statement_epoch s) (sql s) (catalog_epoch s).
Definition cursor_response (r : Cursors.Response (Row := Row)) : Response :=
  match r with Execution tag => ExecutionTag tag None | Cursors.Query rows _ => QueryRows (map Ok rows) end.
(** What [Cursors] does, given the planned statement or the opened rows *)
Definition on_cursors (command : SqlCursorCommand) (f : Format) (planned : result PgWireError Planned)
    (epoch : Z) (opened : result PgWireError Rows) : Handler Response := fun c =>
  let k := cursors_of c in
  let '(k, r) := Cursors.handle_sql_cursor Active k command f planned epoch opened (cursor_order (cursors k)) in
  (match r with Ok r => Ok (cursor_response r) | Err e => Err e end, set_cursors_of k c).
(** [handle_sql_cursor] *)
Definition handle_sql_cursor (command : SqlCursorCommand) (f : Format) : Handler Response :=
  _ ← client_session;
  state ← look (fun c => engine_state (world c));
  _ ← require (bool_decide (state = Active)) (UserError "25001");
  k ← look cursors_of;
  match command with
  | DeclareCursor name text _ =>
      _ ← try_ (may_declare k name);
      s ← parse_sql text;
      on_cursors command f (Ok (planned_of s)) 0 (Ok [])
  | Fetch name rows =>
      match fetch_opens k name rows f with
      | Some p => opened ← open_cursor p; on_cursors command f (Err PortalNotStarted) (session_epoch p) (Ok opened)
      | None => on_cursors command f (Err PortalNotStarted) 0 (Ok [])
      end
  | Close _ => on_cursors command f (Err PortalNotStarted) 0 (Ok [])
  end.

(** [handle_sql_cursor_batch] *)
Definition attempt {A} (m : Handler A) : Handler (result PgWireError A) := fun c => let '(r, c) := m c in (Ok r, c).
Definition handle_sql_cursor_batch (b : SqlCursorBatch) : Handler Responses :=
  match b with
  | BeginReadOnlyDeclare declare =>
      _ ← client_session;
      begin ← begin_transaction true;
      declared ← attempt (handle_sql_cursor declare UnifiedText);
      match declared with
      | Ok declared => returns [begin; declared]
      | Err (UserError e) => returns [begin; ErrorResponse (UserError e)]
      | Err e => _ ← end_transaction RollbackCommand; throw e
      end
  | CloseAndEnd close end_command =>
      closed ← handle_sql_cursor close UnifiedText;
      ended ← end_transaction end_command;
      returns [closed; ended]
  end.

(** ** The simple protocol *)

(** [apply_role_command] *)
Definition apply_role_command (command : RoleCommand) (in_transaction : bool) : Handler unit :=
  match command with
  | RoleSet role local => on_roles (fun r => set_role r role local in_transaction)
  | RoleReset => on_roles reset_role
  end.
Definition in_transaction : Handler bool := look (fun c => bool_decide (engine_state (world c) = Active)).

(** The authorization and the execution in [SimpleQueryHandler::do_query] *)
Definition authorize_simple (kind : SimpleStatementKind) (ast : option Statement) : Handler unit :=
  match kind, ast with
  | SimpleCopy target, _ => authorize_copy target
  | SimpleMaintenance command, _ => authorize_maintenance command
  | _, Some s => authorize_statement s
  | SimpleSessionSetBatch _, None => returns tt
  | _, None => throw (UserError "XX000")
  end.
Definition execute_simple (kind : SimpleStatementKind) (text : str) (ast : option Statement) : Handler Responses :=
  match kind with
  | SimpleRead =>
      catalog ← on_engine (resolve_origins ast);
      '(_, rows) ← call (CallQuery text) (query text None catalog); returns [QueryRows rows]
  | SimpleWrite command =>
      n ← call (CallUpdate command text) (update text None); returns [ExecutionTag command (affected_rows n)]
  | SimpleBegin read_only => r ← begin_transaction read_only; returns [r]
  | SimpleCommit => r ← end_transaction CommitCommand; returns [r]
  | SimpleRollback => r ← end_transaction RollbackCommand; returns [r]
  | SimpleMaintenance command =>
      state ← look (fun c => engine_state (world c));
      _ ← require (bool_decide (state = Idle)) (UserError "25001");
      _ ← client_identity;
      n ← call (CallMaintain command) (maintain command); returns [ExecutionTag "CALL" (affected_rows n)]
  | SimpleSessionSet => returns [ExecutionTag "SET" None]
  | SimpleSessionSetBatch count => returns (replicate count (ExecutionTag "SET" None))
  | SimpleRole command =>
      b ← in_transaction; _ ← apply_role_command command b; returns [ExecutionTag (role_tag command) None]
  | SimpleRequestContext command =>
      match request_value command with
      | LiteralValue value =>
          b ← in_transaction;
          _ ← on_roles (fun r => set_request_setting r (request_name command) value b);
          returns [QueryRows [Ok (text_row value)]]
      | BoundParameter => throw (UserError "08P01")
      end
  | SimpleCopy target => _ ← call (CallIngest target) (ingest target); returns [CopyIn]
  end.
Definition execute_statement (text : str) (i : SessionIdentity) : Handler Responses :=
  validated ← try_ (validate_simple_sql_with_catalog_identity parse prepare_statement check_statement execution_text
                      text catalog_identity_enabled (Some i) (role_catalog auth));
  let '(text, simple, ast) := validated in
  _ ← authorize_simple simple ast;
  _ ← client_session;
  execute_simple simple text ast.
Definition do_query (text : str) : Handler Responses :=
  i ← client_identity;
  _ ← refuse_in_failed_block text;
  cursor ← try_ (parse_sql_cursor_input parse text);
  match cursor with
  | Some (CursorCommand command) => r ← handle_sql_cursor command UnifiedText; returns [r]
  | Some (CursorBatch b) => handle_sql_cursor_batch b
  | None => execute_statement text i
  end.

(** ** The extended protocol *)

(** [parameter_batch] and [request_context_value] *)
Definition parameter_batch (p : Portal) : result PgWireError (option Params) :=
  let s := portal_statement p in
  if (parameters s =? 0)%nat then
    _ ← ensure (length (portal_parameters p) =? 0)%nat (UserError "08P01"); Ok None
  else
    _ ← ensure (length (portal_parameters p) =? parameters s)%nat (UserError "08P01");
    Some <$> decode_parameters s (portal_parameters p).
Definition request_context_value (command : RequestContextCommand) (bound : option Params) : result PgWireError str :=
  match request_value command, bound with
  | LiteralValue value, None => Ok value
  | LiteralValue _, Some _ => Err (UserError "08P01")
  | BoundParameter, None => Err (UserError "08P01")
  | BoundParameter, Some bound => text_parameter bound
  end.

(** [ExtendedQueryHandler::do_query] *)
Definition execute_kind (s : DuckDbStatement) (bound : option Params) : Handler Response :=
  match kind s with
  | KindRead =>
      '(schema, rows) ← call (CallQuery (sql s)) (query (sql s) bound (catalog_epoch s));
      _ ← require (result_schema_compatible (result_schema s) schema) (UserError "0A000");
      returns (QueryRows rows)
  | KindWrite command =>
      n ← call (CallUpdate command (sql s)) (update (sql s) bound); returns (ExecutionTag command (affected_rows n))
  | KindSessionSet => returns (ExecutionTag "SET" None)
  | KindRole =>
      command ← try_ (ok_or (role_command s) (UserError "XX000"));
      b ← in_transaction;
      _ ← apply_role_command command b;
      returns (ExecutionTag (role_tag command) None)
  | KindRequestContext =>
      command ← try_ (ok_or (request_command s) (UserError "XX000"));
      value ← try_ (request_context_value command bound);
      b ← in_transaction;
      _ ← on_roles (fun r => set_request_setting r (request_name command) value b);
      returns (QueryRows [Ok (text_row value)])
  | KindBegin read_only => begin_transaction read_only
  | KindCommit => end_transaction CommitCommand
  | KindRollback => end_transaction RollbackCommand
  | KindCopy | KindSqlCursor | KindMaintenance => throw (UserError "0A000")
  end.
Definition do_query_portal (p : Portal) : Handler Response :=
  let s := portal_statement p in
  i ← client_identity;
  _ ← require (identity_epoch i =? statement_epoch s) (UserError "0A000");
  match copy_target s, sql_cursor_command s with
  | Some target, _ => _ ← client_session; _ ← call (CallIngest target) (ingest target); returns CopyIn
  | None, Some command =>
      _ ← require (length (portal_parameters p) =? 0)%nat (UserError "08P01");
      handle_sql_cursor command (portal_format p)
  | None, None =>
      bound ← try_ (parameter_batch p);
      _ ← client_session;
      execute_kind s bound
  end.

(** ** Messages (vendored [pgwire]) *)

Definition DEFAULT_NAME : str := lit "POSTGRESQL_DEFAULT_NAME".
(** [to_in_transaction_state], [to_idle_state] and [to_error_state] *)
Definition to_in_transaction_state (t : TransactionStatus) : TransactionStatus :=
  match t with StatusIdle | StatusTransaction => StatusTransaction | StatusError => StatusError end.
Definition to_error_state (t : TransactionStatus) : TransactionStatus :=
  match t with StatusIdle => StatusIdle | _ => StatusError end.

(** The effect of a response on the status; sending rows stops at the first that failed. *)
Fixpoint first_error (rows : Rows) : option PgWireError :=
  match rows with [] => None | Ok _ :: rows => first_error rows | Err e :: _ => Some e end.
Fixpoint send_responses (rs : list Response) (t : TransactionStatus) : result PgWireError TransactionStatus :=
  match rs with
  | [] => Ok t
  | r :: rs =>
      t ← match r with
          | ExecutionTag _ _ | CopyIn => Ok t
          | QueryRows rows => match first_error rows with Some e => Err e | None => Ok t end
          | TransactionStart => Ok (to_in_transaction_state t)
          | TransactionEnd _ => Ok StatusIdle
          | ErrorResponse _ => Ok (to_error_state t)
          end;
      send_responses rs t
  end.
Definition is_copy (r : Response) : bool := match r with CopyIn => true | _ => false end.
(** [_on_query], whose status is set unless a COPY begins *)
Definition is_empty_query (text : str) : bool := bool_decide (trim text = lit ";") || bool_decide (trim text = []).
Definition on_query (text : str) : Handler unit :=
  if is_empty_query text then returns tt
  else
    t ← look status;
    rs ← do_query text;
    t' ← try_ (send_responses rs t);
    if existsb is_copy rs then returns tt else change (set_status t').
(** [on_parse], [on_bind] and [on_close] *)
Definition on_parse (name text : str) : Handler unit :=
  s ← parse_sql text; change (fun c => set_store (<[name := s]> (statements c)) (portals c) c).
Definition on_bind (name statement : str) (bound : list (option (list byte))) (f : Format) : Handler unit :=
  stored ← look (fun c => statements c !! statement);
  s ← try_ (ok_or stored StatementNotFound);
  change (fun c => set_store (statements c) (<[name := mkPortal s bound f Initial]> (portals c)) c).
Definition on_close (is_statement : bool) (name : str) : Handler unit :=
  change (fun c => if is_statement then set_store (delete name (statements c)) (portals c) c
                   else set_store (statements c) (delete name (portals c)) c).
Definition set_portal_state (name : str) (p : Portal) (t : PortalExecutionState) (c : Connection) : Connection :=
  set_store (statements c) (<[name := mkPortal (portal_statement p) (portal_parameters p) (portal_format p) t]> (portals c)) c.
(** Rows of a started portal: [send_partial_query_response] and [Portal::fetch] send the same
    rows, but a finished portal is refused by the first and empty for the second. *)
Definition send_rows (name : str) (p : Portal) (max_rows : Z) : Handler unit := fun c =>
  let '(r, t) := portal_fetch max_rows (portal_state p) in
  ('(_, _) ← r; Ok tt, set_portal_state name p t c).
Definition start_portal (name : str) (p : Portal) (rows : Rows) (max_rows : Z) : Handler unit :=
  send_rows name (mkPortal (portal_statement p) (portal_parameters p) (portal_format p) (Suspended rows)) max_rows.
(** [_on_execute], for statements other than reads *)
Definition execute_portal (name : str) (p : Portal) (max_rows : Z) : Handler unit :=
  match portal_state p with
  | Initial =>
      t ← look status;
      r ← do_query_portal p;
      match r with
      | QueryRows rows => _ ← start_portal name p rows max_rows; change (set_status t)
      | TransactionEnd _ =>
          change (fun c => set_status StatusIdle (set_store (statements c) (delete DEFAULT_NAME (portals c)) c))
      | TransactionStart => change (set_status (to_in_transaction_state t))
      | ErrorResponse _ => change (set_status (to_error_state t))
      | ExecutionTag _ _ => change (set_status t)
      | CopyIn => returns tt
      end
  | _ => send_rows name p max_rows
  end.
(** [on_execute] *)
Definition execute_read (name : str) (p : Portal) (max_rows : Z) : Handler unit :=
  match portal_state p with
  | Initial =>
      r ← do_query_portal p;
      match r with QueryRows rows => start_portal name p rows max_rows | _ => throw (UserError "XX000") end
  | Suspended _ => send_rows name p max_rows
  | Finished => throw (UserError "55000")
  end.
Definition on_execute (name : str) (max_rows : Z) : Handler unit :=
  _ ← require (negb (max_rows <? 0)) (UserError "22023");
  found ← look (fun c => portals c !! name);
  p ← try_ (ok_or found PortalNotFound);
  if bool_decide (kind (portal_statement p) = KindRead) then execute_read name p max_rows
  else execute_portal name p max_rows.

(** A message of the client.  [CopyEnded] is the end of a COPY that a simple query or a portal
    began, and [Progress] what the streams of open portals do to the session. *)
Inductive Message :=
  | MessageQuery (text : str)
  | MessageParse (name text : str)
  | MessageBind (name statement : str) (bound : list (option (list byte))) (f : Format)
  | MessageExecute (name : str) (max_rows : Z)
  | MessageClose (is_statement : bool) (name : str)
  | MessageSync
  | CopyEnded (extended : bool) (failed : option PgWireError)
  | Progress.
Definition handle (m : Message) : Handler unit :=
  match m with
  | MessageQuery text => on_query text
  | MessageParse name text => on_parse name text
  | MessageBind name statement bound f => on_bind name statement bound f
  | MessageExecute name max_rows => on_execute name max_rows
  | MessageClose is_statement name => on_close is_statement name
  | MessageSync => change (fun c => set_store (statements c) (delete DEFAULT_NAME (portals c)) c)
  | CopyEnded _ None => returns tt
  | CopyEnded _ (Some e) => throw e
  | Progress => change (fun c => set_world (session_open c) (release (world c)) c)
  end.
(** [process_error] *)
Definition receive (m : Message) (c : Connection) : Connection :=
  match handle m c with
  | (Ok _, c) => c
  | (Err _, c) => set_status (to_error_state (status c)) c
  end.
Definition receive_all (ms : list Message) (c : Connection) : Connection := fold_left (fun c m => receive m c) ms c.

(** The status that ReadyForQuery gives the client after a message, where it is sent: at the end of
    a COPY of the simple protocol it is a constant. *)
Definition ready_status (m : Message) (c : Connection) : option TransactionStatus :=
  match m with
  | MessageQuery _ | MessageSync | CopyEnded false (Some _) => Some (status c)
  | CopyEnded false None => Some StatusIdle
  | _ => None
  end.

(** A connection after its startup *)
Definition connected (user : option str) (w : World) : Connection :=
  mkConnection user None StatusIdle false w (mkCursors ∅ false) ∅ ∅ [].
End handlers.
