(* ===== verification/SessionOutcomes.v ===== *)
(** * What a client connection does in the engine's name

    Whatever a client sends, in either protocol and in any order, every call that reaches the
    engine was validated and authorized under the identity the connection has at that moment:
    after a change of role or of request context, a portal that has not been executed and a cursor
    that has not been fetched from are refused.  Those whose query the engine has been given
    already deliver the rest of its rows.  A failed transaction block takes COMMIT and ROLLBACK
    only, except that portals bound before still run. *)

From S2P Require Import Prelude RoleCatalog RoleSession Auth StatementPolicy Storage PrivilegeInquiry Cursors SqlSyntax SessionCommands SessionHandlers.
#[local] Open Scope Z_scope.
#[local] Set Default Goal Selector "!".

(** ** Cursors keep the statements they were declared with *)

Section cursors.
Context {Row : Type}.
Abbreviation Cursors := (Cursors (Row := Row)).
Definition keeps_statements (k k' : Cursors) : Prop :=
  forall name m, cursors k' !! name = Some m ->
    exists m0, cursors k !! name = Some m0 /\ Cursors.cursor_statement m = Cursors.cursor_statement m0.

#[local] Instance keeps_statements_refl : Reflexive keeps_statements.
Proof using. intros k name m Hm. by exists m. Qed.
#[local] Instance keeps_statements_trans : Transitive keeps_statements.
Proof using. intros k1 k2 k3 H12 H23 name m Hm. destruct (H23 _ _ Hm) as (m2 & H2 & ->). by apply H12. Qed.

Lemma metadata_lookup (k : Cursors) name m : sql_cursor_metadata k name = Ok m -> cursors k !! name = Some m.
Proof using. unfold sql_cursor_metadata. destruct (cursors_poisoned k), (cursors k !! name); naive_solver. Qed.
Lemma keeps_update (k : Cursors) name m m' : cursors k !! name = Some m -> Cursors.cursor_statement m' = Cursors.cursor_statement m ->
  keeps_statements k (set_cursors k (<[name := m']> (cursors k))).
Proof using.
  intros Hm He other m2. cbn. destruct (decide (other = name)) as [->|]; [rewrite lookup_insert_eq|rewrite lookup_insert_ne by done].
  - intros [= <-]. by exists m.
  - intros Hm2. by exists m2.
Qed.
Lemma close_cursor_keeps (k k' : Cursors) name r : close_sql_cursor k name = (k', r) -> keeps_statements k k'.
Proof using.
  unfold close_sql_cursor. destruct (sql_cursor_metadata k name) as [m|] eqn:Hm; [|by intros [= <- <-]]. apply metadata_lookup in Hm.
  destruct (drain_portal _ _) as [[] p]; intros [= <- <-]; [|by eapply keeps_update].
  intros other m2 H2. cbn in H2. apply lookup_delete_Some in H2 as [_ H2]. by exists m2.
Qed.
Lemma close_names_keeps names : forall (k k' : Cursors) r, close_names k names = (k', r) -> keeps_statements k k'.
Proof using.
  induction names as [|name names IH]; intros k k' r; cbn; [by intros [= <- <-]|].
  destruct (close_sql_cursor k name) as [k1 [|]] eqn:Hc; apply close_cursor_keeps in Hc; [|by intros [= <- <-]].
  intros Hn. etrans; [exact Hc|by eapply IH].
Qed.
Lemma close_all_keeps (k k' : Cursors) order r : close_all_sql_cursors k order = (k', r) -> keeps_statements k k'.
Proof using. unfold close_all_sql_cursors. destruct (cursors_poisoned k); [by intros [= <- <-]|apply close_names_keeps]. Qed.
Lemma fetch_portal_keeps (k k' : Cursors) name m m' rows f r : cursors k !! name = Some m -> Cursors.cursor_statement m' = Cursors.cursor_statement m ->
  fetch_portal k name m' rows f = (k', r) -> keeps_statements k k'.
Proof using. unfold fetch_portal. destruct (portal_fetch _ _) as [fetched p]. intros ? ? [= <- <-]. by eapply keeps_update. Qed.
Lemma fetch_cursor_keeps (k k' : Cursors) name rows f epoch opened r :
  fetch_cursor k name rows f epoch opened = (k', r) -> keeps_statements k k'.
Proof using.
  unfold fetch_cursor. destruct (sql_cursor_metadata k name) as [m|] eqn:Hm; [|by intros [= <- <-]]. apply metadata_lookup in Hm. cbn.
  repeat (case_match; try by intros [= <- <-]); by eapply fetch_portal_keeps.
Qed.
(** A cursor command keeps the statements of the cursors; a declared one is a planned read. *)
Lemma cursor_command_statements (k k' : Cursors) command f planned epoch opened order r name m :
  Cursors.handle_sql_cursor Active k command f planned epoch opened order = (k', r) -> cursors k' !! name = Some m ->
  (exists m0, cursors k !! name = Some m0 /\ Cursors.cursor_statement m = Cursors.cursor_statement m0) \/
  (planned = Ok (Cursors.cursor_statement m) /\ is_read (Cursors.cursor_statement m) = true).
Proof using.
  unfold Cursors.handle_sql_cursor. rewrite bool_decide_true by done. cbn [negb]. destruct command as [other text binary|other rows|[other|]].
  - unfold declare_cursor. destruct (cursors_poisoned k); [intros [= <- <-] ?; left; eauto|].
    case_bool_decide; [intros [= <- <-] ?; left; eauto|]. case_match; [intros [= <- <-] ?; left; eauto|].
    destruct planned as [p|]; [|intros [= <- <-] ?; left; eauto]. destruct (is_read p) eqn:Hp; [|intros [= <- <-] ?; left; eauto].
    cbn. case_match; [intros [= <- <-] ?; left; eauto|]. intros [= <- <-]. cbn.
    destruct (decide (name = other)) as [->|]; [rewrite lookup_insert_eq; intros [= <-]; by right|rewrite lookup_insert_ne by done; eauto].
  - intros Hk Hm. left. by eapply fetch_cursor_keeps.
  - destruct (close_sql_cursor k other) as [k1 r1] eqn:Hc. intros [= <- <-] Hm. left. by eapply close_cursor_keeps.
  - destruct (close_all_sql_cursors k order) as [k1 r1] eqn:Hc. intros [= <- <-] Hm. left. by eapply close_all_keeps.
Qed.
End cursors.

(** ** What a connection may ask of the engine *)

Section outcomes.
Context {Row Params World : Type} {engine : Engine (Row := Row) (Params := Params) World} {server : Server (Row := Row) (Params := Params)}.
Abbreviation Conn := (Connection (Row := Row) (World := World)).

(** A text that the validation gave for some statement, of this kind, that the identity may run *)
Definition statement_allowed (kind : StatementKind) (i : SessionIdentity) (text : str) : Prop :=
  exists source mode v, validated source mode i = Ok v /\ valid_sql v = text /\ valid_kind v = kind /\
    authorized_statement i (valid_ast v) = Ok tt.
Definition allowed (i : SessionIdentity) (k : EngineCall) : Prop :=
  match k with
  | CallDescribe text => exists kind, statement_allowed kind i text
  | CallQuery text => statement_allowed KindRead i text
  | CallUpdate command text => statement_allowed (KindWrite command) i text
  | CallIngest target => authorized_copy i target = Ok tt
  | CallMaintain command => authorized_maintenance i command = Ok tt
  end.
(** The identity is the user who logged in, in a role it may take. *)
Definition acts_for (login : option str) (i : SessionIdentity) : Prop :=
  (exists r, start_role_session auth login = Ok r /\ session_user (session r) = identity_session_user i) /\
  allowed_role (role_catalog auth) (identity_session_user i) (identity_current_user i).
Definition call_ok (login : option str) (k : option SessionIdentity * EngineCall) : Prop :=
  exists i, k.1 = Some i /\ acts_for login i /\ allowed i k.2.

(** ** The invariant *)

Definition identity_of (r : RoleSessionState RoleCatalog) : SessionIdentity :=
  mkSessionIdentity (session_user (session r)) (effective_role (session r)) (epoch (session r)) (request_context (session r)).
(** What was established at some epoch still holds if the epoch is the current one. *)
Definition stored (r : RoleSessionState RoleCatalog) (e : Z) (P : SessionIdentity -> Prop) : Prop :=
  e <= epoch (session r) /\ (e = epoch (session r) -> P (identity_of r)).
Definition justified (s : DuckDbStatement) (i : SessionIdentity) : Prop :=
  (forall t, copy_target s = Some t -> authorized_copy i t = Ok tt) /\
  (kind s = KindRead -> statement_allowed KindRead i (sql s)) /\
  (forall command, kind s = KindWrite command -> statement_allowed (KindWrite command) i (sql s)).
(** [n] bounds the epoch; [who] logged in. *)
Context (who : option str).
Record ready (n : Z) (r : RoleSessionState RoleCatalog) (c : Conn) : Prop := {
  rd_login : login c = who;
  rd_roles : roles c = Some r;
  rd_healthy : poisoned r = false;
  rd_inv : RoleSession.session_inv r;
  rd_catalog : catalog r = role_catalog auth;
  rd_user : exists r0, start_role_session auth who = Ok r0 /\ session_user (session r0) = session_user (session r);
  rd_epoch : epoch (session r) <= n;
  rd_statements : forall name s, statements c !! name = Some s -> stored r (statement_epoch s) (justified s);
  rd_portals : forall name p, portals c !! name = Some p ->
    stored r (statement_epoch (portal_statement p)) (justified (portal_statement p));
  rd_cursors : forall name m, cursors (cursors_of c) !! name = Some m ->
    stored r (session_epoch (Cursors.cursor_statement m)) (fun i => statement_allowed KindRead i (planned_sql (Cursors.cursor_statement m)));
  rd_calls : Forall (call_ok who) (calls c) }.
Record fresh (c : Conn) : Prop := {
  fr_login : login c = who;
  fr_roles : roles c = None;
  fr_statements : statements c = ∅;
  fr_portals : portals c = ∅;
  fr_cursors : cursors (cursors_of c) = ∅;
  fr_calls : calls c = [] }.
Definition Inv (n : Z) (c : Conn) : Prop := fresh c \/ exists r, ready n r c.

(** The parts of a connection that the invariant is about *)
Definition same_parts (c c' : Conn) : Prop :=
  login c' = login c /\ roles c' = roles c /\ statements c' = statements c /\ portals c' = portals c /\
  cursors_of c' = cursors_of c /\ calls c' = calls c.
Lemma ready_same n r c c' : ready n r c -> same_parts c c' -> ready n r c'.
Proof using. intros [] (Hl & Hr & Hs & Hp & Hk & Hc). split; rewrite ?Hl, ?Hr, ?Hs, ?Hp, ?Hk, ?Hc; done. Qed.
Lemma fresh_same c c' : fresh c -> same_parts c c' -> fresh c'.
Proof using. intros [] (Hl & Hr & Hs & Hp & Hk & Hc). split; congruence. Qed.
Lemma Inv_same n c c' : Inv n c -> same_parts c c' -> Inv n c'.
Proof using. intros [Hf|[r Hr]] Hs; [left; by eapply fresh_same|right; exists r; by eapply ready_same]. Qed.
Lemma ready_mono n m r c : n <= m -> ready n r c -> ready m r c.
Proof using. intros Hnm []. split; try done. lia. Qed.
Lemma Inv_mono n m c : n <= m -> Inv n c -> Inv m c.
Proof using. intros Hnm [Hf|[r Hr]]; [by left|right; exists r; by eapply ready_mono]. Qed.
Lemma ready_identity n r c : ready n r c -> identity r = Ok (identity_of r) /\ identity_now c = Some (identity_of r).
Proof using.
  intros []. assert (Hi : identity r = Ok (identity_of r)) by (unfold identity, lock; by rewrite rd_healthy0).
  split; [done|]. unfold identity_now. by rewrite rd_roles0, Hi.
Qed.

(** ** Triples

    [E] holds where a handler returns early. *)
Definition triple {A} (E P : Conn -> Prop) (m : Handler A) (Q : A -> Conn -> Prop) : Prop :=
  forall c, P c -> match m c with (Ok a, c') => Q a c' | (Err _, c') => E c' end.

Lemma triple_bind {A B} E P (m : Handler A) Q (k : A -> Handler B) R :
  triple E P m Q -> (forall a, triple E (Q a) (k a) R) -> triple E P (a ← m; k a) R.
Proof using.
  intros Hm Hk c Hc. specialize (Hm c Hc). unfold mbind, handler_bind. destruct (m c) as [[a|e] c']; [by apply Hk|done].
Qed.
Lemma triple_conseq {A} (E E' : Conn -> Prop) P P' (m : Handler A) (Q Q' : A -> Conn -> Prop) :
  (forall c, P c -> P' c) -> (forall c, E' c -> E c) -> triple E' P' m Q' -> (forall a c, Q' a c -> Q a c) -> triple E P m Q.
Proof using. intros HP HE Hm HQ c Hc. specialize (Hm c (HP c Hc)). destruct (m c) as [[a|e] c']; [by apply HQ|by apply HE]. Qed.
Lemma triple_returns {A} E (P : Conn -> Prop) (a : A) (Q : A -> Conn -> Prop) : (forall c, P c -> Q a c) -> triple E P (returns a) Q.
Proof using. intros HQ c Hc. by apply HQ. Qed.
Lemma triple_pure {A} E (X : Prop) P (m : Handler A) Q : (X -> triple E P m Q) -> triple E (fun c => X /\ P c) m Q.
Proof using. intros Hm c [Hx Hc]. by apply Hm. Qed.

Definition at_rest (n : Z) (r : RoleSessionState RoleCatalog) {A} : A -> Conn -> Prop := fun _ => ready n r.
Lemma ready_Inv n m r c : n <= m -> ready n r c -> Inv m c.
Proof using. intros Hnm Hr. right. exists r. by eapply ready_mono. Qed.
Hint Resolve ready_Inv : core.

Lemma triple_try {A} n r (x : result PgWireError A) : triple (ready n r) (ready n r) (try_ x) (fun a c => x = Ok a /\ ready n r c).
Proof using. intros c Hc. unfold try_. by destruct x. Qed.
Lemma triple_throw {A} n r e Q : triple (ready n r) (ready n r) (throw (A := A) e) Q.
Proof using. by intros c Hc. Qed.
Lemma triple_look {A} n r (f : Conn -> A) : triple (ready n r) (ready n r) (look f) (at_rest n r).
Proof using. by intros c Hc. Qed.
Lemma triple_engine {A} n r (f : World -> result PgWireError A * World) : triple (ready n r) (ready n r) (on_engine f) (at_rest n r).
Proof using.
  intros c Hc. unfold on_engine. destruct (f (world c)) as [[a|e] w]; by eapply ready_same.
Qed.
Lemma ready_call n r c k : ready n r c -> allowed (identity_of r) k -> ready n r (add_call k c).
Proof using.
  intros Hr Ha. destruct (ready_identity _ _ _ Hr) as [_ Hi]. destruct Hr. split; cbn; try done.
  apply Forall_app. split; [done|]. apply Forall_singleton. exists (identity_of r). split_and!; [done| |done].
  split; [done|]. cbn. rewrite <- rd_catalog0. by apply effective_role_allowed.
Qed.
Lemma triple_call {A} n r k (f : World -> result PgWireError A * World) : allowed (identity_of r) k ->
  triple (ready n r) (ready n r) (call k f) (at_rest n r).
Proof using.
  intros Ha. eapply triple_bind; [|intros ?; apply triple_engine]. intros c Hc. by apply ready_call.
Qed.
Tactic Notation "next" uconstr(lem) :=
  eapply triple_bind; [apply lem|cbn beta; intros ?; try (apply triple_pure; intros ?; subst)].
Tactic Notation "next" uconstr(lem) "as" simple_intropattern(p) :=
  eapply triple_bind; [apply lem|cbn beta; intros p; try (apply triple_pure; intros ?; subst)].
Ltac rest := apply triple_returns; unfold at_rest; eauto.

Lemma triple_role n r : triple (ready n r) (ready n r) client_role_session (fun r' c => r' = r /\ ready n r c).
Proof using. intros c Hc. unfold client_role_session. by rewrite (rd_roles _ _ _ Hc). Qed.
Lemma start_role_session_facts user r : start_role_session auth user = Ok r ->
  poisoned r = false /\ RoleSession.session_inv r /\ catalog r = role_catalog auth /\ epoch (session r) = 0.
Proof using.
  unfold start_role_session. intros Hs. apply bind_ok in Hs as (name & _ & Hs).
  destruct (new_session name (role_catalog auth)) as [r'|] eqn:Hn; [|done]. injection Hs as <-.
  pose proof (new_session_inv _ _ _ Hn). unfold new_session in Hn. inv_ok. done.
Qed.
Lemma triple_start n : 0 <= n -> triple (Inv n) (Inv n) client_role_session (fun r c => ready n r c).
Proof using.
  intros Hn c [Hf|[r Hr]]; unfold client_role_session; [|by rewrite (rd_roles _ _ _ Hr)].
  rewrite (fr_roles _ Hf). destruct (start_role_session auth (login c)) as [r|] eqn:Hr; [|by left]. destruct Hf as [Hw _ Hs Hp Hk Hc].
  destruct (start_role_session_facts _ _ Hr) as (Hh & Hi & Hcat & He).
  rewrite Hw in Hr. split; cbn; rewrite ?Hs, ?Hp, ?Hk, ?Hc; eauto; [lia|by intros ? ? ?%lookup_empty_Some..].
Qed.
Lemma triple_identity n r : triple (ready n r) (ready n r) client_identity (fun i c => i = identity_of r /\ ready n r c).
Proof using.
  next triple_role. intros c Hc. destruct (ready_identity _ _ _ Hc) as [Hi _]. unfold try_. by rewrite Hi.
Qed.
Lemma triple_identity_start n : 0 <= n -> triple (Inv n) (Inv n) client_identity (fun i c => exists r, i = identity_of r /\ ready n r c).
Proof using.
  intros Hn. eapply triple_bind; [by apply triple_start|]. intros r c Hc. cbn beta in Hc.
  destruct (ready_identity _ _ _ Hc) as [Hi _]. unfold try_. rewrite Hi. by exists r.
Qed.
Lemma triple_session n r : triple (ready n r) (ready n r) client_session (at_rest n r).
Proof using.
  intros c Hc. unfold client_session. destruct (session_open c); [done|]. destruct (open_session (world c)) as [[a|e] w]; by eapply ready_same.
Qed.
Lemma triple_require n r b e : triple (ready n r) (ready n r) (require b e) (fun _ c => b = true /\ ready n r c).
Proof using. intros c Hc. unfold require, try_, ensure. by destruct b. Qed.

(** What was stored stays stored when the roles change. *)
Lemma stored_perform op r r' e P : perform op r = Ok r' -> RoleSession.session_inv r -> epoch (session r) < u64_max -> stored r e P -> stored r' e P.
Proof using.
  intros Hp Hi Hn [Hle He]. destruct (perform_epoch _ _ _ Hp) as [Hs|Hs].
  - unfold stored, identity_of. rewrite Hs. done.
  - destruct Hi as [_ _ _ Hb]. unfold stored. rewrite Hs. unfold wrapping_add. rewrite Z.mod_small by (unfold u64_max in *; lia).
    split; [lia|]. intros ->. lia.
Qed.
Lemma ready_perform n r r' op c : ready n r c -> n < u64_max -> perform op r = Ok r' -> ready (n + 1) r' (set_roles r' c).
Proof using.
  intros [] Hn Hp. destruct (perform_frame _ _ _ Hp) as (Hcat & Hu & Hh).
  assert (He : epoch (session r') <= n + 1).
  { destruct (perform_epoch _ _ _ Hp) as [-> | ->]; [lia|]. destruct rd_inv0 as [_ _ _ Hb]. unfold wrapping_add.
    rewrite Z.mod_small by (unfold u64_max in *; lia). lia. }
  split; cbn; try done; try congruence.
  - by eapply perform_inv.
  - rewrite Hu. done.
  - intros name s Hs. eapply stored_perform; eauto. lia.
  - intros name p Hs. eapply stored_perform; eauto. lia.
  - intros name m Hs. eapply stored_perform; eauto. lia.
Qed.
(** The roles have changed at most once since [r]. *)
Definition evolved (n : Z) (r : RoleSessionState RoleCatalog) {A} : A -> Conn -> Prop := fun _ c =>
  exists r', ready (n + 1) r' c /\ forall e P, stored r e P -> stored r' e P.
Lemma evolved_Inv {A} n r (a : A) c : evolved n r a c -> Inv (n + 1) c.
Proof using. intros (r' & Hr & _). right. by exists r'. Qed.
Lemma ready_evolved {A} n r (a : A) c : ready n r c -> evolved n r a c.
Proof using. intros Hr. exists r. split; [|done]. eapply ready_mono; [|done]. lia. Qed.
Lemma triple_on_roles n r f : n < u64_max -> (forall r r', f r = Ok r' -> exists op, perform op r = Ok r') ->
  triple (ready n r) (ready n r) (on_roles f) (evolved n r).
Proof using.
  intros Hn Hf. next triple_role. next triple_try. intros c Hc. cbn. destruct (f r) as [r'|] eqn:Hr; [|done]. cbn in *. simplify_eq.
  destruct (Hf _ _ Hr) as [op Hop]. eexists. split; [by eapply ready_perform|]. destruct Hc.
  intros e P. eapply stored_perform; eauto. lia.
Qed.

(** ** Parsing *)

Lemma triple_authorize n r s : triple (ready n r) (ready n r) (authorize_statement s)
  (fun _ c => authorized_statement (identity_of r) s = Ok tt /\ ready n r c).
Proof using. next triple_identity. eapply triple_conseq; [done|done|apply triple_try|]. by intros [] c. Qed.
Lemma triple_authorize_copy n r t : triple (ready n r) (ready n r) (authorize_copy t)
  (fun _ c => authorized_copy (identity_of r) t = Ok tt /\ ready n r c).
Proof using. next triple_identity. eapply triple_conseq; [done|done|apply triple_try|]. by intros [] c. Qed.
Lemma triple_authorize_maintenance n r m : triple (ready n r) (ready n r) (authorize_maintenance m)
  (fun _ c => authorized_maintenance (identity_of r) m = Ok tt /\ ready n r c).
Proof using. next triple_identity. eapply triple_conseq; [done|done|apply triple_try|]. by intros [] c. Qed.

(** A statement prepared now *)
Definition prepared_now (n : Z) (r : RoleSessionState RoleCatalog) (s : DuckDbStatement) (c : Conn) : Prop :=
  (statement_epoch s = epoch (session r) /\ justified s (identity_of r)) /\ ready n r c.
Lemma triple_prepared n r v source mode : validated source mode (identity_of r) = Ok v ->
  authorized_statement (identity_of r) (valid_ast v) = Ok tt ->
  triple (ready n r) (ready n r) (prepared v (epoch (session r))) (prepared_now n r).
Proof using.
  intros Hv Ha. assert (Hs : statement_allowed (valid_kind v) (identity_of r) (valid_sql v)) by (by exists source, mode, v).
  assert (Hd : triple (ready n r) (ready n r) (described v (epoch (session r))) (prepared_now n r)).
  { next triple_session. eapply triple_bind; [by apply triple_call; exists (valid_kind v)|]. intros [[count schema] cat]. apply triple_returns.
    intros c Hc. split; [|done]. split; [done|]. split_and!; cbn; [done|by intros <-|by intros ? <-]. }
  unfold prepared. destruct (valid_kind v) eqn:Hk; try exact Hd; try (apply triple_returns; intros c Hc; by split_and!).
  next triple_try. apply triple_returns. intros c Hc. by split_and!.
Qed.
Lemma triple_refuse n r text : triple (ready n r) (ready n r) (refuse_in_failed_block text) (at_rest n r).
Proof using. intros c Hc. unfold refuse_in_failed_block. by case_match. Qed.
Lemma triple_parse_sql n r text : triple (ready n r) (ready n r) (parse_sql text) (prepared_now n r).
Proof using.
  unfold parse_sql. next triple_identity. next triple_refuse. next triple_try as [target|].
  - next triple_authorize_copy. apply triple_returns. intros c Hc. split; [|done]. split; [done|]. split_and!; cbn; [|done..]. by intros ? [= <-].
  - next triple_try as [command|].
    + next triple_look. next triple_require. next triple_look. next triple_try. next triple_try. apply triple_returns. intros c Hc. by split_and!.
    + next triple_try. next triple_authorize. by eapply triple_prepared.
Qed.

(** ** Cursors and transactions *)

Definition planned_ok (r : RoleSessionState RoleCatalog) (p : Planned) : Prop :=
  stored r (session_epoch p) (fun i => statement_allowed KindRead i (planned_sql p)).
Definition cursors_ok (r : RoleSessionState RoleCatalog) (k : Cursors (Row := Row)) : Prop :=
  forall name m, cursors k !! name = Some m -> planned_ok r (Cursors.cursor_statement m).
Lemma triple_cursors n r : triple (ready n r) (ready n r) (look cursors_of) (fun k c => cursors_ok r k /\ ready n r c).
Proof using. intros c Hc. split; [exact (rd_cursors _ _ _ Hc)|done]. Qed.
Lemma ready_set_cursors n r c k : ready n r c -> cursors_ok r k -> ready n r (set_cursors_of k c).
Proof using. intros [] Hk. by split. Qed.
Lemma cursors_ok_keeps r k k' : keeps_statements k k' -> cursors_ok r k -> cursors_ok r k'.
Proof using. intros Hkk Hk name m Hm. destruct (Hkk _ _ Hm) as (m0 & H0 & ->). by eapply Hk. Qed.

Lemma triple_open_cursor n r p : planned_ok r p -> triple (ready n r) (ready n r) (open_cursor p) (at_rest n r).
Proof using.
  intros [_ Hp]. unfold open_cursor. next triple_identity. next triple_require. next triple_session.
  eapply triple_bind; [apply triple_call, Hp; cbn in *; lia|]. intros [schema rows]. next triple_require. rest.
Qed.
Lemma triple_on_cursors n r command f planned epoch opened :
  (forall p, planned = Ok p -> is_read p = true -> planned_ok r p) ->
  triple (ready n r) (ready n r) (on_cursors command f planned epoch opened) (at_rest n r).
Proof using.
  intros Hp c Hc. unfold on_cursors. destruct (Cursors.handle_sql_cursor _ _ _ _ _ _ _ _) as [k res] eqn:Hk.
  assert (Hr : ready n r (set_cursors_of k c)).
  { apply ready_set_cursors; [done|]. intros name m Hm. destruct (cursor_command_statements _ _ _ _ _ _ _ _ _ _ _ Hk Hm) as [(m0 & H0 & ->)|[H1 H2]].
    - by eapply (rd_cursors _ _ _ Hc).
    - by apply Hp. }
  by destruct res.
Qed.
Lemma fetch_opens_lookup (k : Cursors (Row := Row)) name rows f p : fetch_opens k name rows f = Some p ->
  exists m, cursors k !! name = Some m /\ Cursors.cursor_statement m = p.
Proof using.
  unfold fetch_opens. destruct (sql_cursor_metadata k name) as [m|] eqn:Hm; [|done]. apply metadata_lookup in Hm.
  repeat case_match; naive_solver.
Qed.
Lemma triple_handle_cursor n r command f : triple (ready n r) (ready n r) (handle_sql_cursor command f) (at_rest n r).
Proof using.
  unfold handle_sql_cursor. next triple_session. next triple_look. next triple_require.
  eapply triple_bind; [apply triple_cursors|]. intros k. apply triple_pure. intros Hk. destruct command as [name text binary|name rows|name].
  - next triple_try. eapply triple_bind; [apply triple_parse_sql|]. intros s. apply triple_pure. intros [He Hj]. apply triple_on_cursors.
    intros p [= <-] Hread. split; cbn; [lia|]. intros _. apply Hj. cbn in Hread. by apply bool_decide_eq_true in Hread.
  - destruct (fetch_opens k name rows f) as [p|] eqn:Hp; [|by apply triple_on_cursors].
    destruct (fetch_opens_lookup _ _ _ _ _ Hp) as (m & Hm & <-). eapply triple_bind; [by eapply triple_open_cursor, Hk|]. intros opened.
    by apply triple_on_cursors.
  - by apply triple_on_cursors.
Qed.

Lemma performs_end r r' : RoleSession.end_transaction r = Ok r' -> exists op, perform op r = Ok r'.
Proof using. intros Hr. by exists OpEndTransaction. Qed.
Lemma triple_finish {A B} E n r (a : A) (b : B) : triple E (evolved n r b) (returns a) (evolved n r).
Proof using. by apply triple_returns. Qed.
Lemma triple_end n r command : n < u64_max -> triple (ready n r) (ready n r) (end_transaction command) (evolved n r).
Proof using.
  intros Hn. unfold end_transaction. next triple_look. next triple_role. next triple_session. next triple_engine. next triple_cursors as k.
  destruct (close_all_sql_cursors k _) as [k' closed] eqn:Hk. apply close_all_keeps in Hk.
  assert (Hroles : forall tag, triple (ready n r) (ready n r) (_ ← on_roles RoleSession.end_transaction; returns (TransactionEnd (Row := Row) tag)) (evolved n r)).
  { intros tag. eapply triple_bind; [by apply triple_on_roles, performs_end|]. intros []. apply triple_finish. }
  eapply (triple_bind _ _ _ (at_rest n r)).
  { intros c Hc. apply ready_set_cursors; [done|]. by eapply cursors_ok_keeps. }
  intros []. next triple_try. eapply (triple_bind _ _ _ (at_rest n r)).
  { intros c []. split; cbn; done. }
  intros []. next triple_look as state. destruct state; [next triple_require; apply Hroles|next triple_engine; apply Hroles|apply triple_throw].
Qed.
Lemma triple_begin n r ro : triple (ready n r) (ready n r) (begin_transaction ro) (at_rest n r).
Proof using. unfold begin_transaction. next triple_engine. rest. Qed.
Lemma triple_weaken {A} n r (m : Handler A) : triple (ready n r) (ready n r) m (at_rest n r) -> triple (ready n r) (ready n r) m (evolved n r).
Proof using. intros Hm. eapply triple_conseq; [done|done|exact Hm|]. intros a c. apply ready_evolved. Qed.
Lemma triple_attempt {A} n r (m : Handler A) : triple (ready n r) (ready n r) m (at_rest n r) ->
  triple (ready n r) (ready n r) (attempt m) (at_rest n r).
Proof using. intros Hm c Hc. specialize (Hm c Hc). unfold attempt. by destruct (m c) as [[a|e] c']. Qed.
(** The invariant where a batch or an execution ends, early or not *)
Lemma triple_early {A} n r (m : Handler A) Q : triple (ready n r) (ready n r) m Q -> triple (Inv (n + 1)) (ready n r) m Q.
Proof using. intros Hm. eapply triple_conseq; [done| |exact Hm|done]. intros c Hc. eapply ready_Inv; [|exact Hc]. lia. Qed.
Lemma triple_to_Inv {A} E P n r (m : Handler A) : triple E P m (evolved n r) -> triple E P m (fun _ c => Inv (n + 1) c).
Proof using. intros Hm. eapply triple_conseq; [done|done|exact Hm|]. intros a c Hc. by eapply evolved_Inv. Qed.
Lemma triple_batch n r b : n < u64_max -> triple (Inv (n + 1)) (ready n r) (handle_sql_cursor_batch b) (fun _ c => Inv (n + 1) c).
Proof using.
  intros Hn. destruct b as [declare|close command]; cbn [handle_sql_cursor_batch].
  - eapply triple_bind; [apply triple_early, triple_session|]. intros []. eapply triple_bind; [apply triple_early, triple_begin|]. intros begin.
    eapply triple_bind; [apply triple_early, triple_attempt, triple_handle_cursor|].
    assert (Hend : forall e, triple (Inv (n + 1)) (ready n r) (_ ← end_transaction RollbackCommand; throw (A := Responses (Row := Row)) e) (fun _ c => Inv (n + 1) c)).
    { intros e. eapply triple_bind; [by apply triple_early, triple_end|]. intros ? c Hc. by eapply evolved_Inv. }
    intros [declared|[]]; try apply Hend; eapply triple_to_Inv, triple_early, triple_weaken; rest.
  - eapply triple_bind; [apply triple_early, triple_handle_cursor|]. intros closed.
    eapply triple_bind; [by apply triple_early, triple_end|]. intros ended. eapply triple_to_Inv, triple_finish.
Qed.

(** ** The simple protocol *)

Lemma triple_apply_role n r command b : n < u64_max -> triple (ready n r) (ready n r) (apply_role_command command b) (evolved n r).
Proof using.
  intros Hn. destruct command as [role local|]; apply triple_on_roles; try done; intros r0 r' Hr.
  - by exists (OpSetRole role local b).
  - by exists OpResetRole.
Qed.
Lemma triple_setting n r name value b : n < u64_max ->
  triple (ready n r) (ready n r) (on_roles (fun r => set_request_setting r name value b)) (evolved n r).
Proof using. intros Hn. apply triple_on_roles; [done|]. intros r0 r' Hr. by exists (OpSetRequestSetting name value b). Qed.

(** What the authorization of the simple protocol has established *)
Definition simple_allowed (i : SessionIdentity) (simple : SimpleStatementKind) (text : str) : Prop :=
  match simple with
  | SimpleRead => statement_allowed KindRead i text
  | SimpleWrite command => statement_allowed (KindWrite command) i text
  | SimpleCopy target => authorized_copy i target = Ok tt
  | SimpleMaintenance command => authorized_maintenance i command = Ok tt
  | _ => True
  end.
Lemma validated_simple text i sql simple ast :
  validate_simple_sql_with_catalog_identity parse prepare_statement check_statement execution_text text
    catalog_identity_enabled (Some i) (role_catalog auth) = Ok (sql, simple, ast) ->
  (exists target, simple = SimpleCopy target) \/ (exists count, simple = SimpleSessionSetBatch count) \/
  exists v, validated text Simple i = Ok v /\ valid_sql v = sql /\ simple_kind v = Ok simple /\ ast = Some (valid_ast v).
Proof using.
  unfold validate_simple_sql_with_catalog_identity. intros Hv. apply bind_ok in Hv as ([target|] & _ & Hv).
  { apply bind_ok in Hv as (? & _ & [= <- <- <-]). left. eauto. }
  apply bind_ok in Hv as ([count|] & _ & Hv); [injection Hv as <- <- <-; right; left; eauto|].
  apply bind_ok in Hv as (v & Hv & Hk). apply bind_ok in Hk as (k & Hk & [= <- <- <-]). right. right. exists v. done.
Qed.
Lemma simple_kind_reads v simple : simple_kind v = Ok simple ->
  (simple = SimpleRead -> valid_kind v = KindRead) /\ (forall command, simple = SimpleWrite command -> valid_kind v = KindWrite command).
Proof using.
  unfold simple_kind. destruct (valid_kind v); intros Hk; try (injection Hk as <-; naive_solver); try done.
  - apply bind_ok in Hk as (? & _ & [= <-]). naive_solver.
  - apply bind_ok in Hk as (? & _ & [= <-]). naive_solver.
  - apply bind_ok in Hk as (? & _ & Hk). apply bind_ok in Hk as (? & _ & [= <-]). naive_solver.
Qed.
Lemma triple_authorize_simple n r text sql simple ast :
  validate_simple_sql_with_catalog_identity parse prepare_statement check_statement execution_text text
    catalog_identity_enabled (Some (identity_of r)) (role_catalog auth) = Ok (sql, simple, ast) ->
  triple (ready n r) (ready n r) (authorize_simple simple ast) (fun _ c => simple_allowed (identity_of r) simple sql /\ ready n r c).
Proof using.
  intros Hv. apply validated_simple in Hv as [[target ->]|[[count ->]|(v & Hv & <- & Hk & ->)]].
  - apply triple_authorize_copy.
  - destruct ast; [|by apply triple_returns]. cbn. eapply triple_conseq; [done|done|apply triple_authorize|]. by intros ? c [_ Hc].
  - pose proof (simple_kind_reads _ _ Hk) as [Hr Hw].
    assert (Hs : triple (ready n r) (ready n r) (authorize_statement (valid_ast v))
      (fun _ c => ((valid_kind v = KindRead -> statement_allowed KindRead (identity_of r) (valid_sql v)) /\
        forall command, valid_kind v = KindWrite command -> statement_allowed (KindWrite command) (identity_of r) (valid_sql v)) /\ ready n r c)).
    { eapply triple_conseq; [done|done|apply triple_authorize|]. intros ? c [Ha Hc]. split; [|done]. split; intros; by exists text, Simple, v. }
    destruct simple; cbn [authorize_simple simple_allowed]; try apply triple_authorize_copy; try apply triple_authorize_maintenance;
      (eapply triple_conseq; [done|done|apply Hs|]); intros ? c0 [[Hsr Hsw] Hc]; (split; [|done]); auto.
Qed.
Lemma triple_execute_simple n r simple text ast : n < u64_max -> simple_allowed (identity_of r) simple text ->
  triple (ready n r) (ready n r) (execute_simple simple text ast) (evolved n r).
Proof using.
  intros Hn Ha. destruct simple; cbn [execute_simple simple_allowed] in *.
  - apply triple_weaken. next triple_engine. eapply triple_bind; [by apply triple_call|]. intros [schema rows]. rest.
  - apply triple_weaken. eapply triple_bind; [by apply triple_call|]. intros rows. rest.
  - apply triple_weaken. next triple_begin. rest.
  - eapply triple_bind; [by apply triple_end|]. intros response. apply triple_finish.
  - eapply triple_bind; [by apply triple_end|]. intros response. apply triple_finish.
  - apply triple_weaken. rest.
  - apply triple_weaken. rest.
  - next triple_look. eapply triple_bind; [by apply triple_apply_role|]. intros []. apply triple_finish.
  - destruct (request_value c); [|apply triple_throw]. next triple_look. eapply triple_bind; [by apply triple_setting|]. intros []. apply triple_finish.
  - apply triple_weaken. next triple_look. next triple_require. next triple_identity. eapply triple_bind; [by apply triple_call|]. intros rows. rest.
  - apply triple_weaken. eapply triple_bind; [by apply triple_call|]. intros []. rest.
Qed.
Lemma triple_do_query n text : 0 <= n -> n < u64_max -> triple (Inv (n + 1)) (Inv n) (do_query text) (fun _ c => Inv (n + 1) c).
Proof using.
  intros H0 Hn. unfold do_query. eapply triple_bind.
  { eapply triple_conseq; [done| |by apply triple_identity_start|done]. intros c. apply Inv_mono. lia. }
  intros i c (r & -> & Hc). revert c Hc.
  eapply triple_bind; [apply triple_early, triple_refuse|]. intros []. eapply triple_bind; [apply triple_early, triple_try|]. intros cursor. apply triple_pure. intros _.
  destruct cursor as [[command|b]|]; [|by apply triple_batch|].
  - eapply triple_to_Inv, triple_early, triple_weaken. next triple_handle_cursor. rest.
  - eapply triple_to_Inv, triple_early. unfold execute_statement. eapply triple_bind; [apply triple_try|]. intros [[sql simple] ast]. apply triple_pure. intros Hv.
    next (triple_authorize_simple _ _ _ _ _ _ Hv). next triple_session. by apply triple_execute_simple.
Qed.

(** ** The extended protocol *)

Definition portal_ok (r : RoleSessionState RoleCatalog) (p : Portal (Row := Row)) : Prop :=
  stored r (statement_epoch (portal_statement p)) (justified (portal_statement p)).
Lemma triple_execute_kind n r s bound : n < u64_max -> justified s (identity_of r) ->
  triple (ready n r) (ready n r) (execute_kind s bound) (evolved n r).
Proof using.
  intros Hn (_ & Hread & Hwrite). unfold execute_kind. destruct (kind s) eqn:Hk; try apply triple_throw.
  - apply triple_weaken. eapply triple_bind; [by apply triple_call, Hread|]. intros [schema rows]. next triple_require. rest.
  - apply triple_weaken. eapply triple_bind; [by apply triple_call, Hwrite|]. intros rows. rest.
  - apply triple_weaken, triple_begin.
  - by apply triple_end.
  - by apply triple_end.
  - apply triple_weaken. rest.
  - next triple_try. next triple_look. eapply triple_bind; [by apply triple_apply_role|]. intros []. apply triple_finish.
  - next triple_try. next triple_try. next triple_look. eapply triple_bind; [by apply triple_setting|]. intros []. apply triple_finish.
Qed.
Lemma triple_portal n r p : n < u64_max -> portal_ok r p -> triple (ready n r) (ready n r) (do_query_portal p) (evolved n r).
Proof using.
  intros Hn [_ Hp]. unfold do_query_portal. next triple_identity. eapply triple_bind; [apply triple_require|]. intros []. apply triple_pure. intros He.
  specialize (Hp ltac:(cbn in He; lia)). destruct (copy_target (portal_statement p)) as [target|] eqn:Ht; [|destruct (sql_cursor_command _) as [command|]].
  - apply triple_weaken. next triple_session. eapply triple_bind; [apply triple_call; by apply Hp|]. intros []. rest.
  - apply triple_weaken. next triple_require. apply triple_handle_cursor.
  - next triple_try. next triple_session. by apply triple_execute_kind.
Qed.

Lemma ready_set_portal n r name p t c : ready n r c -> portal_ok r p -> ready n r (set_portal_state name p t c).
Proof using.
  intros [] Hp. split; cbn; try done. intros other q. destruct (decide (other = name)) as [->|];
    [rewrite lookup_insert_eq; by intros [= <-]|rewrite lookup_insert_ne by done; apply rd_portals0].
Qed.
Lemma ready_fewer n r ps c : ready n r c -> ps ⊆ portals c -> ready n r (set_store (statements c) ps c).
Proof using. intros [] Hp. split; cbn; try done. intros name p Hs. by eapply rd_portals0, lookup_weaken. Qed.
(** The sending of rows, and the change of status, after an execution *)
Lemma triple_rows n r p q name max_rows {A} (a : A) : portal_ok r p -> portal_statement q = portal_statement p ->
  triple (Inv (n + 1)) (evolved n r a) (send_rows name q max_rows) (evolved n r).
Proof using.
  intros Hp Hq c (r' & Hr & Hs). unfold send_rows. destruct (portal_fetch _ _) as [res t].
  assert (H' : ready (n + 1) r' (set_portal_state name q t c)) by (apply ready_set_portal; [done|]; apply Hs; unfold portal_ok in Hp; by rewrite Hq).
  destruct res as [[? ?]|]; [by exists r'|right; by exists r'].
Qed.
Lemma triple_status {A} E n r (a : A) t : triple E (evolved n r a) (change (set_status t)) (evolved n r).
Proof using. intros c (r' & Hr & Hs). exists r'. split; [by eapply ready_same|done]. Qed.
Lemma triple_execute_portal n r name p max_rows : n < u64_max -> portal_ok r p ->
  triple (Inv (n + 1)) (ready n r) (execute_portal name p max_rows) (evolved n r).
Proof using.
  intros Hn Hp. unfold execute_portal. destruct (portal_state p).
  - eapply triple_bind; [apply triple_early, triple_look|]. intros t. eapply triple_bind; [by apply triple_early, triple_portal|]. intros response.
    destruct response; try apply triple_status; [| |by apply triple_returns].
    + eapply triple_bind; [by eapply triple_rows|]. intros []. apply triple_status.
    + intros c (r' & Hr & Hs). exists r'. split; [|done]. eapply ready_same; [by apply (ready_fewer _ _ _ _ Hr (delete_subseteq _ DEFAULT_NAME))|done].
  - intros c Hc. by apply (triple_rows n r p p name max_rows tt), ready_evolved.
  - intros c Hc. by apply (triple_rows n r p p name max_rows tt), ready_evolved.
Qed.
Lemma triple_execute_read n r name p max_rows : n < u64_max -> portal_ok r p ->
  triple (Inv (n + 1)) (ready n r) (execute_read name p max_rows) (evolved n r).
Proof using.
  intros Hn Hp. unfold execute_read. destruct (portal_state p).
  - eapply triple_bind; [by apply triple_early, triple_portal|]. intros response.
    destruct response; try (intros c Hc; by eapply evolved_Inv). by eapply triple_rows.
  - intros c Hc. by apply (triple_rows n r p p name max_rows tt), ready_evolved.
  - apply triple_early, triple_throw.
Qed.
Lemma execute_fresh c name max_rows : fresh c -> fresh (on_execute name max_rows c).2.
Proof using.
  intros Hf. unfold on_execute, require, try_, ensure, mbind, handler_bind. destruct (max_rows <? 0); cbn; [done|]. by rewrite (fr_portals _ Hf), lookup_empty.
Qed.
Lemma triple_on_execute n r name max_rows : n < u64_max -> triple (Inv (n + 1)) (ready n r) (on_execute name max_rows) (evolved n r).
Proof using.
  intros Hn. unfold on_execute. eapply triple_bind; [apply triple_early, triple_require|]. intros []. apply triple_pure. intros _.
  eapply (triple_bind _ _ _ (fun found c => (forall p, found = Some p -> portal_ok r p) /\ ready n r c)).
  { intros c Hc. split; [|done]. intros p. apply (rd_portals _ _ _ Hc). }
  intros found. apply triple_pure. intros Hfound. eapply triple_bind; [apply triple_early, triple_try|]. intros p. apply triple_pure. intros Hp.
  destruct found as [q|]; [|done]. injection Hp as ->. case_bool_decide; [apply triple_execute_read|apply triple_execute_portal]; eauto.
Qed.

(** ** Messages *)

Lemma on_query_inv n text c : 0 <= n -> n < u64_max -> Inv n c -> Inv (n + 1) (on_query text c).2.
Proof using.
  intros H0 Hn Hc. unfold on_query. destruct (is_empty_query text); [eapply Inv_mono; [|exact Hc]; lia|].
  unfold mbind, handler_bind, look. pose proof (triple_do_query n text H0 Hn c Hc) as Hq. destruct (do_query text c) as [[rs|e] c1]; [|done]. unfold try_.
  destruct (send_responses rs (status c)) as [t|e]; [|done]. destruct (existsb is_copy rs); [done|]. by eapply Inv_same.
Qed.
Lemma ready_insert_statement n r name s c : ready n r c -> stored r (statement_epoch s) (justified s) ->
  ready n r (set_store (<[name := s]> (statements c)) (portals c) c).
Proof using.
  intros [] Hs. split; cbn; try done. intros other q. destruct (decide (other = name)) as [->|];
    [rewrite lookup_insert_eq; by intros [= <-]|rewrite lookup_insert_ne by done; apply rd_statements0].
Qed.
(** A handler that begins with the identity either fails at once or runs with the roles started. *)
Lemma start_cases n c : 0 <= n -> Inv n c ->
  (forall A (k : SessionIdentity -> Handler A), exists e, mbind k client_identity c = (Err e, c)) \/
  exists r c', ready n r c' /\ forall A (k : SessionIdentity -> Handler A), mbind k client_identity c = mbind k client_identity c'.
Proof using.
  intros H0 Hc. pose proof (triple_start n H0 c Hc) as Hs. destruct (client_role_session c) as [[r|e] c'] eqn:Hr.
  - right. exists r, c'. split; [done|]. intros A k. unfold mbind, handler_bind, client_identity, mbind, handler_bind. rewrite Hr.
    unfold client_role_session. by rewrite (rd_roles _ _ _ Hs).
  - left. intros A k. exists e. unfold mbind, handler_bind, client_identity, mbind, handler_bind. rewrite Hr.
    unfold client_role_session in Hr. destruct (roles c); [done|]. destruct (start_role_session auth (login c)); by simplify_eq.
Qed.
Lemma on_parse_inv n name text c : 0 <= n -> Inv n c -> Inv (n + 1) (on_parse name text c).2.
Proof using.
  intros H0 Hc. assert (Hr : forall r c', ready n r c' -> Inv n (on_parse name text c').2).
  { intros r c' Hr. pose proof (triple_parse_sql n r text c' Hr) as Hp. unfold on_parse, mbind, handler_bind.
    destruct (parse_sql text c') as [[s|e] c1]; [|right; by exists r]. destruct Hp as [[He Hj] H1]. right. exists r.
    apply ready_insert_statement; [done|]. unfold stored. rewrite He. done. }
  eapply (Inv_mono n); [lia|]. destruct (start_cases n c H0 Hc) as [He|(r & c' & H' & He)].
  - unfold on_parse, parse_sql. unfold mbind at 1, handler_bind at 1. edestruct He as [e ->]. done.
  - assert (on_parse name text c = on_parse name text c') as ->; [|by eapply Hr].
    unfold on_parse, parse_sql. unfold mbind at 1, handler_bind at 1. rewrite He. done.
Qed.
Lemma on_bind_inv n a b bound f c : 0 <= n -> Inv n c -> Inv n (on_bind a b bound f c).2.
Proof using.
  intros H0 [Hf|[r Hr]]; unfold on_bind, mbind, handler_bind, look, try_; [left; by rewrite (fr_statements _ Hf), lookup_empty|right]. exists r. destruct (statements c !! b) as [s|] eqn:Hs; [|done]. cbn.
  apply (ready_set_portal n r a (mkPortal s bound f Initial) Initial c Hr), (rd_statements _ _ _ Hr _ _ Hs).
Qed.
Lemma on_close_inv n is_statement name c : Inv n c -> Inv n (on_close is_statement name c).2.
Proof using.
  intros [Hf|[r Hr]]; cbn.
  - left. destruct Hf as [? ? Hs Hp ? ?]. destruct is_statement; split; cbn; rewrite ?Hs, ?Hp, ?delete_empty; done.
  - right. exists r. destruct is_statement; [|by apply (ready_fewer _ _ _ _ Hr), delete_subseteq].
    destruct Hr. split; cbn; try done. intros other s Hs. eapply rd_statements0. by apply lookup_delete_Some in Hs as [_ Hs].
Qed.
Lemma on_execute_inv n name max_rows c : 0 <= n -> n < u64_max -> Inv n c -> Inv (n + 1) (on_execute name max_rows c).2.
Proof using.
  intros H0 Hn [Hf|[r Hr]]; [left; by apply execute_fresh|].
  pose proof (triple_on_execute n r name max_rows Hn c Hr) as Hx. destruct (on_execute name max_rows c) as [[a|e] c']; [by eapply evolved_Inv|done].
Qed.
Lemma handle_inv n m c : 0 <= n -> n < u64_max -> Inv n c -> Inv (n + 1) (handle m c).2.
Proof using.
  intros H0 Hn Hc. assert (Hsame : forall c', same_parts c c' -> Inv (n + 1) c') by (intros c' Hs; eapply (Inv_mono n); [lia|]; by eapply Inv_same).
  destruct m as [text|name text|a b bound f|name max_rows|is_statement name| |? [e|]|]; cbn [handle].
  - by apply on_query_inv.
  - by apply on_parse_inv.
  - eapply (Inv_mono n); [lia|]. by apply on_bind_inv.
  - by apply on_execute_inv.
  - eapply (Inv_mono n); [lia|]. by apply on_close_inv.
  - eapply (Inv_mono n); [lia|]. apply (on_close_inv n false DEFAULT_NAME c Hc).
  - by apply Hsame.
  - by apply Hsame.
  - by apply Hsame.
Qed.
Lemma receive_inv n m c : 0 <= n -> n < u64_max -> Inv n c -> Inv (n + 1) (receive m c).
Proof using.
  intros H0 Hn Hc. pose proof (handle_inv n m c H0 Hn Hc) as Hh. unfold receive. destruct (handle m c) as [[a|e] c']; [done|]. by eapply Inv_same.
Qed.
Lemma receive_all_inv ms : forall n c, 0 <= n -> n + len ms <= u64_max -> Inv n c -> Inv (n + len ms) (receive_all ms c).
Proof using.
  induction ms as [|m ms IH]; intros n c H0 Hn Hc; [by rewrite Z.add_0_r|]. unfold len in *. cbn [length receive_all fold_left] in *.
  replace (n + Z.of_nat (S (length ms))) with (n + 1 + Z.of_nat (length ms)) by lia. apply IH; [lia|lia|]. apply receive_inv; [lia|lia|done].
Qed.
Lemma connected_inv w : Inv 0 (connected who w).
Proof using. by left. Qed.

(** ** Stale portals and cursors *)

Lemma identity_step {A} (k : SessionIdentity -> Handler (Row := Row) (World := World) A) i (c : Conn) : identity_now c = Some i -> mbind k client_identity c = k i c.
Proof using.
  unfold identity_now, mbind, handler_bind, client_identity, mbind, handler_bind, client_role_session, try_.
  destruct (roles c) as [r|]; [|done]. destruct (identity r); [|done]. by intros [= ->].
Qed.
Lemma handler_step {A B} (m : Handler (Row := Row) (World := World) A) (k : A -> Handler (Row := Row) (World := World) B) c a c' :
  m c = (Ok a, c') -> mbind k m c = k a c'.
Proof using. unfold mbind, handler_bind. by intros ->. Qed.
(** Portals and cursors of another epoch whose query has not been given to the engine *)
Definition stale_portal (c : Conn) (name : str) : Prop :=
  exists p i, portals c !! name = Some p /\ portal_state p = Initial /\ identity_now c = Some i /\
    identity_epoch i <> statement_epoch (portal_statement p).
Definition stale_cursor (c : Conn) (name : str) : Prop :=
  exists m i, cursors (cursors_of c) !! name = Some m /\ portal m = Initial /\ identity_now c = Some i /\
    identity_epoch i <> session_epoch (Cursors.cursor_statement m).
Lemma stale_portal_refused c name max_rows : stale_portal c name ->
  exists e, handle (MessageExecute name max_rows) c = (Err e, c).
Proof using.
  intros (p & i & Hp & Hs & Hi & He). cbn [handle]. unfold on_execute, require, try_, ensure, look, mbind, handler_bind.
  destruct (max_rows <? 0); cbn; [eauto|]. rewrite Hp. cbn.
  assert (exists e, do_query_portal p c = (Err e, c)) as [e Hq].
  { unfold do_query_portal. rewrite (identity_step _ i c Hi). unfold require, try_, ensure, mbind, handler_bind.
    rewrite (proj2 (Z.eqb_neq _ _) He). eauto. }
  exists e. case_bool_decide; [unfold execute_read|unfold execute_portal]; rewrite Hs; unfold look, mbind, handler_bind; by rewrite Hq.
Qed.
(** A FETCH that opens nothing, from a cursor that is not open, changes no cursor and gives no row. *)
Lemma unopened_fetch (k : Cursors (Row := Row)) name m rows f order : cursors k !! name = Some m -> portal m = Initial ->
  fetch_opens k name rows f = None ->
  exists r, Cursors.handle_sql_cursor Active k (Fetch name rows) f (Err PortalNotStarted) 0 (Ok []) order = (k, r) /\
    forall a, r = Ok a -> cursor_response a = QueryRows [].
Proof using.
  intros Hm Hp. unfold fetch_opens, Cursors.handle_sql_cursor. rewrite bool_decide_true by done. cbn [negb]. unfold fetch_cursor.
  destruct (sql_cursor_metadata k name) as [m'|e] eqn:Hmeta; [|eexists; by split].
  apply metadata_lookup in Hmeta as Hm'. rewrite Hm in Hm'. injection Hm' as <-. cbv zeta. rewrite Hp.
  destruct (rows =? 0); [eexists; split; [done|]; by intros ? [= <-]|].
  destruct (sql_cursor_result_formats _ _) as [requested|]; [|eexists; by split]. cbn [orb].
  destruct (match result_formats m with Some formats => _ | None => false end); [eexists; by split|done].
Qed.
(** A FETCH from a stale cursor asks nothing of the engine, changes no cursor and gives no row: it is
    refused, or asks for zero rows. *)
Lemma stale_cursor_refused c name rows f : stale_cursor c name ->
  let '(r, c') := handle_sql_cursor (Fetch name rows) f c in
  calls c' = calls c /\ cursors_of c' = cursors_of c /\ forall a, r = Ok a -> a = QueryRows [].
Proof using.
  intros (m & i & Hm & Hp & Hi & He). unfold handle_sql_cursor.
  assert (exists r c1, client_session c = (r, c1) /\ calls c1 = calls c /\ cursors_of c1 = cursors_of c /\ identity_now c1 = Some i)
    as ([[]|e] & c1 & Hs & Hc & Hk & Hi1).
  { unfold client_session. destruct (session_open c); [by eexists _, _|]. destruct (open_session (world c)) as [r w]. by eexists _, _. }
  2:{ unfold mbind, handler_bind. by rewrite Hs. }
  rewrite <- Hc, <- Hk. rewrite <- Hk in Hm.
  rewrite (handler_step _ _ _ _ _ Hs), (handler_step (look _) _ c1 _ c1 eq_refl).
  assert (Hreq : require (bool_decide (engine_state (world c1) = Active)) (UserError "25001") c1 = (Ok tt, c1) \/
    exists e, require (bool_decide (engine_state (world c1) = Active)) (UserError "25001") c1 = (Err e, c1))
    by (unfold require, try_, ensure; case_bool_decide; eauto).
  destruct Hreq as [Hreq|[e Hreq]]; [|unfold mbind, handler_bind; by rewrite Hreq].
  rewrite (handler_step _ _ _ _ _ Hreq), (handler_step (look _) _ c1 _ c1 eq_refl).
  destruct (fetch_opens (cursors_of c1) name rows f) as [p|] eqn:Ho.
  - destruct (fetch_opens_lookup _ _ _ _ _ Ho) as (m' & Hm' & <-). assert (m' = m) as -> by congruence.
    unfold mbind at 1, handler_bind at 1. unfold open_cursor. rewrite (identity_step _ i c1 Hi1).
    unfold require, try_, ensure. unfold mbind at 1, handler_bind at 1. by rewrite (proj2 (Z.eqb_neq _ _) He).
  - unfold on_cursors. destruct (unopened_fetch (cursors_of c1) name m rows f (cursor_order (cursors (cursors_of c1))) Hm Hp Ho) as (r & -> & Hr).
    cbn. split_and!; [done|done|]. destruct r; [|done]. intros ? [= <-]. by apply Hr.
Qed.

(** ** A failed block *)

(** The end of a block: one COMMIT or ROLLBACK without options *)
Definition ends_block (text : str) : Prop :=
  exists normalized s command, normalize_sql text = Ok normalized /\ parse normalized = Some [s] /\
    transaction_end_command (cursor_statement s) = Some command.
Lemma failed_command text : is_ok (validate_failed_transaction_command parse text) = true -> ends_block text.
Proof using.
  unfold validate_failed_transaction_command. destruct (normalize_sql text) as [normalized|] eqn:Hn; [|done]. cbn. unfold parse_statements.
  destruct (parse normalized) as [[|s [|? ?]]|] eqn:Hp; try done. cbn.
  destruct (transaction_end_command (cursor_statement s)) as [command|] eqn:Hc; [|done]. intros _. by exists normalized, s, command.
Qed.
(** A refused text changes nothing, except that the role session may have been started. *)
Definition only_roles_started (c c' : Conn) : Prop := c' = c \/ exists r, roles c = None /\ c' = set_roles r c.
Lemma refused_step {A} (k : SessionIdentity -> Handler A) text c : status c = StatusError -> ~ ends_block text ->
  (forall i, exists a, k i = mbind a (refuse_in_failed_block text)) ->
  exists e c', mbind k client_identity c = (Err e, c') /\ status c' = StatusError /\ only_roles_started c c'.
Proof using.
  intros Hs Ht Hk. assert (Hrefuse : forall c', status c' = StatusError -> forall (a : unit -> Handler (Row := Row) (World := World) A), exists e, mbind a (refuse_in_failed_block text) c' = (Err e, c')).
  { intros c' Hs' a. unfold mbind, handler_bind, refuse_in_failed_block. rewrite Hs'. cbn.
    destruct (validate_failed_transaction_command parse text) as [|e] eqn:Hv; [|by exists e]. contradict Ht. apply failed_command. by rewrite Hv. }
  assert (Hgo : forall i c', status c' = StatusError -> only_roles_started c c' -> exists e, k i c' = (Err e, c')).
  { intros i c' Hs' _. destruct (Hk i) as [a ->]. by apply Hrefuse. }
  unfold mbind, handler_bind, client_identity, mbind, handler_bind, client_role_session, try_.
  destruct (roles c) as [r|] eqn:Hr; [|destruct (start_role_session auth (login c)) as [r|] eqn:Hst].
  - destruct (identity r) as [i|e]; cbn; [|by exists (role_session_error e), c; split_and!; [..|by left]].
    destruct (Hgo i c Hs (or_introl eq_refl)) as [e He]. exists e, c. by split_and!; [..|left].
  - assert (Hnew : only_roles_started c (set_roles r c)) by (right; by exists r).
    destruct (identity r) as [i|e]; cbn; [|by exists (role_session_error e), (set_roles r c)].
    destruct (Hgo i (set_roles r c) Hs Hnew) as [e He]. by exists e, (set_roles r c).
  - by exists (UserError "XX000"), c; split_and!; [..|left].
Qed.
End outcomes.

(** ** Properties *)

(** C1: Nothing unauthorized reaches the engine.  Whatever a client sends, in whatever order and
    protocol, every text the engine is given to describe, query or execute, every COPY and every
    maintenance call was validated and authorized for the identity the connection has at that very
    moment, and that identity is the user who logged in, in a role that user may set.  In particular,
    once the role or the request context has changed, the Execute of a portal bound before and not
    executed is refused and changes nothing, and a FETCH from a cursor declared before and not fetched
    from asks nothing of the engine and delivers no row.  (A portal or cursor whose query the engine was
    given before the change delivers the rest of its rows: opened_queries_survive_role_changes.  The
    epoch that marks such changes has 64 bits.) *)
Theorem engine_calls_authorized {Row Params World : Type} {engine : Engine (Row := Row) (Params := Params) World}
    {server : Server (Row := Row) (Params := Params)} (user : option str) (w : World) (ms : list Message) :
  len ms <= u64_max ->
  let c := receive_all ms (connected user w) in
  Forall (call_ok user) (calls c) /\
  (forall name max_rows, stale_portal c name -> exists e, handle (MessageExecute name max_rows) c = (Err e, c)) /\
  (forall name rows f, stale_cursor c name ->
     let '(r, c') := handle_sql_cursor (Fetch name rows) f c in
     calls c' = calls c /\ cursors_of c' = cursors_of c /\ forall a, r = Ok a -> a = QueryRows []).
Proof.
  intros Hn c. split_and!; [|intros; by apply stale_portal_refused|intros; by apply stale_cursor_refused].
  destruct (receive_all_inv user ms 0 (connected user w)) as [Hf|[r Hr]]; [lia|done|apply connected_inv| |]; subst c.
  - rewrite (fr_calls _ _ Hf). constructor.
  - apply (rd_calls _ _ _ _ Hr).
Qed.

(** C15: In a failed block, a text that is not one plain COMMIT or ROLLBACK changes nothing, sent as
    a query or to be prepared: the block stays failed, no role, request setting, cursor, statement
    or portal changes, and the engine is not called. *)
Theorem failed_block_refused {Row Params World : Type} {engine : Engine (Row := Row) (Params := Params) World}
    {server : Server (Row := Row) (Params := Params)} (c : Connection (Row := Row) (World := World)) (m : Message) (text : str) :
  status c = StatusError -> ~ ends_block text -> (m = MessageQuery text \/ exists name, m = MessageParse name text) ->
  only_roles_started c (receive m c).
Proof.
  intros Hs Ht Hm. assert (Hset : forall c' : Connection (Row := Row) (World := World), status c' = StatusError ->
    set_status (to_error_state (status c')) c' = c') by (intros [] Hs'; cbn in *; by subst).
  unfold receive. destruct Hm as [->|[name ->]]; cbn [handle].
  - unfold on_query. destruct (is_empty_query text); [by left|].
    assert (exists e c', do_query text c = (Err e, c') /\ status c' = StatusError /\ only_roles_started c c') as (e & c' & He & Hs' & Ho).
    { unfold do_query. apply (refused_step _ text); eauto. }
    unfold mbind, handler_bind, look. rewrite He. by rewrite Hset.
  - assert (exists e c', parse_sql text c = (Err e, c') /\ status c' = StatusError /\ only_roles_started c c') as (e & c' & He & Hs' & Ho).
    { unfold parse_sql. apply (refused_step _ text); eauto. }
    unfold on_parse, mbind, handler_bind. rewrite He. by rewrite Hset.
Qed.

(** ** Examples *)

Module Example.
Definition roads : StatementPolicy.ObjectName := [StatementPolicy.Identifier (lit "roads") (lit "roads")].
Definition texts : list (str * Statement) :=
  [(lit "SELECT", Query None (StatementPolicy.mkQuery [] [] (SetSelect [mkTableWithJoins (FactorTable roads) []])));
   (lit "INSERT", Insert (TableName roads) None);
   (lit "BEGIN", StartTransaction [] false [] false false);
   (lit "COMMIT", Commit false false false);
   (lit "COPY", CopyStatement (Some ([PartIdentifier (mkIdent (lit "roads") None)], [mkIdent (lit "name") None])) false true 0 0 0);
   (lit "SET ROLE", SetStatement (SetRole None (Some (mkIdent (lit "Analysts") None))));
   (lit "DECLARE", DeclareStatement [mkDeclaration [Cursors.mkIdent (lit "k") false] false false true false None None None (Some (lit "SELECT"))]);
   (lit "FETCH", FetchStatement (Cursors.mkIdent (lit "k") false) FetchNext None)].
Definition lookup_text (text : str) : option (list Statement) :=
  (fun t => [t.2]) <$> List.find (fun t => bool_decide (t.1 = text)) texts.
Definition run_text (s : Statement) : str :=
  match s with Query _ _ => lit "SELECT * FROM main.roads" | Insert _ _ => lit "INSERT INTO main.roads" | _ => [] end.
#[export] Instance sample_server : Server (Row := str) (Params := unit) := {
  auth := sample_auth_roles;
  SessionHandlers.catalog_identity_enabled := false;
  parse := lookup_text;
  prepare_statement := Ok;
  check_statement _ _ _ _ _ _ := Ok tt;
  execution_text s _ _ _ := Ok (run_text s);
  decode_parameters _ _ := Ok tt;
  text_parameter _ := Ok [];
  text_row s := s;
  cursor_order m := map fst (map_to_list m) }.
#[export] Instance sample_engine : Engine (Row := str) (Params := unit) EngineTransactionState := {
  engine_state w := w;
  open_session w := (Ok tt, w);
  acquire_writer w := (Ok tt, w);
  release w := w;
  begin_with_access _ w := if bool_decide (w = Idle) then (Ok tt, Active) else (Err (UserError "XX000"), w);
  SessionHandlers.commit w := (Ok tt, Idle);
  SessionHandlers.rollback w := (Ok tt, Idle);
  resolve_origins _ w := (Ok None, w);
  query _ _ _ w := (Ok ([mkSchemaField (lit "name") (lit "Utf8") true], [Ok (lit "A1"); Ok (lit "A2"); Ok (lit "A3")]), w);
  update _ _ w := (Ok (Some 1), w);
  ingest _ w := (Ok tt, w);
  maintain _ w := (Ok None, w);
  describe _ w := (Ok (0%nat, [mkSchemaField (lit "name") (lit "Utf8") true], None), w) }.

Definition start : Connection (Row := str) := connected (Some (lit "alice")) Idle.
(** A statement prepared as [alice] runs, is refused once the role has changed, and a new query runs. *)
Definition role_changes : list Message :=
  [MessageParse (lit "s") (lit "SELECT"); MessageBind (lit "p") (lit "s") [] UnifiedText; MessageExecute (lit "p") 0;
   MessageQuery (lit "SET ROLE;"); MessageBind (lit "p") (lit "s") [] UnifiedText; MessageExecute (lit "p") 0; MessageQuery (lit "SELECT")].
Definition alice : SessionIdentity := mkSessionIdentity (lit "alice") (lit "alice") 0 ∅.
Definition as_analysts : SessionIdentity := mkSessionIdentity (lit "alice") (lit "analysts") 1 ∅.
Lemma role_changes_calls : calls (receive_all role_changes start) =
  [(Some alice, CallDescribe (lit "SELECT * FROM main.roads")); (Some alice, CallQuery (lit "SELECT * FROM main.roads"));
   (Some as_analysts, CallQuery (lit "SELECT * FROM main.roads"))].
Proof. vm_compute. reflexivity. Qed.
Lemma engine_calls_authorized_witness :
  acts_for (Some (lit "alice")) as_analysts /\ statement_allowed KindRead as_analysts (lit "SELECT * FROM main.roads").
Proof.
  assert (Hc : Forall (call_ok (Some (lit "alice"))) (calls (receive_all role_changes start)))
    by (apply (engine_calls_authorized (Some (lit "alice")) Idle role_changes); unfold len, u64_max; simpl; lia).
  rewrite role_changes_calls in Hc. inversion Hc as [|? ? _ Hc1]; subst. inversion Hc1 as [|? ? _ Hc2]; subst.
  inversion Hc2 as [|? ? (i & Hi & Ha & Hs) _]; subst. injection Hi as <-. split; assumption.
Defined.

(** A portal and a cursor that were read from before the role changed deliver their next rows after it;
    the engine is not called again. *)
Definition opened_then_role : list Message :=
  [MessageParse (lit "s") (lit "SELECT"); MessageBind (lit "p") (lit "s") [] UnifiedText; MessageExecute (lit "p") 1;
   MessageQuery (lit "BEGIN"); MessageQuery (lit "DECLARE"); MessageQuery (lit "FETCH"); MessageQuery (lit "SET ROLE;")].
Theorem opened_queries_survive_role_changes :
  let c := receive_all opened_then_role start in
  identity_now c = Some as_analysts /\
  portal_state <$> portals c !! lit "p" = Some (Suspended [Ok (lit "A2"); Ok (lit "A3")]) /\
  (handle (MessageExecute (lit "p") 1) c).1 = Ok tt /\
  portal_state <$> portals (receive (MessageExecute (lit "p") 1) c) !! lit "p" = Some (Suspended [Ok (lit "A3")]) /\
  (do_query (lit "FETCH") c).1 = Ok [QueryRows [Ok (lit "A2")]] /\
  calls (receive_all [MessageExecute (lit "p") 1; MessageQuery (lit "FETCH")] c) = calls c.
Proof. vm_compute. split_and!; reflexivity. Qed.

(** A block that has failed *)
Definition failing : list Message :=
  [MessageParse (lit "s") (lit "INSERT"); MessageBind (lit "p") (lit "s") [] UnifiedText; MessageQuery (lit "BEGIN"); MessageQuery (lit "SELEKT")].
Definition failed : Connection (Row := str) := Eval vm_compute in receive_all failing start.
Lemma insert_ends_no_block : ~ ends_block (lit "INSERT").
Proof.
  intros (normalized & s & command & Hn & Hp & Hc). assert (normalized = lit "INSERT") as ->.
  { assert (normalize_sql (lit "INSERT") = Ok (lit "INSERT")) as He by (vm_compute; reflexivity). rewrite He in Hn. by injection Hn. }
  assert (parse (lit "INSERT") = Some [Insert (TableName roads) None]) as He by (vm_compute; reflexivity).
  rewrite He in Hp. injection Hp as <-. discriminate Hc.
Qed.
Lemma failed_block_refused_witness : status failed = StatusError /\ only_roles_started failed (receive (MessageQuery (lit "INSERT")) failed).
Proof. split; [reflexivity|]. apply (failed_block_refused failed (MessageQuery (lit "INSERT")) (lit "INSERT")); [reflexivity|exact insert_ends_no_block|left; reflexivity]. Defined.

(** A portal that was bound before the block failed is executed all the same. *)
Theorem prepared_runs_in_failed_block :
  status (receive_all failing start) = StatusError /\
  calls (receive (MessageExecute (lit "p") 0) (receive_all failing start)) =
    calls (receive_all failing start) ++ [(Some alice, CallUpdate "INSERT" (lit "INSERT INTO main.roads"))].
Proof. vm_compute. split; reflexivity. Qed.
End Example.
