(* ===== verification/SessionStatus.v ===== *)
(** * What a client is told about its transaction

    The handlers keep two accounts of a transaction: the status of the connection, sent with
    ReadyForQuery, and the state of the storage session.  [EngineLaws] is what the handlers rely
    on of the storage session, and the sessions of [Storage], as the handlers call them, satisfy
    it ([storage_engine]). *)

From S2P Require Import Prelude RoleCatalog RoleSession Auth StatementPolicy Storage PrivilegeInquiry Cursors SqlSyntax SessionCommands SessionHandlers SessionOutcomes.
#[local] Open Scope Z_scope.
#[local] Set Default Goal Selector "!".

(** ** Laws *)

Section status.
Context {Row Params World : Type} {engine : Engine (Row := Row) (Params := Params) World} {server : Server (Row := Row) (Params := Params)}.
Abbreviation Conn := (Connection (Row := Row) (World := World)).

Definition stays_calm {A} (f : World -> A * World) : Prop := forall w, engine_state w <> Active -> engine_state (f w).2 <> Active.
Definition user_error {A} (r : result PgWireError A) : Prop := match r with Ok _ => True | Err e => exists code, e = UserError code end.
(** Only BEGIN opens a transaction, COMMIT and ROLLBACK close it, and what can go wrong while a
    statement is prepared is reported as a plain error. *)
Class EngineLaws : Prop := {
  open_calm : stays_calm open_session;
  acquire_calm : stays_calm acquire_writer;
  release_calm w : engine_state w <> Active -> engine_state (release w) <> Active;
  origins_calm s : stays_calm (resolve_origins s);
  query_calm text bound catalog : stays_calm (query text bound catalog);
  update_calm text bound : stays_calm (update text bound);
  ingest_calm target : stays_calm (ingest target);
  maintain_calm command : stays_calm (maintain command);
  describe_calm text : stays_calm (describe text);
  refused_begin_calm read_only w : engine_state w <> Active -> is_ok (begin_with_access read_only w).1 = false ->
    engine_state (begin_with_access read_only w).2 <> Active;
  commit_closes w : is_ok (commit w).1 = true -> engine_state (commit w).2 <> Active;
  rollback_closes w : is_ok (rollback w).1 = true -> engine_state (rollback w).2 <> Active;
  open_errors w : user_error (open_session w).1;
  describe_errors text w : user_error (describe text w).1 }.
Class ServerLaws : Prop := {
  prepare_errors s : user_error (prepare_statement s);
  check_errors parsed s request enabled i catalog : user_error (check_statement parsed s request enabled i catalog);
  text_errors s enabled i catalog : user_error (execution_text s enabled i catalog) }.
Context {laws : EngineLaws} {server_laws : ServerLaws}.

(** ** Handlers that open no transaction *)

Definition calm (c : Conn) : Prop := engine_state (world c) <> Active.
Definition calming {A} (m : Handler A) : Prop := forall c : Conn, status (m c).2 = status c /\ (calm c -> calm (m c).2).
Lemma calming_bind {A B} (m : Handler A) (k : A -> Handler B) : calming m -> (forall a, calming (k a)) -> calming (a ← m; k a).
Proof using.
  intros Hm Hk c. specialize (Hm c). unfold mbind, handler_bind. destruct (m c) as [[a|e] c']; [|done]. cbn in Hm.
  destruct Hm as [Hs Hc], (Hk a c') as [Hs' Hc']. split; [congruence|auto].
Qed.
Lemma calming_returns {A} (a : A) : calming (returns a).
Proof using. by intros c. Qed.
Lemma calming_throw {A} e : calming (throw (A := A) e).
Proof using. by intros c. Qed.
Lemma calming_try {A} (r : result PgWireError A) : calming (try_ r).
Proof using. by intros c. Qed.
Lemma calming_require b e : calming (require b e).
Proof using. apply calming_try. Qed.
Lemma calming_look {A} (f : Conn -> A) : calming (look f).
Proof using. by intros c. Qed.
Lemma calming_change f : (forall c, status (f c) = status c) -> (forall c, world (f c) = world c) -> calming (change f).
Proof using. intros Hs Hw c. split; [apply Hs|]. unfold calm. cbn. by rewrite Hw. Qed.
Lemma calming_engine {A} (f : World -> result PgWireError A * World) : stays_calm f -> calming (on_engine f).
Proof using. intros Hf c. unfold on_engine. specialize (Hf (world c)). by destruct (f (world c)) as [r w]. Qed.
Lemma calming_call {A} k (f : World -> result PgWireError A * World) : stays_calm f -> calming (call k f).
Proof using. intros Hf. apply calming_bind; [by apply calming_change|]. intros ?. by apply calming_engine. Qed.
Lemma calming_role : calming client_role_session.
Proof using. intros c. unfold client_role_session. destruct (roles c); [done|]. by destruct (start_role_session _ _). Qed.
Create HintDb calming.
Hint Resolve calming_returns calming_throw calming_try calming_require calming_look calming_role calming_call calming_engine : calming.
Hint Resolve open_calm acquire_calm release_calm origins_calm query_calm update_calm ingest_calm maintain_calm describe_calm : calming.
Ltac calming :=
  repeat match goal with
  | |- calming (mbind _ _) => apply calming_bind; [|intros ?]
  | |- calming (match ?x with _ => _ end) => destruct x
  | |- calming (change _) => apply calming_change; by intros
  | |- calming _ => by eauto with calming
  end.
Lemma calming_identity : calming client_identity.
Proof using. unfold client_identity. calming. Qed.
Lemma calming_on_roles f : calming (on_roles f).
Proof using. unfold on_roles. calming. Qed.
Lemma calming_session : calming client_session.
Proof using laws.
  intros c. unfold client_session. destruct (session_open c); [done|]. pose proof (open_calm (world c)) as Hf.
  by destruct (open_session (world c)) as [r w].
Qed.
Hint Resolve calming_identity calming_on_roles calming_session : calming.
Lemma calming_refuse text : calming (refuse_in_failed_block text).
Proof using. by intros c. Qed.
Lemma calming_authorize s : calming (authorize_statement s).
Proof using. unfold authorize_statement. calming. Qed.
Lemma calming_authorize_copy t : calming (authorize_copy t).
Proof using. unfold authorize_copy. calming. Qed.
Lemma calming_authorize_maintenance t : calming (authorize_maintenance t).
Proof using. unfold authorize_maintenance. calming. Qed.
Hint Resolve calming_refuse calming_authorize calming_authorize_copy calming_authorize_maintenance : calming.
Lemma calming_prepared v e : calming (prepared v e).
Proof using laws. unfold prepared, described. destruct (valid_kind v); calming. Qed.
Hint Resolve calming_prepared : calming.
Lemma calming_parse_sql text : calming (parse_sql text).
Proof using laws. unfold parse_sql, in_failed_block. calming. Qed.
Lemma calming_on_cursors command f planned epoch opened : calming (on_cursors command f planned epoch opened).
Proof using. intros c. unfold on_cursors. by destruct (Cursors.handle_sql_cursor _ _ _ _ _ _ _ _) as [k r]. Qed.
Hint Resolve calming_parse_sql calming_on_cursors : calming.
Lemma calming_open_cursor p : calming (open_cursor p).
Proof using laws. unfold open_cursor. calming. Qed.
Hint Resolve calming_open_cursor : calming.
Lemma calming_handle_cursor command f : calming (handle_sql_cursor command f).
Proof using laws. unfold handle_sql_cursor. calming. Qed.
Hint Resolve calming_handle_cursor : calming.
Lemma calming_apply_role command b : calming (apply_role_command command b).
Proof using. unfold apply_role_command. calming. Qed.
Hint Resolve calming_apply_role : calming.

(** ** The beginning and the end of a transaction *)

(** A handler after which no transaction is open if it succeeded, and [closing] if it opens none
    otherwise either *)
Definition settling {A} (m : Handler A) : Prop := forall c : Conn, status (m c).2 = status c /\ (is_ok (m c).1 = true -> calm (m c).2).
Definition closing {A} (m : Handler A) : Prop := calming m /\ settling m.
Lemma settling_then {A B} (m : Handler A) (k : A -> Handler B) : settling m -> (forall a, calming (k a)) -> settling (a ← m; k a).
Proof using.
  intros Hm Hk c. specialize (Hm c). unfold mbind, handler_bind. destruct (m c) as [[a|e] c']; [|done]. cbn in Hm.
  destruct Hm as [Hs Hc], (Hk a c') as [Hs' Hc']. split; [congruence|auto].
Qed.
Lemma settling_after {A B} (m : Handler A) (k : A -> Handler B) : calming m -> (forall a, settling (k a)) -> settling (a ← m; k a).
Proof using.
  intros Hm Hk c. specialize (Hm c). unfold mbind, handler_bind. destruct (m c) as [[a|e] c']; [|by destruct Hm].
  cbn in Hm. destruct Hm as [Hs Hc], (Hk a c') as [Hs' Hc']. split; [congruence|auto].
Qed.
Lemma closing_bind {A B} (m : Handler A) (k : A -> Handler B) : calming m -> (forall a, closing (k a)) -> closing (a ← m; k a).
Proof using. intros Hm Hk. split; [apply calming_bind|apply settling_after]; try done; apply Hk. Qed.
(** Where the state was looked up *)
Lemma closing_look {B} (k : EngineTransactionState -> Handler B) : settling (k Active) ->
  (forall t, t <> Active -> calming (k t)) -> closing (t ← look (fun c => engine_state (world c)); k t).
Proof using.
  intros Hs Hc. split; intros c; unfold mbind, handler_bind, look; destruct (decide (engine_state (world c) = Active)) as [He|He].
  - rewrite He. split; [apply Hs|by intros ?].
  - by apply Hc.
  - rewrite He. apply Hs.
  - split; [by apply Hc|]. intros _. by apply Hc.
Qed.
Lemma closing_end command : closing (end_transaction command).
Proof using laws.
  unfold end_transaction, in_failed_block.
  do 4 (apply closing_bind; [by eauto with calming|intros ?]). apply closing_bind; [by eauto with calming|intros k].
  destruct (close_all_sql_cursors _ _) as [k' closed]. apply closing_bind; [by apply calming_change|intros ?].
  apply closing_bind; [by eauto with calming|intros ?]. apply closing_bind; [intros c; split; [done|apply release_calm]|intros ?].
  apply closing_look; [|by intros [] ?; calming]. apply settling_then; [|intros ?; calming]. intros c. unfold on_engine. split.
  - case_match. done.
  - pose proof (commit_closes (world c)). pose proof (rollback_closes (world c)).
    destruct (_ || _); [destruct (rollback (world c)) as [[] w]|destruct (commit (world c)) as [[] w]]; naive_solver.
Qed.

(** ** What the responses tell *)

(** After these responses, the status is idle only if no transaction is open. *)
Definition honest (c : Conn) (rs : Responses (Row := Row)) (c' : Conn) : Prop :=
  forall t, (t = StatusIdle -> calm c) ->
    match send_responses rs t with
    | Ok t' => (if existsb is_copy rs then t else t') = StatusIdle -> calm c'
    | Err _ => t = StatusIdle -> calm c'
    end.
Definition telling (m : Handler (Responses (Row := Row))) : Prop :=
  forall c : Conn, status (m c).2 = status c /\ match m c with (Ok rs, c') => honest c rs c' | (Err _, c') => calm c -> calm c' end.
Definition plain (r : Response (Row := Row)) : Prop :=
  match r with ExecutionTag _ _ | QueryRows _ | CopyIn => True | _ => False end.
Lemma plain_status rs t : Forall plain rs -> match send_responses rs t with Ok t' => t' = t | Err _ => True end.
Proof using.
  induction 1 as [|r rs Hr _ IH]; [done|]. destruct r as [|rows| | | |]; try done.
  cbn [send_responses]. by destruct (first_error rows).
Qed.
Lemma plain_honest c rs c' : Forall plain rs -> (calm c -> calm c') -> honest c rs c'.
Proof using.
  intros Hp Hc t Ht. pose proof (plain_status rs t Hp). destruct (send_responses rs t); [subst|auto]. case_match; auto.
Qed.
Lemma telling_bind {A} (m : Handler A) k : calming m -> (forall a, telling (k a)) -> telling (a ← m; k a).
Proof using.
  intros Hm Hk c. specialize (Hm c). unfold mbind, handler_bind. destruct (m c) as [[a|e] c']; [|done]. cbn in Hm.
  destruct Hm as [Hs Hc]. destruct (Hk a c') as [Hs' Ht]. split; [congruence|]. destruct (k a c') as [[rs|] c2]; [|auto].
  intros t Hi. apply Ht. auto.
Qed.
Lemma telling_calming m : calming m -> (forall c : Conn, match m c with (Ok rs, _) => Forall plain rs | _ => True end) -> telling m.
Proof using.
  intros Hm Hp c. specialize (Hm c). specialize (Hp c). destruct (m c) as [[rs|e] c']; [|done].
  split; [apply Hm|]. apply plain_honest; [done|apply Hm].
Qed.
(** One response *)
Definition tells (m : Handler (Response (Row := Row))) : Prop :=
  forall c : Conn, status (m c).2 = status c /\
    match m c with
    | (Ok TransactionStart, _) => True
    | (Ok (TransactionEnd _), c') => calm c'
    | (_, c') => calm c -> calm c'
    end.
Lemma tells_bind {A} (m : Handler A) k : calming m -> (forall a, tells (k a)) -> tells (a ← m; k a).
Proof using.
  intros Hm Hk c. specialize (Hm c). unfold mbind, handler_bind. destruct (m c) as [[a|e] c']; [|done]. cbn in Hm.
  destruct Hm as [Hs Hc]. destruct (Hk a c') as [Hs' Ht]. split; [congruence|]. repeat case_match; auto.
Qed.
Lemma tells_calming m : calming m -> (forall c : Conn, match m c with (Ok r, _) => plain r | _ => True end) -> tells m.
Proof using. intros Hm Hp c. specialize (Hm c). specialize (Hp c). destruct (m c) as [[[]|e] c']; try done; by destruct Hm. Qed.
Lemma tells_end command : tells (end_transaction command).
Proof using laws.
  intros c. destruct (closing_end command) as [Hc Hs]. specialize (Hc c). specialize (Hs c).
  destruct (end_transaction command c) as [[[]|e] c']; naive_solver.
Qed.
Lemma tells_begin read_only : tells (begin_transaction read_only).
Proof using laws.
  intros c. unfold begin_transaction, mbind, handler_bind, on_engine. pose proof (refused_begin_calm read_only (world c)) as Hr.
  destruct (begin_with_access read_only (world c)) as [[[]|e] w]; [done|]. split; [done|]. intros Hc. by apply Hr.
Qed.
Lemma telling_one m : tells m -> telling (r ← m; returns [r]).
Proof using.
  intros Hm c. specialize (Hm c). unfold mbind, handler_bind. destruct (m c) as [[r|e] c']; [|done]. destruct Hm as [Hs Hm].
  split; [done|]. intros t Ht. destruct r as [|rows| | | |]; cbn; try by auto.
  - destruct (first_error rows); cbn; auto.
  - by destruct t.
  - by destruct t; auto.
Qed.
Hint Resolve tells_end tells_begin telling_one : calming.

(** ** A DECLARE after BEGIN fails with a plain error only *)

Definition complaining {A} (m : Handler A) : Prop := forall c : Conn, user_error (m c).1.
Lemma user_bind {A B} (m : result PgWireError A) (k : A -> result PgWireError B) :
  user_error m -> (forall a, user_error (k a)) -> user_error (m ≫= k).
Proof using. destruct m as [a|e]; [|done]. intros _ Hk. apply Hk. Qed.
Lemma user_ensure b code : user_error (ensure b (UserError code)).
Proof using. destruct b; cbn; eauto. Qed.
Lemma complaining_bind {A B} (m : Handler A) (k : A -> Handler B) : complaining m -> (forall a, complaining (k a)) -> complaining (a ← m; k a).
Proof using. intros Hm Hk c. specialize (Hm c). unfold mbind, handler_bind. destruct (m c) as [[a|e] c']; [apply Hk|done]. Qed.
Lemma complaining_try {A} (r : result PgWireError A) : user_error r -> complaining (try_ r).
Proof using. by intros Hr c. Qed.
Lemma complaining_role : complaining client_role_session.
Proof using. intros c. unfold client_role_session. destruct (roles c); [done|]. destruct (start_role_session _ _); cbn; eauto. Qed.
Lemma complaining_identity : complaining client_identity.
Proof using.
  apply complaining_bind; [apply complaining_role|]. intros r. apply complaining_try. destruct (identity r); cbn; unfold role_session_error; eauto.
Qed.
Lemma complaining_session : complaining client_session.
Proof using laws.
  intros c. unfold client_session. destruct (session_open c); [done|]. pose proof (open_errors (world c)). by destruct (open_session (world c)).
Qed.
Lemma complaining_authorize s : complaining (authorize_statement s).
Proof using.
  apply complaining_bind; [apply complaining_identity|]. intros i. apply complaining_try. unfold authorized_statement, denied.
  destruct (_.2); cbn; eauto.
Qed.
Lemma complaining_authorize_copy t : complaining (authorize_copy t).
Proof using.
  apply complaining_bind; [apply complaining_identity|]. intros i. apply complaining_try. unfold authorized_copy, denied.
  destruct (_.2); cbn; eauto.
Qed.
Lemma user_ok_or {A} (o : option A) code : user_error (ok_or o (UserError code)).
Proof using. destruct o; cbn; eauto. Qed.
Hint Resolve user_ensure user_ok_or complaining_try complaining_identity complaining_session complaining_authorize complaining_authorize_copy : complaining.
Ltac complaining :=
  repeat match goal with
  | |- user_error (mbind _ _) => apply user_bind; [|intros ?]
  | |- complaining (mbind _ _) => apply complaining_bind; [|intros ?]
  | |- user_error (Ok _) => exact I
  | |- user_error (Err (UserError _)) => by eexists
  | |- complaining (returns _) => by intros ?
  | |- complaining (look _) => by intros ?
  | |- complaining (throw (UserError ?code)) => intros ?; by exists code
  | |- _ => by eauto with complaining
  | |- complaining (try_ _) => apply complaining_try
  | |- user_error (match ?x with _ => _ end) => destruct x
  | |- complaining (match ?x with _ => _ end) => destruct x
  end.
Lemma user_normalize text : user_error (normalize_sql text).
Proof using. unfold normalize_sql. complaining. Qed.
Lemma user_parse text : user_error (parse_statements parse text).
Proof using. apply user_ok_or. Qed.
Hint Resolve user_normalize user_parse : complaining.
Lemma user_copy_target text : user_error (parse_copy_target parse text).
Proof using. unfold parse_copy_target. complaining. Qed.
Lemma user_cursor_name name : user_error (sql_cursor_name name).
Proof using. unfold sql_cursor_name. complaining. Qed.
Lemma user_fetch_rows d : user_error (sql_cursor_fetch_rows d).
Proof using. unfold sql_cursor_fetch_rows. complaining. Qed.
Hint Resolve user_copy_target user_cursor_name user_fetch_rows : complaining.
Lemma user_cursor_statement s : user_error (parse_sql_cursor_statement s).
Proof using. unfold parse_sql_cursor_statement. complaining. Qed.
Hint Resolve user_cursor_statement : complaining.
Lemma user_cursor_command text : user_error (parse_sql_cursor_command parse text).
Proof using. unfold parse_sql_cursor_command, parse_sql_cursor_input, parse_sql_cursor_batch. complaining. Qed.
Lemma user_failed_command text : user_error (validate_failed_transaction_command parse text).
Proof using. unfold validate_failed_transaction_command, failed_transaction_error. complaining. Qed.
Lemma user_request s : user_error (parse_request_context_command s).
Proof using. unfold parse_request_context_command, request_value_of. complaining. Qed.
Lemma user_maintenance s : user_error (parse_maintenance_call s).
Proof using. unfold parse_maintenance_call, maintenance_string, maintenance_limit. complaining. Qed.
Hint Resolve user_cursor_command user_failed_command user_request user_maintenance prepare_errors check_errors text_errors : complaining.
Lemma user_kind mode s role request : user_error (statement_kind mode s role request).
Proof using. unfold statement_kind. complaining. Qed.
Hint Resolve user_kind : complaining.
Lemma user_validated text mode i : user_error (validated text mode i).
Proof using server_laws. unfold validated, validate_statement_with_catalog_identity. complaining. Qed.
Hint Resolve user_validated : complaining.
Lemma complaining_refuse text : complaining (refuse_in_failed_block text).
Proof using. intros c. unfold refuse_in_failed_block. cbn. complaining. Qed.
Lemma complaining_describe k text : complaining (call k (describe text)).
Proof using laws.
  intros c. pose proof (describe_errors text (world c)) as Hd. unfold call, mbind, handler_bind, change, on_engine. cbn [world add_call].
  by destruct (describe text (world c)).
Qed.
Hint Resolve complaining_refuse complaining_describe : complaining.
Lemma complaining_parse_sql text : complaining (parse_sql text).
Proof using laws server_laws.
  unfold parse_sql, prepared, described, fetched_schema, sql_cursor_metadata, in_failed_block, require, failed_transaction_error. complaining.
Qed.
Hint Resolve complaining_parse_sql : complaining.
Lemma declare_response name text binary f (c : Conn) :
  match (handle_sql_cursor (DeclareCursor name text binary) f c).1 with
  | Ok r => r = ExecutionTag "DECLARE CURSOR" None
  | Err e => exists code, e = UserError code
  end.
Proof using laws server_laws.
  assert (Hu : complaining (handle_sql_cursor (DeclareCursor name text binary) f)).
  { unfold handle_sql_cursor, may_declare, require. complaining. intros c'. unfold on_cursors, Cursors.handle_sql_cursor, declare_cursor.
    rewrite bool_decide_true by done. cbn [negb]. repeat case_match; simplify_eq; cbn; eauto. }
  specialize (Hu c). destruct (handle_sql_cursor _ f c) as [[r|e] c'] eqn:Hr; [cbn|exact Hu]. unfold handle_sql_cursor in Hr. revert Hr.
  unfold mbind, handler_bind, on_cursors, Cursors.handle_sql_cursor, declare_cursor. rewrite bool_decide_true by done. cbn [negb].
  repeat case_match; by intros; simplify_eq.
Qed.

(** ** The protocols *)

Lemma calming_cursor_plain command f (c : Conn) : match handle_sql_cursor command f c with (Ok r, _) => plain r | _ => True end.
Proof using.
  destruct (handle_sql_cursor command f c) as [[r|e] c'] eqn:Hr; [|done]. revert Hr.
  assert (Hp : forall command f planned epoch opened (c1 : Conn), match on_cursors command f planned epoch opened c1 with (Ok r, _) => plain r | _ => True end).
  { intros. unfold on_cursors. destruct (Cursors.handle_sql_cursor _ _ _ _ _ _ _ _) as [k [[]|]]; done. }
  unfold handle_sql_cursor, mbind, handler_bind. repeat case_match; intros; simplify_eq;
    match goal with H : on_cursors ?a ?b ?d ?e ?g ?h = _ |- _ => specialize (Hp a b d e g h); by rewrite H in Hp end.
Qed.
Lemma tells_cursor command f : tells (handle_sql_cursor command f).
Proof using laws. apply tells_calming; [by eauto with calming|]. intros c. apply calming_cursor_plain. Qed.
Hint Resolve tells_cursor : calming.
(** A batch as it is parsed *)
Definition parsed_batch (b : SqlCursorBatch) : Prop :=
  match b with BeginReadOnlyDeclare (DeclareCursor _ _ _) => True | BeginReadOnlyDeclare _ => False | CloseAndEnd _ _ => True end.
Lemma telling_batch b : parsed_batch b -> telling (handle_sql_cursor_batch b).
Proof using laws server_laws.
  destruct b as [[name text binary|?|?]|close e]; intros []; cbn [handle_sql_cursor_batch].
  - apply telling_bind; [by eauto with calming|]. intros _ c. pose proof (tells_begin true c) as Hb. unfold mbind, handler_bind.
    destruct (begin_transaction true c) as [[r|?] c1] eqn:Hr; [|done]. assert (r = TransactionStart) as ->.
    { revert Hr. unfold begin_transaction, mbind, handler_bind. destruct (on_engine _ c) as [[]]; by intros [= <- <-]. }
    unfold attempt. pose proof (declare_response name text binary UnifiedText c1) as Hd.
    pose proof (calming_handle_cursor (DeclareCursor name text binary) UnifiedText c1) as [Hs _]. destruct Hb as [Hb _].
    destruct (handle_sql_cursor _ _ c1) as [[r|?] c2]; cbn [fst snd] in *; [subst|destruct Hd as [code ->]];
      (split; [cbn; congruence|]); by intros [].
  - intros c. pose proof (calming_handle_cursor close UnifiedText c) as [Hs Hc]. pose proof (calming_cursor_plain close UnifiedText c) as Hp.
    unfold mbind, handler_bind. destruct (handle_sql_cursor close UnifiedText c) as [[r|] c1]; [|done]. cbn in Hs, Hc.
    destruct (closing_end e) as [Hq Hz]. specialize (Hq c1) as [Hq1 Hq2]. specialize (Hz c1) as [_ Hz].
    destruct (end_transaction e c1) as [[r2|] c2] eqn:He; cbn in *; (split; [congruence|]); [|by auto].
    intros t Ht. assert (calm c2) by (by apply Hz). by repeat case_match.
Qed.
Lemma telling_plain rs : Forall plain rs -> telling (returns rs).
Proof using. intros Hp. by apply telling_calming. Qed.
Lemma telling_throw e : telling (throw e).
Proof using. intros c. split; [done|exact id]. Qed.
Lemma tells_plain r : plain r -> tells (returns r).
Proof using. intros Hp. by apply tells_calming. Qed.
Lemma tells_throw e : tells (throw e).
Proof using. intros c. split; [done|exact id]. Qed.
Hint Resolve telling_throw tells_throw : calming.
Ltac telling :=
  repeat match goal with
  | |- telling _ => by eauto with calming
  | |- tells _ => by eauto with calming
  | |- telling (mbind _ _) => apply telling_bind; [by calming|intros ?]
  | |- tells (mbind _ _) => apply tells_bind; [by calming|intros ?]
  | |- telling (returns _) => apply telling_plain; by repeat constructor
  | |- tells (returns _) => apply tells_plain; exact I
  | |- telling (match ?x with _ => _ end) => destruct x
  | |- tells (match ?x with _ => _ end) => destruct x
  end.
Lemma telling_simple kind text ast : telling (execute_simple kind text ast).
Proof using laws.
  destruct kind; cbn [execute_simple]; unfold in_transaction; telling. apply telling_plain, Forall_replicate. done.
Qed.
Lemma input_batch text b : parse_sql_cursor_input parse text = Ok (Some (CursorBatch b)) -> parsed_batch b.
Proof using.
  unfold parse_sql_cursor_input, parse_sql_cursor_batch. intros (normalized & _ & Hp)%bind_ok. apply bind_ok in Hp as (ss & _ & Hp).
  destruct ss as [|s [|t [|? ?]]]; [done|apply bind_ok in Hp as ([] & _ & Hp); by simplify_eq| |done].
  apply bind_ok in Hp as ([b'|] & Hb & Hp); [|done]. injection Hp as <-. apply bind_ok in Hb as (declared & _ & Hb).
  assert (Hend : forall e, (closed ← parse_sql_cursor_statement (cursor_statement s);
            Ok (match closed with Some (Close (Some name)) => Some (CloseAndEnd (Close (Some name)) e) | _ => None end)) = Ok (Some b') -> parsed_batch b').
  { intros e (closed & _ & Hc)%bind_ok. repeat case_match; by simplify_eq. }
  repeat case_match; simplify_eq; first [done|by eapply Hend].
Qed.
Lemma telling_do_query text : telling (do_query text).
Proof using laws server_laws.
  unfold do_query. apply telling_bind; [by calming|intros i]. apply telling_bind; [by calming|intros _].
  intros c. unfold try_, mbind, handler_bind. destruct (parse_sql_cursor_input parse text) as [input|e] eqn:Hp; [|done]. revert c.
  change (telling (match input with Some (CursorCommand command) => r ← handle_sql_cursor command UnifiedText; returns [r]
                   | Some (CursorBatch b) => handle_sql_cursor_batch b | None => execute_statement text i end)).
  destruct input as [[command|b]|]; [by telling| |].
  - by apply telling_batch, (input_batch text).
  - unfold execute_statement, authorize_simple. apply telling_bind; [by calming|intros [[t k] a]].
    apply telling_bind; [destruct k, a; by calming|intros _]. apply telling_bind; [by calming|intros _]. apply telling_simple.
Qed.
Lemma tells_portal p : tells (do_query_portal p).
Proof using laws.
  unfold do_query_portal, execute_kind, in_transaction. telling.
Qed.
Lemma calming_read p : kind (portal_statement p) = KindRead -> calming (do_query_portal p).
Proof using laws. intros Hk. unfold do_query_portal, execute_kind. rewrite Hk. calming. Qed.

(** ** Every message *)

Definition told (c : Conn) : Prop := status c = StatusIdle -> calm c.
(** An error in a block leaves it failed, one outside a block leaves the status idle. *)
Definition truthful {A} (m : Handler A) : Prop :=
  forall c : Conn, told c -> match m c with (Ok _, c') => told c' | (Err _, c') => told (set_status (to_error_state (status c')) c') end.
Lemma failed_told (c : Conn) : told c -> told (set_status (to_error_state (status c)) c).
Proof using. intros Hc Hs. apply Hc. cbn in Hs. by destruct (status c). Qed.
Lemma calming_truthful {A} (m : Handler A) : calming m -> truthful m.
Proof using.
  intros Hm c Hc. specialize (Hm c). destruct (m c) as [[a|e] c']; destruct Hm as [Hs Hm]; cbn in Hs, Hm.
  - intros Hi. apply Hm, Hc. congruence.
  - apply failed_told. intros Hi. apply Hm, Hc. congruence.
Qed.
Lemma truthful_bind {A B} (m : Handler A) (k : A -> Handler B) : truthful m -> (forall a, truthful (k a)) -> truthful (a ← m; k a).
Proof using. intros Hm Hk c Hc. specialize (Hm c Hc). unfold mbind, handler_bind. destruct (m c) as [[a|e] c']; [by apply Hk|done]. Qed.
Lemma truthful_query text : truthful (on_query text).
Proof using laws server_laws.
  unfold on_query. destruct (is_empty_query text); [by apply calming_truthful, calming_returns|]. intros c Hc.
  destruct (telling_do_query text c) as [Hs Ht]. unfold look, mbind, handler_bind, try_. destruct (do_query text c) as [[rs|e] c1]; cbn in Hs.
  - specialize (Ht (status c) Hc). destruct (send_responses rs (status c)) as [t|e]; [destruct (existsb is_copy rs)|].
    + intros Hi. apply Ht. cbn in Hi. congruence.
    + exact Ht.
    + apply failed_told. intros Hi. apply Ht. congruence.
  - apply failed_told. intros Hi. apply Ht, Hc. congruence.
Qed.
Lemma calming_send name p max_rows : calming (send_rows name p max_rows).
Proof using. intros c. unfold send_rows. by destruct (portal_fetch _ _). Qed.
Lemma calming_start name p rows max_rows : calming (start_portal name p rows max_rows).
Proof using. apply calming_send. Qed.
Hint Resolve calming_send calming_start calming_read : calming.
Lemma truthful_execute_portal name p max_rows : truthful (execute_portal name p max_rows).
Proof using laws.
  unfold execute_portal. destruct (portal_state p); [|apply calming_truthful, calming_send..]. intros c Hc.
  destruct (tells_portal p c) as [Hs Ht]. unfold look, mbind, handler_bind. destruct (do_query_portal p c) as [[r|e] c1]; cbn in Hs.
  2: { apply failed_told. intros Hi. apply Ht, Hc. congruence. }
  destruct r as [tag n|rows| |tag|e|]; cbn.
  - intros Hi. by apply Ht, Hc.
  - pose proof (calming_start name p rows max_rows c1) as [Hs1 Hc1]. destruct (start_portal name p rows max_rows c1) as [[u|e] c2]; cbn in Hs1, Hc1.
    + intros Hi. by apply Hc1, Ht, Hc.
    + apply failed_told. intros Hi. apply Hc1, Ht, Hc. congruence.
  - intros Hi. by destruct (status c).
  - by intros _.
  - intros Hi. apply Ht, Hc. cbn in Hi. by destruct (status c).
  - intros Hi. apply Ht, Hc. congruence.
Qed.
Lemma truthful_execute name max_rows : truthful (on_execute name max_rows).
Proof using laws.
  unfold on_execute. apply truthful_bind; [by apply calming_truthful, calming_require|intros _].
  apply truthful_bind; [by apply calming_truthful, calming_look|intros found]. apply truthful_bind; [by apply calming_truthful, calming_try|intros p].
  case_bool_decide; [|apply truthful_execute_portal]. apply calming_truthful. unfold execute_read. calming.
Qed.
Lemma handle_truthful m : truthful (handle m).
Proof using laws server_laws.
  destruct m as [text|name text|a b bound f|name max_rows|[] name| |? [e|]|]; cbn [handle];
    [apply truthful_query| | |apply truthful_execute|..]; apply calming_truthful; unfold on_parse, on_bind, on_close; try by calming.
  intros c. split; [done|apply release_calm].
Qed.
Lemma receive_told m c : told c -> told (receive m c).
Proof using laws server_laws. intros Hc. pose proof (handle_truthful m c Hc) as Hm. unfold receive. by destruct (handle m c) as [[]]. Qed.
Lemma receive_all_told ms : forall c, told c -> told (receive_all ms c).
Proof using laws server_laws. induction ms as [|m ms IH]; intros c Hc; [done|]. cbn. apply IH, receive_told, Hc. Qed.
End status.

(** ** The storage session keeps the laws *)

Section storage.
Context {Native_ : Type} (set_autocommit : bool -> Native (World := Native_) unit) (native_commit native_rollback : Native (World := Native_) unit).

(** Computations of the session that open no transaction *)
Definition keeping {A} (m : M (World := Native_) A) : Prop := forall s, transaction_state s <> Active -> transaction_state (m s).2 <> Active.
Lemma keeping_bind {A B} (m : M A) (k : A -> M B) : keeping m -> (forall a, keeping (k a)) -> keeping (bindM m k).
Proof using. intros Hm Hk s Hs. specialize (Hm s Hs). unfold bindM. destruct (m s) as [[a|e] s']; [by apply Hk|done]. Qed.
Lemma keeping_attempt {A} (m : M A) : keeping m -> keeping (Storage.attempt m).
Proof using. intros Hm s Hs. specialize (Hm s Hs). unfold Storage.attempt. by destruct (m s). Qed.
(** What changes neither the state nor the mutexes *)
Lemma keeping_same {A} (m : M A) : (forall s, state (m s).2 = state s /\ config (m s).2 = config s) -> keeping m.
Proof using. intros Hm s. destruct (Hm s) as [Hs Hc]. unfold transaction_state. by rewrite Hs, Hc. Qed.
Lemma keeping_set t : t <> Active -> keeping (set_transaction_state t).
Proof using. intros Ht s Hs. unfold set_transaction_state, transaction_state in *. destruct (state_poisoned (config s)) eqn:Hp; cbn; by rewrite Hp. Qed.
Lemma keeping_native {A} (n : Native A) : keeping (native n).
Proof using. apply keeping_same. intros s. unfold native. by destruct (n _). Qed.
Ltac session_op :=
  apply keeping_same; intros s; cbv [ret fail gets modify lift take_connection take_connection_engine return_connection catalog_commit_guard
    require_writable_transaction with_connection_engine native]; repeat case_match; by simplify_eq.
Lemma keeping_ret {A} (a : A) : keeping (ret a).
Proof using. session_op. Qed.
Lemma keeping_fail {A} e : keeping (fail (A := A) e).
Proof using. session_op. Qed.
Lemma keeping_gets {A} (f : _ -> A) : keeping (gets f).
Proof using. session_op. Qed.
Lemma keeping_lift {A} (r : result EngineError A) : keeping (lift r).
Proof using. session_op. Qed.
Lemma keeping_outstanding o : keeping (modify (fun s => set_outstanding s o)).
Proof using. session_op. Qed.
Lemma keeping_take : keeping take_connection_engine.
Proof using. session_op. Qed.
Lemma keeping_return : keeping return_connection.
Proof using. session_op. Qed.
Lemma keeping_guard : keeping catalog_commit_guard.
Proof using. session_op. Qed.
Lemma keeping_writable : keeping require_writable_transaction.
Proof using. session_op. Qed.
Lemma keeping_with {A} (n : Native A) : keeping (with_connection_engine n).
Proof using. session_op. Qed.
Create HintDb keeping.
Hint Resolve keeping_attempt keeping_native keeping_ret keeping_fail keeping_gets keeping_lift keeping_outstanding keeping_take keeping_return
  keeping_guard keeping_writable keeping_with : keeping.
Hint Extern 1 (keeping (set_transaction_state _)) => apply keeping_set; discriminate : keeping.
Ltac keeping :=
  repeat match goal with
  | |- keeping _ => by eauto 2 with keeping
  | |- keeping (Storage.attempt _) => apply keeping_attempt
  | |- keeping (bindM _ _) => apply keeping_bind; [|intros ?]
  | |- keeping (match ?x with _ => _ end) => destruct x
  | |- keeping (quarantine _) => unfold quarantine
  | |- keeping (quarantine_silently _) => unfold quarantine_silently
  end.
Lemma keeping_query rows v e setup : keeping (query_bound_stream rows v e setup).
Proof using. unfold query_bound_stream. keeping. Qed.
(** An operation that has taken over what was outstanding *)
Lemma keeping_taken {A} (m : M A) : keeping m -> keeping (fun s => m (set_outstanding s None)).
Proof using. intros Hm s Hs. by apply Hm. Qed.
Lemma keeping_drop requested : keeping (drop_stream requested).
Proof using.
  intros s Hs. unfold drop_stream. destruct (outstanding s) as [[st| |]|]; [|done..]. apply keeping_taken; [|done]. keeping.
Qed.
Lemma keeping_start_operation o : keeping (start_operation o).
Proof using. unfold start_operation. keeping. Qed.
Lemma keeping_update {A} (body : Native A) requested statements :
  keeping (update_execute set_autocommit native_commit native_rollback body requested statements).
Proof using.
  intros s Hs. unfold update_execute. destruct (outstanding s) as [[| |]|]; [done| |done..]. apply keeping_taken; [|done].
  unfold cancelled_update, failed_update, commit_update, cleaned_up, quarantine_silently. keeping.
Qed.
Lemma keeping_ingest {A S} (get_table_schema : Native S) projection create ingest (publish : Native A) dropped r1 r2 :
  keeping (ingest_execute get_table_schema projection create ingest publish dropped r1 r2).
Proof using.
  intros s Hs. unfold ingest_execute. destruct (outstanding s) as [[| |]|]; [done..| |done]. apply keeping_taken; [|done]. unfold quarantine_silently. keeping.
Qed.
Lemma keeping_transaction {A} (operation : Native_ -> Caught A * Native_) statements :
  keeping (transaction set_autocommit native_commit native_rollback operation statements).
Proof using.
  intros [[ident cp sp lp] w sl st ro j acc q out] Hs. destruct cp, sp, sl, st; try done; clear Hs; run_session; done.
Qed.

(** A transaction begun or ended *)
Lemma begin_keeps read_only s : transaction_state s <> Active -> is_ok (begin_transaction_with_access set_autocommit read_only s).1 = false ->
  transaction_state (begin_transaction_with_access set_autocommit read_only s).2 <> Active.
Proof using. destruct s as [[ident cp sp lp] w sl st ro j acc q out]. destruct cp, sp, sl, st; try done; run_session; done. Qed.
Lemma set_idle_closes (s s' : Session (World := Native_)) : set_transaction_state Idle s = (Ok tt, s') -> transaction_state s' <> Active.
Proof using. unfold set_transaction_state, transaction_state. destruct (state_poisoned (config s)) eqn:Hp; [done|]. intros [= <-]. cbn. by rewrite Hp. Qed.
Lemma bindM_ok {A B} (m : M (World := Native_) A) (k : A -> M B) s : is_ok (bindM m k s).1 = true ->
  exists a s', m s = (Ok a, s') /\ is_ok (k a s').1 = true /\ bindM m k s = k a s'.
Proof using. unfold bindM. destruct (m s) as [[a|e] s']; [|done]. intros Hk. by exists a, s'. Qed.
(** What ends in [set_transaction_state Idle] *)
Lemma bindM_closes {A} (m : M (World := Native_) A) (k : A -> M unit) : (forall a s, is_ok (k a s).1 = true -> transaction_state (k a s).2 <> Active) ->
  forall s, is_ok (bindM m k s).1 = true -> transaction_state (bindM m k s).2 <> Active.
Proof using. intros Hk s (a & s' & _ & Ho & ->)%bindM_ok. by apply Hk. Qed.
Lemma set_idle_ok (s : Session (World := Native_)) : is_ok (set_transaction_state Idle s).1 = true -> transaction_state (set_transaction_state Idle s).2 <> Active.
Proof using. destruct (set_transaction_state Idle s) as [[[]|e] s'] eqn:He; [|done]. intros _. by eapply set_idle_closes. Qed.
Lemma commit_ok statements s : is_ok (commit_transaction set_autocommit native_commit native_rollback statements s).1 = true ->
  transaction_state (commit_transaction set_autocommit native_commit native_rollback statements s).2 <> Active.
Proof using. revert s. repeat (apply bindM_closes; intros ?). apply set_idle_ok. Qed.
Lemma rollback_ok s : is_ok (rollback_transaction set_autocommit native_rollback s).1 = true ->
  transaction_state (rollback_transaction set_autocommit native_rollback s).2 <> Active.
Proof using. revert s. repeat (apply bindM_closes; intros ?). apply set_idle_ok. Qed.

(** The driver behind the storage session: what each text does on the native connection, and the
    rest of the surroundings of a call (workers, admission, cancellation) *)
Context {Row Params : Type} {server : Server (Row := Row) (Params := Params)}.
#[local] Abbreviation Store := (Session (World := Native_)).
Class Driver := {
  opening_fails : Store -> option string;
  admission : Store -> result PgWireError unit;
  cancelled : Store -> bool;
  reconciliation : Native (World := Native_) unit;
  origins : option Statement -> Native (World := Native_) (option Z);
  current_epoch : Native (World := Native_) Z;
  select : str -> option Params -> Native (World := Native_) unit;
  selected : str -> option Params -> Store -> list SchemaField * list (result PgWireError Row);
  mutate : str -> option Params -> Native (World := Native_) (option Z);
  layout : CopyTarget -> Native (World := Native_) (result EngineError unit);
  stage : CopyTarget -> nat -> Native (World := Native_) unit;
  merge : MaintenanceCommand -> Native_ -> Caught (option Z) * Native_;
  merge_in_place : MaintenanceCommand -> Native (World := Native_) (option Z);
  description : str -> Native (World := Native_) (nat * list SchemaField * option Z) }.
Context {driver : Driver}.

(** [engine_error] *)
Definition engine_error (e : EngineError) : PgWireError :=
  UserError (match sqlstate e with
             | Some code => string_of_list_byte code
             | None =>
                 match Storage.kind e with
                 | Unsupported => "0A000" | NotFound => "42P01" | AlreadyExists => "42P07" | Constraint => "23000"
                 | Unauthorized => "42501" | Cancelled | Timeout => "57014" | InvalidQuery => "42601" | Io => "58030"
                 | Busy => "55000" | Internal | IndeterminateCommit | QuarantinedKind => "XX000"
                 end
             end).
Definition reported {A} (m : M (World := Native_) A) : Store -> result PgWireError A * Store := fun s =>
  let '(r, s) := m s in (map_err engine_error r, s).
#[export] Instance storage_engine : Engine (Row := Row) (Params := Params) Store := {
  engine_state := transaction_state;
  open_session s := (match opening_fails s with Some code => Err (UserError code) | None => Ok tt end, s);
  acquire_writer s := (admission s, s);
  release s := (drop_stream (cancelled s) s).2;
  begin_with_access read_only := reported (begin_transaction_with_access set_autocommit read_only);
  commit := reported (commit_transaction set_autocommit native_commit native_rollback reconciliation);
  rollback := reported (rollback_transaction set_autocommit native_rollback);
  resolve_origins ast := reported (with_connection_engine (origins ast));
  query text bound catalog := reported
    (bindM (query_bound_stream (const 1 <$> bound) (Ok tt) ((fun e => (e, current_epoch)) <$> catalog) (select text bound))
       (fun _ => gets (selected text bound)));
  update text bound := reported
    (bindM (start_operation UpdateOperation)
       (fun _ => bindM (gets cancelled)
          (fun requested => update_execute set_autocommit native_commit native_rollback (mutate text bound) requested reconciliation)));
  ingest target := reported
    (bindM (start_operation IngestOperation)
       (fun _ => bindM (gets cancelled)
          (fun requested => ingest_execute (layout target) id (stage target 0) (stage target 1) (stage target 2) (stage target 3)
                              requested requested)));
  maintain command := reported
    (bindM require_writable_transaction
       (fun _ => bindM (gets (fun s => Storage.catalog_identity_enabled (config s)))
          (fun identity => if identity
                           then bindM (transaction set_autocommit native_commit native_rollback (merge command) reconciliation)
                                  (fun r => lift (ok_or r anyhow))
                           else with_connection_engine (merge_in_place command))));
  describe text := reported (with_connection_engine (description text)) }.

Lemma reported_calm {A} (m : M A) : keeping m -> stays_calm (reported m).
Proof using. intros Hm s Hs. specialize (Hm s Hs). unfold reported. by destruct (m s). Qed.
Lemma reported_ok {A} (m : M A) s : is_ok (reported m s).1 = is_ok (m s).1 /\ (reported m s).2 = (m s).2.
Proof using. unfold reported. by destruct (m s) as [[]]. Qed.
#[local] Hint Resolve keeping_query keeping_drop keeping_start_operation keeping_update keeping_ingest keeping_transaction : keeping.
#[export] Instance storage_laws : EngineLaws (engine := storage_engine).
Proof using.
  split; try solve [intros; apply reported_calm; keeping]; try by intros ? ?.
  - intros s. apply keeping_drop.
  - intros read_only s. cbn. destruct (reported_ok (begin_transaction_with_access set_autocommit read_only) s) as [-> ->]. apply begin_keeps.
  - intros s. cbn. destruct (reported_ok (commit_transaction set_autocommit native_commit native_rollback reconciliation) s) as [-> ->]. apply commit_ok.
  - intros s. cbn. destruct (reported_ok (rollback_transaction set_autocommit native_rollback) s) as [-> ->]. apply rollback_ok.
  - intros s. cbn. destruct (opening_fails s); cbn; eauto.
  - intros text s. cbn. unfold reported. destruct (with_connection_engine _ s) as [[]]; cbn; unfold engine_error; eauto.
Qed.
End storage.

(** ** Properties *)

(** C14: A client that is told it is outside a transaction block is: whatever a client sends, over
    either protocol, whatever the native driver answers and whether calls fail, are cancelled or
    quarantine the session, when ReadyForQuery gives the status idle then the storage session has
    no transaction open.  The exception is the end of a COPY of the simple protocol, where the
    status sent is always idle. *)
Theorem idle_status_truthful {Native_ Row Params : Type} (set_autocommit : bool -> Native (World := Native_) unit)
    (native_commit native_rollback : Native (World := Native_) unit) {server : Server (Row := Row) (Params := Params)}
    {driver : Driver (Native_ := Native_) (Row := Row) (Params := Params)} (user : option str) (s : Session (World := Native_))
    (ms : list Message) (m : Message) :
  ServerLaws -> transaction_state s <> Active -> m <> CopyEnded false None ->
  let c := receive_all (H := storage_engine set_autocommit native_commit native_rollback) (ms ++ [m]) (connected user s) in
  ready_status m c = Some StatusIdle -> transaction_state (world c) <> Active.
Proof.
  intros Hl Hs Hm c Hi. assert (Hc : status c = StatusIdle) by (by destruct m as [| | | | | |[] []|]; cbn in Hi; simplify_eq).
  revert Hc. apply (receive_all_told (engine := storage_engine set_autocommit native_commit native_rollback) (ms ++ [m])). by intros _.
Qed.

(** ** Examples *)

Module StatusExample.
#[local] Open Scope string_scope.
Import SessionOutcomes.Example.
Definition answer {A} (a : A) : Native (World := unit) A := fun w => (Ok a, w).
#[export] Instance sample_driver : Driver (Native_ := unit) (Row := str) (Params := unit) := {
  opening_fails _ := None;
  admission _ := Ok tt;
  cancelled _ := false;
  reconciliation := answer tt;
  origins _ := answer None;
  current_epoch := answer 0;
  select _ _ := answer tt;
  selected _ _ _ := ([mkSchemaField (lit "name") (lit "Utf8") true], [Ok (lit "A1")]);
  mutate _ _ := answer (Some 1);
  layout _ := answer (Ok tt);
  stage _ _ := answer tt;
  merge _ w := (Returned None, w);
  merge_in_place _ := answer None;
  description _ := answer (0%nat, [mkSchemaField (lit "name") (lit "Utf8") true], None) }.
Lemma sample_laws : ServerLaws (server := sample_server).
Proof. by split. Qed.
Definition fresh_session : Session (World := unit) := Storage.open_session false tt.
Definition run (texts : list string) : Connection (Row := str) (World := Session (World := unit)) :=
  receive_all (H := storage_engine (fun _ => answer tt) (answer tt) (answer tt)) (map (fun t => MessageQuery (lit t)) texts)
    (connected (Some (lit "alice")) fresh_session).
(** A block that is open, one that has failed and one that has ended *)
Lemma block_statuses :
  (fun c => (status c, transaction_state (world c))) <$> [run ["BEGIN"]; run ["BEGIN"; "SELEKT"]; run ["BEGIN"; "SELEKT"; "COMMIT"]] =
  [(StatusTransaction, Active); (StatusError, Active); (StatusIdle, Idle)].
Proof. vm_compute. reflexivity. Qed.
Lemma ended_idle : Some (status (run ["BEGIN"; "SELEKT"; "COMMIT"])) = Some StatusIdle.
Proof. vm_compute. reflexivity. Qed.
Lemma idle_status_truthful_witness : transaction_state (world (run ["BEGIN"; "SELEKT"; "COMMIT"])) <> Active.
Proof.
  apply (idle_status_truthful (fun _ => answer tt) (answer tt) (answer tt) (Some (lit "alice")) fresh_session
           (map (fun t => MessageQuery (lit t)) ["BEGIN"; "SELEKT"]) (MessageQuery (lit "COMMIT")));
    [exact sample_laws|discriminate|discriminate|exact ended_idle].
Defined.
(** After a COPY in a block, the client is told that it is outside. *)
Lemma copy_end_reports_idle :
  let c := receive (H := storage_engine (fun _ => answer tt) (answer tt) (answer tt)) (CopyEnded false None) (run ["BEGIN"; "COPY"]) in
  ready_status (CopyEnded false None) c = Some StatusIdle /\ status c = StatusTransaction /\ transaction_state (world c) = Active.
Proof. vm_compute. auto. Qed.
End StatusExample.
