(* ===== verification/CatalogGuard.v ===== *)
(** * The catalog a statement may name ([quackgis-server/src/pgwire_server/duckdb.rs])

    A statement may read the PostgreSQL catalog and the information schema, which are macros of
    a private schema.  Validation refuses the private names and the names DuckDB would
    resolve itself, and the statement that is executed calls the macros with the names of the
    identity in the place of the relations.

    Syntax is kept as far as the visitors of the SQL parser go: the visitor of relations sees the
    names of plain table factors and the targets of statements, that of expressions sees every
    expression, the ones in subqueries too. *)

From S2P Require Import Prelude RoleCatalog RoleSession SqlSyntax PrivilegeInquiry.

(** ** Syntax *)

(** [others] and [subqueries] are in the parts of a call that are not plain arguments: a call whose
    argument is a query, such as [ARRAY(SELECT ..)], has it there. *)
Inductive Expr :=
  | Identifier (i : Ident)
  | CompoundIdentifier (parts : list Ident)
  | ValueExpr (v : Value)
  | FunctionCall (head : FunctionHead) (arguments : list (option Expr)) (others : list Expr) (subqueries : list Query)
  | InSubquery (e : Expr) (subquery : Query)
  | Exists (subquery : Query)
  | Subquery (subquery : Query)
  | OtherExpr (text : str) (children : list Expr)
(** [clauses] are the expressions of ORDER BY, LIMIT and the like. *)
with Query := mkQuery (ctes : list (Ident * Query)) (body : SetExpr) (clauses : list Expr)
with SetExpr :=
  | SetSelect (items : list Expr) (from : list TableWithJoins)
  | SetQuery (q : Query)
  | SetOperation (lhs rhs : SetExpr)
  | SetTable (name : str)
  | SetOther (es : list Expr)
with TableWithJoins := mkTableWithJoins (relation : TableFactor) (joins : list (TableFactor * list Expr))
(** [modified]: the table has hints, a version, column aliases or another such part. *)
with TableFactor :=
  | FactorTable (name : ObjectName) (args : option (list Expr)) (modified : bool) (others : list Expr)
  | FactorFunction (name : ObjectName) (args : list Expr)
  | FactorTableFunction (e : Expr)
  | FactorDerived (q : Query)
  | FactorNestedJoin (t : TableWithJoins)
  | FactorPivot (t : TableFactor) (es : list Expr)
  | FactorOther (es : list Expr).
(** Any other statement: the relations it names directly, its table factors, queries and expressions *)
Inductive Statement :=
  | QueryStatement (q : Query)
  | OtherStatement (targets : list ObjectName) (sources : list TableWithJoins) (queries : list Query) (es : list Expr).

(** ** Visitors *)

(** A table factor with a name, a plain one or a LATERAL call: its name and its arguments, those
    that are text literals with their text *)
Record TableHead := mkTableHead {
  head_plain : bool; head_name : ObjectName; head_args : option (list (option str)); head_modified : bool }.
Definition literal_text (e : Expr) : option str := match e with ValueExpr (SingleQuotedString s) => Some s | _ => None end.
Definition table_head (name : ObjectName) (args : option (list Expr)) (modified : bool) : TableHead :=
  mkTableHead true name (option_map (map literal_text) args) modified.

(** All table factors with a name *)
Fixpoint expr_tables (e : Expr) : list TableHead :=
  match e with
  | Identifier _ | CompoundIdentifier _ | ValueExpr _ => []
  | FunctionCall _ arguments others subqueries =>
      flat_map (fun a => match a with Some e => expr_tables e | None => [] end) arguments ++ flat_map expr_tables others ++
      flat_map query_tables subqueries
  | InSubquery e q => expr_tables e ++ query_tables q
  | Exists q | Subquery q => query_tables q
  | OtherExpr _ children => flat_map expr_tables children
  end
with query_tables (q : Query) : list TableHead :=
  match q with
  | mkQuery ctes body clauses => flat_map (fun '(_, q) => query_tables q) ctes ++ set_tables body ++ flat_map expr_tables clauses
  end
with set_tables (s : SetExpr) : list TableHead :=
  match s with
  | SetSelect items from => flat_map expr_tables items ++ flat_map joins_tables from
  | SetQuery q => query_tables q
  | SetOperation l r => set_tables l ++ set_tables r
  | SetTable _ => []
  | SetOther es => flat_map expr_tables es
  end
with joins_tables (t : TableWithJoins) : list TableHead :=
  match t with
  | mkTableWithJoins relation joins => factor_tables relation ++ flat_map (fun '(f, es) => factor_tables f ++ flat_map expr_tables es) joins
  end
with factor_tables (f : TableFactor) : list TableHead :=
  match f with
  | FactorTable name args modified others =>
      table_head name args modified :: match args with Some args => flat_map expr_tables args | None => [] end ++ flat_map expr_tables others
  | FactorFunction name args => mkTableHead false name (Some (map literal_text args)) false :: flat_map expr_tables args
  | FactorTableFunction e => expr_tables e
  | FactorDerived q => query_tables q
  | FactorNestedJoin t => joins_tables t
  | FactorPivot t es => factor_tables t ++ flat_map expr_tables es
  | FactorOther es => flat_map expr_tables es
  end.
Definition tables (s : Statement) : list TableHead :=
  match s with
  | QueryStatement q => query_tables q
  | OtherStatement _ sources queries es => flat_map joins_tables sources ++ flat_map query_tables queries ++ flat_map expr_tables es
  end.
(** What [visit_relations] visits *)
Definition targets (s : Statement) : list ObjectName := match s with QueryStatement _ => [] | OtherStatement targets _ _ _ => targets end.
Definition relations (s : Statement) : list ObjectName := targets s ++ map head_name (filter head_plain (tables s)).

(** The change of a plain table factor: a new name, or a call of a macro with text literals *)
Inductive Change := Keep | Rename (name : ObjectName) | CallMacro (name : ObjectName) (values : list str).
Definition text_literal (s : str) : Expr := ValueExpr (SingleQuotedString s).
(** The mutable visitors of the parser: [f] changes plain table factors before, [g] changes
    expressions after what is in them *)
Section visitor.
Context (f : ObjectName -> bool -> Change) (g : Expr -> Expr).
Definition changed_table (name : ObjectName) (args : option (list Expr)) (modified : bool) (others : list Expr) : TableFactor :=
  match f name (bool_decide (is_Some args)) with
  | Keep => FactorTable name args modified others
  | Rename name => FactorTable name args modified others
  | CallMacro name values => FactorTable name (Some (map text_literal values)) modified others
  end.
Fixpoint map_expr (e : Expr) : Expr :=
  g match e with
  | Identifier _ | CompoundIdentifier _ | ValueExpr _ => e
  | FunctionCall h arguments others subqueries =>
      FunctionCall h (map (fun a => match a with Some e => Some (map_expr e) | None => None end) arguments) (map map_expr others)
        (map map_query subqueries)
  | InSubquery e q => InSubquery (map_expr e) (map_query q)
  | Exists q => Exists (map_query q)
  | Subquery q => Subquery (map_query q)
  | OtherExpr t children => OtherExpr t (map map_expr children)
  end
with map_query (q : Query) : Query :=
  match q with
  | mkQuery ctes body clauses => mkQuery (map (fun '(n, q) => (n, map_query q)) ctes) (map_set body) (map map_expr clauses)
  end
with map_set (s : SetExpr) : SetExpr :=
  match s with
  | SetSelect items from => SetSelect (map map_expr items) (map map_joins from)
  | SetQuery q => SetQuery (map_query q)
  | SetOperation l r => SetOperation (map_set l) (map_set r)
  | SetTable n => SetTable n
  | SetOther es => SetOther (map map_expr es)
  end
with map_joins (t : TableWithJoins) : TableWithJoins :=
  match t with
  | mkTableWithJoins relation joins => mkTableWithJoins (map_factor relation) (map (fun '(f, es) => (map_factor f, map map_expr es)) joins)
  end
with map_factor (t : TableFactor) : TableFactor :=
  match t with
  | FactorTable name args modified others =>
      changed_table name (match args with Some args => Some (map map_expr args) | None => None end) modified (map map_expr others)
  | FactorFunction name args => FactorFunction name (map map_expr args)
  | FactorTableFunction e => FactorTableFunction (map_expr e)
  | FactorDerived q => FactorDerived (map_query q)
  | FactorNestedJoin t => FactorNestedJoin (map_joins t)
  | FactorPivot t es => FactorPivot (map_factor t) (map map_expr es)
  | FactorOther es => FactorOther (map map_expr es)
  end.
Definition visit_both (s : Statement) : Statement :=
  match s with
  | QueryStatement q => QueryStatement (map_query q)
  | OtherStatement targets sources queries es => OtherStatement targets (map map_joins sources) (map map_query queries) (map map_expr es)
  end.
End visitor.
(** A visitor of table factors, and [visit_expressions_mut] *)
Definition visit_factors (f : ObjectName -> bool -> Change) : Statement -> Statement := visit_both f id.
Definition visit_expressions_mut (g : Expr -> Expr) : Statement -> Statement := visit_both (fun _ _ => Keep) g.
(** [visit_relations_mut] *)
Definition visit_relations_mut (f : ObjectName -> option ObjectName) (s : Statement) : Statement :=
  match visit_factors (fun name _ => match f name with Some name => Rename name | None => Keep end) s with
  | QueryStatement q => QueryStatement q
  | OtherStatement targets sources queries es => OtherStatement (map (fun n => default n (f n)) targets) sources queries es
  end.
(** All expressions, each before those in it: what [visit_expressions] visits *)
Fixpoint expr_nodes (e : Expr) : list Expr :=
  e :: match e with
       | Identifier _ | CompoundIdentifier _ | ValueExpr _ => []
       | FunctionCall _ arguments others subqueries =>
           flat_map (fun a => match a with Some e => expr_nodes e | None => [] end) arguments ++ flat_map expr_nodes others ++
           flat_map query_nodes subqueries
       | InSubquery e q => expr_nodes e ++ query_nodes q
       | Exists q | Subquery q => query_nodes q
       | OtherExpr _ children => flat_map expr_nodes children
       end
with query_nodes (q : Query) : list Expr :=
  match q with
  | mkQuery ctes body clauses => flat_map (fun '(_, q) => query_nodes q) ctes ++ set_nodes body ++ flat_map expr_nodes clauses
  end
with set_nodes (s : SetExpr) : list Expr :=
  match s with
  | SetSelect items from => flat_map expr_nodes items ++ flat_map joins_nodes from
  | SetQuery q => query_nodes q
  | SetOperation l r => set_nodes l ++ set_nodes r
  | SetTable _ => []
  | SetOther es => flat_map expr_nodes es
  end
with joins_nodes (t : TableWithJoins) : list Expr :=
  match t with
  | mkTableWithJoins relation joins => factor_nodes relation ++ flat_map (fun '(f, es) => factor_nodes f ++ flat_map expr_nodes es) joins
  end
with factor_nodes (f : TableFactor) : list Expr :=
  match f with
  | FactorTable _ args _ others => match args with Some args => flat_map expr_nodes args | None => [] end ++ flat_map expr_nodes others
  | FactorFunction _ args => flat_map expr_nodes args
  | FactorTableFunction e => expr_nodes e
  | FactorDerived q => query_nodes q
  | FactorNestedJoin t => joins_nodes t
  | FactorPivot t es => factor_nodes t ++ flat_map expr_nodes es
  | FactorOther es => flat_map expr_nodes es
  end.
Definition nodes (s : Statement) : list Expr :=
  match s with
  | QueryStatement q => query_nodes q
  | OtherStatement _ sources queries es => flat_map joins_nodes sources ++ flat_map query_nodes queries ++ flat_map expr_nodes es
  end.

(** ** Catalog relations *)

Definition named (table : Ident) (names : list str) : option str := List.find (fun n => pg_identifier_matches table n) names.
(** [catalog_relation_identifier] *)
Definition catalog_relation_identifier (name : ObjectName) : option (Ident * bool) :=
  match name with
  | [PartIdentifier table] => Some (table, false)
  | [PartIdentifier schema; PartIdentifier table] | [PartIdentifier _; PartIdentifier schema; PartIdentifier table] =>
      if pg_identifier_matches schema (lit "pg_catalog") then Some (table, true) else None
  | _ => None
  end.
(** [maintained_pg_catalog_relation], [maintained_information_schema_relation] and
    [maintained_catalog_relation] *)
Definition pg_catalog_relations : list str := Eval vm_compute in
  map lit ["pg_namespace"; "pg_database"; "pg_proc"; "pg_type"; "pg_class"; "pg_attribute"; "pg_attrdef"; "pg_description";
           "pg_constraint"; "pg_index"; "pg_am"; "pg_range"; "pg_collation"; "pg_roles"; "pg_auth_members"; "geometry_columns";
           "spatial_ref_sys"]%string.
Definition maintained_pg_catalog_relation (name : ObjectName) : option str :=
  if (2 <? length name)%nat then None
  else '(table, _) ← catalog_relation_identifier name; named table pg_catalog_relations.
Definition information_schema_macros : list (str * str) := Eval vm_compute in
  map (fun r => (lit r, lit "quackgis_information_schema_" ++ lit r))
    ["schemata"; "tables"; "columns"; "table_privileges"; "role_table_grants"; "column_privileges"; "role_column_grants"]%string.
Definition information_schema_relation_identifier (name : ObjectName) : option Ident :=
  match name with
  | [PartIdentifier schema; PartIdentifier table] =>
      if pg_identifier_matches schema (lit "information_schema") then Some table else None
  | _ => None
  end.
Definition maintained_information_schema_relation (name : ObjectName) : option str :=
  table ← information_schema_relation_identifier name; named table (map fst information_schema_macros).
Definition maintained_catalog_relation (name : ObjectName) : option str :=
  match maintained_pg_catalog_relation name with Some r => Some r | None => maintained_information_schema_relation name end.
(** [information_schema_macro]; [None] is unreachable. *)
Definition information_schema_macro (relation : str) : option str :=
  snd <$> List.find (fun m => bool_decide (m.1 = relation)) information_schema_macros.
(** [identity_catalog_relation] *)
Definition identity_relations : list str := Eval vm_compute in
  map lit ["pg_class"; "pg_attribute"; "pg_attrdef"; "pg_description"; "pg_constraint"; "pg_index"; "geometry_columns"; "spatial_ref_sys"]%string.
Definition identity_catalog_relation (relation : str) : bool := bool_decide (relation ∈ identity_relations).
(** The macros of [RoleStructuralCatalogRewriter] *)
Definition structural_macros : list (str * str) := Eval vm_compute in
  map (fun '(r, m) => (lit r, lit m))
    [("pg_attrdef", "quackgis_pg_attrdef_visible"); ("pg_description", "quackgis_pg_description_visible");
     ("pg_constraint", "quackgis_pg_constraint_visible"); ("pg_index", "quackgis_pg_index_visible");
     ("geometry_columns", "quackgis_pg_geometry_columns_visible")]%string.
Definition structural_macro (relation : str) : option str :=
  snd <$> List.find (fun m => bool_decide (m.1 = relation)) structural_macros.

(** ** Refused names *)

(** The schema of a name of two or three parts *)
Definition name_schema (name : ObjectName) : option Ident :=
  match name with
  | [PartIdentifier schema; PartIdentifier _] | [PartIdentifier _; PartIdentifier schema; PartIdentifier _] => Some schema
  | _ => None
  end.
Definition in_schema (schema : str) (name : ObjectName) : bool :=
  match name_schema name with Some i => eq_ignore_ascii_case (ident_value i) schema | None => false end.
Definition PRIVATE_SCHEMA : str := lit "quackgis_pg_catalog".
Definition INTERNAL_SCHEMA : str := lit "_quackgis".
(** [private_catalog_reference] *)
Definition private_call (e : Expr) : bool :=
  match e with
  | FunctionCall h _ _ _ =>
      existsb (fun p => match p with
                        | PartIdentifier i =>
                            let lower := to_ascii_lowercase (ident_value i) in
                            starts_with (lit "quackgis_current_") lower || starts_with (lit "quackgis_pg_") lower
                        | PartFunction _ => false
                        end) (function_name h)
  | CompoundIdentifier parts => existsb (fun i => eq_ignore_ascii_case (ident_value i) PRIVATE_SCHEMA) (removelast parts)
  | _ => false
  end.
Definition private_catalog_reference (s : Statement) : bool := existsb (in_schema PRIVATE_SCHEMA) (relations s) || existsb private_call (nodes s).
(** [internal_control_schema_reference] *)
Definition internal_control_schema_reference (s : Statement) : bool := existsb (in_schema INTERNAL_SCHEMA) (relations s).
(** [forbidden_client_scalar_function] *)
Definition forbidden_scalar (e : Expr) : bool :=
  match e with
  | FunctionCall h _ _ _ =>
      match last (function_name h) with
      | Some (PartIdentifier i) => bool_decide (to_ascii_lowercase (ident_value i) = lit "error")
      | _ => false
      end
  | _ => false
  end.
Definition forbidden_client_scalar_function (s : Statement) : bool := existsb forbidden_scalar (nodes s).

(** [invalid_quoted_catalog_reference], its relations *)
Definition invalid_quoted_relation (name : ObjectName) : bool :=
  let go schema table :=
    let within n := match schema with Some i => eq_ignore_ascii_case (ident_value i) n | None => false end in
    let spelled n := match schema with Some i => pg_identifier_matches i n | None => true end in
    let catalog_schema := is_none schema || within (lit "pg_catalog") || within (lit "information_schema") in
    let invalid_schema := (within (lit "pg_catalog") && negb (spelled (lit "pg_catalog")))
                          || (within (lit "information_schema") && negb (spelled (lit "information_schema"))) in
    let lower := to_ascii_lowercase (ident_value table) in
    let invalid_table := negb (is_none (quote_style table)) && negb (bool_decide (ident_value table = lower))
                         && (starts_with (lit "pg_") lower || within (lit "information_schema")) in
    catalog_schema && (invalid_schema || invalid_table) in
  match name with
  | [PartIdentifier table] => go None table
  | [PartIdentifier schema; PartIdentifier table] | [PartIdentifier _; PartIdentifier schema; PartIdentifier table] => go (Some schema) table
  | _ => false
  end.

(** [unsupported_catalog_relation] *)
Definition unsupported_relation (enabled : bool) (name : ObjectName) : bool :=
  match catalog_relation_identifier name with
  | None => negb (is_none (information_schema_relation_identifier name)) && is_none (maintained_information_schema_relation name)
  | Some (table, explicitly_catalog) =>
      let lower := to_ascii_lowercase (ident_value table) in
      let unqualified_pg_name := starts_with (lit "pg_") lower && pg_identifier_matches table lower in
      match maintained_pg_catalog_relation name with
      | Some r => identity_catalog_relation r && negb enabled
      | None => explicitly_catalog || unqualified_pg_name
      end
  end.
Definition unsupported_catalog_relation (s : Statement) (enabled : bool) : bool := existsb (unsupported_relation enabled) (relations s).

(** [forbidden_catalog_function_name] *)
Definition forbidden_tables : list str := Eval vm_compute in map lit ["query"; "query_table"; "ducklake_column_info"]%string.
Definition private_macro (lower : str) : bool :=
  starts_with (lit "quackgis_information_schema_") lower || starts_with (lit "quackgis_pg_") lower.
Definition forbidden_catalog_function_name (name : ObjectName) : option str :=
  match last name with
  | Some (PartIdentifier i) =>
      let lower := to_ascii_lowercase (ident_value i) in
      if bool_decide (lower ∈ forbidden_tables) || private_macro lower then Some lower else None
  | _ => None
  end.

(** [forbidden_catalog_table_function]: the relations, and for a query the table functions as well;
    [in_query] walks the FROM clauses, [deep] visits the expressions for subqueries to walk. *)
Definition find_name {A} (f : A -> option str) (l : list A) : option str := foldr (fun a r => match f a with Some n => Some n | None => r end) None l.
Definition or_else (a b : option str) : option str := match a with Some n => Some n | None => b end.
Fixpoint deep_expr (e : Expr) : option str :=
  match e with
  | Identifier _ | CompoundIdentifier _ | ValueExpr _ => None
  | FunctionCall _ arguments others subqueries =>
      or_else (find_name (fun a => match a with Some e => deep_expr e | None => None end) arguments)
        (or_else (find_name deep_expr others) (find_name deep_query subqueries))
  | InSubquery e q => or_else (in_query q) (or_else (deep_expr e) (deep_query q))
  | Exists q | Subquery q => or_else (in_query q) (deep_query q)
  | OtherExpr _ children => find_name deep_expr children
  end
with deep_query (q : Query) : option str :=
  match q with
  | mkQuery ctes body clauses =>
      or_else (find_name (fun '(_, q) => deep_query q) ctes) (or_else (deep_set body) (find_name deep_expr clauses))
  end
with deep_set (s : SetExpr) : option str :=
  match s with
  | SetSelect items from => or_else (find_name deep_expr items) (find_name deep_joins from)
  | SetQuery q => deep_query q
  | SetOperation l r => or_else (deep_set l) (deep_set r)
  | SetTable _ => None
  | SetOther es => find_name deep_expr es
  end
with deep_joins (t : TableWithJoins) : option str :=
  match t with
  | mkTableWithJoins relation joins =>
      or_else (deep_factor relation) (find_name (fun '(f, es) => or_else (deep_factor f) (find_name deep_expr es)) joins)
  end
with deep_factor (f : TableFactor) : option str :=
  match f with
  | FactorTable _ args _ others =>
      or_else (match args with Some args => find_name deep_expr args | None => None end) (find_name deep_expr others)
  | FactorFunction _ args => find_name deep_expr args
  | FactorTableFunction e => deep_expr e
  | FactorDerived q => deep_query q
  | FactorNestedJoin t => deep_joins t
  | FactorPivot t es => or_else (deep_factor t) (find_name deep_expr es)
  | FactorOther es => find_name deep_expr es
  end
with in_query (q : Query) : option str :=
  match q with
  | mkQuery ctes body _ => or_else (find_name (fun '(_, q) => in_query q) ctes) (or_else (in_set body) (deep_set body))
  end
with in_set (s : SetExpr) : option str :=
  match s with
  | SetSelect _ from => find_name in_joins from
  | SetQuery q => in_query q
  | SetOperation l r => or_else (in_set l) (in_set r)
  | SetTable _ | SetOther _ => None
  end
with in_joins (t : TableWithJoins) : option str :=
  match t with mkTableWithJoins relation joins => or_else (in_factor relation) (find_name (fun '(f, _) => in_factor f) joins) end
with in_factor (f : TableFactor) : option str :=
  match f with
  | FactorTable name (Some _) _ _ | FactorFunction name _ => forbidden_catalog_function_name name
  | FactorTable _ None _ _ => None
  | FactorTableFunction (FunctionCall h _ _ _) => forbidden_catalog_function_name (function_name h)
  | FactorTableFunction _ => None
  | FactorDerived q => in_query q
  | FactorNestedJoin t => in_joins t
  | FactorPivot t _ => in_factor t
  | FactorOther _ => None
  end.
Definition forbidden_catalog_table_function (s : Statement) : option str :=
  or_else (find_name forbidden_catalog_function_name (relations s))
    (match s with QueryStatement q => in_query q | OtherStatement _ _ _ _ => None end).

(** [invalid_information_schema_factor] *)
Definition invalid_information_schema_head (h : TableHead) : bool :=
  negb (is_none (maintained_information_schema_relation (head_name h))) &&
  (negb (head_plain h) || negb (is_none (head_args h)) || head_modified h).
Definition invalid_information_schema_factor (s : Statement) : bool := existsb invalid_information_schema_head (tables s).

(** ** The identity in expressions *)

Definition plain_call (h : FunctionHead) : bool :=
  negb (uses_odbc_syntax h || has_parameters h || has_filter h || has_null_treatment h || has_over h || has_within_group h).
(** [session_identity_function] *)
Definition identity_functions : list str := Eval vm_compute in map lit ["current_user"; "session_user"; "current_role"; "user"]%string.
Definition session_identity_function (h : FunctionHead) (subqueries : list Query) : option str :=
  if negb (plain_call h) || args_listed h || negb (bool_decide (length subqueries = 0)%nat) then None
  else match function_name h with [PartIdentifier name] => named name identity_functions | _ => None end.
(** [plain_function_arguments], [pg_function_name_matches] and [request_setting_function] *)
Definition plain_function_arguments (h : FunctionHead) (arguments : list (option Expr)) : option (list Expr) :=
  if negb (plain_call h) || negb (args_listed h) || args_modified h then None else mapM id arguments.
Definition pg_function_name_matches (name : ObjectName) (expected : str) : bool :=
  match name with
  | [PartIdentifier f] => pg_identifier_matches f expected
  | [PartIdentifier schema; PartIdentifier f] => pg_identifier_matches schema (lit "pg_catalog") && pg_identifier_matches f expected
  | _ => false
  end.
Definition request_setting_function (h : FunctionHead) (arguments : list (option Expr)) : option str :=
  if negb (pg_function_name_matches (function_name h) (lit "current_setting")) then None
  else match plain_function_arguments h arguments with
       | Some [setting; missing_ok] =>
           match literal_text setting, missing_ok with
           | Some setting, ValueExpr (Boolean true) => if bool_decide (setting = REQUEST_JWT_CLAIMS) then Some setting else None
           | _, _ => None
           end
       | _ => None
       end.
(** [invalid_session_identity_function] *)
Definition invalid_identity_call (e : Expr) : bool :=
  match e with
  | FunctionCall h _ _ subqueries =>
      match last (function_name h) with
      | Some (PartIdentifier i) =>
          is_none (quote_style i) && bool_decide (to_ascii_lowercase (ident_value i) ∈ identity_functions)
          && is_none (session_identity_function h subqueries)
      | _ => false
      end
  | _ => false
  end.
(** [invalid_request_context_function] *)
Definition invalid_request_call (accepted_set_config : bool) (e : Expr) : bool :=
  match e with
  | FunctionCall h arguments _ _ =>
      (function_name_ends_with (function_name h) (lit "set_config")
       && (negb accepted_set_config || negb (pg_function_name_matches (function_name h) (lit "set_config"))))
      || (function_name_ends_with (function_name h) (lit "current_setting") && is_none (request_setting_function h arguments))
  | _ => false
  end.
(** [rewrite_session_identity]: the text an expression stands for, where [Some None] is NULL *)
Definition identity_value (i : SessionIdentity) (e : Expr) : option (option str) :=
  match e with
  | FunctionCall h arguments _ subqueries =>
      match session_identity_function h subqueries with
      | Some name => Some (Some (if bool_decide (name = lit "session_user") then identity_session_user i else identity_current_user i))
      | None => (fun name => identity_request_context i !! name) <$> request_setting_function h arguments
      end
  | Identifier name =>
      if is_none (quote_style name) && eq_ignore_ascii_case (ident_value name) (lit "current_role") then Some (Some (identity_current_user i)) else None
  | _ => None
  end.
Definition null_text : Expr := OtherExpr (lit "CAST(NULL AS VARCHAR)") [ValueExpr Null].
Definition bind_identity (i : SessionIdentity) (e : Expr) : Expr :=
  match identity_value i e with Some (Some v) => text_literal v | Some None => null_text | None => e end.
Definition rewrite_session_identity (i : SessionIdentity) : Statement -> Statement := visit_expressions_mut (bind_identity i).

(** ** Validation *)

(** The checks of names, of the identity and of the request context as
    [validate_statement_with_catalog_identity] makes them; it also refuses CTEs with reserved
    names, TABLE, quoted columns of catalog relations, and shapes and functions of the catalog
    that it does not maintain *)
Definition check_catalog (s : Statement) (enabled accepted_set_config : bool) : result PgWireError unit :=
  _ ← ensure (negb (existsb invalid_quoted_relation (relations s))) (UserError "42703");
  _ ← ensure (negb (private_catalog_reference s)) (UserError "0A000");
  _ ← ensure (negb (forbidden_client_scalar_function s)) (UserError "0A000");
  _ ← ensure (negb (existsb invalid_identity_call (nodes s))) (UserError "0A000");
  _ ← ensure (negb (existsb (invalid_request_call accepted_set_config) (nodes s))) (UserError "0A000");
  _ ← ensure (negb (internal_control_schema_reference s)) (UserError "42501");
  _ ← ensure (is_none (forbidden_catalog_table_function s)) (UserError "0A000");
  _ ← ensure (negb (unsupported_catalog_relation s enabled)) (UserError "0A000");
  ensure (negb (invalid_information_schema_factor s)) (UserError "0A000").

(** ** The statement that is executed *)

Definition plain_ident (s : str) : Ident := mkIdent s None.
Definition part (s : str) : ObjectNamePart := PartIdentifier (plain_ident s).
Definition served_name (table : Ident) : ObjectName := [part (lit "quackgis"); part (lit "main"); PartIdentifier table].
(** [identifier_key] *)
Definition identifier_key (i : Ident) : str := match quote_style i with Some _ => ident_value i | None => to_ascii_lowercase (ident_value i) end.
(** [rewrite_public_relations] *)
Definition cte_names (s : Statement) : list str :=
  match s with QueryStatement (mkQuery ctes _ _) => map (fun c => identifier_key c.1) ctes | OtherStatement _ _ _ _ => [] end.
Definition unqualified_change (ctes : list str) (name : ObjectName) (args : bool) : Change :=
  match name with
  | [PartIdentifier table] =>
      if args || bool_decide (identifier_key table ∈ ctes) || negb (is_none (maintained_catalog_relation name)) then Keep
      else Rename (served_name table)
  | _ => Keep
  end.
Definition public_name (name : ObjectName) : option ObjectName :=
  match name with
  | [PartIdentifier schema; PartIdentifier table] =>
      if eq_ignore_ascii_case (ident_value schema) (lit "public") then Some (served_name table) else None
  | [PartIdentifier catalog; PartIdentifier schema; PartIdentifier table] =>
      if eq_ignore_ascii_case (ident_value catalog) (lit "quackgis") && eq_ignore_ascii_case (ident_value schema) (lit "public")
      then Some (served_name table) else None
  | _ => None
  end.
Definition rewrite_public_relations (s : Statement) : Statement :=
  visit_relations_mut public_name (visit_factors (unqualified_change (cte_names s)) s).
(** [InformationSchemaRewriter], [RoleStructuralCatalogRewriter] and [rewrite_pg_catalog_relations] *)
Definition information_schema_change (role user : str) (name : ObjectName) (_ : bool) : Change :=
  match maintained_information_schema_relation name ≫= information_schema_macro with
  | Some m => CallMacro [part m] [role; user]
  | None => Keep
  end.
Definition rewrite_information_schema_relations (role user : str) (s : Statement) : Statement := visit_factors (information_schema_change role user) s.
Definition structural_change (role user : str) (name : ObjectName) (_ : bool) : Change :=
  match maintained_pg_catalog_relation name ≫= structural_macro with
  | Some m => CallMacro [part m] [role; user]
  | None => Keep
  end.
Definition rewrite_role_structural_catalog_relations (role user : str) (s : Statement) : Statement := visit_factors (structural_change role user) s.
Definition private_name (name : ObjectName) : option ObjectName :=
  relation ← maintained_pg_catalog_relation name; Some [part PRIVATE_SCHEMA; part relation].
Definition rewrite_pg_catalog_relations (s : Statement) : Statement := visit_relations_mut private_name s.
(** The relations of [execution] in [validate_statement_with_catalog_identity], under a role catalog *)
Definition execution_relations (i : SessionIdentity) (enabled : bool) (s : Statement) : Statement :=
  let role := identity_current_user i in
  let user := identity_session_user i in
  let s := rewrite_public_relations s in
  let s := rewrite_information_schema_relations role user s in
  let s := if enabled then rewrite_role_structural_catalog_relations role user s else s in
  rewrite_pg_catalog_relations s.
