(* ===== verification/CatalogOutcomes.v ===== *)
(** * What an accepted statement reads of the catalog

    In the statement that is executed, every macro of the private catalog is called with the
    names of the connection's own identity, and no plain table factor names the schemas that
    DuckDB or the server keep for themselves. *)

From S2P Require Import Prelude RoleCatalog RoleSession SqlSyntax PrivilegeInquiry CatalogGuard.
#[local] Set Default Goal Selector "!".

(** ** Induction on the syntax *)

Definition all_list {A} {P : A -> Prop} (f : forall a, P a) : forall l, Forall P l :=
  fix go l := match l with [] => Forall_nil_2 P | a :: l => Forall_cons_2 P a l (f a) (go l) end.
Section induction.
Context (PE : Expr -> Prop) (PQ : Query -> Prop) (PS : SetExpr -> Prop) (PJ : TableWithJoins -> Prop) (PF : TableFactor -> Prop).
Definition some_arg (a : option Expr) : Prop := match a with Some e => PE e | None => True end.
Definition joined (j : TableFactor * list Expr) : Prop := PF j.1 /\ Forall PE j.2.
Context (h_ident : forall i, PE (Identifier i)) (h_compound : forall ps, PE (CompoundIdentifier ps)) (h_value : forall v, PE (ValueExpr v))
  (h_call : forall h a o q, Forall some_arg a -> Forall PE o -> Forall PQ q -> PE (FunctionCall h a o q))
  (h_in : forall e q, PE e -> PQ q -> PE (InSubquery e q)) (h_exists : forall q, PQ q -> PE (Exists q))
  (h_sub : forall q, PQ q -> PE (Subquery q)) (h_other : forall t es, Forall PE es -> PE (OtherExpr t es))
  (h_query : forall c b es, Forall (fun c => PQ c.2) c -> PS b -> Forall PE es -> PQ (mkQuery c b es))
  (h_select : forall es js, Forall PE es -> Forall PJ js -> PS (SetSelect es js)) (h_setquery : forall q, PQ q -> PS (SetQuery q))
  (h_op : forall l r, PS l -> PS r -> PS (SetOperation l r)) (h_table : forall n, PS (SetTable n)) (h_setother : forall es, Forall PE es -> PS (SetOther es))
  (h_joins : forall f js, PF f -> Forall joined js -> PJ (mkTableWithJoins f js))
  (h_plain : forall n a m o, match a with Some es => Forall PE es | None => True end -> Forall PE o -> PF (FactorTable n a m o))
  (h_function : forall n es, Forall PE es -> PF (FactorFunction n es)) (h_tablefunction : forall e, PE e -> PF (FactorTableFunction e))
  (h_derived : forall q, PQ q -> PF (FactorDerived q)) (h_nested : forall t, PJ t -> PF (FactorNestedJoin t))
  (h_pivot : forall t es, PF t -> Forall PE es -> PF (FactorPivot t es)) (h_factorother : forall es, Forall PE es -> PF (FactorOther es)).
Fixpoint expr_rect' (e : Expr) : PE e :=
  match e with
  | Identifier i => h_ident i
  | CompoundIdentifier ps => h_compound ps
  | ValueExpr v => h_value v
  | FunctionCall h a o q =>
      h_call h a o q (all_list (fun a : option Expr => match a return some_arg a with Some e => expr_rect' e | None => I end) a)
        (all_list expr_rect' o) (all_list query_rect' q)
  | InSubquery e q => h_in e q (expr_rect' e) (query_rect' q)
  | Exists q => h_exists q (query_rect' q)
  | Subquery q => h_sub q (query_rect' q)
  | OtherExpr t es => h_other t es (all_list expr_rect' es)
  end
with query_rect' (q : Query) : PQ q :=
  match q with
  | mkQuery c b es =>
      h_query c b es (all_list (fun c : Ident * Query => match c return PQ c.2 with (_, q) => query_rect' q end) c) (set_rect' b) (all_list expr_rect' es)
  end
with set_rect' (s : SetExpr) : PS s :=
  match s with
  | SetSelect es js => h_select es js (all_list expr_rect' es) (all_list joins_rect' js)
  | SetQuery q => h_setquery q (query_rect' q)
  | SetOperation l r => h_op l r (set_rect' l) (set_rect' r)
  | SetTable n => h_table n
  | SetOther es => h_setother es (all_list expr_rect' es)
  end
with joins_rect' (t : TableWithJoins) : PJ t :=
  match t with
  | mkTableWithJoins f js =>
      h_joins f js (factor_rect' f)
        (all_list (fun j : TableFactor * list Expr => match j return joined j with (f, es) => conj (factor_rect' f) (all_list expr_rect' es) end) js)
  end
with factor_rect' (f : TableFactor) : PF f :=
  match f with
  | FactorTable n a m o =>
      h_plain n a m o (match a return match a with Some es => Forall PE es | None => True end with Some es => all_list expr_rect' es | None => I end)
        (all_list expr_rect' o)
  | FactorFunction n es => h_function n es (all_list expr_rect' es)
  | FactorTableFunction e => h_tablefunction e (expr_rect' e)
  | FactorDerived q => h_derived q (query_rect' q)
  | FactorNestedJoin t => h_nested t (joins_rect' t)
  | FactorPivot t es => h_pivot t es (factor_rect' t) (all_list expr_rect' es)
  | FactorOther es => h_factorother es (all_list expr_rect' es)
  end.
(** The five inductions together *)
Lemma syntax_ind : (forall e, PE e) /\ (forall q, PQ q) /\ (forall s, PS s) /\ (forall t, PJ t) /\ (forall f, PF f).
Proof.
  split_and!; [exact expr_rect'|exact query_rect'|exact set_rect'|exact joins_rect'|exact factor_rect'].
Qed.
End induction.

(** ** What a visitor leaves *)

(** Everything of [after] is related to [before]. *)
Class Growing {X} (R : list X -> X -> Prop) : Prop := growing : forall before before' x, before ⊆ before' -> R before x -> R before' x.
Definition covered {X} (R : list X -> X -> Prop) (before after : list X) : Prop := forall x, x ∈ after -> R before x.
Section covered.
Context {X : Type} (R : list X -> X -> Prop) `{!Growing R}.
Lemma covered_nil before : covered R before [].
Proof using. by intros x ?%elem_of_nil. Qed.
Lemma covered_more before before' after : before ⊆ before' -> covered R before after -> covered R before' after.
Proof using Type*. intros Hs Hb x Hx. eapply growing; [exact Hs|by apply Hb]. Qed.
Lemma covered_app a a' b b' : covered R a a' -> covered R b b' -> covered R (a ++ b) (a' ++ b').
Proof using Type*. intros Ha Hb x [Hx|Hx]%elem_of_app; [eapply growing; [|by apply Ha]|eapply growing; [|by apply Hb]]; set_solver. Qed.
Lemma covered_flat_map {A B} (p : A -> list X) (p' : B -> list X) (m : A -> B) l :
  Forall (fun a => covered R (p a) (p' (m a))) l -> covered R (flat_map p l) (flat_map p' (map m l)).
Proof using Type*. induction 1; [apply covered_nil|]. cbn. by apply covered_app. Qed.
End covered.

Section visit.
Context (f : ObjectName -> bool -> Change).
Definition changed_head (h : TableHead) : TableHead :=
  if head_plain h then
    match f (head_name h) (bool_decide (is_Some (head_args h))) with
    | Keep => h
    | Rename name => mkTableHead true name (head_args h) (head_modified h)
    | CallMacro name values => mkTableHead true name (Some (map Some values)) (head_modified h)
    end
  else h.
(** Every table factor of the result comes from one of the statement. *)
Definition comes_from (before : list TableHead) (h : TableHead) : Prop := exists h0, h0 ∈ before /\ h = changed_head h0.
#[local] Instance comes_from_growing : Growing comes_from.
Proof using. intros before before' h Hs (h0 & Hh & ->). exists h0. set_solver. Qed.
Abbreviation from_heads := (covered comes_from).
Lemma literal_map_expr e : literal_text (map_expr f id e) = literal_text e.
Proof using. by destruct e. Qed.
Lemma from_cons h before after : from_heads before after -> from_heads (h :: before) (changed_head h :: after).
Proof using. intros Hb h' [->|Hh]%elem_of_cons; [exists h; set_solver|]. eapply growing; [|by apply Hb]. set_solver. Qed.
Lemma literals_map es : map literal_text (map (map_expr f id) es) = map literal_text es.
Proof using. rewrite map_map. apply map_ext. apply literal_map_expr. Qed.
Lemma literals_tables values : flat_map expr_tables (map text_literal values) = [].
Proof using. by induction values. Qed.
Lemma literals_texts values : map literal_text (map text_literal values) = map Some values.
Proof using. rewrite map_map. by apply map_ext. Qed.
Lemma table_visited n a m o :
  match a with Some es => Forall (fun e => from_heads (expr_tables e) (expr_tables (map_expr f id e))) es | None => True end ->
  Forall (fun e => from_heads (expr_tables e) (expr_tables (map_expr f id e))) o ->
  from_heads (factor_tables (FactorTable n a m o)) (factor_tables (map_factor f id (FactorTable n a m o))).
Proof using.
  intros Ha Ho. apply (covered_flat_map comes_from) in Ho. cbn [map_factor]. unfold changed_table.
  assert (Hs : forall kept : bool, from_heads (factor_tables (FactorTable n a m o))
            (changed_head (table_head n a m) :: (if kept then match a with Some es => flat_map expr_tables (map (map_expr f id) es) | None => [] end else [])
              ++ flat_map expr_tables (map (map_expr f id) o))).
  { intros kept. cbn [factor_tables]. apply from_cons. destruct kept; cbn; [|apply (covered_more comes_from (flat_map expr_tables o)); [set_solver|exact Ho]].
    apply (covered_app comes_from); [|exact Ho]. destruct a; [by apply (covered_flat_map comes_from)|apply (covered_nil comes_from)]. }
  unfold changed_head in Hs. cbn [table_head head_plain head_name head_args head_modified] in Hs.
  replace (bool_decide (is_Some (option_map (map literal_text) a))) with (bool_decide (is_Some (match a with Some es => Some (map (map_expr f id) es) | None => None end))) in Hs
    by (by destruct a).
  destruct (f n _) as [|name|name values]; cbn [factor_tables].
  - specialize (Hs true). destruct a as [es|]; [|exact Hs]. unfold table_head. cbn [option_map]. rewrite literals_map. exact Hs.
  - specialize (Hs true). destruct a as [es|]; [|exact Hs]. unfold table_head. cbn [option_map]. rewrite literals_map. exact Hs.
  - specialize (Hs false). unfold table_head. cbn [option_map]. rewrite literals_tables, literals_texts. exact Hs.
Qed.
Lemma tables_visited :
  (forall e, from_heads (expr_tables e) (expr_tables (map_expr f id e))) /\ (forall q, from_heads (query_tables q) (query_tables (map_query f id q))) /\
  (forall s, from_heads (set_tables s) (set_tables (map_set f id s))) /\ (forall t, from_heads (joins_tables t) (joins_tables (map_joins f id t))) /\
  (forall t, from_heads (factor_tables t) (factor_tables (map_factor f id t))).
Proof using.
  apply syntax_ind; intros; try (by apply table_visited);
    cbn [expr_tables query_tables set_tables joins_tables factor_tables map_expr map_query map_set map_joins map_factor];
    repeat apply (covered_app comes_from); try done; try apply (covered_nil comes_from); try by apply (covered_flat_map comes_from).
  - apply (covered_flat_map comes_from). eapply Forall_impl; [done|]. intros [e|]; [done|]. intros _. apply (covered_nil comes_from).
  - apply (covered_flat_map comes_from). eapply Forall_impl; [done|]. by intros [].
  - apply (covered_flat_map comes_from). eapply Forall_impl; [done|]. intros [t es] [Ht He]. apply (covered_app comes_from); [done|by apply (covered_flat_map comes_from)].
  - rewrite literals_map. apply (from_cons (mkTableHead false n _ false)). by apply (covered_flat_map comes_from).
Qed.
Lemma visit_factors_tables s : from_heads (tables s) (tables (visit_factors f s)).
Proof using.
  destruct tables_visited as (He & Hq & _ & Hj & _). destruct s as [q|ts js qs es]; cbn; [apply Hq|].
  repeat apply (covered_app comes_from); apply (covered_flat_map comes_from), Forall_true; auto.
Qed.
End visit.

(** ** What binding the identity leaves *)

Section identity.
Context (i : SessionIdentity).
Abbreviation g := (bind_identity i).
Abbreviation keep := (fun (_ : ObjectName) (_ : bool) => Keep).
(** Nothing is left that stands for the identity, and calls are those of the statement. *)
Definition bound (before : list Expr) (e : Expr) : Prop :=
  identity_value i e = None /\
  forall h a o q, e = FunctionCall h a o q -> exists a0 o0 q0, FunctionCall h a0 o0 q0 ∈ before /\ length q0 = length q.
#[local] Instance bound_growing : Growing bound.
Proof using. intros before before' e Hs [Hv Hc]. split; [done|]. intros h a o q ->. destruct (Hc h a o q eq_refl) as (a0 & o0 & q0 & ? & ?). exists a0, o0, q0. set_solver. Qed.
Abbreviation from_nodes := (covered bound).
Lemma plain_node before e : identity_value i e = None -> (forall h a o q, e <> FunctionCall h a o q) -> bound before e.
Proof using. intros Hv Hc. split; [done|]. intros h a o q He. by destruct (Hc h a o q). Qed.
(** An expression whose parts are bound *)
Lemma bound_node before e e' rest : from_nodes before rest -> expr_nodes e' = e' :: rest ->
  (forall h a o q, e' = FunctionCall h a o q -> exists a0 o0 q0, e = FunctionCall h a0 o0 q0 /\ length q0 = length q) ->
  from_nodes (e :: before) (expr_nodes (g e')).
Proof using.
  intros Hr He Hc. unfold bind_identity. destruct (identity_value i e') as [[v|]|] eqn:Hv.
  - intros x Hx. apply elem_of_cons in Hx as [-> | []%elem_of_nil]. by apply plain_node.
  - intros x Hx. unfold null_text in Hx. cbn in Hx. apply elem_of_cons in Hx as [->|Hx]; [by apply plain_node|].
    apply elem_of_cons in Hx as [-> | []%elem_of_nil]. by apply plain_node.
  - rewrite He. intros x [->|Hx]%elem_of_cons; [|eapply growing; [|by apply Hr]; set_solver].
    split; [done|]. intros h a o q ->. destruct (Hc h a o q eq_refl) as (a0 & o0 & q0 & -> & Hq). exists a0, o0, q0. set_solver.
Qed.
Lemma nodes_visited :
  (forall e, from_nodes (expr_nodes e) (expr_nodes (map_expr keep g e))) /\ (forall q, from_nodes (query_nodes q) (query_nodes (map_query keep g q))) /\
  (forall s, from_nodes (set_nodes s) (set_nodes (map_set keep g s))) /\ (forall t, from_nodes (joins_nodes t) (joins_nodes (map_joins keep g t))) /\
  (forall t, from_nodes (factor_nodes t) (factor_nodes (map_factor keep g t))).
Proof using.
  assert (Hargs : forall a, Forall (some_arg (fun e => from_nodes (expr_nodes e) (expr_nodes (map_expr keep g e)))) a ->
    from_nodes (flat_map (fun a => match a with Some e => expr_nodes e | None => [] end) a)
      (flat_map (fun a => match a with Some e => expr_nodes e | None => [] end) (map (fun a => match a with Some e => Some (map_expr keep g e) | None => None end) a))).
  { intros a Ha. apply (covered_flat_map bound). eapply Forall_impl; [done|]. intros [e|]; [done|]. intros _. apply covered_nil. }
  apply syntax_ind; intros; cbn [map_expr map_query map_set map_joins map_factor];
    try (cbn [expr_nodes]; eapply bound_node; [|cbn [expr_nodes]; reflexivity|]; [|first [naive_solver|intros ? ? ? ? [= <- <- <- <-]; do 3 eexists; split; [done|by rewrite length_map]]]);
    cbn [query_nodes set_nodes joins_nodes factor_nodes changed_table];
    repeat apply (covered_app bound); try done; try apply (covered_nil bound); try (by apply Hargs); try by apply (covered_flat_map bound).
  - apply (covered_flat_map bound). eapply Forall_impl; [done|]. by intros [].
  - apply (covered_flat_map bound). eapply Forall_impl; [done|]. intros [t es] [Ht He]. apply (covered_app bound); [done|by apply (covered_flat_map bound)].
  - destruct a; [by apply (covered_flat_map bound)|apply (covered_nil bound)].
Qed.
Lemma rewrite_identity_nodes s : from_nodes (nodes s) (nodes (rewrite_session_identity i s)).
Proof using.
  destruct nodes_visited as (He & Hq & _ & Hj & _). destruct s as [q|ts js qs es]; cbn; [apply Hq|].
  repeat apply (covered_app bound); apply (covered_flat_map bound), Forall_true; auto.
Qed.
End identity.

(** ** What the checks establish *)

(** The name of the relation, less its schema, in lower case *)
Definition last_lower (name : ObjectName) : option str :=
  match last name with Some (PartIdentifier i) => Some (to_ascii_lowercase (ident_value i)) | _ => None end.
Definition schema_is (schema : str) (name : ObjectName) : Prop := in_schema schema name = true.
(** A name that passed the checks *)
Record permitted (enabled : bool) (name : ObjectName) : Prop := {
  pm_quoted : invalid_quoted_relation name = false;
  pm_private : in_schema PRIVATE_SCHEMA name = false;
  pm_internal : in_schema INTERNAL_SCHEMA name = false;
  pm_forbidden : forbidden_catalog_function_name name = None;
  pm_supported : unsupported_relation enabled name = false }.
Lemma existsb_In_false {A} (f : A -> bool) l a : existsb f l = false -> a ∈ l -> f a = false.
Proof. intros He Ha. destruct (f a) eqn:Hf; [|done]. assert (existsb f l = true); [|congruence]. apply existsb_exists. exists a. split; [by apply list_elem_of_In|done]. Qed.
Lemma find_name_None {A} (f : A -> option str) l a : find_name f l = None -> a ∈ l -> f a = None.
Proof. intros Hf Ha. induction l as [|b l IH]; [by apply elem_of_nil in Ha|]. cbn in Hf. apply elem_of_cons in Ha as [->|Ha]; destruct (f b); auto; done. Qed.
Lemma check_catalog_permitted s enabled accepted name : check_catalog s enabled accepted = Ok tt -> name ∈ relations s -> permitted enabled name.
Proof.
  unfold check_catalog, private_catalog_reference, internal_control_schema_reference, forbidden_catalog_table_function, unsupported_catalog_relation.
  intros Hc Hn. inv_ok. bool_prop. split; try by eapply existsb_In_false.
  destruct (find_name forbidden_catalog_function_name (relations s)) eqn:Hf; [done|]. by eapply find_name_None.
Qed.

(** The relations of the lists *)
Lemma structural_facts r m : structural_macro r = Some m -> identity_catalog_relation r = true /\ maintained_pg_catalog_relation [part m] = None /\
  to_ascii_lowercase m = m /\ private_macro m = true /\ bool_decide (m ∈ forbidden_tables) = false.
Proof.
  unfold structural_macro. destruct (List.find _ _) as [[r' m']|] eqn:Hf; [|done]. intros [= <-]. apply find_some in Hf as [Hin He].
  apply bool_decide_eq_true in He. cbn in He. subst r'. revert r m' Hin.
  assert (Forall (fun x : str * str => let '(r, m) := x in identity_catalog_relation r = true /\ maintained_pg_catalog_relation [part m] = None /\
    to_ascii_lowercase m = m /\ private_macro m = true /\ bool_decide (m ∈ forbidden_tables) = false) structural_macros) as Ha
    by (repeat constructor; vm_compute; reflexivity).
  intros r m Hin. rewrite Forall_forall in Ha. by apply (Ha (r, m)), list_elem_of_In.
Qed.
Lemma information_facts r m : information_schema_macro r = Some m -> maintained_pg_catalog_relation [part m] = None /\
  to_ascii_lowercase m = m /\ private_macro m = true /\ bool_decide (m ∈ forbidden_tables) = false.
Proof.
  unfold information_schema_macro. destruct (List.find _ _) as [[r' m']|] eqn:Hf; [|done]. intros [= <-]. apply find_some in Hf as [Hin _].
  assert (Forall (fun x : str * str => maintained_pg_catalog_relation [part x.2] = None /\
    to_ascii_lowercase x.2 = x.2 /\ private_macro x.2 = true /\ bool_decide (x.2 ∈ forbidden_tables) = false) information_schema_macros) as Ha
    by (repeat constructor; vm_compute; reflexivity).
  rewrite Forall_forall in Ha. by apply (Ha (r', m')), list_elem_of_In.
Qed.
Lemma catalog_facts r : r ∈ pg_catalog_relations -> to_ascii_lowercase r = r /\ private_macro r = false /\ bool_decide (r ∈ forbidden_tables) = false.
Proof.
  assert (Forall (fun r => to_ascii_lowercase r = r /\ private_macro r = false /\ bool_decide (r ∈ forbidden_tables) = false) pg_catalog_relations) as Ha
    by (repeat constructor; vm_compute; reflexivity).
  rewrite Forall_forall in Ha. apply Ha.
Qed.
Lemma named_In t names r : named t names = Some r -> r ∈ names.
Proof. unfold named. intros [? _]%find_some. by apply list_elem_of_In. Qed.
Lemma maintained_information_macro name r : maintained_information_schema_relation name = Some r -> is_Some (information_schema_macro r).
Proof.
  unfold maintained_information_schema_relation. intros (t & _ & Hr%named_In)%bind_Some.
  assert (Forall (fun r => is_Some (information_schema_macro r)) (map fst information_schema_macros)) as Ha by (repeat constructor; vm_compute; eauto).
  rewrite Forall_forall in Ha. by apply Ha.
Qed.
#[local] Opaque pg_catalog_relations information_schema_macros structural_macros forbidden_tables.
Lemma maintained_In name r : maintained_pg_catalog_relation name = Some r -> r ∈ pg_catalog_relations.
Proof. unfold maintained_pg_catalog_relation. case_match; [done|]. intros ([t b] & _ & Hr)%bind_Some. by eapply named_In. Qed.
Lemma permitted_last enabled name l : permitted enabled name -> last_lower name = Some l -> private_macro l = false /\ bool_decide (l ∈ forbidden_tables) = false.
Proof.
  intros [_ _ _ Hf _]. revert Hf. unfold forbidden_catalog_function_name, last_lower. destruct (last name) as [[i|]|]; try done. intros Hf [= <-].
  by destruct (bool_decide _) eqn:?, (private_macro _) eqn:?.
Qed.

(** ** Confinement *)

Section confined.
Context (i : SessionIdentity) (enabled : bool).
Abbreviation role := (identity_current_user i).
Abbreviation user := (identity_session_user i).
(** What a plain table factor may be in the statement that is executed *)
Record confined (h : TableHead) : Prop := {
  cf_macro l : last_lower (head_name h) = Some l -> private_macro l = true -> head_args h = Some [Some role; Some user];
  cf_forbidden l : last_lower (head_name h) = Some l -> l ∉ forbidden_tables;
  cf_internal : ~ schema_is INTERNAL_SCHEMA (head_name h);
  cf_pg_catalog : ~ schema_is (lit "pg_catalog") (head_name h);
  cf_information : schema_is (lit "information_schema") (head_name h) -> length (head_name h) = 3%nat;
  cf_private : schema_is PRIVATE_SCHEMA (head_name h) ->
    exists r, head_name h = [part PRIVATE_SCHEMA; part r] /\ r ∈ pg_catalog_relations /\ structural_macro r = None }.

Definition renaming (g : ObjectName -> option ObjectName) (name : ObjectName) (_ : bool) : Change :=
  match g name with Some name => Rename name | None => Keep end.
(** A table factor after all passes *)
Definition executed_head (ctes : list str) (h : TableHead) : TableHead :=
  let h := changed_head (renaming public_name) (changed_head (unqualified_change ctes) h) in
  let h := changed_head (information_schema_change role user) h in
  let h := if enabled then changed_head (structural_change role user) h else h in
  changed_head (renaming private_name) h.
Lemma visit_relations_tables g s : covered (comes_from (renaming g)) (tables s) (tables (visit_relations_mut g s)).
Proof using.
  pose proof (visit_factors_tables (renaming g) s) as Hv. unfold visit_relations_mut. change (fun name (_ : bool) => _) with (renaming g).
  by destruct (visit_factors (renaming g) s).
Qed.
Lemma executed_tables s h : h ∈ tables (execution_relations i enabled s) -> exists h0, h0 ∈ tables s /\ h = executed_head (cte_names s) h0.
Proof using.
  unfold execution_relations, executed_head. intros Hh. apply visit_relations_tables in Hh as (h4 & Hh & ->).
  assert (exists h3, h3 ∈ tables (rewrite_information_schema_relations role user (rewrite_public_relations s)) /\
    h4 = if enabled then changed_head (structural_change role user) h3 else h3) as (h3 & Hh3 & ->).
  { destruct enabled; [|by exists h4]. by apply visit_factors_tables in Hh. }
  apply visit_factors_tables in Hh3 as (h2 & Hh2 & ->). apply visit_relations_tables in Hh2 as (h1 & Hh1 & ->).
  apply visit_factors_tables in Hh1 as (h0 & Hh0 & ->). by exists h0.
Qed.

Lemma last_lower_part parts m l : last_lower (parts ++ [part m]) = Some l -> l = to_ascii_lowercase m.
Proof using. unfold last_lower. rewrite last_snoc. by intros [= <-]. Qed.
Lemma macro_confined m modified : to_ascii_lowercase m = m -> bool_decide (m ∈ forbidden_tables) = false ->
  confined (mkTableHead true [part m] (Some [Some role; Some user]) modified).
Proof using.
  intros Hl Hf. split; try done. cbn [head_name]. intros l ->%(last_lower_part []). rewrite Hl. by apply bool_decide_eq_false in Hf.
Qed.
Lemma private_confined r args modified : r ∈ pg_catalog_relations -> structural_macro r = None ->
  confined (mkTableHead true [part PRIVATE_SCHEMA; part r] args modified).
Proof using.
  intros Hr Hs. destruct (catalog_facts r Hr) as (Hl & Hp & Hf). split; cbn [head_name head_args].
  - intros l ->%(last_lower_part [_]). by rewrite Hl, Hp.
  - intros l ->%(last_lower_part [_]). rewrite Hl. by apply bool_decide_eq_false in Hf.
  - by vm_compute.
  - by vm_compute.
  - by vm_compute.
  - intros _. by exists r.
Qed.
Lemma served_confined name t args modified : permitted enabled name -> last name = Some (PartIdentifier t) ->
  confined (mkTableHead true (served_name t) args modified).
Proof using.
  intros Hn Hl. destruct (permitted_last enabled name (to_ascii_lowercase (ident_value t)) Hn) as [Hp Hf]; [unfold last_lower; by rewrite Hl|].
  split; cbn [head_name head_args].
  - intros l [= <-] Hm. change (private_macro (to_ascii_lowercase (ident_value t)) = true) in Hm. by rewrite Hp in Hm.
  - intros l [= <-]. by apply bool_decide_eq_false in Hf.
  - by vm_compute.
  - by vm_compute.
  - by vm_compute.
  - intros Hs. exfalso. revert Hs. by vm_compute.
Qed.
(** A catalog schema that is spelled as PostgreSQL reads it *)
Lemma spelled_schema name schema n : invalid_quoted_relation name = false -> name_schema name = Some schema ->
  (n = lit "pg_catalog" \/ n = lit "information_schema") -> eq_ignore_ascii_case (ident_value schema) n = true -> pg_identifier_matches schema n = true.
Proof using.
  intros Hq Hs Hn He. destruct (pg_identifier_matches schema n) eqn:Hm; [done|].
  assert (invalid_quoted_relation name = true); [|congruence].
  destruct name as [|[a|] [|[b|] [|[c|] [|? ?]]]]; try discriminate Hs; cbn in Hs; injection Hs as ->; unfold invalid_quoted_relation;
    destruct Hn as [-> | ->]; rewrite He, Hm; cbn; by rewrite ?orb_true_r.
Qed.
Lemma kept_confined h : permitted enabled (head_name h) -> maintained_information_schema_relation (head_name h) = None ->
  maintained_pg_catalog_relation (head_name h) = None -> confined h.
Proof using.
  intros Hn Hi Hp. pose proof (permitted_last enabled (head_name h)) as Hl. destruct Hn as [Hq Hpr Hin Hf Hu]. unfold schema_is, in_schema in *. split.
  - intros l Hll Hm. destruct (Hl l) as [Hl' _]; [done|done|]. congruence.
  - intros l Hll. destruct (Hl l) as [_ Hl']; [done|done|]. by apply bool_decide_eq_false in Hl'.
  - unfold schema_is, in_schema. by rewrite Hin.
  - intros Hs. unfold schema_is, in_schema in Hs. destruct (name_schema (head_name h)) as [schema|] eqn:Hns; [|done].
    pose proof (spelled_schema _ _ (lit "pg_catalog") Hq Hns (or_introl eq_refl) Hs) as Hm. revert Hu Hns Hp. clear -Hm. unfold unsupported_relation, catalog_relation_identifier.
    destruct (head_name h) as [|[a|] [|[b|] [|[c|] [|? ?]]]]; try done; intros Hu [= ->] Hp; rewrite Hm in Hu; by rewrite Hp in Hu.
  - intros Hs. unfold schema_is, in_schema in Hs. destruct (name_schema (head_name h)) as [schema|] eqn:Hns; [|done].
    pose proof (spelled_schema _ _ (lit "information_schema") Hq Hns (or_intror eq_refl) Hs) as Hm. revert Hu Hns Hi Hs. clear -Hm. unfold unsupported_relation.
    destruct (head_name h) as [|[a|] [|[b|] [|[c|] [|? ?]]]]; try done. intros Hu [= ->] Hi Hs.
    assert (pg_identifier_matches schema (lit "pg_catalog") = false) as Hc.
    { unfold pg_identifier_matches in *. apply eq_ignore_ascii_case_true in Hs. destruct (quote_style schema).
      - apply bool_decide_eq_true in Hm. apply bool_decide_eq_false. rewrite Hm. by vm_compute.
      - rewrite Hs. by vm_compute. }
    unfold catalog_relation_identifier in Hu. rewrite Hc, Hi in Hu. unfold information_schema_relation_identifier in Hu. by rewrite Hm in Hu.
  - unfold schema_is, in_schema. by rewrite Hpr.
Qed.

Lemma changed_keep f h : f (head_name h) (bool_decide (is_Some (head_args h))) = Keep -> changed_head f h = h.
Proof using. unfold changed_head. intros ->. by destruct (head_plain h). Qed.
Lemma changed_macro f name args modified name' values : f name (bool_decide (is_Some args)) = CallMacro name' values ->
  changed_head f (mkTableHead true name args modified) = mkTableHead true name' (Some (map Some values)) modified.
Proof using. unfold changed_head. cbn. by intros ->. Qed.
(** A name of the served schema is left as it is by the later passes. *)
Lemma long_name_kept name a : length name = 3%nat -> information_schema_change role user name a = Keep /\ structural_change role user name a = Keep /\ private_name name = None.
Proof using.
  intros Hl. assert (maintained_pg_catalog_relation name = None) as Hp by (unfold maintained_pg_catalog_relation; by rewrite Hl).
  unfold information_schema_change, structural_change, private_name, maintained_information_schema_relation. rewrite Hp.
  by destruct name as [|[] [|[] [|? [|? ?]]]].
Qed.
Definition late_passes (h : TableHead) : TableHead :=
  let h := changed_head (information_schema_change role user) h in
  let h := if enabled then changed_head (structural_change role user) h else h in
  changed_head (renaming private_name) h.
Lemma late_kept h : (forall a, information_schema_change role user (head_name h) a = Keep) -> (forall a, structural_change role user (head_name h) a = Keep) ->
  private_name (head_name h) = None -> late_passes h = h.
Proof using.
  intros Hi Hs Hp. unfold late_passes. rewrite (changed_keep (information_schema_change role user)) by done.
  assert ((if enabled then changed_head (structural_change role user) h else h) = h) as -> by (destruct enabled; [by rewrite changed_keep|done]).
  apply changed_keep. unfold renaming. by rewrite Hp.
Qed.
Lemma served_passes name t h : permitted enabled name -> last name = Some (PartIdentifier t) -> head_plain h = true -> head_name h = served_name t -> confined (late_passes h).
Proof using.
  intros Hn Hl Hp Hs. rewrite late_kept.
  - destruct h as [p n a m]. cbn in Hp, Hs. subst. by eapply served_confined.
  - intros a. by apply long_name_kept; rewrite Hs.
  - intros a. by apply (long_name_kept _ a); rewrite Hs.
  - by apply (long_name_kept _ false); rewrite Hs.
Qed.
Lemma macro_kept m args modified : maintained_pg_catalog_relation [part m] = None ->
  let h := mkTableHead true [part m] args modified in changed_head (structural_change role user) h = h /\ changed_head (renaming private_name) h = h.
Proof using.
  intros Hm h. split; apply changed_keep; cbn [h head_name]; [unfold structural_change|unfold renaming, private_name]; by rewrite Hm.
Qed.
Lemma late_confined h : permitted enabled (head_name h) -> head_plain h = true -> confined (late_passes h).
Proof using.
  intros Hn Hpl. unfold late_passes. destruct h as [p name args modified]. cbn [head_name head_plain] in *. subst p.
  destruct (maintained_information_schema_relation name) as [r|] eqn:Hi.
  { destruct (maintained_information_macro _ _ Hi) as [m Hm]. destruct (information_facts _ _ Hm) as (Hk & Hl & _ & Hf).
    rewrite (changed_macro _ name args modified [part m] [role; user])
      by (unfold information_schema_change; rewrite Hi; cbn [mbind option_bind]; by rewrite Hm).
    destruct (macro_kept m (Some (map Some [role; user])) modified Hk) as [H1 H2]. destruct enabled; rewrite ?H1, H2; by apply macro_confined. }
  rewrite (changed_keep (information_schema_change role user)) by (cbn; unfold information_schema_change; by rewrite Hi).
  destruct (maintained_pg_catalog_relation name) as [r|] eqn:Hp.
  - assert (Hpriv : structural_macro r = None -> confined (changed_head (renaming private_name) (mkTableHead true name args modified))).
    { intros Hr. unfold changed_head, renaming, private_name. cbn [head_plain head_name]. rewrite Hp. apply private_confined; [by eapply maintained_In|done]. }
    destruct enabled eqn:He.
    + destruct (structural_macro r) as [m|] eqn:Hm; [|rewrite (changed_keep (structural_change role user)); [by auto|unfold structural_change; cbn; rewrite Hp; cbn; by rewrite Hm]].
      destruct (structural_facts _ _ Hm) as (_ & Hk & Hl & _ & Hf).
      rewrite (changed_macro _ name args modified [part m] [role; user]) by (unfold structural_change; rewrite Hp; cbn [mbind option_bind]; by rewrite Hm).
      destruct (macro_kept m (Some (map Some [role; user])) modified Hk) as [_ ->]. by apply macro_confined.
    + apply Hpriv. destruct (structural_macro r) as [m|] eqn:Hm; [|done]. destruct (structural_facts _ _ Hm) as (Hid & _).
      destruct Hn as [_ _ _ _ Hu]. unfold unsupported_relation in Hu. rewrite Hp in Hu.
      destruct (catalog_relation_identifier name) as [[t b]|] eqn:Hc; [by rewrite Hid in Hu|].
      unfold maintained_pg_catalog_relation in Hp. rewrite Hc in Hp. by destruct (_ <? _)%nat.
  - assert (changed_head (structural_change role user) (mkTableHead true name args modified) = mkTableHead true name args modified) as Hs
      by (apply changed_keep; cbn; unfold structural_change; by rewrite Hp).
    assert (changed_head (renaming private_name) (mkTableHead true name args modified) = mkTableHead true name args modified) as Hr
      by (apply changed_keep; cbn; unfold renaming, private_name; by rewrite Hp).
    assert (confined (mkTableHead true name args modified)) by (by apply kept_confined). by destruct enabled; rewrite ?Hs, Hr.
Qed.
Lemma executed_confined ctes h : permitted enabled (head_name h) -> head_plain h = true -> confined (executed_head ctes h).
Proof using.
  intros Hn Hp. change (executed_head ctes h) with (late_passes (changed_head (renaming public_name) (changed_head (unqualified_change ctes) h))).
  destruct h as [p name args modified]. cbn [head_name head_plain] in *. subst p.
  unfold changed_head at 2. cbn [head_plain head_name head_args].
  destruct (unqualified_change ctes name (bool_decide (is_Some args))) as [|n'|] eqn:Hu.
  - unfold changed_head, renaming. cbn [head_plain head_name]. destruct (public_name name) as [n'|] eqn:Hpub; [|by apply late_confined].
    assert (exists t, n' = served_name t /\ last name = Some (PartIdentifier t)) as (t & -> & Hl).
    { revert Hpub. destruct name as [|[a|] [|[b|] [|[c|] [|? ?]]]]; try done; cbn; case_match; try done; intros [= <-]; eauto. }
    by eapply served_passes.
  - assert (exists t, n' = served_name t /\ last name = Some (PartIdentifier t)) as (t & -> & Hl).
    { revert Hu. destruct name as [|[a|] [|? ?]]; try done. unfold unqualified_change. case_match; [done|]. intros [= <-]. eauto. }
    rewrite (changed_keep (renaming public_name)) by (cbn; unfold renaming, public_name, served_name, part; by vm_compute).
    by eapply served_passes.
  - exfalso. revert Hu. destruct name as [|[a|] [|? ?]]; try done. unfold unqualified_change. by case_match.
Qed.
End confined.

(** ** Properties *)

(** C8: What an accepted statement reads of the catalog is bound to its connection.  In the
    statement that is executed, under a role catalog, every plain table factor that calls a macro
    of the private catalog calls it with the effective role and the session user of the identity,
    in subqueries, CTEs and every other statement too; none names the control schema, the
    [pg_catalog] of DuckDB, an [information_schema] relation of two parts, or the functions that
    run other queries; and the private schema is named only for relations that show every role
    the same. *)
Theorem catalog_access_bound (s : Statement) (i : SessionIdentity) (enabled accepted : bool) :
  check_catalog s enabled accepted = Ok tt ->
  Forall (fun h => head_plain h = true -> confined i h) (tables (execution_relations i enabled s)).
Proof.
  intros Hc. apply Forall_forall. intros h Hh Hp. destruct (executed_tables i enabled s h Hh) as (h0 & Hh0 & ->).
  assert (head_plain h0 = true) as Hp0.
  { destruct (head_plain h0) eqn:Hb; [done|]. revert Hp. unfold executed_head.
    assert (Hk : forall f, changed_head f h0 = h0) by (intros f; unfold changed_head; by rewrite Hb). rewrite !Hk.
    destruct enabled; rewrite ?Hk; by rewrite Hb. }
  apply executed_confined; [|done]. eapply check_catalog_permitted; [done|]. unfold relations. apply elem_of_app. right.
  apply list_elem_of_fmap. exists h0. split; [done|]. apply list_elem_of_filter. by rewrite Hp0.
Qed.

(** The identity of an accepted statement is the connection's: where the statement is executed, no
    unquoted call of [current_user], [session_user], [current_role] or [user] is left, whatever its
    schema and arguments, and no [current_setting]; each was replaced by the name or the setting
    that [identity_value] gives. *)
Theorem identity_functions_bound s i enabled accepted e :
  check_catalog s enabled accepted = Ok tt -> e ∈ nodes (rewrite_session_identity i s) ->
  identity_value i e = None /\
  forall h a o q name, e = FunctionCall h a o q -> last (function_name h) = Some (PartIdentifier name) -> quote_style name = None ->
    to_ascii_lowercase (ident_value name) ∉ identity_functions.
Proof.
  intros Hc He. destruct (rewrite_identity_nodes i s e He) as [Hv Hcall]. split; [done|]. intros h a o q name -> Hl Hn Hid.
  destruct (Hcall h a o q eq_refl) as (a0 & o0 & q0 & H0 & Hq).
  assert (invalid_identity_call (FunctionCall h a0 o0 q0) = false) as Hi.
  { assert (existsb invalid_identity_call (nodes s) = false) as Hf by (clear -Hc; unfold check_catalog in Hc; inv_ok; by bool_prop).
    exact (existsb_In_false _ _ _ Hf H0). }
  cbn [invalid_identity_call] in Hi. rewrite Hl, Hn, bool_decide_true in Hi by done. cbn [identity_value] in Hv.
  assert (session_identity_function h q0 = session_identity_function h q) as Hs by (unfold session_identity_function; by rewrite Hq).
  rewrite Hs in Hi. by destruct (session_identity_function h q).
Qed.

(** ** Examples *)

Module Example.
Definition ident (s : string) : Ident := mkIdent (lit s) None.
Definition name (parts : list string) : ObjectName := map (fun p => PartIdentifier (ident p)) parts.
Definition select_from (f : TableFactor) : Query := mkQuery [] (SetSelect [Identifier (ident "x")] [mkTableWithJoins f []]) [].
Definition read (parts : list string) : Query := select_from (FactorTable (name parts) None false []).
Definition reader : SessionIdentity := mkSessionIdentity (lit "alice") (lit "analysts") 0 ∅.
Definition joined_read : Statement :=
  QueryStatement (mkQuery [(ident "mine", read ["public"; "roads"]%string)]
    (SetSelect [Subquery (read ["pg_index"]%string)]
       [mkTableWithJoins (FactorTable (name ["information_schema"; "tables"]%string) None false [])
          [(FactorTable (name ["pg_catalog"; "pg_type"]%string) None false [], []); (FactorTable (name ["mine"]%string) None false [], [])]]) []).
Definition calls_of (s : Statement) : list (list str * option (list (option str))) :=
  map (fun h => (map (fun p => match p with PartIdentifier i => ident_value i | PartFunction t => t end) (head_name h), head_args h)) (tables s).
Lemma joined_read_accepted : check_catalog joined_read true false = Ok tt.
Proof. vm_compute. reflexivity. Qed.
Lemma joined_read_executed : calls_of (execution_relations reader true joined_read) =
  [([lit "quackgis"; lit "main"; lit "roads"], None);
   ([lit "quackgis_pg_index_visible"], Some [Some (lit "analysts"); Some (lit "alice")]);
   ([lit "quackgis_information_schema_tables"], Some [Some (lit "analysts"); Some (lit "alice")]);
   ([lit "quackgis_pg_catalog"; lit "pg_type"], None);
   ([lit "mine"], None)].
Proof. vm_compute. reflexivity. Qed.
Lemma catalog_access_bound_witness :
  Forall (fun h => head_plain h = true -> confined reader h) (tables (execution_relations reader true joined_read)).
Proof. apply (catalog_access_bound joined_read reader true false). exact joined_read_accepted. Defined.

(** A name of three parts in the information schema is neither refused nor replaced. *)
Theorem three_part_information_schema :
  let s := QueryStatement (read ["quackgis"; "information_schema"; "tables"]%string) in
  check_catalog s true false = Ok tt /\ execution_relations reader true s = s.
Proof. vm_compute. split; reflexivity. Qed.
(** A LATERAL call of a function that is refused elsewhere is accepted in another statement, in the
    ORDER BY of a query, and in the query a function is given. *)
Definition lateral_query : Query := select_from (FactorFunction (name ["query"]%string) [text_literal (lit "SELECT 1")]).
Definition array_head : FunctionHead := mkFunctionHead (name ["array"]%string) false false false false false false false false.
Theorem lateral_call_accepted :
  is_ok (check_catalog (QueryStatement lateral_query) true false) = false /\
  check_catalog (OtherStatement [name ["roads"]%string] [] [lateral_query] []) true false = Ok tt /\
  check_catalog (QueryStatement (mkQuery [] (SetSelect [] []) [Subquery lateral_query])) true false = Ok tt /\
  check_catalog (QueryStatement (mkQuery [] (SetSelect [FunctionCall array_head [] [] [lateral_query]] []) [])) true false = Ok tt.
Proof. vm_compute. repeat split. Qed.
End Example.
