(* ===== verification/BboxLayout.v ===== *)
(** * Maintained bounding boxes ([quackgis-server/src/duckdb_adbc_storage.rs])

    A table with the four reserved columns [_qg_minx], [_qg_miny], [_qg_maxx] and [_qg_maxy]
    and one geometry column keeps the box of the geometry in them: COPY computes it
    ([bbox_publish_projection]), UPDATE recomputes it ([rewrite_safe_bbox_update]) and INSERT
    is refused, and a query that asks for an intersection is first filtered by the boxes
    ([prepare_maintained_bbox_query]).

    The syntax is that of the SQL parser, less what these functions never look at: the text
    of an expression, a table factor or the rest of a query that is not inspected stands
    for it.  The parser, the printer and the catalog are parameters. *)

From S2P Require Import Prelude Storage SqlSyntax.
#[local] Open Scope Z_scope.

(** ** Syntax *)

Inductive Value :=
  | Number (text : str) (long : bool)
  | SingleQuotedString (s : str)
  | Placeholder (s : str)
  | Null
  | OtherValue (text : str).
Inductive UnaryOperator := Plus | Minus | OtherUnary (text : str).
Inductive BinaryOperator := And | GtEq | LtEq | OtherBinary (text : str).
Inductive Expr :=
  | Identifier (i : Ident)
  | CompoundIdentifier (parts : list Ident)
  | ValueExpr (v : Value)
  | UnaryOp (op : UnaryOperator) (e : Expr)
  | Nested (e : Expr)
  | Cast (target : str) (e : Expr)
  | BinaryOp (lhs : Expr) (op : BinaryOperator) (rhs : Expr)
  | IsNull (e : Expr)
  | Case (condition result otherwise : Expr)
  | FunctionCall (head : FunctionHead) (arguments : list (option Expr))
  | OtherExpr (text : str).

Record TableAlias := mkTableAlias { alias_name : Ident; alias_columns : list str }.
Inductive TableFactor :=
  | Table (name : ObjectName) (alias : option TableAlias)
      (args with_hints version with_ordinality partitions json_path sample index_hints : bool)
  | OtherFactor (text : str).
Record TableWithJoins := mkTableWithJoins { relation : TableFactor; joins : list str }.
Record Select := mkSelect {
  from : list TableWithJoins;
  lateral_views : list str;
  prewhere : option Expr;
  selection : option Expr;
  select_rest : str }.
Inductive SetExpr := SetSelect (s : Select) | OtherSet (text : str).
Record Query := mkQuery { with_ : option str; body : SetExpr; query_rest : str }.
Inductive AssignmentTarget := ColumnName (name : ObjectName) | Tuple (names : list ObjectName).
Record Assignment := mkAssignment { target : AssignmentTarget; assigned : Expr }.
Inductive Statement :=
  | QueryStatement (q : Query)
  | Explain (options : str) (s : Statement)
  | Insert (table : option ObjectName) (rest : str)
  | Update (table : TableFactor) (assignments : list Assignment) (rest : str)
  | OtherStatement (text : str).

(** ** The layout of a table *)

Definition MAINTAINED_BBOX_COLUMNS : list str := [lit "_qg_minx"; lit "_qg_miny"; lit "_qg_maxx"; lit "_qg_maxy"].
Definition MAX_BBOX_WKT_BYTES : Z := 65536.
Definition MAX_BBOX_NUMERIC_LITERAL_BYTES : Z := 64.
Definition accessors : list str := [lit "ST_XMin"; lit "ST_YMin"; lit "ST_XMax"; lit "ST_YMax"].

Inductive DataType := Float64 | Binary | OtherType (text : str).
#[export] Instance data_type_eq_dec : EqDecision DataType.
Proof. solve_decision. Defined.
Record Field := mkField { field_name : str; field_type : DataType; is_nullable : bool; metadata : option str }.
Inductive SpatialFamily := Geometry | Geography.
#[export] Instance spatial_family_eq_dec : EqDecision SpatialFamily.
Proof. solve_decision. Defined.
Record MaintainedBboxLayout := mkLayout { geometry : str }.

(** [Schema::field_with_name] *)
Definition field_with_name (schema : list Field) (name : str) : option Field :=
  List.find (fun f => bool_decide (field_name f = name)) schema.

Definition quote_identifier (value : str) : str := quote_with quote_byte value.

(** What these functions use of other crates and of the connection: the classification of
    spatial fields ([arrow-pg]), [parse::<f64>().is_ok_and(f64::is_finite)],
    [Parser::parse_sql], the text of syntax, and the schema of a table. *)
Class SqlText := {
  classify_spatial_field : Field -> option SpatialFamily;
  is_finite_f64 : str -> bool;
  parse_sql : str -> option (list Statement);
  expr_text : Expr -> str;
  ident_text : Ident -> str;
  statement_text : Statement -> str;
  get_table_schema : EngineTableRef -> result EngineError (list Field) }.

Section layout.
Context {sql_text : SqlText}.

Definition is_geometry (f : Field) : bool := bool_decide (classify_spatial_field f = Some Geometry).

(** [inspect_maintained_bbox_layout] *)
Definition inspect_maintained_bbox_layout (schema : list Field) : result EngineError (option MaintainedBboxLayout) :=
  let found := List.filter (fun n => bool_decide (is_Some (field_with_name schema n))) MAINTAINED_BBOX_COLUMNS in
  if len found =? 0 then Ok None
  else
    _ ← ensure (len found =? 4) (new_error Unsupported);
    _ ← ensure (forallb (fun n => match field_with_name schema n with
                                  | Some f => bool_decide (field_type f = Float64) && is_nullable f
                                  | None => false
                                  end) MAINTAINED_BBOX_COLUMNS) (new_error Unsupported);
    match List.filter is_geometry schema with
    | [f] => Ok (Some (mkLayout (field_name f)))
    | _ => Err (new_error Unsupported)
    end.

(** [bbox_accessor_values] *)
Definition accessor_value (geometry accessor : str) : str :=
  lit "CASE WHEN " ++ geometry ++ lit " IS NULL THEN NULL ELSE " ++ accessor ++
  lit "(ST_Extent(ST_GeomFromWKB(" ++ geometry ++ lit "))) END".
Definition bbox_accessor_values (geometry : str) : str :=
  join (lit ", ") (map (accessor_value geometry) accessors).

(** [bbox_publish_projection] *)
Definition bbox_publish_projection (target_schema input_schema : list Field) (input_columns : str)
    : result EngineError (str * str) :=
  layout ← inspect_maintained_bbox_layout target_schema;
  match layout with
  | None => Ok (input_columns, input_columns)
  | Some layout =>
      _ ← ensure (forallb (fun n => bool_decide (field_with_name input_schema n = None)) MAINTAINED_BBOX_COLUMNS)
            (new_error Unsupported);
      let geometry := match field_with_name input_schema (geometry layout) with
                      | Some f => if is_geometry f then Some (quote_identifier (field_name f)) else None
                      | None => None
                      end in
      let bbox_columns := join (lit ", ") (map quote_identifier MAINTAINED_BBOX_COLUMNS) in
      let values := match geometry with
                    | Some g => bbox_accessor_values g
                    | None => join (lit ", ") [lit "NULL"; lit "NULL"; lit "NULL"; lit "NULL"]
                    end in
      Ok (input_columns ++ lit ", " ++ bbox_columns, input_columns ++ lit ", " ++ values)
  end.
End layout.

(** ** Names *)

(** [identifier_matches] and [identifiers_match] *)
Definition identifier_matches (i : Ident) (expected : str) : bool :=
  match quote_style i with
  | Some _ => bool_decide (ident_value i = expected)
  | None => eq_ignore_ascii_case (ident_value i) expected
  end.
Definition identifiers_match (left right : Ident) : bool :=
  match quote_style left, quote_style right with
  | None, None => eq_ignore_ascii_case (ident_value left) (ident_value right)
  | _, _ => bool_decide (ident_value left = ident_value right)
  end.

(** [local_table_ref] *)
Definition part_value (p : ObjectNamePart) : option str :=
  match p with PartIdentifier i => Some (ident_value i) | PartFunction _ => None end.
Definition is_local_schema (schema : str) : bool :=
  eq_ignore_ascii_case schema (lit "main") || eq_ignore_ascii_case schema (lit "public").
Definition local_table (table : str) : EngineTableRef := mkEngineTableRef (lit "quackgis") (lit "main") table.
Definition local_table_ref (name : ObjectName) : result EngineError EngineTableRef :=
  parts ← ok_or (mapM part_value name) (new_error Unsupported);
  match parts with
  | [table] => Ok (local_table table)
  | [schema; table] => if is_local_schema schema then Ok (local_table table) else Err (new_error Unsupported)
  | [catalog; schema; table] =>
      if eq_ignore_ascii_case catalog (lit "quackgis") && is_local_schema schema then Ok (local_table table)
      else Err (new_error Unsupported)
  | _ => Err (new_error Unsupported)
  end.

(** ** Stable expressions *)

(** [plain_function_named] *)
Definition plain_function_named (f : FunctionHead) (expected : str) : bool :=
  match function_name f with
  | [PartIdentifier i] => bool_decide (quote_style i = None) && eq_ignore_ascii_case (ident_value i) expected
  | _ => false
  end
  && negb (uses_odbc_syntax f) && negb (has_parameters f) && negb (has_filter f)
  && negb (has_null_treatment f) && negb (has_over f) && negb (has_within_group f).

(** [plain_function_arguments] *)
Definition plain_function_arguments (f : FunctionHead) (arguments : list (option Expr)) : option (list Expr) :=
  if negb (args_listed f) || args_modified f then None else mapM id arguments.

Definition parse_usize (s : str) : option Z :=
  z ← match s with
      | x2b :: r => parse_decimal_digits r
      | _ => parse_decimal_digits s
      end;
  if z <=? u64_max then Some z else None.
(** [numbered_parameter] *)
Definition numbered_parameter (value : str) : bool :=
  match strip_prefix [x24] value ≫= parse_usize with
  | Some index => 0 <? index
  | None => false
  end.

Section statements.
Context {sql_text : SqlText}.

(** [stable_numeric_value], [stable_string_value] and [stable_bound_value] *)
Fixpoint stable_numeric_value (e : Expr) : bool :=
  match e with
  | ValueExpr (Number value false) => (len value <=? MAX_BBOX_NUMERIC_LITERAL_BYTES) && is_finite_f64 value
  | ValueExpr (Placeholder value) => numbered_parameter value
  | UnaryOp Plus e | UnaryOp Minus e | Nested e | Cast _ e => stable_numeric_value e
  | _ => false
  end.
Fixpoint stable_string_value (e : Expr) : bool :=
  match e with
  | ValueExpr (SingleQuotedString value) => len value <=? MAX_BBOX_WKT_BYTES
  | Nested e | Cast _ e => stable_string_value e
  | _ => false
  end.
Fixpoint stable_bound_value (e : Expr) : bool :=
  match e with
  | ValueExpr (Placeholder value) => numbered_parameter value
  | Nested e | Cast _ e => stable_bound_value e
  | _ => false
  end.

(** [stable_probe_geometry] *)
Definition stable_probe_geometry (e : Expr) : bool :=
  match e with
  | FunctionCall f args =>
      match plain_function_arguments f args with
      | None => false
      | Some arguments =>
          if plain_function_named f (lit "st_makeenvelope") then
            (len arguments =? 4) && forallb stable_numeric_value arguments
          else if plain_function_named f (lit "st_geomfromtext") then
            match arguments with [value] => stable_string_value value | _ => false end
          else if plain_function_named f (lit "st_geomfromwkb") then
            match arguments with [value] => stable_bound_value value | _ => false end
          else false
      end
  | _ => false
  end.

(** ** Queries *)

(** [maintained_geometry_column] *)
Definition maintained_geometry_column (e : Expr) (qualifier : Ident) : option Ident :=
  match e with
  | FunctionCall f args =>
      if plain_function_named f (lit "st_geomfromwkb") then
        arguments ← plain_function_arguments f args;
        match arguments with
        | [Identifier column] => Some column
        | [CompoundIdentifier [source; column]] => if identifiers_match source qualifier then Some column else None
        | _ => None
        end
      else None
  | _ => None
  end.

(** [maintained_intersection] *)
Definition probe_pair (geometry probe : Expr) (qualifier : Ident) : option (Ident * Expr) :=
  column ← maintained_geometry_column geometry qualifier;
  if stable_probe_geometry probe then Some (column, probe) else None.
Definition maintained_intersection (f : FunctionHead) (args : list (option Expr)) (qualifier : Ident)
    : option (Ident * Expr) :=
  if plain_function_named f (lit "st_intersects") then
    arguments ← plain_function_arguments f args;
    match arguments with
    | [lhs; rhs] =>
        match probe_pair lhs rhs qualifier with
        | Some p => Some p
        | None => probe_pair rhs lhs qualifier
        end
    | _ => None
    end
  else None.

(** [collect_mandatory_bbox_predicates] *)
Fixpoint collect_mandatory_bbox_predicates (e : Expr) (qualifier : Ident) : list (Ident * Expr) :=
  match e with
  | BinaryOp lhs And rhs =>
      collect_mandatory_bbox_predicates lhs qualifier ++ collect_mandatory_bbox_predicates rhs qualifier
  | Nested e => collect_mandatory_bbox_predicates e qualifier
  | FunctionCall f args => option_list (maintained_intersection f args qualifier)
  | _ => []
  end.

Record BboxQueryTarget := mkBboxQueryTarget {
  target_table : EngineTableRef;
  qualifier : Ident;
  target_geometry : Ident;
  probe : Expr }.

(** [bbox_query] *)
Definition bbox_query (s : Statement) : option Query :=
  match s with
  | QueryStatement q => Some q
  | Explain _ (QueryStatement q) => Some q
  | _ => None
  end.

(** [bbox_query_target] *)
Definition table_qualifier (name : ObjectName) (alias : option TableAlias) : option Ident :=
  match alias with
  | Some a => Some (alias_name a)
  | None => match last name with Some (PartIdentifier i) => Some i | _ => None end
  end.
Definition select_target (s : Select) : option BboxQueryTarget :=
  match from s with
  | [mkTableWithJoins (Table name alias false with_hints false false partitions false false index_hints) js] =>
      if negb (bool_decide (js = [])) || negb (bool_decide (lateral_views s = [])) || bool_decide (is_Some (prewhere s))
         || with_hints || partitions || index_hints
         || match alias with Some a => negb (bool_decide (alias_columns a = [])) | None => false end
      then None
      else
        match local_table_ref name with
        | Err _ => None
        | Ok table =>
            q ← table_qualifier name alias;
            e ← selection s;
            match collect_mandatory_bbox_predicates e q with
            | [(g, p)] => Some (mkBboxQueryTarget table q g p)
            | _ => None
            end
        end
  | _ => None
  end.
Definition bbox_query_target (s : Statement) : option BboxQueryTarget :=
  q ← bbox_query s;
  if bool_decide (is_Some (with_ q)) then None
  else match body q with SetSelect s => select_target s | OtherSet _ => None end.

(** [bbox_candidate_expression] *)
Definition candidate_sql (qualifier : Ident) (probe : Expr) : str :=
  let q := ident_text qualifier in
  let p := expr_text probe in
  lit "SELECT 1 WHERE " ++
  q ++ lit "._qg_maxx >= ST_XMin(ST_Extent(" ++ p ++ lit ")) AND " ++
  q ++ lit "._qg_minx <= ST_XMax(ST_Extent(" ++ p ++ lit ")) AND " ++
  q ++ lit "._qg_maxy >= ST_YMin(ST_Extent(" ++ p ++ lit ")) AND " ++
  q ++ lit "._qg_miny <= ST_YMax(ST_Extent(" ++ p ++ lit "))".
Definition bbox_candidate_expression (qualifier : Ident) (probe : Expr) : result EngineError Expr :=
  match parse_sql (candidate_sql qualifier probe) with
  | Some (QueryStatement q :: _) =>
      match body q with
      | SetSelect s => ok_or (selection s) (new_error Internal)
      | OtherSet _ => Err (new_error Internal)
      end
  | _ => Err (new_error Internal)
  end.

(** [inject_bbox_candidate] *)
Definition inject_select (candidate : Expr) (s : Select) : Select :=
  mkSelect (from s) (lateral_views s) (prewhere s) ((fun exact => BinaryOp candidate And exact) <$> selection s) (select_rest s).
Definition inject_query (candidate : Expr) (q : Query) : Query :=
  mkQuery (with_ q) (match body q with SetSelect s => SetSelect (inject_select candidate s) | b => b end) (query_rest q).
Definition inject_bbox_candidate (s : Statement) (t : BboxQueryTarget) : result EngineError Statement :=
  candidate ← bbox_candidate_expression (qualifier t) (probe t);
  Ok (match s with
      | QueryStatement q => QueryStatement (inject_query candidate q)
      | Explain o (QueryStatement q) => Explain o (QueryStatement (inject_query candidate q))
      | _ => s
      end).

(** [prepare_maintained_bbox_query] *)
Definition prepare_maintained_bbox_query (sql : str) : result EngineError str :=
  match parse_sql sql with
  | Some [statement] =>
      match bbox_query_target statement with
      | None => Ok sql
      | Some t =>
          schema ← get_table_schema (target_table t);
          layout ← inspect_maintained_bbox_layout schema;
          match layout with
          | None => Ok sql
          | Some layout =>
              if negb (identifier_matches (target_geometry t) (geometry layout)) then Ok sql
              else
                statement ← inject_bbox_candidate statement t;
                Ok (statement_text statement)
          end
      end
  | _ => Ok sql
  end.

(** ** Mutations *)

(** [is_stable_geometry_update] *)
Fixpoint is_stable_geometry_update (e : Expr) : bool :=
  match e with
  | ValueExpr Null => true
  | ValueExpr (Placeholder p) =>
      match strip_prefix [x24] p with
      | Some digits => negb (bool_decide (digits = [])) && forallb is_ascii_digit digits
      | None => false
      end
  | Cast _ e | Nested e => is_stable_geometry_update e
  | _ => false
  end.

(** [rewrite_safe_bbox_update] *)
Definition assignment_targets (t : AssignmentTarget) : list ObjectName :=
  match t with ColumnName n => [n] | Tuple ns => ns end.
Definition target_name (name : ObjectName) : option str := last name ≫= part_value.
Definition check_target (layout : MaintainedBboxLayout) (a : Assignment) (value : option Expr) (name : ObjectName)
    : result EngineError (option Expr) :=
  n ← ok_or (target_name name) (new_error Unsupported);
  _ ← ensure (negb (existsb (eq_ignore_ascii_case n) MAINTAINED_BBOX_COLUMNS)) (new_error Unsupported);
  if eq_ignore_ascii_case n (geometry layout) then
    _ ← ensure (negb (negb (len (assignment_targets (target a)) =? 1) || bool_decide (is_Some value))) (new_error Unsupported);
    _ ← ensure (is_stable_geometry_update (assigned a)) (new_error Unsupported);
    Ok (Some (assigned a))
  else Ok value.
Definition check_assignment (layout : MaintainedBboxLayout) (value : option Expr) (a : Assignment)
    : result EngineError (option Expr) :=
  try_fold (check_target layout a) (assignment_targets (target a)) value.
Definition bbox_update_sql (value : Expr) : str :=
  lit "UPDATE qg SET " ++
  join (lit ", ") (zip_with (fun column accessor => quote_identifier column ++ lit " = " ++ accessor_value (expr_text value) accessor)
                     MAINTAINED_BBOX_COLUMNS accessors).
Definition rewrite_safe_bbox_update (layout : MaintainedBboxLayout) (assignments : list Assignment)
    : result EngineError (list Assignment) :=
  value ← try_fold (check_assignment layout) assignments None;
  match value with
  | None => Ok assignments
  | Some v =>
      match parse_sql (bbox_update_sql v) with
      | Some (Update _ generated _ :: _) => Ok (assignments ++ generated)
      | _ => Err (new_error Internal)
      end
  end.

(** [prepare_maintained_bbox_mutation] *)
Definition mutation_target (s : Statement) : option (option ObjectName) :=
  match s with
  | Insert table _ => Some table
  | Update (Table name _ _ _ _ _ _ _ _ _) _ _ => Some (Some name)
  | Update (OtherFactor _) _ _ => Some None
  | _ => None
  end.
Definition prepare_maintained_bbox_mutation (sql : str) : result EngineError str :=
  statements ← ok_or (parse_sql sql) (new_error InvalidQuery);
  match statements with
  | [statement] =>
      match mutation_target statement with
      | None => Ok sql
      | Some name =>
          name ← ok_or name (new_error Unsupported);
          table ← local_table_ref name;
          schema ← get_table_schema table;
          layout ← inspect_maintained_bbox_layout schema;
          match layout with
          | None => Ok sql
          | Some layout =>
              match statement with
              | Update t assignments rest =>
                  assignments ← rewrite_safe_bbox_update layout assignments;
                  Ok (statement_text (Update t assignments rest))
              | _ => Err (new_error Unsupported)
              end
          end
      end
  | _ => Err (new_error InvalidQuery)
  end.
End statements.
