(* ===== verification/BboxSemantics.v ===== *)
(** * What maintained bounding boxes mean

    A small semantics of the SQL the layout touches: three-valued conditions, columns found
    without regard to case, and the spatial functions over an abstract geometry.  Everything
    else (other operators, functions, the rest of a query) is any function of its inputs.
    Expressions have values: an error ends a statement and is not modelled.  The boxes
    are shown to be kept by COPY, UPDATE and DELETE, and the filter that is added to a
    query to leave its answer as it was. *)

From S2P Require Import Prelude Storage SqlSyntax BboxLayout.
#[local] Open Scope Z_scope.

(** ** Values *)

Class Spatial := {
  Coord : Type;
  coord_le : Coord -> Coord -> bool;
  Geom : Type;
  from_wkb : list byte -> option Geom;
  (* the corners of [ST_Extent], absent for an empty geometry: min x, min y, max x, max y *)
  extent : Geom -> option (Coord * Coord * Coord * Coord);
  intersects : Geom -> Geom -> bool;
  intersects_overlap a b : intersects a b = true ->
    exists ax ay aX aY bx by' bX bY, extent a = Some (ax, ay, aX, aY) /\ extent b = Some (bx, by', bX, bY) /\
      coord_le ax bX = true /\ coord_le bx aX = true /\ coord_le ay bY = true /\ coord_le by' aY = true }.

Inductive val {S : Spatial} :=
  | VNull
  | VBool (b : bool)
  | VNum (c : Coord)
  | VBlob (b : list byte)
  | VText (s : str)
  | VGeom (g : Geom)
  | VBox (x y X Y : Coord).

(** ** Expressions *)

Notation Row := (list (str * val)).
Definition column_is (name : str) {A} (c : str * A) : bool := eq_ignore_ascii_case name c.1.
Definition lookup_column {S : Spatial} (row : Row) (name : str) : option val :=
  snd <$> List.find (column_is name) row.

(** Everything else: how other values are read as conditions, and the value of what the
    layout does not look at. *)
Class Meaning {S : Spatial} := {
  truth_of : val -> option bool;
  other_value : Value -> val;
  other_unary : UnaryOperator -> val -> val;
  cast : str -> val -> val;
  other_binary : str -> val -> val -> val;
  other_function : FunctionHead -> list (option val) -> val;
  other_column : list Ident -> list (str * val) -> val;
  other_expr : str -> list (str * val) -> val }.

Section semantics.
Context {spatial : Spatial} {meaning : Meaning} {sql_text : SqlText}.

Definition truth (v : val) : option bool :=
  match v with VNull => None | VBool b => Some b | v => truth_of v end.
Definition of_truth (t : option bool) : val := match t with Some b => VBool b | None => VNull end.
Definition kleene_and (a b : option bool) : option bool :=
  match a, b with
  | Some false, _ | _, Some false => Some false
  | Some true, Some true => Some true
  | _, _ => None
  end.
Definition compare_le (a b : val) : val :=
  match a, b with VNum x, VNum y => VBool (coord_le x y) | _, _ => VNull end.

(** The spatial functions *)
Definition st_geomfromwkb (v : val) : val :=
  match v with VBlob b => match from_wkb b with Some g => VGeom g | None => VNull end | _ => VNull end.
Definition st_extent (v : val) : val :=
  match v with
  | VGeom g => match extent g with Some (x, y, X, Y) => VBox x y X Y | None => VNull end
  | _ => VNull
  end.
Inductive Corner := XMin | YMin | XMax | YMax.
Definition corner (k : Corner) (v : val) : val :=
  match v, k with
  | VBox x _ _ _, XMin => VNum x
  | VBox _ y _ _, YMin => VNum y
  | VBox _ _ X _, XMax => VNum X
  | VBox _ _ _ Y, YMax => VNum Y
  | _, _ => VNull
  end.
Definition st_intersects (a b : val) : val :=
  match a, b with VGeom a, VGeom b => VBool (intersects a b) | _, _ => VNull end.

Definition builtin (name : str) (args : list val) : option val :=
  let named (n : string) := eq_ignore_ascii_case name (lit n) in
  match args with
  | [a] =>
      if named "st_geomfromwkb"%string then Some (st_geomfromwkb a)
      else if named "st_extent"%string then Some (st_extent a)
      else if named "st_xmin"%string then Some (corner XMin a)
      else if named "st_ymin"%string then Some (corner YMin a)
      else if named "st_xmax"%string then Some (corner XMax a)
      else if named "st_ymax"%string then Some (corner YMax a)
      else None
  | [a; b] => if named "st_intersects"%string then Some (st_intersects a b) else None
  | _ => None
  end.
Definition unquoted_name (f : FunctionHead) : option str :=
  match function_name f with [PartIdentifier i] => if bool_decide (quote_style i = None) then Some (ident_value i) else None | _ => None end.

Definition call (f : FunctionHead) (args : list (option val)) : val :=
  match unquoted_name f, mapM id args with
  | Some name, Some vs =>
      if plain_function_named f name && args_listed f && negb (args_modified f)
      then default (other_function f args) (builtin name vs) else other_function f args
  | _, _ => other_function f args
  end.
Definition binary (op : BinaryOperator) (a b : val) : val :=
  match op with
  | And => of_truth (kleene_and (truth a) (truth b))
  | LtEq => compare_le a b
  | GtEq => compare_le b a
  | OtherBinary t => other_binary t a b
  end.

(** The value of an expression on a row of the table called [alias] *)
Definition column (alias : Ident) (row : Row) (parts : list Ident) : val :=
  match parts with
  | [c] => default (other_column parts row) (lookup_column row (ident_value c))
  | [q; c] => if eq_ignore_ascii_case (ident_value q) (ident_value alias)
              then default (other_column parts row) (lookup_column row (ident_value c)) else other_column parts row
  | _ => other_column parts row
  end.
Fixpoint eval (alias : Ident) (row : Row) (e : Expr) : val :=
  match e with
  | Identifier i => column alias row [i]
  | CompoundIdentifier parts => column alias row parts
  | ValueExpr Null => VNull
  | ValueExpr v => other_value v
  | UnaryOp op e => other_unary op (eval alias row e)
  | Nested e => eval alias row e
  | Cast t e => cast t (eval alias row e)
  | BinaryOp a op b => binary op (eval alias row a) (eval alias row b)
  | IsNull e => VBool (match eval alias row e with VNull => true | _ => false end)
  | Case c a b => match truth (eval alias row c) with Some true => eval alias row a | _ => eval alias row b end
  | FunctionCall f args =>
      call f (map (fun a => match a with Some e => Some (eval alias row e) | None => None end) args)
  | OtherExpr t => other_expr t row
  end.
Definition holds (alias : Ident) (row : Row) (e : Expr) : bool := bool_decide (truth (eval alias row e) = Some true).

(** ** The invariant of a table *)

Definition corners : list (str * Corner) := zip MAINTAINED_BBOX_COLUMNS [XMin; YMin; XMax; YMax].
(** The value kept for a corner of a geometry column with value [v] *)
Definition kept (k : Corner) (v : val) : val := match v with VNull => VNull | _ => corner k (st_extent (st_geomfromwkb v)) end.
Definition row_ok (layout : MaintainedBboxLayout) (row : Row) : Prop :=
  exists v, lookup_column row (geometry layout) = Some v /\
    forall name k, (name, k) ∈ corners -> lookup_column row name = Some (kept k v).

(** ** The filter *)

Definition bbox_ident (name : string) : Ident := mkIdent (lit name) None.
Definition fn (name : string) : FunctionHead :=
  mkFunctionHead [PartIdentifier (bbox_ident name)] false false false false false false true false.
Definition corner_of (name : string) (probe : Expr) : Expr :=
  FunctionCall (fn name) [Some (FunctionCall (fn "ST_Extent") [Some probe])].
Definition bbox_column (q : Ident) (name : string) : Expr := CompoundIdentifier [q; bbox_ident name].
(** The filter that [candidate_sql] spells *)
Definition candidate (q : Ident) (probe : Expr) : Expr :=
  BinaryOp (BinaryOp (BinaryOp
    (BinaryOp (bbox_column q "_qg_maxx") GtEq (corner_of "ST_XMin" probe)) And
    (BinaryOp (bbox_column q "_qg_minx") LtEq (corner_of "ST_XMax" probe))) And
    (BinaryOp (bbox_column q "_qg_maxy") GtEq (corner_of "ST_YMin" probe))) And
    (BinaryOp (bbox_column q "_qg_miny") LtEq (corner_of "ST_YMax" probe)).

Lemma truth_and a b : truth (of_truth (kleene_and a b)) = Some true <-> a = Some true /\ b = Some true.
Proof using. destruct a as [[]|], b as [[]|]; naive_solver. Qed.
Lemma holds_and alias row a b : holds alias row (BinaryOp a And b) = true <-> holds alias row a = true /\ holds alias row b = true.
Proof using. unfold holds. rewrite !bool_decide_eq_true. apply truth_and. Qed.

(** ** Calls *)

#[local] Instance builtin_ci : Proper (ascii_ci ==> (=) ==> (=)) builtin.
Proof using.
  intros n n' Hn vs ? <-. assert (H : forall x, eq_ignore_ascii_case n x = eq_ignore_ascii_case n' x) by (intros x; by rewrite Hn).
  unfold builtin. destruct vs as [|a [|b [|]]]; [done|..|done]; by rewrite !H.
Qed.

Lemma ci_of n m : eq_ignore_ascii_case n m = true -> ascii_ci n m.
Proof using. by intros H%bool_decide_eq_true. Qed.

Lemma plain_call alias row f args es expected :
  plain_function_named f expected = true -> plain_function_arguments f args = Some es ->
  eval alias row (FunctionCall f args) =
    default (other_function f (map (fun e => Some (eval alias row e)) es)) (builtin expected (map (eval alias row) es)).
Proof using.
  unfold plain_function_arguments. destruct (negb (args_listed f) || args_modified f) eqn:Hl; [done|].
  apply orb_false_iff in Hl as [Hl%negb_false_iff Hm]. intros Hn Ha. cbn [eval].
  assert (Hargs : args = map Some es).
  { revert es Ha. induction args as [|[e|] args IH]; intros es Ha; [by injection Ha as <-| |done].
    cbn in Ha. destruct (mapM id args) as [es'|]; [|done]. injection Ha as <-. cbn. by rewrite (IH es'). }
  subst args. rewrite map_map. unfold call, unquoted_name. unfold plain_function_named in Hn |- *.
  destruct (function_name f) as [|[i|t] [|]]; try done. destruct (bool_decide (quote_style i = None)); [|done].
  assert (Hid : mapM id (map (fun e => Some (eval alias row e)) es) = Some (map (eval alias row) es)).
  { clear. induction es as [|e es IH]; [done|]. cbn in IH |- *. by rewrite IH. }
  cbn [andb] in Hn |- *. rewrite Hid, eq_ignore_ascii_case_refl, Hl, Hm. apply andb_true_iff in Hn as [Hn H6].
  apply andb_true_iff in Hn as [Hn H5]. apply andb_true_iff in Hn as [Hn H4]. apply andb_true_iff in Hn as [Hn H3].
  apply andb_true_iff in Hn as [Hn H2]. apply andb_true_iff in Hn as [Hn H1]. rewrite H1, H2, H3, H4, H5, H6. cbn [andb negb].
  by rewrite (ci_of _ _ Hn).
Qed.

Lemma geometry_column_value alias row e g v :
  maintained_geometry_column e alias = Some g -> lookup_column row (ident_value g) = Some v ->
  eval alias row e = st_geomfromwkb v.
Proof using.
  unfold maintained_geometry_column. destruct e as [| | | | | | | | |f args|]; try done.
  destruct (plain_function_named f _) eqn:Hf; [|done]. destruct (plain_function_arguments f args) as [es|] eqn:Ha; [|done].
  cbn [mbind option_bind]. intros Hes Hv. rewrite (plain_call alias row f args es _ Hf Ha).
  assert (Hcol : exists e, es = [e] /\ eval alias row e = v).
  { destruct es as [|e0 [|? ?]]; [done| |by destruct e0 as [| [|? [|? [|]]] | | | | | | | | |]]. destruct e0 as [i|parts| | | | | | | | |]; try done.
    { injection Hes as ->. eexists. split; [done|]. cbn. by rewrite Hv. }
    { destruct parts as [|q [|c [|]]]; try done. destruct (identifiers_match q alias) eqn:Hq; [|done]. injection Hes as ->.
      eexists. split; [done|]. cbn. assert (Hqa : eq_ignore_ascii_case (ident_value q) (ident_value alias) = true).
      { unfold identifiers_match in Hq. destruct (quote_style q), (quote_style alias); try done;
          apply bool_decide_eq_true in Hq; rewrite Hq; apply eq_ignore_ascii_case_refl. }
      by rewrite Hqa, Hv. } }
  destruct Hcol as (e & -> & He). cbn [map]. by rewrite He.
Qed.

(** Two geometries with overlapping boxes *)
Definition boxes_overlap (a b : val) : Prop :=
  exists ax ay aX aY bx by0 bX bY, st_extent a = VBox ax ay aX aY /\ st_extent b = VBox bx by0 bX bY /\
    (coord_le ax bX = true /\ coord_le bx aX = true) /\ coord_le ay bY = true /\ coord_le by0 aY = true.
Lemma boxes_overlap_sym a b : boxes_overlap a b -> boxes_overlap b a.
Proof using.
  intros (ax & ay & aX & aY & bx & by0 & bX & bY & Ha & Hb & [H1 H2] & H3 & H4).
  by exists bx, by0, bX, bY, ax, ay, aX, aY.
Qed.
Lemma intersects_boxes a b : truth (st_intersects a b) = Some true -> boxes_overlap a b.
Proof using.
  destruct a as [| | | | |g|]; try done. destruct b as [| | | | |h|]; try done. cbn. intros [= H].
  destruct (intersects_overlap g h H) as (ax & ay & aX & aY & bx & by0 & bX & bY & Ha & Hb & H1 & H2 & H3 & H4).
  exists ax, ay, aX, aY, bx, by0, bX, bY. cbn. by rewrite Ha, Hb.
Qed.

(** A condition that holds implies its mandatory intersections. *)
Lemma mandatory_overlap alias row e g p v :
  holds alias row e = true -> (g, p) ∈ collect_mandatory_bbox_predicates e alias ->
  lookup_column row (ident_value g) = Some v -> boxes_overlap (st_geomfromwkb v) (eval alias row p).
Proof using.
  induction e as [| | | |e IH| |a IHa op b IHb| | |f args|]; try (intros _ H; by apply elem_of_nil in H).
  - exact IH.
  - destruct op; try (intros _ H; by apply elem_of_nil in H). intros [Ha Hb]%holds_and [H|H]%elem_of_app; auto.
  - cbn [collect_mandatory_bbox_predicates]. unfold maintained_intersection, holds. intros Hh%bool_decide_eq_true Hin Hv.
    destruct (plain_function_named f _) eqn:Hf; [|by apply elem_of_nil in Hin].
    destruct (plain_function_arguments f args) as [es|] eqn:Ha; [|by apply elem_of_nil in Hin].
    rewrite (plain_call alias row f args es _ Hf Ha) in Hh. cbn [mbind option_bind] in Hin.
    destruct es as [|l [|r [|]]]; try by apply elem_of_nil in Hin. cbn in Hh. apply intersects_boxes in Hh.
    assert (Hpair : forall x y, probe_pair x y alias = Some (g, p) -> boxes_overlap (eval alias row x) (eval alias row y) ->
      boxes_overlap (st_geomfromwkb v) (eval alias row p)).
    { intros x y Hp Ho. unfold probe_pair in Hp. destruct (maintained_geometry_column x alias) as [c|] eqn:Hc; [|done].
      cbn in Hp. destruct (stable_probe_geometry y); [|done]. injection Hp as -> ->.
      by rewrite (geometry_column_value alias row x g v Hc Hv) in Ho. }
    destruct (probe_pair l r alias) as [pr|] eqn:H1.
    + apply list_elem_of_singleton in Hin as <-. by eapply Hpair.
    + destruct (probe_pair r l alias) as [pr|] eqn:H2; [|by apply elem_of_nil in Hin].
      apply list_elem_of_singleton in Hin as <-. eapply Hpair; [exact H2|]. by apply boxes_overlap_sym.
Qed.

(** ** The filter leaves the answer as it was *)

Lemma corner_of_value alias row name k probe :
  (name, k) ∈ [("ST_XMin", XMin); ("ST_YMin", YMin); ("ST_XMax", XMax); ("ST_YMax", YMax)]%string ->
  eval alias row (corner_of name probe) = corner k (st_extent (eval alias row probe)).
Proof using.
  intros H. assert (He : eval alias row (FunctionCall (fn "ST_Extent") [Some probe]) = st_extent (eval alias row probe)).
  { by rewrite (plain_call alias row (fn "ST_Extent") [Some probe] [probe] (lit "st_extent")). }
  unfold corner_of. repeat (apply elem_of_cons in H as [[= -> ->]|H]; [|]); [..|by apply elem_of_nil in H].
  1: rewrite (plain_call alias row (fn "ST_XMin") _ [FunctionCall (fn "ST_Extent") [Some probe]] (lit "st_xmin")) by done.
  2: rewrite (plain_call alias row (fn "ST_YMin") _ [FunctionCall (fn "ST_Extent") [Some probe]] (lit "st_ymin")) by done.
  3: rewrite (plain_call alias row (fn "ST_XMax") _ [FunctionCall (fn "ST_Extent") [Some probe]] (lit "st_xmax")) by done.
  4: rewrite (plain_call alias row (fn "ST_YMax") _ [FunctionCall (fn "ST_Extent") [Some probe]] (lit "st_ymax")) by done.
  all: cbn [map]; by rewrite He.
Qed.
Lemma bbox_column_value alias row name v :
  lookup_column row (lit name) = Some v -> eval alias row (bbox_column alias name) = v.
Proof using. intros H. cbn. rewrite eq_ignore_ascii_case_refl. cbn. by rewrite H. Qed.

Lemma candidate_holds layout alias row p v :
  lookup_column row (geometry layout) = Some v -> row_ok layout row ->
  boxes_overlap (st_geomfromwkb v) (eval alias row p) -> holds alias row (candidate alias p) = true.
Proof using.
  intros Hv (v' & Hv' & Hk) (ax & ay & aX & aY & bx & by0 & bX & bY & Ha & Hb & [H1 H2] & H3 & H4).
  rewrite Hv in Hv'. injection Hv' as <-.
  assert (Hkept : forall k, kept k v = corner k (VBox ax ay aX aY)) by (intros k; rewrite <- Ha; by destruct v).
  assert (Hcol : forall (name : string) k, (lit name, k) ∈ corners ->
    eval alias row (bbox_column alias name) = corner k (VBox ax ay aX aY)).
  { intros name k Hin. rewrite <- Hkept. by apply bbox_column_value, Hk. }
  unfold candidate. rewrite !holds_and. unfold holds. cbn [eval].
  rewrite (Hcol "_qg_maxx"%string XMax), (Hcol "_qg_minx"%string XMin), (Hcol "_qg_maxy"%string YMax), (Hcol "_qg_miny"%string YMin)
    by (vm_compute; repeat (first [apply list_elem_of_here|apply list_elem_of_further])).
  rewrite (corner_of_value _ _ "ST_XMin" XMin), (corner_of_value _ _ "ST_XMax" XMax), (corner_of_value _ _ "ST_YMin" YMin),
    (corner_of_value _ _ "ST_YMax" YMax) by set_solver.
  rewrite Hb. cbn. by rewrite H1, H2, H3, H4.
Qed.

Lemma lookup_ci row n m : ascii_ci n m -> lookup_column row n = lookup_column row m.
Proof using.
  intros H. unfold lookup_column. f_equal. induction row as [|c row IH]; [done|]. cbn. unfold column_is at 1 3.
  rewrite H. by destruct (eq_ignore_ascii_case m c.1).
Qed.
Lemma identifier_ci i n : identifier_matches i n = true -> ascii_ci (ident_value i) n.
Proof using. unfold identifier_matches. destruct (quote_style i); [by intros ->%bool_decide_eq_true|apply ci_of]. Qed.

Lemma filter_unchanged layout alias row e g p :
  row_ok layout row -> identifier_matches g (geometry layout) = true ->
  collect_mandatory_bbox_predicates e alias = [(g, p)] ->
  holds alias row (BinaryOp (candidate alias p) And e) = holds alias row e.
Proof using.
  intros Hok Hg Hc. apply eq_true_iff_eq. rewrite holds_and. split; [by intros [_ H]|]. intros H. split; [|done].
  pose proof Hok as (v & Hv & _). eapply candidate_holds; [exact Hv|done|].
  eapply mandatory_overlap; [exact H|rewrite Hc; apply list_elem_of_here|]. by rewrite (lookup_ci row _ _ (identifier_ci _ _ Hg)).
Qed.

(** ** Queries

    The rest of a query is any function of the rows its condition keeps. *)

Context {Answer : Type}.
Variable finish : Select -> str -> list Row -> Answer.
Definition without_selection (s : Select) : Select := mkSelect (from s) (lateral_views s) (prewhere s) None (select_rest s).
Definition answer_select (rows_of : EngineTableRef -> list Row) (s : Select) (rest : str) : option Answer :=
  match from s with
  | [mkTableWithJoins (Table name alias _ _ _ _ _ _ _ _) _] =>
      match local_table_ref name with
      | Err _ => None
      | Ok t =>
          q ← table_qualifier name alias;
          Some (finish (without_selection s) rest
            (List.filter (fun row => match selection s with Some e => holds q row e | None => true end) (rows_of t)))
      end
  | _ => None
  end.
Definition answer (rows_of : EngineTableRef -> list Row) (s : Statement) : option Answer :=
  match s with
  | QueryStatement (mkQuery None (SetSelect s) rest) => answer_select rows_of s rest
  | _ => None
  end.
Definition candidate_statement (q : Ident) (probe : Expr) : Statement :=
  QueryStatement (mkQuery None (SetSelect (mkSelect [] [] None (Some (candidate q probe)) (lit "1"))) []).

Lemma filter_same {A} (f g : A -> bool) l : Forall (fun x => f x = g x) l -> List.filter f l = List.filter g l.
Proof using. induction 1 as [|x l Hx Hl IH]; [done|]. cbn. by rewrite Hx, IH. Qed.

Lemma select_answer rows_of layout s rest t :
  select_target s = Some t -> identifier_matches (target_geometry t) (geometry layout) = true ->
  Forall (row_ok layout) (rows_of (target_table t)) ->
  answer_select rows_of (inject_select (candidate (qualifier t) (probe t)) s) rest = answer_select rows_of s rest.
Proof using.
  unfold select_target, answer_select. cbn [inject_select from selection].
  destruct (from s) as [|[[name alias a0 a1 a2 a3 a4 a5 a6 a7|] js] [|]]; try done.
  destruct a0, a2, a3, a5, a6; try done. destruct (_ || _); [done|]. destruct (local_table_ref name) as [tab|]; [|done].
  destruct (table_qualifier name alias) as [q|]; [|done]. cbn [mbind option_bind]. destruct (selection s) as [e|]; [|done].
  cbn [mbind option_bind fmap option_fmap option_map].
  destruct (collect_mandatory_bbox_predicates e q) as [|[g p] [|]] eqn:Hc; try done.
  intros [= <-] Hg Hrows. cbn [qualifier probe target_table target_geometry] in *. do 2 f_equal. apply filter_same.
  eapply Forall_impl; [exact Hrows|]. intros row Hrow. by eapply filter_unchanged.
Qed.

Lemma inject_answer rows_of layout s t s' :
  bbox_query_target s = Some t -> identifier_matches (target_geometry t) (geometry layout) = true ->
  Forall (row_ok layout) (rows_of (target_table t)) ->
  parse_sql (candidate_sql (qualifier t) (probe t)) = Some [candidate_statement (qualifier t) (probe t)] ->
  inject_bbox_candidate s t = Ok s' -> answer rows_of s' = answer rows_of s.
Proof using.
  intros Ht Hg Hrows Hparse. unfold inject_bbox_candidate, bbox_candidate_expression. rewrite Hparse. cbn.
  intros [= <-]. destruct s as [q|o [q| | | |]| | |]; try done. unfold bbox_query_target in Ht. cbn in Ht.
  destruct q as [w b r]. cbn in Ht |- *. destruct w as [w|]; [done|]. cbn in Ht. destruct b as [sel|]; [|done].
  cbn. by eapply select_answer.
Qed.
End semantics.

