(* ===== verification/BboxCopy.v ===== *)
(** * The statement COPY publishes with

    [bbox_publish_projection] returns two texts: the columns of an INSERT and the values it
    selects from the staged rows.  The database reads them; [PublishText] says what is used of
    that: names and expressions that are spelled are read back.  At the end, a reader that has
    these laws. *)

From S2P Require Import Prelude SqlSyntax BboxLayout BboxSemantics.
#[local] Open Scope Z_scope.

(** The expression that [accessor_value] spells *)
Definition accessor_expr (g : Expr) (accessor : str) : Expr :=
  Case (IsNull g) (ValueExpr Null)
    (FunctionCall (mkFunctionHead [PartIdentifier (mkIdent accessor None)] false false false false false false true false)
       [Some (FunctionCall (fn "ST_Extent") [Some (FunctionCall (fn "ST_GeomFromWKB") [Some g])])]).

(** The text of the expressions COPY publishes *)
Fixpoint spell (e : Expr) : str :=
  match e with
  | Identifier i => quote_identifier (ident_value i)
  | ValueExpr Null => lit "NULL"
  | Case (IsNull c) r o => lit "CASE WHEN " ++ spell c ++ lit " IS NULL THEN " ++ spell r ++ lit " ELSE " ++ spell o ++ lit " END"
  | FunctionCall f [Some a] => default [] (unquoted_name f) ++ lit "(" ++ spell a ++ lit ")"
  | _ => []
  end.

(** A name a column can have: not empty, and without a NUL *)
Definition plain_name (n : str) : Prop := n <> [] /\ x00 ∉ n.
Lemma plain_names names :
  forallb (fun n => negb (bool_decide (n = [])) && negb (bool_decide (x00 ∈ n))) names = true -> Forall plain_name names.
Proof.
  intros H. apply Forall_forall. intros n Hn. rewrite forallb_forall in H. apply list_elem_of_In, H in Hn.
  apply andb_true_iff in Hn as [H1%negb_true_iff%bool_decide_eq_false H2%negb_true_iff%bool_decide_eq_false]. done.
Qed.
Definition column_ref (n : str) : Expr := Identifier (mkIdent n (Some quote_byte)).
(** The values COPY selects: a column of the staged rows, NULL, or a corner of the box of a column *)
Inductive copy_value : Expr -> Prop :=
  | copy_column n : plain_name n -> copy_value (column_ref n)
  | copy_null : copy_value (ValueExpr Null)
  | copy_corner n accessor : plain_name n -> accessor ∈ accessors -> copy_value (accessor_expr (column_ref n) accessor).

Definition name_list (names : list str) : str := join (lit ", ") (map quote_identifier names).
Definition value_list (es : list Expr) : str := join (lit ", ") (map spell es).

(** How the database reads the columns and the values of an INSERT *)
Class PublishText := {
  read_columns : str -> option (list str);
  read_values : str -> option (list Expr);
  read_columns_text names : names <> [] -> Forall plain_name names -> read_columns (name_list names) = Some names;
  read_values_text es : es <> [] -> Forall copy_value es -> read_values (value_list es) = Some es }.

Lemma join_app sep l k : l <> [] -> k <> [] -> join sep (l ++ k) = join sep l ++ sep ++ join sep k.
Proof.
  intros Hl Hk. induction l as [|x [|y l] IH]; [done| |].
  - cbn. by destruct k.
  - change (join sep ((x :: y :: l) ++ k)) with (x ++ sep ++ join sep ((y :: l) ++ k)).
    change (join sep (x :: y :: l)) with (x ++ sep ++ join sep (y :: l)). rewrite IH by done. by rewrite <- !app_assoc.
Qed.
Lemma spelled_columns names : map spell (map column_ref names) = map quote_identifier names.
Proof. rewrite map_map. by apply map_ext. Qed.

(** ** A reader *)

Module Reader.
(** A name after its opening quote, and what follows it *)
Fixpoint take_quoted (s : str) : option (str * str) :=
  match s with
  | [] => None
  | b :: s =>
      if bool_decide (b = quote_byte) then
        match s with
        | b' :: s' => if bool_decide (b' = quote_byte) then (fun '(n, rest) => (quote_byte :: n, rest)) <$> take_quoted s'
                      else Some ([], s)
        | [] => Some ([], [])
        end
      else (fun '(n, rest) => (b :: n, rest)) <$> take_quoted s
  end.
Definition read_name (s : str) : option (str * str) := s ← strip_prefix [quote_byte] s; take_quoted s.
Definition read_corner (s : str) (accessor : str) : option (Expr * str) :=
  s ← strip_prefix (lit "CASE WHEN ") s;
  '(n, s) ← read_name s;
  s ← strip_prefix (lit " IS NULL THEN NULL ELSE " ++ accessor ++ lit "(ST_Extent(ST_GeomFromWKB(" ++ quote_identifier n ++ lit "))) END") s;
  Some (accessor_expr (column_ref n) accessor, s).
Definition first_some {A} (l : list (option A)) : option A := foldr (fun o r => match o with Some a => Some a | None => r end) None l.
Definition read_value (s : str) : option (Expr * str) :=
  first_some (((fun '(n, s) => (column_ref n, s)) <$> read_name s) ::
              (pair (ValueExpr Null) <$> strip_prefix (lit "NULL") s) :: map (read_corner s) accessors).
Fixpoint read_list {A} (item : str -> option (A * str)) (fuel : nat) (s : str) : option (list A) :=
  match fuel with
  | O => None
  | S fuel =>
      '(x, s) ← item s;
      match s with [] => Some [x] | _ => s ← strip_prefix (lit ", ") s; cons x <$> read_list item fuel s end
  end.

(** What may follow an item of a list *)
Definition ends (rest : str) : Prop := rest = [] \/ exists s, rest = lit ", " ++ s.
Definition no_quote (rest : str) : Prop := match rest with b :: _ => b <> quote_byte | [] => True end.
Lemma ends_no_quote rest : ends rest -> no_quote rest.
Proof. by intros [->|[s ->]]. Qed.
Lemma take_quoted_double n rest : no_quote rest -> take_quoted (double_byte quote_byte n ++ quote_byte :: rest) = Some (n, rest).
Proof.
  intros Hr. induction n as [|b n IH].
  - cbn [take_quoted double_byte concat map app]. rewrite bool_decide_eq_true_2 by done. destruct rest as [|c rest]; [done|].
    by rewrite bool_decide_eq_false_2.
  - unfold double_byte. cbn [map concat]. fold (double_byte quote_byte n). case_bool_decide as Hb.
    + subst b. cbn [app take_quoted]. rewrite !bool_decide_eq_true_2 by done. by rewrite IH.
    + cbn [app take_quoted]. rewrite bool_decide_eq_false_2 by done. by rewrite IH.
Qed.
Lemma strip_prefix_app p s : strip_prefix p (p ++ s) = Some s.
Proof. unfold strip_prefix, starts_with. rewrite bool_decide_eq_true_2, drop_app_length; [done|]. by rewrite take_app_length. Qed.
Lemma strip_common p q s : strip_prefix (p ++ q) (p ++ s) = strip_prefix q s.
Proof.
  induction p as [|b p IH]; [done|]. rewrite <- IH. unfold strip_prefix, starts_with. cbn [app length take drop].
  destruct (decide (take (length (p ++ q)) (p ++ s) = p ++ q)) as [He|He].
  - rewrite !bool_decide_eq_true_2; [done|done|by rewrite He].
  - rewrite !bool_decide_eq_false_2; [done|done|congruence].
Qed.
Lemma strip_differ p p' q s : length p = length p' -> p <> p' -> strip_prefix (p' ++ q) (p ++ s) = None.
Proof.
  intros Hl Hp. unfold strip_prefix, starts_with. rewrite bool_decide_eq_false_2; [done|]. rewrite length_app, <- Hl.
  rewrite take_app_add. by intros [? _]%app_inj_1.
Qed.
Lemma read_name_quoted n rest : no_quote rest -> read_name (quote_identifier n ++ rest) = Some (n, rest).
Proof.
  intros Hr. unfold read_name, quote_identifier, quote_with. change ((?b :: ?l) ++ rest) with ([b] ++ (l ++ rest)).
  rewrite strip_prefix_app. cbn [mbind option_bind]. rewrite <- app_assoc. by apply take_quoted_double.
Qed.

Lemma spell_corner n accessor : spell (accessor_expr (column_ref n) accessor) =
  lit "CASE WHEN " ++ quote_identifier n ++ lit " IS NULL THEN NULL ELSE " ++ accessor ++
  lit "(ST_Extent(ST_GeomFromWKB(" ++ quote_identifier n ++ lit "))) END".
Proof. unfold accessor_expr. cbn -[lit app quote_identifier]. rewrite <- !app_assoc. done. Qed.
Lemma read_corner_spelled n accessor other rest : accessor ∈ accessors -> other ∈ accessors ->
  read_corner (spell (accessor_expr (column_ref n) accessor) ++ rest) other =
    if bool_decide (other = accessor) then Some (accessor_expr (column_ref n) accessor, rest) else None.
Proof.
  intros Ha Ho. unfold read_corner. rewrite spell_corner, <- !app_assoc, strip_prefix_app. cbn [mbind option_bind].
  rewrite read_name_quoted by done. cbn [mbind option_bind]. rewrite strip_common.
  case_bool_decide as He.
  - subst other. by rewrite !strip_common, strip_prefix_app.
  - rewrite strip_differ; [done| |done]. unfold accessors in *.
    repeat (apply elem_of_cons in Ha as [->|Ha]; [repeat (apply elem_of_cons in Ho as [->|Ho]; [done|]); by apply elem_of_nil in Ho|]).
    by apply elem_of_nil in Ha.
Qed.
Lemma read_value_spelled e rest : copy_value e -> no_quote rest -> read_value (spell e ++ rest) = Some (e, rest).
Proof.
  intros [n Hn| |n accessor Hn Ha] Hr; unfold read_value.
  - cbn [spell column_ref ident_value]. rewrite read_name_quoted by done. done.
  - done.
  - cbn [first_some foldr map]. assert (read_name (spell (accessor_expr (column_ref n) accessor) ++ rest) = None) as -> by (by rewrite spell_corner).
    assert (strip_prefix (lit "NULL") (spell (accessor_expr (column_ref n) accessor) ++ rest) = None) as -> by (by rewrite spell_corner).
    cbn [fmap option_fmap option_map]. unfold accessors at 1. cbn [map foldr].
    rewrite !read_corner_spelled by (unfold accessors; set_solver). unfold accessors in Ha.
    repeat (apply elem_of_cons in Ha as [->|Ha]; [by repeat case_bool_decide|]). by apply elem_of_nil in Ha.
Qed.
Lemma read_list_spelled {A} (item : str -> option (A * str)) (text : A -> str) (P : A -> Prop) l fuel :
  (forall x rest, P x -> ends rest -> item (text x ++ rest) = Some (x, rest)) ->
  l <> [] -> Forall P l -> (length l <= fuel)%nat -> read_list item fuel (join (lit ", ") (map text l)) = Some l.
Proof.
  intros Hitem Hl HP. revert fuel Hl. induction HP as [|x l Hx HP IH]; intros [|fuel] Hl Hf; try done; [cbn in Hf; lia|]. destruct l as [|y l].
  - cbn [map join read_list]. pose proof (Hitem x [] Hx (or_introl eq_refl)) as Hi. rewrite app_nil_r in Hi. by rewrite Hi.
  - change (join (lit ", ") (map text (x :: y :: l))) with (text x ++ lit ", " ++ join (lit ", ") (map text (y :: l))).
    cbn [read_list]. rewrite Hitem by (done || by right; eexists). cbn [mbind option_bind].
    change (lit ", " ++ ?r) with (x2c :: x20 :: r) at 1. cbv iota. change (x2c :: x20 :: ?r) with (lit ", " ++ r).
    rewrite strip_prefix_app. cbn [mbind option_bind]. rewrite IH; [done|done|cbn in *; lia].
Qed.
Lemma join_length {A} (text : A -> str) l : (length l <= S (length (join (lit ", ") (map text l))))%nat.
Proof.
  induction l as [|x [|y l] IH]; cbn [map join length] in *; [lia|lia|]. rewrite !length_app. cbn [length lit] in *. cbn in *. lia.
Qed.
Lemma read_columns_text names : names <> [] -> Forall plain_name names ->
  read_list read_name (S (length (name_list names))) (name_list names) = Some names.
Proof.
  intros Hn Hp. apply (read_list_spelled _ _ plain_name); [|done|done|apply join_length].
  intros x rest _ He. by apply read_name_quoted, ends_no_quote.
Qed.
Lemma read_values_text es : es <> [] -> Forall copy_value es ->
  read_list read_value (S (length (value_list es))) (value_list es) = Some es.
Proof.
  intros Hn Hp. apply (read_list_spelled _ _ copy_value); [|done|done|apply join_length].
  intros x rest Hx He. by apply read_value_spelled, ends_no_quote.
Qed.
#[export] Instance published_text : PublishText := {
  read_columns s := read_list read_name (S (length s)) s;
  read_values s := read_list read_value (S (length s)) s;
  BboxCopy.read_columns_text := read_columns_text;
  BboxCopy.read_values_text := read_values_text }.
End Reader.
