(* ===== verification/BboxMaintenance.v ===== *)
(** * The boxes are maintained

    COPY publishes rows with their boxes, UPDATE recomputes them, INSERT is refused and
    DELETE removes rows: a table that was empty once keeps the invariant [row_ok]. *)

From S2P Require Import Prelude Storage SqlSyntax BboxLayout BboxSemantics BboxCopy.
#[local] Open Scope Z_scope.

(** Membership in a list that is written out *)
Ltac listed := repeat first [apply list_elem_of_here|apply list_elem_of_further].

Section maintenance.
Context {spatial : Spatial} {meaning : Meaning} {sql_text : SqlText} {published_text : PublishText}.

(** ** Boxes computed by SQL *)

Lemma accessor_kept alias row g accessor k :
  (accessor, k) ∈ zip accessors [XMin; YMin; XMax; YMax] ->
  eval alias row (accessor_expr g accessor) = kept k (eval alias row g).
Proof using.
  intros H. set (w := FunctionCall (fn "ST_GeomFromWKB") [Some g]).
  assert (Hw : eval alias row w = st_geomfromwkb (eval alias row g)).
  { unfold w. by rewrite (plain_call alias row (fn "ST_GeomFromWKB") [Some g] [g] (lit "st_geomfromwkb")). }
  assert (Hc : eval alias row (FunctionCall (mkFunctionHead [PartIdentifier (mkIdent accessor None)] false false false false false false true false)
      [Some (FunctionCall (fn "ST_Extent") [Some w])]) = corner k (st_extent (st_geomfromwkb (eval alias row g)))).
  { rewrite <- Hw. unfold accessors in H. cbn [zip zip_with] in H.
    repeat (apply elem_of_cons in H as [[= -> ->]|H]; [|]); [..|by apply elem_of_nil in H].
    - apply (corner_of_value alias row "ST_XMin" XMin). set_solver.
    - apply (corner_of_value alias row "ST_YMin" YMin). set_solver.
    - apply (corner_of_value alias row "ST_XMax" XMax). set_solver.
    - apply (corner_of_value alias row "ST_YMax" YMax). set_solver. }
  unfold accessor_expr. cbn [eval]. change (eval alias row (FunctionCall ?h ?a)) with (eval alias row (FunctionCall h a)) in Hc.
  cbn [eval] in Hc. fold w. cbn [eval]. rewrite Hc. by destruct (eval alias row g).
Qed.

(** ** UPDATE *)

Definition set_column (row : Row) (u : str * val) : Row :=
  map (fun c => if column_is u.1 c then (c.1, u.2) else c) row.
(** The values of a tuple assignment are those of some expression. *)
Variable tuple_values : Expr -> Row -> list val.
Definition assigned_values (alias : Ident) (row : Row) (a : Assignment) : list (str * val) :=
  match assignment_targets (target a) with
  | [n] => match target_name n with Some c => [(c, eval alias row (assigned a))] | None => [] end
  | ns => zip (omap target_name ns) (tuple_values (assigned a) row)
  end.
(** All values are computed on the old row. *)
Definition apply_assignments (alias : Ident) (assignments : list Assignment) (row : Row) : Row :=
  foldl set_column row (concat (map (assigned_values alias row) assignments)).

Definition bbox_assignments (value : Expr) : list Assignment :=
  zip_with (fun column accessor => mkAssignment (ColumnName [PartIdentifier (mkIdent column (Some quote_byte))]) (accessor_expr value accessor))
    MAINTAINED_BBOX_COLUMNS accessors.

Lemma find_map_column name (f : str * val -> str * val) (row : Row) :
  (forall c, (f c).1 = c.1) -> List.find (column_is name) (map f row) = f <$> List.find (column_is name) row.
Proof using.
  intros Hf. induction row as [|c row IH]; [done|]. cbn. unfold column_is at 1 3. rewrite Hf.
  by destruct (eq_ignore_ascii_case name c.1).
Qed.
Lemma lookup_set row c v n :
  lookup_column (set_column row (c, v)) n =
    if eq_ignore_ascii_case c n then (fun _ => v) <$> lookup_column row n else lookup_column row n.
Proof using.
  unfold lookup_column, set_column. rewrite find_map_column by (intros x; by destruct (column_is _ x)).
  destruct (List.find (column_is n) row) as [x|] eqn:Hx; [|by destruct (eq_ignore_ascii_case c n)].
  apply List.find_some in Hx as [_ Hx]. unfold column_is in *. cbn [fst snd fmap option_fmap option_map].
  apply ci_of in Hx. rewrite <- Hx. by destruct (eq_ignore_ascii_case c n).
Qed.
Lemma lookup_set_other us n row :
  Forall (fun u => eq_ignore_ascii_case u.1 n = false) us -> lookup_column (foldl set_column row us) n = lookup_column row n.
Proof using.
  intros H. revert row. induction H as [|[c v] us Hu Hus IH]; intros row; [done|]. cbn [foldl fst] in *. by rewrite IH, lookup_set, Hu.
Qed.
(** A column that is set once *)
Lemma lookup_set_once us1 c v us2 n row w :
  Forall (fun u => eq_ignore_ascii_case u.1 n = false) us2 -> eq_ignore_ascii_case c n = true ->
  lookup_column row n = Some w -> lookup_column (foldl set_column row (us1 ++ (c, v) :: us2)) n = Some v.
Proof using.
  intros H Hc Hw. rewrite foldl_app. cbn [foldl]. rewrite lookup_set_other by done. rewrite lookup_set, Hc.
  assert (Hs : forall us row w, lookup_column row n = Some w -> exists w', lookup_column (foldl set_column row us) n = Some w').
  { clear. induction us as [|[c v] us IH]; intros row w H; [by exists w|]. cbn [foldl]. destruct (eq_ignore_ascii_case c n) eqn:Hc.
    - eapply IH. rewrite lookup_set, Hc, H. done.
    - eapply IH. by rewrite lookup_set, Hc. }
  destruct (Hs us1 row w Hw) as [w' ->]. done.
Qed.

(** What [rewrite_safe_bbox_update] has checked *)
Definition plain_target (n : ObjectName) : Prop :=
  exists c, target_name n = Some c /\ forall b, b ∈ MAINTAINED_BBOX_COLUMNS -> eq_ignore_ascii_case c b = false.
Definition not_geometry (layout : MaintainedBboxLayout) (n : ObjectName) : Prop :=
  forall c, target_name n = Some c -> eq_ignore_ascii_case c (geometry layout) = false.
Definition sets_geometry (layout : MaintainedBboxLayout) (a : Assignment) : Prop :=
  exists n c, assignment_targets (target a) = [n] /\ target_name n = Some c /\ eq_ignore_ascii_case c (geometry layout) = true.

Lemma targets_checked layout a ts value value' :
  try_fold (check_target layout a) ts value = Ok value' ->
  Forall plain_target ts /\
  ((value' = value /\ Forall (not_geometry layout) ts) \/
   (value = None /\ value' = Some (assigned a) /\ length (assignment_targets (target a)) = 1%nat /\ 
    exists n c, n ∈ ts /\ target_name n = Some c /\ eq_ignore_ascii_case c (geometry layout) = true)).
Proof using.
  revert value. induction ts as [|n ts IH]; intros value H; [injection H as <-; by split; [|left]|].
  cbn [try_fold] in H. apply bind_ok in H as (value1 & Hc & H). destruct (IH _ H) as [Hp Hv]. clear IH H.
  unfold check_target in Hc. apply bind_ok in Hc as (c & Hn%ok_or_ok & Hc). apply bind_ok in Hc as (? & Hb%ensure_ok & Hc).
  assert (Hpl : plain_target n).
  { exists c. split; [done|]. intros b Hb'. apply negb_true_iff in Hb. destruct (eq_ignore_ascii_case c b) eqn:He; [|done].
    rewrite <- Hb. symmetry. apply existsb_elem. by exists b. }
  split; [by constructor|]. destruct (eq_ignore_ascii_case c (geometry layout)) eqn:Hg.
  - apply bind_ok in Hc as (? & Hl%ensure_ok & Hc). apply bind_ok in Hc as (? & _ & [= <-]). right.
    rewrite negb_true_iff, orb_false_iff, negb_false_iff, bool_decide_eq_false in Hl. destruct Hl as [Hl Hnone].
    assert (value = None) as -> by (destruct value; [by destruct Hnone|done]). split; [done|].
    split; [by destruct Hv as [[-> _]|(? & _)]|]. split; [unfold len in Hl; lia|]. exists n, c. split; [apply list_elem_of_here|done].
  - injection Hc as <-. assert (Hng : not_geometry layout n) by (intros c' Hc'; rewrite Hn in Hc'; by injection Hc' as <-).
    destruct Hv as [[-> Hf]|(-> & -> & Hl & n' & c' & Hin & Hc')]; [left; by split; [|constructor]|right].
    split_and!; [done..|]. exists n', c'. split; [by apply list_elem_of_further|done].
Qed.

Record checked (layout : MaintainedBboxLayout) (assignments : list Assignment) (value : option Expr) : Prop := {
  checked_plain : Forall (fun a => Forall plain_target (assignment_targets (target a))) assignments;
  checked_value : match value with
    | None => Forall (fun a => Forall (not_geometry layout) (assignment_targets (target a))) assignments
    | Some v => exists as1 a as2, assignments = as1 ++ a :: as2 /\ sets_geometry layout a /\ assigned a = v /\
        Forall (fun a => Forall (not_geometry layout) (assignment_targets (target a))) (as1 ++ as2)
    end }.

Lemma assignments_checked layout assignments value :
  try_fold (check_assignment layout) assignments None = Ok value -> checked layout assignments value.
Proof using.
  intros H. loop_inv H (fun done v => checked layout done v); [exact H|by split|].
  intros done a v v' _ [Hp Hv] Hs. apply targets_checked in Hs as [Hpa Hs]. split; [by apply Forall_app; split; [|constructor]|].
  destruct Hs as [[-> Hn]|(-> & -> & Hl & n & c & Hin & Hc)].
  - destruct v as [v|].
    + destruct Hv as (as1 & b & as2 & -> & Hb & Hbv & Hr). exists as1, b, (as2 ++ [a]). rewrite <- app_assoc. split_and!; [done..|].
      rewrite app_assoc. by apply Forall_app; split; [|constructor].
    + by apply Forall_app; split; [|constructor].
  - exists done, a, []. split_and!; [done| |done|by rewrite app_nil_r]. exists n, c. split; [|done].
    destruct (assignment_targets (target a)) as [|m [|]]; try done. by apply list_elem_of_singleton in Hin as ->.
Qed.

(** The names an assignment gives values to *)
Lemma assigned_names alias row a u : u ∈ assigned_values alias row a -> exists n, n ∈ assignment_targets (target a) /\ target_name n = Some u.1.
Proof using.
  unfold assigned_values. destruct (assignment_targets (target a)) as [|n [|m ns]].
  - intros H. by apply elem_of_nil in H.
  - destruct (target_name n) as [c|] eqn:Hn; intros H; [|by apply elem_of_nil in H].
    apply list_elem_of_singleton in H as ->. exists n. split; [apply list_elem_of_here|done].
  - destruct u as [c v]. intros H%elem_of_zip_l. apply list_elem_of_omap in H as (x & Hx & Hc). by exists x.
Qed.
Lemma untouched alias row assignments name :
  Forall (fun a => Forall (fun n => forall c, target_name n = Some c -> eq_ignore_ascii_case c name = false) (assignment_targets (target a))) assignments ->
  Forall (fun u => eq_ignore_ascii_case u.1 name = false) (concat (map (assigned_values alias row) assignments)).
Proof using.
  intros H. apply Forall_concat, Forall_map. eapply Forall_impl; [exact H|]. intros a Ha. apply Forall_forall. intros u Hu.
  apply assigned_names in Hu as (n & Hn & Hc). rewrite Forall_forall in Ha. by apply (Ha n Hn).
Qed.

Definition apart (layout : MaintainedBboxLayout) : Prop :=
  forall b, b ∈ MAINTAINED_BBOX_COLUMNS -> eq_ignore_ascii_case b (geometry layout) = false.

Lemma generated_values alias row value :
  concat (map (assigned_values alias row) (bbox_assignments value)) =
    map (fun nk => (nk.1, kept nk.2 (eval alias row value))) corners.
Proof using.
  unfold bbox_assignments, corners, accessors, MAINTAINED_BBOX_COLUMNS. cbn [zip zip_with map concat].
  unfold assigned_values. cbn [assignment_targets target assigned target_name last mbind option_bind part_value ident_value app fst snd].
  rewrite (accessor_kept alias row value _ XMin), (accessor_kept alias row value _ YMin), (accessor_kept alias row value _ XMax),
    (accessor_kept alias row value _ YMax) by (unfold accessors; cbn [zip zip_with]; listed). done.
Qed.
Lemma corner_names n : n ∈ MAINTAINED_BBOX_COLUMNS <-> exists k, (n, k) ∈ corners.
Proof using.
  unfold corners, MAINTAINED_BBOX_COLUMNS. cbn [zip zip_with]. split.
  - intros H. repeat (apply elem_of_cons in H as [->|H]; [eexists; listed|]).
    by apply elem_of_nil in H.
  - intros [k H]. repeat (apply elem_of_cons in H as [[= -> _]|H]; [listed|]).
    by apply elem_of_nil in H.
Qed.
(** Setting the corners, with names that are pairwise apart *)
Lemma lookup_corners w (row : Row) n k x :
  (n, k) ∈ corners -> lookup_column row n = Some x ->
  lookup_column (foldl set_column row (map (fun nk => (nk.1, kept nk.2 w)) corners)) n = Some (kept k w).
Proof using.
  intros H Hx. assert (Hs : exists us1 us2, map (fun nk => (nk.1, kept nk.2 w)) corners = us1 ++ (n, kept k w) :: us2 /\
    Forall (fun u : str * val => eq_ignore_ascii_case u.1 n = false) us2).
  { unfold corners, MAINTAINED_BBOX_COLUMNS in *. cbn [zip zip_with map fst snd] in *.
    apply elem_of_cons in H as [[= -> ->]|H]; [eexists [], _; split; [done|repeat constructor; vm_compute; done]|].
    apply elem_of_cons in H as [[= -> ->]|H]; [eexists [_], _; split; [done|repeat constructor; vm_compute; done]|].
    apply elem_of_cons in H as [[= -> ->]|H]; [eexists [_; _], _; split; [done|repeat constructor; vm_compute; done]|].
    apply elem_of_cons in H as [[= -> ->]|H]; [eexists [_; _; _], _; split; [done|constructor]|]. by apply elem_of_nil in H. }
  destruct Hs as (us1 & us2 & -> & Hus). by eapply lookup_set_once; [|apply eq_ignore_ascii_case_refl|exact Hx].
Qed.

Definition reads_generated (value : Expr) : Prop :=
  exists t rest, parse_sql (bbox_update_sql value) = Some [Update t (bbox_assignments value) rest].

Lemma update_row_ok layout assignments assignments' alias row :
  rewrite_safe_bbox_update layout assignments = Ok assignments' -> (forall a, a ∈ assignments -> reads_generated (assigned a)) ->
  apart layout -> row_ok layout row -> row_ok layout (apply_assignments alias assignments' row).
Proof using.
  unfold rewrite_safe_bbox_update. intros H Hgen Hap (v & Hv & Hk).
  apply bind_ok in H as (value & Hc%assignments_checked & H). destruct Hc as [Hp Hvalue].
  assert (Hplain : forall b, b ∈ MAINTAINED_BBOX_COLUMNS ->
    Forall (fun u => eq_ignore_ascii_case u.1 b = false) (concat (map (assigned_values alias row) assignments))).
  { intros b Hb. apply untouched. eapply Forall_impl; [exact Hp|]. intros a Ha. eapply Forall_impl; [exact Ha|].
    intros n (c & Hn & Hcb) c' Hc'. rewrite Hn in Hc'. injection Hc' as <-. by apply Hcb. }
  destruct value as [e|].
  - destruct Hvalue as (as1 & a & as2 & Has & (n & c & Ht & Hn & Hcg) & He & Hr).
    destruct (Hgen a) as (t & rest & Hparse); [rewrite Has; set_solver|]. rewrite He in Hparse. rewrite Hparse in H. injection H as <-.
    unfold apply_assignments. rewrite map_app, concat_app, foldl_app, generated_values. set (w := eval alias row e).
    assert (Hgeo : lookup_column (foldl set_column row (concat (map (assigned_values alias row) assignments))) (geometry layout) = Some w).
    { rewrite Has, map_app, concat_app. cbn [map concat]. unfold assigned_values at 2. rewrite Ht, Hn. cbn [app]. rewrite He.
      apply Forall_app in Hr as [_ Hr]. by eapply lookup_set_once; [apply untouched|exact Hcg|exact Hv]. }
    exists w. split.
    + rewrite lookup_set_other; [done|]. apply Forall_map, Forall_forall. intros [m k] Hm. cbn. apply Hap, corner_names. by exists k.
    + intros m k Hm. eapply lookup_corners; [done|]. rewrite lookup_set_other; [by apply Hk|].
      apply Hplain, corner_names. by exists k.
  - injection H as <-. exists v. unfold apply_assignments. split.
    + rewrite lookup_set_other; [done|]. by apply untouched.
    + intros m k Hm. rewrite lookup_set_other; [by apply Hk|]. apply Hplain, corner_names. by exists k.
Qed.

(** ** COPY *)

Definition published_boxes (geometry : option str) : list Expr :=
  match geometry with
  | Some g => map (accessor_expr (Identifier (mkIdent g (Some quote_byte)))) accessors
  | None => replicate 4 (ValueExpr Null)
  end.
Definition input_geometry (layout : MaintainedBboxLayout) (input : list Field) : option str :=
  f ← field_with_name input (geometry layout);
  if is_geometry f then Some (field_name f) else None.

Lemma boxes_text g : bbox_accessor_values (quote_identifier g) = join (lit ", ") (map spell (published_boxes (Some g))).
Proof using.
  unfold bbox_accessor_values, published_boxes. f_equal. rewrite map_map. apply map_ext. intros a.
  unfold accessor_value, accessor_expr. cbn -[lit app quote_identifier]. rewrite <- !app_assoc. done.
Qed.
Lemma publish_text schema input columns layout c v :
  inspect_maintained_bbox_layout schema = Ok (Some layout) -> bbox_publish_projection schema input columns = Ok (c, v) ->
  Forall (fun n => field_with_name input n = None) MAINTAINED_BBOX_COLUMNS /\
  c = columns ++ lit ", " ++ name_list MAINTAINED_BBOX_COLUMNS /\
  v = columns ++ lit ", " ++ value_list (published_boxes (input_geometry layout input)).
Proof using.
  intros Hl H. unfold bbox_publish_projection in H. rewrite Hl in H. cbn [mbind result_bind] in H.
  apply bind_ok in H as (? & Hn%ensure_ok & H). injection H as <- <-. split.
  { apply Forall_forall. intros n Hin. rewrite forallb_forall in Hn. apply list_elem_of_In, Hn in Hin. by apply bool_decide_eq_true in Hin. }
  split; [done|]. unfold input_geometry. destruct (field_with_name input (geometry layout)) as [f|]; [|done].
  cbn [mbind option_bind]. destruct (is_geometry f); [|done]. by rewrite boxes_text.
Qed.

(** The text of the columns that [ingest] copies *)
Definition input_columns (input : list Field) : str := name_list (map field_name input).
(** What the database reads in the projection: every staged column for itself, then the boxes *)
Lemma projection_read schema input layout c v :
  inspect_maintained_bbox_layout schema = Ok (Some layout) -> bbox_publish_projection schema input (input_columns input) = Ok (c, v) ->
  input <> [] -> Forall (fun f => plain_name (field_name f)) input ->
  read_columns c = Some (map field_name input ++ MAINTAINED_BBOX_COLUMNS) /\
  read_values v = Some (map column_ref (map field_name input) ++ published_boxes (input_geometry layout input)).
Proof using.
  intros Hl H Hne Hp. destruct (publish_text _ _ _ _ _ _ Hl H) as (_ & -> & ->). unfold input_columns.
  assert (Hnames : map field_name input <> []) by (by destruct input). split.
  - assert (name_list (map field_name input) ++ lit ", " ++ name_list MAINTAINED_BBOX_COLUMNS =
      name_list (map field_name input ++ MAINTAINED_BBOX_COLUMNS)) as ->.
    { unfold name_list. rewrite map_app, join_app; [done|by destruct input|done]. }
    apply read_columns_text; [by destruct input|]. apply Forall_app. split; [by apply Forall_map|].
    apply plain_names. vm_compute. reflexivity.
  - assert (name_list (map field_name input) ++ lit ", " ++ value_list (published_boxes (input_geometry layout input)) =
      value_list (map column_ref (map field_name input) ++ published_boxes (input_geometry layout input))) as ->.
    { unfold value_list. rewrite map_app, spelled_columns, join_app; [done|by destruct input|by destruct (input_geometry _ _)]. }
    apply read_values_text; [by destruct input|]. apply Forall_app. split.
    + apply Forall_map, Forall_map. eapply Forall_impl; [exact Hp|]. intros f Hf. by constructor.
    + unfold published_boxes. destruct (input_geometry layout input) as [g|] eqn:Hg; [|repeat constructor].
      unfold input_geometry in Hg. destruct (field_with_name input (geometry layout)) as [f|] eqn:Hf; [|done]. cbn in Hg.
      destruct (is_geometry f); [|done]. injection Hg as <-. apply List.find_some in Hf as [Hf _]. rewrite Forall_forall in Hp.
      apply Forall_map, Forall_forall. intros a Ha. constructor; [|done]. apply Hp. by apply list_elem_of_In.
Qed.

(** Column names differ by more than case, as in every table. *)
Definition schema_ok (schema : list Field) : Prop := NoDup (map (fun f => to_ascii_lowercase (field_name f)) schema).

Lemma schema_names schema f g :
  schema_ok schema -> f ∈ schema -> g ∈ schema -> eq_ignore_ascii_case (field_name f) (field_name g) = true -> f = g.
Proof using.
  intros Hs Hf Hg Hc%ci_of. unfold schema_ok in Hs. apply list_elem_of_lookup in Hf as [i Hi]. apply list_elem_of_lookup in Hg as [j Hj].
  assert (i = j) as ->; [|congruence]. eapply (NoDup_lookup _ _ _ (to_ascii_lowercase (field_name f)) Hs);
    rewrite list_lookup_fmap; [by rewrite Hi|rewrite Hj; cbn; by rewrite Hc].
Qed.
Lemma lookup_schema (h : Field -> val) schema f :
  schema_ok schema -> f ∈ schema -> lookup_column (map (fun f => (field_name f, h f)) schema) (field_name f) = Some (h f).
Proof using.
  intros Hs Hf. unfold lookup_column.
  assert (Hfind : exists g, List.find (column_is (field_name f)) (map (fun f => (field_name f, h f)) schema) = Some (field_name g, h g) /\
    g ∈ schema /\ eq_ignore_ascii_case (field_name f) (field_name g) = true).
  { clear Hs. induction schema as [|g schema IH]; [by apply elem_of_nil in Hf|]. cbn. unfold column_is at 1. cbn.
    destruct (eq_ignore_ascii_case (field_name f) (field_name g)) eqn:Hc; [exists g; split_and!; [done|apply list_elem_of_here|done]|].
    apply elem_of_cons in Hf as [->|Hf]; [by rewrite eq_ignore_ascii_case_refl in Hc|].
    destruct (IH Hf) as (g' & H1 & H2 & H3). exists g'. split_and!; [done|by apply list_elem_of_further|done]. }
  destruct Hfind as (g & -> & Hg & Hc). by rewrite (schema_names schema f g).
Qed.
Lemma field_found schema n f : field_with_name schema n = Some f -> f ∈ schema /\ field_name f = n.
Proof using. intros H. apply List.find_some in H as [H1%list_elem_of_In H2%bool_decide_eq_true]. done. Qed.
Lemma field_missing schema n f : field_with_name schema n = None -> f ∈ schema -> field_name f <> n.
Proof using.
  intros H Hf He. apply list_elem_of_In in Hf. eapply List.find_none in H; [|exact Hf]. by apply bool_decide_eq_false in H.
Qed.

Lemma accessor_boxes alias staged e w :
  eval alias staged e = w ->
  zip MAINTAINED_BBOX_COLUMNS (map (eval alias staged) (map (accessor_expr e) accessors)) = map (fun nk => (nk.1, kept nk.2 w)) corners.
Proof using.
  intros <-. unfold corners, MAINTAINED_BBOX_COLUMNS, accessors. cbn [zip zip_with map fst snd].
  rewrite (accessor_kept alias staged e _ XMin), (accessor_kept alias staged e _ YMin), (accessor_kept alias staged e _ XMax),
    (accessor_kept alias staged e _ YMax) by (unfold accessors; cbn [zip zip_with]; listed). done.
Qed.
Lemma lookup_boxes w n k : (n, k) ∈ corners -> lookup_column (map (fun nk => (nk.1, kept nk.2 w)) corners) n = Some (kept k w).
Proof using.
  unfold corners, MAINTAINED_BBOX_COLUMNS. cbn [zip zip_with map fst snd]. intros H.
  repeat (apply elem_of_cons in H as [[= -> ->]|H]; [reflexivity|]). by apply elem_of_nil in H.
Qed.
Lemma no_geometry layout input : geometry layout ∉ map field_name input -> input_geometry layout input = None.
Proof using.
  intros H. unfold input_geometry. destruct (field_with_name input (geometry layout)) as [f|] eqn:Hf; [|done].
  destruct H. apply field_found in Hf as [Hf <-]. by apply list_elem_of_fmap_2.
Qed.

(** What the layout of a schema says *)
Hypothesis spatial_not_float : forall f, is_geometry f = true -> field_type f <> Float64.
Lemma layout_fields schema layout :
  inspect_maintained_bbox_layout schema = Ok (Some layout) ->
  (exists g, g ∈ schema /\ is_geometry g = true /\ field_name g = geometry layout) /\
  (forall n, n ∈ MAINTAINED_BBOX_COLUMNS -> exists f, f ∈ schema /\ field_name f = n /\ field_type f = Float64).
Proof using.
  unfold inspect_maintained_bbox_layout. destruct (_ =? 0); [done|]. intros H.
  apply bind_ok in H as (? & _ & H). apply bind_ok in H as (? & Hf%ensure_ok & H). split.
  - destruct (List.filter is_geometry schema) as [|g [|]] eqn:Hg; try done. injection H as <-. exists g.
    assert (Hin : In g (List.filter is_geometry schema)) by (rewrite Hg; by left).
    apply filter_In in Hin as [Hin ?]. split; [by apply list_elem_of_In|done].
  - intros n Hn. rewrite forallb_forall in Hf. apply list_elem_of_In, Hf in Hn.
    destruct (field_with_name schema n) as [f|] eqn:Hfn; [|done]. apply field_found in Hfn as [? ?].
    apply andb_true_iff in Hn as [Hn%bool_decide_eq_true _]. by exists f.
Qed.
Lemma layout_apart schema layout : schema_ok schema -> inspect_maintained_bbox_layout schema = Ok (Some layout) -> apart layout.
Proof using spatial_not_float.
  intros Hs Hl b Hb. destruct (layout_fields _ _ Hl) as [(g & Hg & Hgeo & <-) Hn]. destruct (Hn b Hb) as (f & Hf & <- & Ht).
  destruct (eq_ignore_ascii_case (field_name f) (field_name g)) eqn:Hc; [|done].
  assert (f = g) as -> by by eapply schema_names. by apply spatial_not_float in Hgeo.
Qed.

(** The row that [INSERT INTO target (columns) SELECT values FROM stage] adds for a staged
    row: columns that are not listed have their defaults. *)
Variable defaults : str -> val.
Definition inserted_row (schema : list Field) (columns : list str) (values : list Expr) (alias : Ident) (staged : Row) : Row :=
  map (fun f => (field_name f, default (defaults (field_name f)) (lookup_column (zip columns (map (eval alias staged) values)) (field_name f))))
    schema.
(** That row for the projection with boxes *)
Definition published_row (schema : list Field) (geometry : option str) (alias : Ident) (staged : Row) : Row :=
  map (fun f => (field_name f, default (defaults (field_name f))
                   (lookup_column (staged ++ zip MAINTAINED_BBOX_COLUMNS (map (eval alias staged) (published_boxes geometry))) (field_name f))))
    schema.

Lemma lookup_app (r1 r2 : Row) n :
  lookup_column (r1 ++ r2) n = match lookup_column r1 n with Some v => Some v | None => lookup_column r2 n end.
Proof using. unfold lookup_column. induction r1 as [|c r1 IH]; [done|]. cbn. by destruct (column_is n c). Qed.
Lemma lookup_absent (r : Row) n : (forall m, m ∈ map fst r -> eq_ignore_ascii_case n m = false) -> lookup_column r n = None.
Proof using.
  intros H. unfold lookup_column. induction r as [|c r IH]; [done|]. cbn. unfold column_is at 1. rewrite (H c.1) by (cbn; apply list_elem_of_here).
  apply IH. intros m Hm. apply H. cbn. by apply list_elem_of_further.
Qed.
Lemma lookup_present (r : Row) n : n ∈ map fst r -> exists v, lookup_column r n = Some v.
Proof using.
  intros H. unfold lookup_column. induction r as [|c r IH]; [by apply elem_of_nil in H|]. cbn. unfold column_is at 1.
  destruct (eq_ignore_ascii_case n c.1) eqn:Hc; [by eexists|]. cbn in H. apply elem_of_cons in H as [->|H]; [by rewrite eq_ignore_ascii_case_refl in Hc|].
  by apply IH.
Qed.

(** The staged columns, selected by their names *)
Lemma lookup_ignoring_case (r : Row) m n : eq_ignore_ascii_case m n = true -> lookup_column r m = lookup_column r n.
Proof using.
  intros Hc. unfold lookup_column. f_equal. induction r as [|c r IH]; [done|]. cbn. unfold column_is at 1 3.
  apply eq_ignore_ascii_case_true in Hc. assert (eq_ignore_ascii_case m c.1 = eq_ignore_ascii_case n c.1) as -> by (by rewrite Hc).
  by rewrite IH.
Qed.
Lemma lookup_selected alias (staged : Row) n :
  lookup_column (zip (map fst staged) (map (eval alias staged) (map column_ref (map fst staged)))) n = lookup_column staged n.
Proof using.
  assert (Hrest : forall rest : Row, (forall c, c ∈ rest -> c ∈ staged) ->
    List.find (column_is n) (zip (map fst rest) (map (eval alias staged) (map column_ref (map fst rest)))) =
      (fun c => (c.1, eval alias staged (column_ref c.1))) <$> List.find (column_is n) rest).
  { induction rest as [|c rest IH]; intros Hin; [done|]. cbn [map zip zip_with List.find]. unfold column_is at 1 3. cbn [fst].
    destruct (eq_ignore_ascii_case n c.1); [done|]. apply IH. intros c' Hc'. apply Hin. by right. }
  unfold lookup_column at 1. rewrite Hrest by done. destruct (List.find (column_is n) staged) as [c|] eqn:Hf.
  - assert (Hl : lookup_column staged c.1 = Some c.2).
    { assert (eq_ignore_ascii_case n c.1 = true) as Hc by (by apply List.find_some in Hf as [_ Hf]).
      rewrite <- (lookup_ignoring_case staged n c.1 Hc). unfold lookup_column. by rewrite Hf. }
    cbn [fmap option_fmap option_map fst snd]. unfold lookup_column at 1. rewrite Hf. cbn. by rewrite Hl.
  - unfold lookup_column. by rewrite Hf.
Qed.
Lemma inserted_published schema input layout alias staged :
  map fst staged = map field_name input ->
  inserted_row schema (map field_name input ++ MAINTAINED_BBOX_COLUMNS)
    (map column_ref (map field_name input) ++ published_boxes (input_geometry layout input)) alias staged =
  published_row schema (input_geometry layout input) alias staged.
Proof using.
  intros Hs. unfold inserted_row, published_row. apply map_ext. intros f. f_equal. f_equal. rewrite <- Hs, map_app.
  rewrite zip_with_app by (by rewrite !length_map). rewrite !lookup_app. by rewrite lookup_selected.
Qed.

Lemma published_ok schema input layout columns c v alias staged :
  schema_ok schema -> inspect_maintained_bbox_layout schema = Ok (Some layout) ->
  (forall f, f ∈ input -> f ∈ schema) -> bbox_publish_projection schema input columns = Ok (c, v) ->
  map fst staged = map field_name input -> (geometry layout ∉ map field_name input -> defaults (geometry layout) = VNull) ->
  row_ok layout (published_row schema (input_geometry layout input) alias staged).
Proof using spatial_not_float.
  intros Hs Hl Hin Hpub Hnames Hdef. destruct (publish_text _ _ _ _ _ _ Hl Hpub) as (Hnob & _ & _).
  destruct (layout_fields _ _ Hl) as [(g & Hg & Hgeo & Hgn) Hbs]. pose proof (layout_apart _ _ Hs Hl) as Hap.
  assert (Hstaged : forall n, (forall f, f ∈ input -> eq_ignore_ascii_case n (field_name f) = false) -> lookup_column staged n = None).
  { intros n Hn. apply lookup_absent. intros m Hm. rewrite Hnames in Hm. apply list_elem_of_fmap in Hm as (f & -> & Hf). by apply Hn. }
  assert (Hbox : forall n, n ∈ MAINTAINED_BBOX_COLUMNS -> lookup_column staged n = None).
  { intros n Hn. apply Hstaged. intros f Hf. destruct (eq_ignore_ascii_case n (field_name f)) eqn:Hc; [|done].
    destruct (Hbs n Hn) as (fb & Hfb & <- & _). assert (fb = f) as <- by (eapply schema_names; eauto).
    rewrite Forall_forall in Hnob. by eapply field_missing in Hf; [|by apply Hnob]. }
  set (boxes := zip MAINTAINED_BBOX_COLUMNS (map (eval alias staged) (published_boxes (input_geometry layout input)))).
  assert (Hlook : forall f, f ∈ schema -> lookup_column (published_row schema (input_geometry layout input) alias staged) (field_name f) =
    Some (default (defaults (field_name f)) (lookup_column (staged ++ boxes) (field_name f)))) by (intros f Hf; by apply lookup_schema).
  exists (default (defaults (geometry layout)) (lookup_column (staged ++ boxes) (geometry layout))). split; [rewrite <- Hgn; by apply Hlook|].
  intros n k Hk. assert (Hn : n ∈ MAINTAINED_BBOX_COLUMNS) by (apply corner_names; by exists k).
  destruct (Hbs n Hn) as (fb & Hfb & <- & _). rewrite Hlook by done. f_equal. rewrite (lookup_app staged boxes (field_name fb)), Hbox by done.
  assert (Hboxes : exists w, default (defaults (geometry layout)) (lookup_column (staged ++ boxes) (geometry layout)) = w /\
    boxes = map (fun nk => (nk.1, kept nk.2 w)) corners).
  { rewrite lookup_app. destruct (decide (geometry layout ∈ map field_name input)) as [Hgi|Hgi].
    - apply list_elem_of_fmap in Hgi as (f & Hfn & Hf). assert (f = g) as ->.
      { eapply schema_names; eauto. rewrite <- Hfn, Hgn. apply eq_ignore_ascii_case_refl. }
      assert (Hig : input_geometry layout input = Some (geometry layout)).
      { unfold input_geometry. destruct (field_with_name input (geometry layout)) as [f|] eqn:He; [|by destruct (field_missing _ _ _ He Hf)].
        apply field_found in He as [Hf1 Hf2]. assert (f = g) as ->.
        { eapply schema_names; eauto. rewrite Hf2, Hgn. apply eq_ignore_ascii_case_refl. }
        cbn. by rewrite Hgeo, Hgn. }
      destruct (lookup_present staged (geometry layout)) as [w Hw]; [rewrite Hnames, <- Hgn; by apply list_elem_of_fmap_2|].
      exists w. rewrite Hw. split; [done|]. unfold boxes. rewrite Hig. apply accessor_boxes. cbn. by rewrite Hw.
    - exists VNull. rewrite Hstaged.
      + rewrite lookup_absent; [by split; [apply Hdef|unfold boxes; rewrite (no_geometry _ _ Hgi)]|].
        intros m Hm. rewrite eq_ignore_ascii_case_sym. apply Hap. unfold boxes in Hm. rewrite fst_zip in Hm; [done|].
        destruct (input_geometry layout input); done.
      + intros f Hf. destruct (eq_ignore_ascii_case (geometry layout) (field_name f)) eqn:Hc; [|done]. destruct Hgi.
        apply list_elem_of_fmap. exists f. split; [|done]. rewrite <- Hgn in Hc |- *.
        by assert (g = f) as -> by (eapply schema_names; eauto). }
  destruct Hboxes as (w & -> & ->). by rewrite (lookup_boxes w _ _ Hk).
Qed.

(** ** A table over time

    The database finds tables without regard to case. *)
Definition same_table (t table : EngineTableRef) : Prop :=
  ref_catalog t = ref_catalog table /\ ref_schema t = ref_schema table /\ eq_ignore_ascii_case (ref_table t) (ref_table table) = true.
Definition names_table (name : ObjectName) (table : EngineTableRef) : Prop :=
  exists t, local_table_ref name = Ok t /\ same_table t table.
Definition schema_of (table : EngineTableRef) (schema : list Field) : Prop :=
  forall t, same_table t table -> get_table_schema t = Ok schema.

(** What a statement does to the rows of a table: UPDATE sets columns of the rows it selects,
    INSERT adds any rows, and a statement of another kind at most removes rows. *)
Inductive runs (table : EngineTableRef) : Statement -> list Row -> list Row -> Prop :=
  | runs_update name a a0 a1 a2 a3 a4 a5 a6 a7 assignments rest alias (selected : Row -> bool) rows :
      names_table name table ->
      runs table (Update (Table name a a0 a1 a2 a3 a4 a5 a6 a7) assignments rest) rows
        (map (fun row => if selected row then apply_assignments alias assignments row else row) rows)
  | runs_insert name rest rows added :
      names_table name table -> runs table (Insert (Some name) rest) rows (rows ++ added)
  | runs_elsewhere s name rows :
      mutation_target s = Some (Some name) -> ~ names_table name table -> runs table s rows rows
  | runs_other s (kept : Row -> bool) rows : mutation_target s = None -> runs table s rows (List.filter kept rows).

(** The parser reads the statement that was printed and the assignments that were generated. *)
Definition parser_reads (sql sql' : str) : Prop :=
  (forall s, statement_text s = sql' -> parse_sql sql' = Some [s]) /\
  (forall t assignments rest a, parse_sql sql = Some [Update t assignments rest] -> a ∈ assignments -> reads_generated (assigned a)).

(** The rows of a table with maintained boxes, from its creation on.  COPY runs the INSERT whose
    columns and values are what the database reads in the two texts [bbox_publish_projection] returns
    for the staged columns; it may leave out the geometry only where its default is NULL. *)
Inductive history (table : EngineTableRef) (schema : list Field) (layout : MaintainedBboxLayout) : list Row -> Prop :=
  | created : history table schema layout []
  | copied rows input target_columns values columns selected alias staged :
      history table schema layout rows ->
      input <> [] -> Forall (fun f => plain_name (field_name f)) input -> (forall f, f ∈ input -> f ∈ schema) ->
      bbox_publish_projection schema input (input_columns input) = Ok (target_columns, values) ->
      read_columns target_columns = Some columns -> read_values values = Some selected ->
      (geometry layout ∉ map field_name input -> defaults (geometry layout) = VNull) ->
      Forall (fun row : Row => map fst row = map field_name input) staged ->
      history table schema layout (rows ++ map (inserted_row schema columns selected alias) staged)
  | mutated rows rows' sql sql' statement :
      history table schema layout rows -> prepare_maintained_bbox_mutation sql = Ok sql' -> parser_reads sql sql' ->
      parse_sql sql' = Some [statement] -> runs table statement rows rows' -> history table schema layout rows'.

(** What [prepare_maintained_bbox_mutation] lets through *)
Lemma prepared_statement table schema layout sql sql' statement :
  schema_of table schema -> inspect_maintained_bbox_layout schema = Ok (Some layout) ->
  prepare_maintained_bbox_mutation sql = Ok sql' -> parser_reads sql sql' -> parse_sql sql' = Some [statement] ->
  match mutation_target statement with
  | None => True
  | Some name => exists n, name = Some n /\ (names_table n table ->
      exists factor assignments assignments' rest, parse_sql sql = Some [Update factor assignments rest] /\
        rewrite_safe_bbox_update layout assignments = Ok assignments' /\ statement = Update factor assignments' rest)
  end.
Proof using.
  intros Hschema Hlayout H [Hprint _] Hsql'. unfold prepare_maintained_bbox_mutation in H.
  apply bind_ok in H as ([|s [|]] & Hp%ok_or_ok & H); try done.
  destruct (mutation_target s) as [name|] eqn:Hm; [|injection H as <-; rewrite Hsql' in Hp; injection Hp as ->; by rewrite Hm].
  apply bind_ok in H as (n & Hn%ok_or_ok & H). subst name. apply bind_ok in H as (t & Ht & H).
  apply bind_ok in H as (schema1 & Hs1 & H). apply bind_ok in H as (layout1 & Hl1 & H). destruct layout1 as [layout1|].
  - destruct s as [| | |f assignments rest|]; try done. apply bind_ok in H as (assignments' & Hr & H). injection H as H.
    rewrite (Hprint _ H) in Hsql'. injection Hsql' as <-. assert (Hm' : mutation_target (Update f assignments' rest) = Some (Some n)) by done.
    rewrite Hm'. exists n. split; [done|]. intros (t' & Ht' & Hsame). rewrite Ht in Ht'. injection Ht' as ->.
    rewrite (Hschema _ Hsame) in Hs1. injection Hs1 as <-. rewrite Hlayout in Hl1. injection Hl1 as <-. by exists f, assignments, assignments', rest.
  - injection H as <-. rewrite Hsql' in Hp. injection Hp as ->. rewrite Hm. exists n. split; [done|]. intros (t' & Ht' & Hsame).
    rewrite Ht in Ht'. injection Ht' as ->. rewrite (Hschema _ Hsame) in Hs1. injection Hs1 as <-. by rewrite Hlayout in Hl1.
Qed.

Lemma mutation_keeps table schema layout sql sql' statement rows rows' :
  schema_ok schema -> schema_of table schema -> inspect_maintained_bbox_layout schema = Ok (Some layout) ->
  prepare_maintained_bbox_mutation sql = Ok sql' -> parser_reads sql sql' -> parse_sql sql' = Some [statement] ->
  runs table statement rows rows' -> Forall (row_ok layout) rows -> Forall (row_ok layout) rows'.
Proof using spatial_not_float.
  intros Hs Hschema Hlayout Hprep Hread Hp Hruns Hok.
  pose proof (prepared_statement _ _ _ _ _ _ Hschema Hlayout Hprep Hread Hp) as Hst. destruct Hruns as
    [name a a0 a1 a2 a3 a4 a5 a6 a7 assignments rest alias sel rows Hn|name rest rows added Hn|s name rows Hm Hne|s kept rows Hm].
  - destruct Hst as (n & [= <-] & Hst). destruct (Hst Hn) as (f & as0 & as' & r & Hsql & Hr & [= <- <- <-]).
    apply Forall_map. eapply Forall_impl; [exact Hok|]. intros row Hrow. destruct (sel row); [|done].
    eapply update_row_ok; [exact Hr| |by eapply layout_apart|done]. intros b Hb. destruct Hread as [_ Hgen]. by eapply Hgen.
  - destruct Hst as (n & [= <-] & Hst). by destruct (Hst Hn) as (f & as0 & as' & r & _ & _ & ?).
  - done.
  - rewrite Forall_forall in Hok |- *. intros row Hrow. apply Hok. apply list_elem_of_In in Hrow.
    apply filter_In in Hrow as [Hrow _]. by apply list_elem_of_In.
Qed.

Lemma history_keeps table schema layout rows :
  schema_ok schema -> schema_of table schema -> inspect_maintained_bbox_layout schema = Ok (Some layout) ->
  history table schema layout rows -> Forall (row_ok layout) rows.
Proof using spatial_not_float.
  intros Hs Hschema Hlayout.
  induction 1 as [|rows input tc vs columns selected alias staged _ IH Hne Hp Hin Hpub Hc Hv Hdef Hst|]; [constructor| |by eapply mutation_keeps].
  destruct (projection_read _ _ _ _ _ Hlayout Hpub Hne Hp) as [Hc' Hv']. rewrite Hc' in Hc. rewrite Hv' in Hv. injection Hc as <-. injection Hv as <-.
  apply Forall_app. split; [done|]. apply Forall_map. eapply Forall_impl; [exact Hst|]. intros row Hrow. cbn.
  rewrite inserted_published by done. by eapply published_ok.
Qed.
End maintenance.


(** ** Example

    Points with two bytes of coordinates, the table [places (id, geom, _qg_...)], and a parser
    of the texts that are used below. *)
Module Example.

Lemma points_overlap (g h : Z * Z) : bool_decide (g = h) = true ->
  exists ax ay aX aY bx by' bX bY, Some (g.1, g.2, g.1, g.2) = Some (ax, ay, aX, aY) /\ Some (h.1, h.2, h.1, h.2) = Some (bx, by', bX, bY) /\
    (ax <=? bX) = true /\ (bx <=? aX) = true /\ (ay <=? bY) = true /\ (by' <=? aY) = true.
Proof.
  destruct g as [x y]. intros <-%bool_decide_eq_true. exists x, y, x, y, x, y, x, y. rewrite !Z.leb_refl. done.
Qed.
#[export] Instance spatial : Spatial := {
  Coord := Z; coord_le := Z.leb; Geom := Z * Z;
  from_wkb b := match b with [x; y] => Some (bz x, bz y) | _ => None end;
  extent g := Some (g.1, g.2, g.1, g.2);
  intersects g h := bool_decide (g = h);
  intersects_overlap := points_overlap }.
(** [$1] is the text of a point. *)
#[export] Instance meaning : Meaning := {
  truth_of _ := None;
  other_value v := match v with Placeholder _ => VBlob [x03; x04] | _ => VText [] end;
  other_unary _ v := v; cast _ v := v; other_binary _ _ _ := VNull; other_function _ _ := VNull;
  other_column _ _ := VNull; other_expr _ _ := VNull }.

Definition name (s : string) : Ident := mkIdent (lit s) None.
Definition geom : Field := mkField (lit "geom") Binary true (Some (lit "geometry")).
Definition id_field : Field := mkField (lit "id") (OtherType (lit "BIGINT")) true None.
Definition schema : list Field := [id_field; geom] ++ map (fun n => mkField n Float64 true None) MAINTAINED_BBOX_COLUMNS.
Definition places : EngineTableRef := local_table (lit "places").
Definition factor : TableFactor := Table [PartIdentifier (name "places")] None false false false false false false false false.
Definition bound : Expr := ValueExpr (Placeholder (lit "$1")).
Definition set_geom : Assignment := mkAssignment (ColumnName [PartIdentifier (name "geom")]) bound.

Definition update_text : str := lit "UPDATE places SET geom = $1 WHERE id = 1".
Definition update : Statement := Update factor [set_geom] (lit "WHERE id = 1").
Definition updated : Statement := Update factor (set_geom :: bbox_assignments bound) (lit "WHERE id = 1").
Definition probe : Expr := FunctionCall (fn "ST_GeomFromWKB") [Some bound].
Definition at_point : Expr :=
  FunctionCall (fn "ST_Intersects") [Some (FunctionCall (fn "ST_GeomFromWKB") [Some (Identifier (name "geom"))]); Some probe].
Definition select_text : str := lit "SELECT * FROM places WHERE ST_Intersects(ST_GeomFromWKB(geom), ST_GeomFromWKB($1))".
Definition query (e : Expr) : Statement :=
  QueryStatement (mkQuery None (SetSelect (mkSelect [mkTableWithJoins factor []] [] None (Some e) (lit "*"))) []).
Definition filtered : Statement := query (BinaryOp (candidate (name "places") probe) And at_point).

(** The text of the only expressions that are printed *)
Definition text_of (e : Expr) : str := match e with FunctionCall _ _ => lit "ST_GeomFromWKB($1)" | _ => lit "$1" end.
Definition candidate_text : str :=
  lit "SELECT 1 WHERE places._qg_maxx >= ST_XMin(ST_Extent(ST_GeomFromWKB($1))) AND places._qg_minx <= ST_XMax(ST_Extent(ST_GeomFromWKB($1)))" ++
  lit " AND places._qg_maxy >= ST_YMin(ST_Extent(ST_GeomFromWKB($1))) AND places._qg_miny <= ST_YMax(ST_Extent(ST_GeomFromWKB($1)))".
Definition generated_text : str :=
  lit "UPDATE qg SET " ++
  join (lit ", ") (zip_with (fun column accessor => quote_identifier column ++ lit " = " ++ accessor_value (lit "$1") accessor)
                     MAINTAINED_BBOX_COLUMNS accessors).

#[export] Existing Instance Reader.published_text.

(** Syntax is compared to print it. *)
#[export] Instance value_eq_dec : EqDecision Value.
Proof. solve_decision. Defined.
#[export] Instance unary_eq_dec : EqDecision UnaryOperator.
Proof. solve_decision. Defined.
#[export] Instance binary_eq_dec : EqDecision BinaryOperator.
Proof. solve_decision. Defined.
#[export] Instance expr_eq_dec : EqDecision Expr.
Proof.
  refine (fix go (x y : Expr) : Decision (x = y) :=
    let args := @list_eq_dec _ (@option_eq_dec Expr go) in
    match x, y with
    | Identifier a, Identifier b => cast_if (decide (a = b))
    | CompoundIdentifier a, CompoundIdentifier b => cast_if (decide (a = b))
    | ValueExpr a, ValueExpr b => cast_if (decide (a = b))
    | UnaryOp o a, UnaryOp o' b => cast_if_and (decide (o = o')) (go a b)
    | Nested a, Nested b | IsNull a, IsNull b => cast_if (go a b)
    | Cast t a, Cast t' b => cast_if_and (decide (t = t')) (go a b)
    | BinaryOp a o b, BinaryOp a' o' b' => cast_if_and3 (go a a') (decide (o = o')) (go b b')
    | Case a b c, Case a' b' c' => cast_if_and3 (go a a') (go b b') (go c c')
    | FunctionCall f a, FunctionCall f' a' => cast_if_and (decide (f = f')) (args a a')
    | OtherExpr t, OtherExpr t' => cast_if (decide (t = t'))
    | _, _ => right _
    end); clear go args; congruence.
Defined.
#[export] Instance alias_eq_dec : EqDecision TableAlias.
Proof. solve_decision. Defined.
#[export] Instance factor_eq_dec : EqDecision TableFactor.
Proof. solve_decision. Defined.
#[export] Instance joins_eq_dec : EqDecision TableWithJoins.
Proof. solve_decision. Defined.
#[export] Instance select_eq_dec : EqDecision Select.
Proof. solve_decision. Defined.
#[export] Instance set_eq_dec : EqDecision SetExpr.
Proof. solve_decision. Defined.
#[export] Instance query_eq_dec : EqDecision Query.
Proof. solve_decision. Defined.
#[export] Instance target_eq_dec : EqDecision AssignmentTarget.
Proof. solve_decision. Defined.
#[export] Instance assignment_eq_dec : EqDecision Assignment.
Proof. solve_decision. Defined.
#[export] Instance statement_eq_dec : EqDecision Statement.
Proof. solve_decision. Defined.

#[export] Instance sql_text : SqlText := {
  classify_spatial_field f := if bool_decide (metadata f = Some (lit "geometry") /\ field_type f = Binary) then Some Geometry else None;
  is_finite_f64 _ := true;
  parse_sql sql :=
    if bool_decide (sql = update_text) then Some [update]
    else if bool_decide (sql = generated_text) then Some [Update (OtherFactor (lit "qg")) (bbox_assignments bound) []]
    else if bool_decide (sql = lit "updated") then Some [updated]
    else if bool_decide (sql = select_text) then Some [query at_point]
    else if bool_decide (sql = candidate_text) then Some [candidate_statement (name "places") probe]
    else if bool_decide (sql = lit "filtered") then Some [filtered]
    else None;
  expr_text := text_of;
  ident_text i := ident_value i;
  statement_text s := if bool_decide (s = updated) then lit "updated" else if bool_decide (s = filtered) then lit "filtered" else [];
  get_table_schema t := if eq_ignore_ascii_case (ref_table t) (lit "places") then Ok schema else Err (new_error Internal) }.

Definition layout : MaintainedBboxLayout := mkLayout (lit "geom").
Definition no_tuples (_ : Expr) (_ : Row) : list val := [].
Definition no_defaults (_ : str) : val := VNull.
Definition staged : Row := [(lit "id", VText (lit "1")); (lit "geom", VBlob [x01; x02])].
Definition published_columns : list str := [lit "id"; lit "geom"] ++ MAINTAINED_BBOX_COLUMNS.
Definition published_values : list Expr :=
  [column_ref (lit "id"); column_ref (lit "geom")] ++ map (accessor_expr (column_ref (lit "geom"))) accessors.
Definition copied_rows : list Row := map (inserted_row no_defaults schema published_columns published_values (name "stage")) [staged].
Definition updated_rows : list Row :=
  map (fun row => if true then apply_assignments no_tuples (name "places") (set_geom :: bbox_assignments bound) row else row) copied_rows.

Lemma layout_found : inspect_maintained_bbox_layout schema = Ok (Some layout).
Proof. vm_compute. reflexivity. Qed.
Lemma schema_distinct : schema_ok schema.
Proof. unfold schema_ok. apply (bool_decide_unpack _). vm_compute. exact I. Qed.
Lemma geometry_binary f : is_geometry f = true -> field_type f <> Float64.
Proof.
  unfold is_geometry. intros H%bool_decide_eq_true. cbn in H. case_bool_decide as Hf; [|done]. by destruct Hf as [_ ->].
Qed.
Lemma places_schema : schema_of places schema.
Proof. intros t (_ & _ & H). cbn. unfold places, local_table in H. cbn in H. by rewrite H. Qed.
Lemma prints_updated s : statement_text s = lit "updated" -> s = updated.
Proof. cbn. case_bool_decide; [done|]. by case_bool_decide. Qed.
Lemma prints_filtered s : statement_text s = lit "filtered" -> s = filtered.
Proof. cbn. case_bool_decide; [done|]. by case_bool_decide. Qed.
Lemma update_prepared : prepare_maintained_bbox_mutation update_text = Ok (lit "updated").
Proof. vm_compute. reflexivity. Qed.
Lemma reads_updated : parse_sql (lit "updated") = Some [updated].
Proof. vm_compute. reflexivity. Qed.
Lemma reads_update : parse_sql update_text = Some [update].
Proof. vm_compute. reflexivity. Qed.
Lemma reads_boxes : parse_sql (bbox_update_sql bound) = Some [Update (OtherFactor (lit "qg")) (bbox_assignments bound) []].
Proof. vm_compute. reflexivity. Qed.
Lemma update_read : parser_reads update_text (lit "updated").
Proof.
  split; [intros s ->%prints_updated; apply reads_updated|]. intros t assignments rest a H Ha. rewrite reads_update in H.
  injection H as <- <- <-. apply list_elem_of_singleton in Ha as ->. eexists _, _. apply reads_boxes.
Qed.
Lemma copied_history : history no_tuples no_defaults places schema layout copied_rows.
Proof.
  apply (copied no_tuples no_defaults places schema layout [] [id_field; geom]
    (input_columns [id_field; geom] ++ lit ", " ++ name_list MAINTAINED_BBOX_COLUMNS)
    (input_columns [id_field; geom] ++ lit ", " ++ bbox_accessor_values (quote_identifier (lit "geom")))
    published_columns published_values (name "stage") [staged]).
  - constructor.
  - done.
  - apply (Forall_map field_name plain_name), plain_names. vm_compute. reflexivity.
  - intros f H. unfold schema. apply elem_of_app. by left.
  - vm_compute. reflexivity.
  - vm_compute. reflexivity.
  - vm_compute. reflexivity.
  - done.
  - by repeat constructor.
Qed.
Lemma updated_history : history no_tuples no_defaults places schema layout updated_rows.
Proof.
  eapply (mutated no_tuples no_defaults places schema layout _ _ _ _ updated copied_history update_prepared update_read reads_updated).
  apply (runs_update no_tuples places _ None false false false false false false false false _ _ (name "places") (fun _ => true)).
  exists places. by vm_compute.
Qed.


(** The updated row is at the point that is asked for. *)
Definition rows_of (t : EngineTableRef) : list Row := if eq_ignore_ascii_case (ref_table t) (lit "places") then updated_rows else [].
Lemma rows_kept t s l : get_table_schema t = Ok s -> inspect_maintained_bbox_layout s = Ok (Some l) -> Forall (row_ok l) (rows_of t).
Proof.
  unfold rows_of. cbn [get_table_schema sql_text]. destruct (eq_ignore_ascii_case _ _); [|done]. intros H Hl.
  assert (s = schema) as -> by congruence. rewrite layout_found in Hl. assert (l = layout) as -> by congruence.
  eapply history_keeps; [exact geometry_binary|exact schema_distinct|exact places_schema|exact layout_found|exact updated_history].
Qed.
Lemma select_prepared : prepare_maintained_bbox_query select_text = Ok (lit "filtered").
Proof. vm_compute. reflexivity. Qed.
Lemma reads_select : parse_sql select_text = Some [query at_point].
Proof. vm_compute. reflexivity. Qed.
Lemma reads_filtered : parse_sql (lit "filtered") = Some [filtered].
Proof. vm_compute. reflexivity. Qed.
Lemma reads_candidate t : bbox_query_target (query at_point) = Some t ->
  parse_sql (candidate_sql (qualifier t) (BboxLayout.probe t)) = Some [candidate_statement (qualifier t) (BboxLayout.probe t)].
Proof.
  assert (H : bbox_query_target (query at_point) = Some (mkBboxQueryTarget places (name "places") (name "geom") probe)) by (vm_compute; reflexivity).
  rewrite H. intros [= <-]. vm_compute. reflexivity.
Qed.
Lemma select_finds : answer (fun _ _ rows => rows) rows_of (query at_point) = Some updated_rows.
Proof. vm_compute. reflexivity. Qed.

End Example.
