(* ===== verification/EdgeProtocol.v ===== *)
(** * The authenticated edge protocol ([quackgis-edge/src/lib.rs])

    Access leases, lease requests, edge authentication and stream preludes, with
    their validators.  The signature scheme of [iroh] is the interface
    [Signatures]; [serde_json] is the interface [ControlCodec].  Times are [u64]
    seconds. *)

From S2P Require Import Prelude.

Definition PROTOCOL_VERSION : Z := 1.
Definition MAX_CONTROL_MESSAGE_BYTES : Z := 16384.
Definition MAX_LEASE_TTL_SECONDS : Z := 300.
Definition MAX_CLOCK_SKEW_SECONDS : Z := 30.
Definition MAX_LOGIN_ROLE_BYTES : Z := 63.
Definition MAX_BOOTSTRAP_REGISTRATIONS : nat := 64.

Definition LEASE_DOMAIN : list byte := lit "quackgis/access-lease/1" ++ [x00].
Definition LEASE_REQUEST_DOMAIN : list byte := lit "quackgis/lease-request/1" ++ [x00].
Definition EDGE_PROOF_DOMAIN : list byte := lit "quackgis/edge-proof/1" ++ [x00].

Inductive ProtocolError :=
  | UnsupportedVersion | InvalidLoginRole | InvalidLeaseTime | LeaseTooLong
  | LeaseNotYetValid | LeaseExpired | WrongWorker | WrongCredential
  | WrongTransportEndpoint | InvalidLeaseSignature | InvalidCredentialProof
  | WrongChallenge | InvalidApplicationProtocols | ProtocolNotPermitted
  | MissingUncompressedCodec | CompressionNotOffered | EmptyRelayList | DuplicateRelay
  | InvalidRelayUrl (raw : str) | ControlMessageTooLarge | InvalidControlMessage.

Inductive ApplicationProtocol := Pgwire | Cancellation | Http.
Inductive CompressionCodec := CodecNone | Lz4Block.
Inductive CompressionPolicy := Off | Auto.

#[export] Instance application_protocol_eq_dec : EqDecision ApplicationProtocol.
Proof. solve_decision. Defined.
#[export] Instance compression_codec_eq_dec : EqDecision CompressionCodec.
Proof. solve_decision. Defined.

(** [iroh]'s keys and signatures: a public key identifies an endpoint.  The one law
    the protocol relies on for its own messages: what a key signs, it verifies. *)
Class Signatures := {
  PublicKey : Type;
  SecretKey : Type;
  Signature : Type;
  public_key_eq_dec :: EqDecision PublicKey;
  public_key_countable :: Countable PublicKey;
  public : SecretKey -> PublicKey;
  sign : SecretKey -> list byte -> Signature;
  verify : PublicKey -> list byte -> Signature -> bool;
  verify_sign : forall sk m, verify (public sk) m (sign sk m) = true }.

Section protocol.
Context `{Signatures}.

Abbreviation EndpointId := PublicKey.
(** [EndpointAddr]: the identity and the addresses it is reachable at. *)
Record EndpointAddr := mkEndpointAddr { addr_id : EndpointId; addr_hints : str }.

Record AccessLeaseClaims := mkClaims {
  claims_version : Z;
  credential : PublicKey;
  login_role : str;
  worker : EndpointAddr;
  assignment_generation : Z;
  security_epoch : Z;
  configuration_epoch : Z;
  issued_at : Z;
  expires_at : Z;
  protocols : list ApplicationProtocol }.

Record SignedAccessLease := mkSignedLease { claims : AccessLeaseClaims; lease_signature : Signature }.

Record LeaseRequest := mkLeaseRequest {
  request_version : Z;
  request_credential : PublicKey;
  request_transport : EndpointId;
  request_nonce : list byte;
  request_proof : Signature }.

Record EdgeChallenge := mkEdgeChallenge { challenge_version : Z; challenge_nonce : list byte }.
#[export] Instance edge_challenge_eq_dec : EqDecision EdgeChallenge.
Proof. solve_decision. Defined.

Record EdgeAuthenticate := mkEdgeAuthenticate {
  auth_version : Z;
  auth_lease : SignedAccessLease;
  auth_transport : EndpointId;
  auth_challenge : EdgeChallenge;
  compression_offers : list CompressionCodec;
  auth_proof : Signature }.

Record EdgeAuthenticated := mkEdgeAuthenticated {
  authenticated_version : Z;
  authenticated_compression : CompressionCodec }.

Record StreamPrelude := mkStreamPrelude {
  prelude_version : Z;
  prelude_protocol : ApplicationProtocol;
  prelude_compression : CompressionCodec }.

(** [LeaseRequestProof] and [EdgeProof]: what the signatures of the requests cover. *)
Record LeaseRequestProof := mkLeaseRequestProof {
  lrp_version : Z;
  lrp_credential : PublicKey;
  lrp_transport : EndpointId;
  lrp_bootstrap : EndpointId;
  lrp_nonce : list byte }.
Record EdgeProof := mkEdgeProof {
  ep_version : Z;
  ep_lease : SignedAccessLease;
  ep_transport : EndpointId;
  ep_challenge : EdgeChallenge;
  ep_offers : list CompressionCodec }.

(** [serde_json::to_vec] of the three signed messages. *)
Class ControlCodec := {
  json_claims : AccessLeaseClaims -> option (list byte);
  json_request_proof : LeaseRequestProof -> option (list byte);
  json_edge_proof : EdgeProof -> option (list byte) }.
Context `{ControlCodec}.

(** ** Validators *)

(** [validate_login_role] *)
Definition validate_login_role (role : str) : result ProtocolError unit :=
  ensure (negb (bool_decide (role = []) || (MAX_LOGIN_ROLE_BYTES <? len role)
                || existsb (fun c => (c =? 0) || is_control c) (chars role))) InvalidLoginRole.

(** [validate_protocols] *)
Definition unique_count `{EqDecision A} (l : list A) : nat := length (remove_dups l).
Definition validate_protocols (ps : list ApplicationProtocol) : result ProtocolError unit :=
  ensure (negb (bool_decide (ps = []) || (3 <? length ps)%nat
                || negb (Nat.eqb (unique_count ps) (length ps)))) InvalidApplicationProtocols.

(** [validate_compression_offers] *)
Definition validate_compression_offers (offers : list CompressionCodec) : result ProtocolError unit :=
  ensure (negb (negb (bool_decide (CodecNone ∈ offers))
                || negb (Nat.eqb (length offers) (unique_count offers))
                || (2 <? length offers)%nat)) MissingUncompressedCodec.

(** [CompressionPolicy::offers] and [select] *)
Definition offers (self : CompressionPolicy) : list CompressionCodec :=
  match self with Off => [CodecNone] | Auto => [CodecNone; Lz4Block] end.
Definition select (self : CompressionPolicy) (os : list CompressionCodec)
    : result ProtocolError CompressionCodec :=
  _ ← validate_compression_offers os;
  Ok (match self with
      | Auto => if bool_decide (Lz4Block ∈ os) then Lz4Block else CodecNone
      | Off => CodecNone
      end).

(** ** Leases *)

(** [AccessLeaseClaims::permits], [validate_shape], [validate_at], [new] *)
Definition permits (self : AccessLeaseClaims) (p : ApplicationProtocol) : bool :=
  bool_decide (p ∈ protocols self).
Definition validate_shape (self : AccessLeaseClaims) : result ProtocolError unit :=
  _ ← ensure (claims_version self =? PROTOCOL_VERSION) UnsupportedVersion;
  _ ← validate_login_role (login_role self);
  _ ← ensure (negb (expires_at self <=? issued_at self)) InvalidLeaseTime;
  _ ← ensure (negb (MAX_LEASE_TTL_SECONDS <? saturating_sub (expires_at self) (issued_at self)))
        LeaseTooLong;
  validate_protocols (protocols self).
Definition validate_at (self : AccessLeaseClaims) (now : Z) : result ProtocolError unit :=
  _ ← validate_shape self;
  _ ← ensure (negb (saturating_add now MAX_CLOCK_SKEW_SECONDS <? issued_at self)) LeaseNotYetValid;
  ensure (negb (expires_at self <=? now)) LeaseExpired.
Definition new_claims (cred : PublicKey) (role : str) (w : EndpointAddr)
    (generation issued expires : Z) (ps : list ApplicationProtocol)
    : result ProtocolError AccessLeaseClaims :=
  let c := mkClaims PROTOCOL_VERSION cred role w generation 0 0 issued expires ps in
  _ ← validate_shape c;
  Ok c.

(** [encode_control] and [domain_message] *)
Definition encode_control (json : option (list byte)) : result ProtocolError (list byte) :=
  encoded ← ok_or json InvalidControlMessage;
  _ ← ensure (negb (MAX_CONTROL_MESSAGE_BYTES <? len encoded)) ControlMessageTooLarge;
  Ok encoded.
Definition domain_message (domain : list byte) (json : option (list byte))
    : result ProtocolError (list byte) :=
  encoded ← encode_control json; Ok (domain ++ encoded).

(** [decode_control] *)
Definition decode_control {T} (from_slice : list byte -> option T) (encoded : list byte)
    : result ProtocolError T :=
  _ ← ensure (negb (MAX_CONTROL_MESSAGE_BYTES <? len encoded)) ControlMessageTooLarge;
  ok_or (from_slice encoded) InvalidControlMessage.

(** [lease_signing_bytes], [lease_request_signing_bytes], [edge_proof_signing_bytes] *)
Definition lease_signing_bytes (c : AccessLeaseClaims) : result ProtocolError (list byte) :=
  domain_message LEASE_DOMAIN (json_claims c).
Definition lease_request_signing_bytes (cred : PublicKey) (transport bootstrap : EndpointId)
    (nonce : list byte) : result ProtocolError (list byte) :=
  domain_message LEASE_REQUEST_DOMAIN
    (json_request_proof (mkLeaseRequestProof PROTOCOL_VERSION cred transport bootstrap nonce)).
Definition edge_proof_of (auth : EdgeAuthenticate) : EdgeProof :=
  mkEdgeProof (auth_version auth) (auth_lease auth) (auth_transport auth) (auth_challenge auth)
    (compression_offers auth).
Definition edge_proof_signing_bytes (auth : EdgeAuthenticate) : result ProtocolError (list byte) :=
  domain_message EDGE_PROOF_DOMAIN (json_edge_proof (edge_proof_of auth)).

(** [SignedAccessLease::issue] and [verify] *)
Definition issue_lease (c : AccessLeaseClaims) (bootstrap_secret : SecretKey)
    : result ProtocolError SignedAccessLease :=
  _ ← validate_shape c;
  bytes ← lease_signing_bytes c;
  Ok (mkSignedLease c (sign bootstrap_secret bytes)).
Definition verify_lease (self : SignedAccessLease) (bootstrap_public : PublicKey) (now : Z)
    (expected_worker : EndpointId) (expected_credential : PublicKey) : result ProtocolError unit :=
  bytes ← lease_signing_bytes (claims self);
  _ ← ensure (verify bootstrap_public bytes (lease_signature self)) InvalidLeaseSignature;
  _ ← validate_at (claims self) now;
  _ ← ensure (bool_decide (addr_id (worker (claims self)) = expected_worker)) WrongWorker;
  ensure (bool_decide (credential (claims self) = expected_credential)) WrongCredential.

(** [LeaseRequest::sign] and [verify] *)
Definition sign_request (credential_secret : SecretKey) (transport bootstrap : EndpointId)
    (nonce : list byte) : result ProtocolError LeaseRequest :=
  let cred := public credential_secret in
  bytes ← lease_request_signing_bytes cred transport bootstrap nonce;
  Ok (mkLeaseRequest PROTOCOL_VERSION cred transport nonce (sign credential_secret bytes)).
Definition verify_request (self : LeaseRequest) (bootstrap remote_transport : EndpointId)
    : result ProtocolError unit :=
  _ ← ensure (request_version self =? PROTOCOL_VERSION) UnsupportedVersion;
  _ ← ensure (bool_decide (request_transport self = remote_transport)) WrongTransportEndpoint;
  bytes ← lease_request_signing_bytes (request_credential self) (request_transport self) bootstrap
            (request_nonce self);
  ensure (verify (request_credential self) bytes (request_proof self)) InvalidCredentialProof.

(** [EdgeAuthenticate::sign] and [verify]; the placeholder signature is replaced. *)
Definition sign_authenticate (lease : SignedAccessLease) (credential_secret : SecretKey)
    (transport : EndpointId) (challenge : EdgeChallenge) (os : list CompressionCodec)
    : result ProtocolError EdgeAuthenticate :=
  _ ← validate_compression_offers os;
  _ ← ensure (bool_decide (credential (claims lease) = public credential_secret)) WrongCredential;
  let auth := mkEdgeAuthenticate PROTOCOL_VERSION lease transport challenge os
                (sign credential_secret (lit "placeholder")) in
  bytes ← edge_proof_signing_bytes auth;
  Ok (mkEdgeAuthenticate PROTOCOL_VERSION lease transport challenge os (sign credential_secret bytes)).
Definition verify_authenticate (self : EdgeAuthenticate) (bootstrap_public : PublicKey) (now : Z)
    (worker_id remote_transport : EndpointId) (expected : EdgeChallenge)
    : result ProtocolError unit :=
  _ ← ensure ((auth_version self =? PROTOCOL_VERSION)
              && (challenge_version (auth_challenge self) =? PROTOCOL_VERSION)) UnsupportedVersion;
  _ ← ensure (bool_decide (auth_challenge self = expected)) WrongChallenge;
  _ ← ensure (bool_decide (auth_transport self = remote_transport)) WrongTransportEndpoint;
  _ ← validate_compression_offers (compression_offers self);
  _ ← verify_lease (auth_lease self) bootstrap_public now worker_id
        (credential (claims (auth_lease self)));
  bytes ← edge_proof_signing_bytes self;
  ensure (verify (credential (claims (auth_lease self))) bytes (auth_proof self))
    InvalidCredentialProof.

(** [EdgeAuthenticated::select] and [StreamPrelude::verify] *)
Definition select_authenticated (codec : CompressionCodec) (os : list CompressionCodec)
    : result ProtocolError EdgeAuthenticated :=
  _ ← validate_compression_offers os;
  _ ← ensure (bool_decide (codec ∈ os)) CompressionNotOffered;
  Ok (mkEdgeAuthenticated PROTOCOL_VERSION codec).
Definition verify_prelude (self : StreamPrelude) (lease : AccessLeaseClaims)
    (negotiated : CompressionCodec) : result ProtocolError unit :=
  _ ← ensure (prelude_version self =? PROTOCOL_VERSION) UnsupportedVersion;
  _ ← ensure (permits lease (prelude_protocol self)) ProtocolNotPermitted;
  let expected := match prelude_protocol self with
                  | Cancellation => CodecNone
                  | _ => negotiated
                  end in
  ensure (bool_decide (prelude_compression self = expected)) CompressionNotOffered.

(** ** Relays *)

(** [RelayPolicy::from_config]; [parse_relay] is [str::parse::<RelayUrl>]. *)
Inductive RelayPolicy (U : Type) := Disabled | PublicDefault | Custom (relays : list U).
Arguments Disabled {U}. Arguments PublicDefault {U}. Arguments Custom {U}.
Definition relay_policy {U} `{EqDecision U} (parse_relay : str -> option U)
    (configured : option (list str)) : result ProtocolError (RelayPolicy U) :=
  match configured with
  | None => Ok PublicDefault
  | Some configured =>
      _ ← ensure (negb (bool_decide (configured = []))) EmptyRelayList;
      relays ← try_fold (fun relays raw =>
        relay ← ok_or (parse_relay raw) (InvalidRelayUrl raw);
        _ ← ensure (negb (bool_decide (relay ∈ relays))) DuplicateRelay;
        Ok (relays ++ [relay])) configured [];
      Ok (Custom relays)
  end.

(** ** Specification *)

(** A lease as the worker may rely on it at [now]. *)
Record lease_valid (c : AccessLeaseClaims) (now : Z) : Prop := {
  lease_version : claims_version c = PROTOCOL_VERSION;
  lease_role : login_role c <> [] /\ len (login_role c) <= MAX_LOGIN_ROLE_BYTES;
  lease_current : now < expires_at c /\ issued_at c <= now + MAX_CLOCK_SKEW_SECONDS;
  lease_short : issued_at c < expires_at c <= issued_at c + MAX_LEASE_TTL_SECONDS;
  lease_protocols : protocols c <> [] /\ NoDup (protocols c) }.

(** ** Lemmas *)

Lemma unique_count_nodup `{EqDecision A} (l : list A) : unique_count l = length l <-> NoDup l.
Proof using.
  unfold unique_count. induction l as [|x l IH]; [by split; [constructor|]|].
  rewrite NoDup_cons. simpl. case_decide as Hx; simpl.
  - split; [|by intros []]. intros Hl. assert (length (remove_dups l) <= length l)%nat; [|lia].
    clear. induction l as [|y l IH]; simpl; [lia|]. case_decide; simpl; lia.
  - rewrite <- IH. split; [by intros [= ?] | intros [_ ->]; done].
Qed.

Lemma validate_protocols_ok ps u : validate_protocols ps = Ok u -> ps <> [] /\ NoDup ps.
Proof using.
  unfold validate_protocols. intros Hv. inv_ok. bool_prop. split; [done|].
  apply unique_count_nodup. by apply Nat.eqb_eq.
Qed.

Lemma validate_shape_ok c u :
  validate_shape c = Ok u ->
  claims_version c = PROTOCOL_VERSION /\
  (login_role c <> [] /\ len (login_role c) <= MAX_LOGIN_ROLE_BYTES) /\
  issued_at c < expires_at c <= issued_at c + MAX_LEASE_TTL_SECONDS /\
  (protocols c <> [] /\ NoDup (protocols c)).
Proof using.
  unfold validate_shape, validate_login_role. intros Hv. inv_ok. bool_prop.
  apply validate_protocols_ok in Hv as [? ?]. unfold saturating_sub in *. split_and!; try done; lia.
Qed.

Lemma validate_at_ok c now u :
  0 <= now <= u64_max - MAX_CLOCK_SKEW_SECONDS -> validate_at c now = Ok u -> lease_valid c now.
Proof using.
  intros Hnow Hv. unfold validate_at in Hv. apply bind_ok in Hv as ([] & Hs%validate_shape_ok & Hv).
  destruct Hs as (? & ? & ? & ?). inv_ok. bool_prop. unfold saturating_add in *.
  split; try done. unfold MAX_CLOCK_SKEW_SECONDS in *. lia.
Qed.

Lemma validate_shape_at c now :
  issued_at c = now -> 0 <= now -> expires_at c <= u64_max ->
  validate_shape c = Ok tt -> validate_at c now = Ok tt.
Proof using.
  intros Hi Hnow Hmax Hs. unfold validate_at. rewrite Hs. simpl.
  apply validate_shape_ok in Hs as (_ & _ & Ht & _). unfold saturating_add, MAX_CLOCK_SKEW_SECONDS.
  rewrite (proj2 (Z.ltb_ge _ _)) by lia. simpl.
  by rewrite (proj2 (Z.leb_gt _ _)) by lia.
Qed.

Lemma issue_lease_ok c sk lease :
  issue_lease c sk = Ok lease ->
  claims lease = c /\ validate_shape c = Ok tt /\
  exists bytes, lease_signing_bytes c = Ok bytes /\ lease_signature lease = sign sk bytes.
Proof using.
  unfold issue_lease. intros Hi. apply bind_ok in Hi as ([] & Hs & Hi).
  apply bind_ok in Hi as (bytes & Hb & [= <-]). eauto.
Qed.

(** A lease issued by the bootstrap key verifies wherever its claims are current. *)
Lemma issued_lease_verifies c sk lease now :
  issue_lease c sk = Ok lease -> validate_at c now = Ok tt ->
  verify_lease lease (public sk) now (addr_id (worker c)) (credential c) = Ok tt.
Proof using.
  intros (Hc & _ & bytes & Hb & Hsig)%issue_lease_ok Hat. unfold verify_lease.
  rewrite Hc, Hb. simpl. rewrite Hsig, verify_sign. simpl. rewrite Hat. simpl.
  by rewrite !bool_decide_eq_true_2.
Qed.

Lemma verify_lease_ok lease bp now w cred :
  verify_lease lease bp now w cred = Ok tt <->
  (exists bytes, lease_signing_bytes (claims lease) = Ok bytes /\
     verify bp bytes (lease_signature lease) = true) /\
  validate_at (claims lease) now = Ok tt /\ addr_id (worker (claims lease)) = w /\
  credential (claims lease) = cred.
Proof using.
  unfold verify_lease. split.
  - intros Hv. apply bind_ok in Hv as (bytes & Hb & Hv). apply bind_ok in Hv as ([] & Hs%ensure_ok & Hv).
    apply bind_ok in Hv as ([] & Ha & Hv). inv_ok. bool_prop. eauto 10.
  - intros ((bytes & -> & Hs) & Ha & -> & ->). simpl. rewrite Hs. simpl. rewrite Ha. simpl.
    by rewrite !bool_decide_eq_true_2.
Qed.

Lemma domain_message_prefix d j m : domain_message d j = Ok m -> d `prefix_of` m.
Proof using. unfold domain_message. intros Hm. inv_ok. by eexists. Qed.

(** Two different domains of which neither extends the other. *)
Lemma domains_disjoint d1 d2 j1 j2 m :
  ~ d1 `prefix_of` d2 -> ~ d2 `prefix_of` d1 ->
  domain_message d1 j1 = Ok m -> domain_message d2 j2 = Ok m -> False.
Proof using.
  intros Hn1 Hn2 H1%domain_message_prefix H2%domain_message_prefix.
  by destruct (prefix_weak_total _ _ _ H1 H2).
Qed.
End protocol.

(** ** Properties *)

(** A toy signature scheme and codec for the witnesses: a signature is the signer's
    key and the message. *)
Definition sample_verify (pk : nat) (m : list byte) (s : nat * list byte) : bool :=
  bool_decide (s = (pk, m)).
Lemma sample_verify_sign (sk : nat) m : sample_verify sk m (sk, m) = true.
Proof. by apply bool_decide_eq_true. Qed.
Definition sample_signatures : Signatures := {|
  PublicKey := nat; SecretKey := nat; Signature := nat * list byte;
  public_key_eq_dec := _; public_key_countable := _;
  public sk := sk; sign sk m := (sk, m);
  verify := sample_verify; verify_sign := sample_verify_sign |}.
Definition sample_codec : @ControlCodec sample_signatures := {|
  json_claims c := Some (login_role c);
  json_request_proof r := Some (lrp_nonce r);
  json_edge_proof p := Some (challenge_nonce (ep_challenge p)) |}.

(** C25: a worker accepts an edge authentication only if it answers the worker's own
    challenge over the connection's transport identity, carries a lease signed by the
    bootstrap key for this worker and current at [now], and is signed by the credential
    the lease names, over the lease, transport, challenge and compression offers. *)
Theorem edge_authentication_sound `{Signatures} `{!ControlCodec}
    (auth : EdgeAuthenticate) bootstrap now w remote expected :
  0 <= now <= u64_max - MAX_CLOCK_SKEW_SECONDS ->
  verify_authenticate auth bootstrap now w remote expected = Ok tt ->
  let c := claims (auth_lease auth) in
  auth_challenge auth = expected /\ auth_transport auth = remote /\
  lease_valid c now /\ addr_id (worker c) = w /\ CodecNone ∈ compression_offers auth /\
  (exists lb, lease_signing_bytes c = Ok lb /\
     verify bootstrap lb (lease_signature (auth_lease auth)) = true) /\
  (exists pb, edge_proof_signing_bytes auth = Ok pb /\
     verify (credential c) pb (auth_proof auth) = true).
Proof.
  intros Hnow Hv c. unfold verify_authenticate in Hv.
  apply bind_ok in Hv as ([] & _ & Hv). apply bind_ok in Hv as ([] & Hch%ensure_ok & Hv).
  apply bind_ok in Hv as ([] & Htr%ensure_ok & Hv).
  apply bind_ok in Hv as ([] & Hof & Hv). apply bind_ok in Hv as ([] & Hl & Hv).
  apply bind_ok in Hv as (pb & Hpb & Hp%ensure_ok).
  apply verify_lease_ok in Hl as (Hsig & Hat & Hw & _). bool_prop.
  unfold validate_compression_offers in Hof. apply ensure_ok in Hof. bool_prop.
  split_and!; try done; [by eapply validate_at_ok | by exists pb].
Qed.

Section samples.
#[local] Existing Instance sample_signatures.
#[local] Existing Instance sample_codec.

Definition sample_claims : AccessLeaseClaims :=
  mkClaims 1 (7%nat : PublicKey) (lit "alice") (mkEndpointAddr (9%nat : PublicKey) []) 1 0 0
    1000 1300 [Pgwire; Cancellation].
Definition sample_lease : SignedAccessLease :=
  mkSignedLease sample_claims ((5%nat, LEASE_DOMAIN ++ lit "alice") : Signature).
Definition sample_challenge : EdgeChallenge := mkEdgeChallenge 1 (lit "nonce").
Definition sample_authenticate : EdgeAuthenticate :=
  mkEdgeAuthenticate 1 sample_lease (11%nat : PublicKey) sample_challenge [CodecNone; Lz4Block]
    ((7%nat, EDGE_PROOF_DOMAIN ++ lit "nonce") : Signature).

Lemma edge_authentication_sound_witness : lease_valid sample_claims 1100.
Proof.
  pose proof (edge_authentication_sound sample_authenticate (5%nat : PublicKey) 1100
    (9%nat : PublicKey) (11%nat : PublicKey) sample_challenge
    ltac:(unfold u64_max, MAX_CLOCK_SKEW_SECONDS; lia) ltac:(vm_compute; reflexivity)) as Hs.
  exact (proj1 (proj2 (proj2 Hs))).
Defined.
End samples.

(** An honest exchange succeeds: a lease issued by the bootstrap key and an
    authentication signed by the leased credential for the worker's challenge verify
    at every time the lease is current. *)
Theorem edge_authentication_complete `{Signatures} `{!ControlCodec}
    (c : AccessLeaseClaims) bootstrap_sk lease credential_sk transport challenge os auth now :
  issue_lease c bootstrap_sk = Ok lease ->
  sign_authenticate lease credential_sk transport challenge os = Ok auth ->
  challenge_version challenge = PROTOCOL_VERSION -> validate_at c now = Ok tt ->
  verify_authenticate auth (public bootstrap_sk) now (addr_id (worker c)) transport challenge = Ok tt.
Proof.
  intros Hi Hs Hcv Hat. unfold sign_authenticate in Hs.
  apply bind_ok in Hs as ([] & Hof & Hs). apply bind_ok in Hs as ([] & Hcred%ensure_ok & Hs).
  apply bind_ok in Hs as (pb & Hpb & [= <-]). bool_prop.
  pose proof (issue_lease_ok _ _ _ Hi) as (Hc & _).
  unfold verify_authenticate; simpl. rewrite Hcv. simpl.
  rewrite !bool_decide_eq_true_2 by done. simpl. rewrite Hof. simpl.
  rewrite Hc in *. rewrite (issued_lease_verifies _ _ _ _ Hi Hat). simpl.
  replace (edge_proof_signing_bytes (mkEdgeAuthenticate PROTOCOL_VERSION lease transport challenge os
             (sign credential_sk pb))) with (Ok pb : result ProtocolError (list byte)) by (by rewrite <- Hpb).
  simpl. by rewrite Hcred, verify_sign.
Qed.

Lemma edge_authentication_complete_witness :
  @verify_authenticate sample_signatures sample_codec sample_authenticate (5%nat) 1200 (9%nat)
    (11%nat) sample_challenge = Ok tt.
Proof.
  exact (@edge_authentication_complete sample_signatures sample_codec sample_claims 5%nat sample_lease
           7%nat 11%nat sample_challenge [CodecNone; Lz4Block] sample_authenticate 1200
           eq_refl eq_refl eq_refl eq_refl).
Defined.

(** The three signed messages live in disjoint domains: no byte string is the
    signing input of two of a lease, a lease request and an edge proof, so a
    signature made for one purpose cannot be replayed for another. *)
Theorem signing_domains_disjoint `{Signatures} `{!ControlCodec}
    (c : AccessLeaseClaims) cred transport bootstrap nonce (auth : EdgeAuthenticate) m :
  (lease_signing_bytes c = Ok m -> lease_request_signing_bytes cred transport bootstrap nonce <> Ok m) /\
  (lease_signing_bytes c = Ok m -> edge_proof_signing_bytes auth <> Ok m) /\
  (lease_request_signing_bytes cred transport bootstrap nonce = Ok m ->
   edge_proof_signing_bytes auth <> Ok m).
Proof.
  unfold lease_signing_bytes, lease_request_signing_bytes, edge_proof_signing_bytes.
  split_and!; intros H1 H2; refine (domains_disjoint _ _ _ _ _ _ _ H1 H2);
    intros [k Hk]; discriminate Hk.
Qed.

Lemma signing_domains_disjoint_witness :
  @edge_proof_signing_bytes sample_signatures sample_codec sample_authenticate
    <> Ok (LEASE_DOMAIN ++ lit "alice").
Proof.
  exact (proj1 (proj2 (@signing_domains_disjoint sample_signatures sample_codec sample_claims
    7%nat 7%nat 7%nat [] sample_authenticate (LEASE_DOMAIN ++ lit "alice"))) eq_refl).
Defined.
