(* ===== verification/EdgeRuntime.v ===== *)
(** * Edge runtime: bootstrap authority, control frames and pgwire startup
    ([quackgis-edge/src/runtime.rs])

    The bootstrap authority issues leases and remembers request nonces; the worker
    reads the first packets of an application stream and forwards only a startup
    packet of the leased role.  Streams are the bytes still to be read; the clock
    is the [now] argument ([None] when it is before the epoch). *)

From S2P Require Import Prelude EdgeProtocol.

Definition NONCE_CACHE_CAPACITY : nat := 4096.
Definition MAX_INITIAL_PGWIRE_PACKET_BYTES : Z := 16777216.
Definition POSTGRESQL_PROTOCOL_3 : Z := 196608.
Definition CANCEL_REQUEST_CODE : Z := 80877102.
Definition SSL_REQUEST_CODE : Z := 80877103.
Definition GSSENC_REQUEST_CODE : Z := 80877104.

Inductive RuntimeError :=
  | Protocol (e : ProtocolError)
  | DuplicateCredential | TooManyRegistrations | NoRegistrations
  | NotRegistered | NonceCacheUnavailable | NonceReused | ClockUnavailable
  | UnexpectedEof | ControlTooLarge
  | InvalidPacketLength | PacketTruncated | UnsupportedRequest
  | InvalidStartup | StartupFieldsUnpaired | DuplicateUser | UserNotUtf8 | UserMissing
  | InvalidBackendFrame | NotAuthenticationOk | CredentialsRequested
  | HttpDisabled | PreludeMismatch | RoleMismatch
  | Panicked.  (** not an error of the code: the task of the stream panics *)

(** ** Byte streams *)

(** [read_exact(n)]: the bytes read and the rest of the stream. *)
Definition read_exact (n : nat) (s : list byte) : result RuntimeError (list byte * list byte) :=
  if (n <=? length s)%nat then Ok (take n s, drop n s) else Err UnexpectedEof.

Definition be_u32 (b : list byte) : Z :=
  match b with
  | [b0; b1; b2; b3] => u32_from_be_bytes b0 b1 b2 b3
  | _ => 0
  end.

(** [write_control] and [read_control] *)
Definition write_control (json : option (list byte)) : result RuntimeError (list byte) :=
  encoded ← map_err Protocol (encode_control json);
  Ok (u32_to_be_bytes (len encoded) ++ encoded).
Definition read_control {T} (from_slice : list byte -> option T) (s : list byte)
    : result RuntimeError (T * list byte) :=
  '(header, s) ← read_exact 4 s;
  let length := be_u32 header in
  _ ← ensure (negb (MAX_CONTROL_MESSAGE_BYTES <? length)) ControlTooLarge;
  '(encoded, s) ← read_exact (Z.to_nat length) s;
  v ← map_err Protocol (decode_control from_slice encoded);
  Ok (v, s).

(** [read_pgwire_packet] *)
Definition read_pgwire_packet (s : list byte) : result RuntimeError (list byte * list byte) :=
  '(header, s) ← read_exact 4 s;
  let length := be_u32 header in
  _ ← ensure ((8 <=? length) && (length <=? MAX_INITIAL_PGWIRE_PACKET_BYTES)) InvalidPacketLength;
  '(body, s) ← read_exact (Z.to_nat (length - 4)) s;
  Ok (header ++ body, s).

Inductive InitialPacketKind := Startup | CancelRequest | Ssl | GssEnc.
#[export] Instance initial_packet_kind_eq_dec : EqDecision InitialPacketKind.
Proof. solve_decision. Defined.

(** [classify_initial_packet] *)
Definition classify_initial_packet (packet : list byte) : result RuntimeError InitialPacketKind :=
  _ ← ensure (negb (length packet <? 8)%nat) PacketTruncated;
  let code := be_u32 (take 4 (drop 4 packet)) in
  if code =? POSTGRESQL_PROTOCOL_3 then Ok Startup
  else if (code =? CANCEL_REQUEST_CODE) && Nat.eqb (length packet) 16 then Ok CancelRequest
  else if (code =? SSL_REQUEST_CODE) && Nat.eqb (length packet) 8 then Ok Ssl
  else if (code =? GSSENC_REQUEST_CODE) && Nat.eqb (length packet) 8 then Ok GssEnc
  else Err UnsupportedRequest.

(** [startup_user]: the key/value pairs, then the single [user] entry.  The fields are
    [packet[8..packet.len() - 1]], which panics for a packet of 8 bytes. *)
Definition drop_last_empty (fields : list str) : list str :=
  match last fields with
  | Some [] => removelast fields
  | _ => fields
  end.
Fixpoint find_user (fields : list str) (user : option str) : result RuntimeError (option str) :=
  match fields with
  | key :: value :: rest =>
      if bool_decide (key = lit "user") then
        match user with
        | Some _ => Err DuplicateUser
        | None =>
            if bool_decide (is_Some (utf8_decode value)) then find_user rest (Some value)
            else Err UserNotUtf8
        end
      else find_user rest user
  | _ => Ok user
  end.
Definition startup_user (packet : list byte) : result RuntimeError str :=
  kind ← classify_initial_packet packet;
  _ ← ensure (bool_decide (kind = Startup) && bool_decide (last packet = Some x00)) InvalidStartup;
  _ ← ensure (8 <=? length packet - 1)%nat Panicked;
  let fields := drop_last_empty (split_on x00 (removelast (drop 8 packet))) in
  _ ← ensure (Nat.even (length fields)) StartupFieldsUnpaired;
  user ← find_user fields None;
  match user with
  | Some (b :: u) => Ok (b :: u)
  | _ => Err UserMissing
  end.

(** [read_backend_frame] and [validate_backend_authentication] *)
Definition read_backend_frame (s : list byte) : result RuntimeError (list byte * list byte) :=
  '(header, s) ← read_exact 5 s;
  let length := be_u32 (drop 1 header) in
  _ ← ensure ((4 <=? length) && (length <=? MAX_CONTROL_MESSAGE_BYTES)) InvalidBackendFrame;
  '(body, s) ← read_exact (Z.to_nat (length - 4)) s;
  Ok (header ++ body, s).
Definition validate_backend_authentication (frame : list byte) : result RuntimeError unit :=
  _ ← ensure (bool_decide (head frame = Some x52) && Nat.eqb (length frame) 9) NotAuthenticationOk;
  ensure (be_u32 (take 4 (drop 5 frame)) =? 0) CredentialsRequested.

Section runtime.
Context `{Signatures} `{!ControlCodec}.

(** ** The nonce cache *)

Record NonceCache := mkNonceCache {
  values : gset (PublicKey * list byte);
  order : list (PublicKey * list byte) }.
Definition empty_cache : NonceCache := mkNonceCache ∅ [].

(** [NonceCache::insert] *)
Definition insert_nonce (self : NonceCache) (cred : PublicKey) (nonce : list byte)
    : result RuntimeError NonceCache :=
  let entry := (cred, nonce) in
  if decide (entry ∈ values self) then Err NonceReused
  else
    let values := {[entry]} ∪ values self in
    let order := order self ++ [entry] in
    if (NONCE_CACHE_CAPACITY <? length order)%nat
    then match order with
         | expired :: rest => Ok (mkNonceCache (values ∖ {[expired]}) rest)
         | [] => Ok (mkNonceCache values order)
         end
    else Ok (mkNonceCache values order).

(** ** The bootstrap authority *)

Record BootstrapAuthority := mkBootstrapAuthority {
  secret_key : SecretKey;
  registrations : gmap PublicKey str;
  authority_worker : EndpointAddr;
  authority_generation : Z;
  lease_ttl_seconds : Z;
  seen_nonces : NonceCache;
  nonces_poisoned : bool }.

Definition lease_protocol_list : list ApplicationProtocol := [Pgwire; Cancellation].

(** [BootstrapAuthority::new_registered] *)
Definition new_registered (sk : SecretKey) (regs : list (PublicKey * str)) (w : EndpointAddr)
    (generation ttl : Z) (now : option Z) : result RuntimeError BootstrapAuthority :=
  now ← ok_or now ClockUnavailable;
  validated ← try_fold (fun (validated : gmap PublicKey str) '(cred, role) =>
    c ← map_err Protocol (new_claims cred role w generation now (saturating_add now ttl)
                            lease_protocol_list);
    _ ← ensure (bool_decide (validated !! cred = None)) DuplicateCredential;
    let validated := <[cred := login_role c]> validated in
    _ ← ensure (negb (MAX_BOOTSTRAP_REGISTRATIONS <? size validated)%nat) TooManyRegistrations;
    Ok validated) regs ∅;
  _ ← ensure (negb (bool_decide (validated = ∅))) NoRegistrations;
  Ok (mkBootstrapAuthority sk validated w generation ttl empty_cache false).

(** [BootstrapAuthority::issue]: the authority after the call, and the result. *)
Definition with_nonces (self : BootstrapAuthority) (c : NonceCache) : BootstrapAuthority :=
  mkBootstrapAuthority (secret_key self) (registrations self) (authority_worker self)
    (authority_generation self) (lease_ttl_seconds self) c (nonces_poisoned self).
Definition issue (self : BootstrapAuthority) (request : LeaseRequest) (remote : PublicKey)
    (now : option Z) : BootstrapAuthority * result RuntimeError SignedAccessLease :=
  match map_err Protocol (verify_request request (public (secret_key self)) remote) with
  | Err e => (self, Err e)
  | Ok _ =>
      match registrations self !! request_credential request with
      | None => (self, Err NotRegistered)
      | Some role =>
          if nonces_poisoned self then (self, Err NonceCacheUnavailable)
          else match insert_nonce (seen_nonces self) (request_credential request)
                       (request_nonce request) with
               | Err e => (self, Err e)
               | Ok cache =>
                   (with_nonces self cache,
                    now ← ok_or now ClockUnavailable;
                    c ← map_err Protocol
                          (new_claims (request_credential request) role (authority_worker self)
                             (authority_generation self) now
                             (saturating_add now (lease_ttl_seconds self)) lease_protocol_list);
                    map_err Protocol (issue_lease c (secret_key self)))
               end
      end
  end.

(** ** The worker's application stream *)

(** What the worker does after the negotiation: forward a session, with the bytes
    of the stream that follow the startup packet, or pass on a cancellation. *)
Inductive Forwarded :=
  | ForwardSession (startup : list byte) (rest : list byte)
  | ForwardCancellation (packet : list byte).

(** The loop of [forward_application_stream]: encryption requests are answered
    with N; each round reads a packet of at least 8 bytes. *)
Fixpoint negotiate (fuel : nat) (role : str) (startup : list byte) (s : list byte)
    : result RuntimeError Forwarded :=
  match fuel with
  | O => Err UnexpectedEof
  | S fuel =>
      kind ← classify_initial_packet startup;
      match kind with
      | Ssl | GssEnc => '(startup, s) ← read_pgwire_packet s; negotiate fuel role startup s
      | Startup =>
          user ← startup_user startup;
          _ ← ensure (bool_decide (user = role)) RoleMismatch;
          Ok (ForwardSession startup s)
      | CancelRequest => Ok (ForwardCancellation startup)
      end
  end.

(** [forward_application_stream] up to the point where bytes reach the backend. *)
Definition forward_application_stream (lease : SignedAccessLease) (compression : CompressionCodec)
    (worker_id bootstrap_public : PublicKey) (now : option Z)
    (parse_prelude : list byte -> option StreamPrelude) (s : list byte)
    : result RuntimeError Forwarded :=
  now ← ok_or now ClockUnavailable;
  _ ← map_err Protocol (verify_lease lease bootstrap_public now worker_id (credential (claims lease)));
  '(prelude, s) ← read_control parse_prelude s;
  _ ← map_err Protocol (verify_prelude prelude (claims lease) compression);
  _ ← ensure (negb (bool_decide (prelude_protocol prelude = Http))) HttpDisabled;
  '(initial, s) ← read_pgwire_packet s;
  kind ← classify_initial_packet initial;
  let expected := match kind with CancelRequest => Cancellation | _ => Pgwire end in
  _ ← ensure (bool_decide (prelude_protocol prelude = expected)) PreludeMismatch;
  negotiate (S (length s)) (login_role (claims lease)) initial s.

(** ** Lemmas *)

Lemma read_exact_ok n s a b :
  read_exact n s = Ok (a, b) <-> s = a ++ b /\ length a = n.
Proof using.
  unfold read_exact. destruct (Nat.leb_spec n (length s)) as [Hle|Hgt].
  - split.
    + intros [= <- <-]. rewrite take_drop, length_take. split; [done | lia].
    + intros [-> <-]. by rewrite take_app_length, drop_app_length.
  - split; [done|]. intros [-> <-]. rewrite length_app in Hgt. lia.
Qed.

(** The entries inserted, oldest first, from which the cache keeps the last ones. *)
Fixpoint accepted (requests : list (PublicKey * list byte)) (c : NonceCache)
    : NonceCache * list (PublicKey * list byte) :=
  match requests with
  | [] => (c, [])
  | (cred, nonce) :: rest =>
      match insert_nonce c cred nonce with
      | Ok c' => let '(c'', history) := accepted rest c' in (c'', (cred, nonce) :: history)
      | Err _ => accepted rest c
      end
  end.

Record cache_wf (c : NonceCache) : Prop := {
  cache_values : values c = list_to_set (order c);
  cache_nodup : NoDup (order c);
  cache_bounded : (length (order c) <= NONCE_CACHE_CAPACITY)%nat }.

Definition keep_last {A} (n : nat) (l : list A) : list A := drop (length l - n) l.

Lemma keep_last_snoc {A} n (l : list A) x :
  (length l <= n)%nat -> keep_last n (l ++ [x]) = if (n <? length (l ++ [x]))%nat
                                                  then tail (l ++ [x]) else l ++ [x].
Proof using.
  unfold keep_last. rewrite length_app. simpl. intros Hl.
  destruct (Nat.ltb_spec n (length l + 1)).
  - replace (length l + 1 - n)%nat with 1%nat by lia. by destruct (l ++ [x]).
  - by replace (length l + 1 - n)%nat with 0%nat by lia.
Qed.

Lemma keep_last_app {A} n (l k : list A) : keep_last n (keep_last n l ++ k) = keep_last n (l ++ k).
Proof using.
  unfold keep_last. rewrite !length_app, length_drop.
  destruct (decide (length l <= n)%nat).
  - replace (length l - n)%nat with 0%nat by lia. rewrite drop_0, Nat.sub_0_r. done.
  - set (m := (length l - n)%nat).
    assert (l ++ k = take m l ++ (drop m l ++ k)) as E by (by rewrite app_assoc, take_drop).
    rewrite E, (drop_app_ge (take m l)) by (rewrite length_take; lia).
    rewrite length_take. f_equal. lia.
Qed.

Lemma insert_nonce_spec c cred nonce :
  cache_wf c ->
  match insert_nonce c cred nonce with
  | Err e => e = NonceReused /\ (cred, nonce) ∈ order c
  | Ok c' => (cred, nonce) ∉ order c /\ cache_wf c' /\
             order c' = keep_last NONCE_CACHE_CAPACITY (order c ++ [(cred, nonce)])
  end.
Proof using.
  intros [Hv Hnd Hb]. unfold insert_nonce. rewrite Hv. case_decide as Hin.
  { split; [done|]. by apply elem_of_list_to_set in Hin. }
  rewrite elem_of_list_to_set in Hin. rewrite keep_last_snoc by done.
  assert (NoDup (order c ++ [(cred, nonce)])) as Hnd'.
  { apply NoDup_app. split_and!; [done| |apply NoDup_singleton]. set_solver. }
  assert ({[(cred, nonce)]} ∪ list_to_set (order c) =
          list_to_set (C := gset (PublicKey * list byte)) (order c ++ [(cred, nonce)])) as Hset
    by set_solver.
  rewrite Hset. assert (length (order c ++ [(cred, nonce)]) = S (length (order c))) as Hlen
    by (rewrite length_app; simpl; lia).
  destruct (Nat.ltb_spec NONCE_CACHE_CAPACITY (length (order c ++ [(cred, nonce)]))).
  - destruct (order c ++ [(cred, nonce)]) as [|x rest] eqn:Ho; [by destruct (order c)|].
    apply NoDup_cons in Hnd' as [Hx Hnd']. simpl in *. split_and!; [done| |done].
    split; simpl; [set_solver | done | lia].
  - split_and!; [done| |done]. split; simpl; [done | done | lia].
Qed.

Lemma accepted_order requests c :
  cache_wf c ->
  let '(c', history) := accepted requests c in
  cache_wf c' /\ order c' = keep_last NONCE_CACHE_CAPACITY (order c ++ history).
Proof using.
  revert c. induction requests as [|[cred nonce] rest IH]; intros c Hwf; simpl.
  { split; [done|]. rewrite app_nil_r. unfold keep_last.
    replace (_ - _)%nat with 0%nat by (pose proof (cache_bounded _ Hwf); lia). done. }
  pose proof (insert_nonce_spec c cred nonce Hwf) as Hs.
  destruct (insert_nonce c cred nonce) as [c'|e]; [|by apply IH].
  destruct Hs as (_ & Hwf' & Ho). specialize (IH c' Hwf').
  destruct (accepted rest c') as [c'' history]. destruct IH as [? IH]. split; [done|].
  rewrite IH, Ho, keep_last_app, <- app_assoc. done.
Qed.
End runtime.

(** ** Frames *)

Lemma be_u32_to_be_bytes n : 0 <= n <= u32_max -> be_u32 (u32_to_be_bytes n) = n.
Proof. intros Hn. by apply (u32_from_to_be_bytes n (zb (n / 16777216)) (zb (n / 65536)) (zb (n / 256)) (zb n)). Qed.

Lemma control_frame_ok {T} (from_slice : list byte -> option T) json frame v rest :
  write_control (Some json) = Ok frame -> from_slice json = Some v ->
  read_control from_slice (frame ++ rest) = Ok (v, rest).
Proof.
  unfold write_control, encode_control. simpl.
  destruct (Z.ltb_spec MAX_CONTROL_MESSAGE_BYTES (len json)); simpl; [done|]. intros [= <-] Hf.
  unfold MAX_CONTROL_MESSAGE_BYTES in *. pose proof (len_nonneg json).
  unfold read_control. rewrite (proj2 (read_exact_ok 4 _ (u32_to_be_bytes (len json)) (json ++ rest))).
  2:{ by split. }
  cbn [mbind result_bind]. rewrite be_u32_to_be_bytes by (unfold u32_max; lia).
  rewrite (proj2 (Z.ltb_ge _ _)) by (unfold MAX_CONTROL_MESSAGE_BYTES; lia). simpl.
  rewrite (proj2 (read_exact_ok _ _ json rest)) by (split; [done | unfold len; lia]). simpl.
  unfold decode_control. rewrite (proj2 (Z.ltb_ge _ _)) by (unfold MAX_CONTROL_MESSAGE_BYTES; lia).
  simpl. by rewrite Hf.
Qed.

Lemma read_pgwire_packet_ok s p rest :
  read_pgwire_packet s = Ok (p, rest) ->
  s = p ++ rest /\ 8 <= len p <= MAX_INITIAL_PGWIRE_PACKET_BYTES.
Proof.
  unfold read_pgwire_packet. intros H. apply bind_ok in H as ([h s1] & Hh & H).
  apply read_exact_ok in Hh as [-> Hl]. apply bind_ok in H as ([] & Hb%ensure_ok & H).
  apply bind_ok in H as ([body s2] & Hb2 & [= <- <-]). apply read_exact_ok in Hb2 as [-> Hl2].
  bool_prop. split; [by rewrite app_assoc|]. unfold len. rewrite length_app, Hl, Hl2.
  unfold MAX_INITIAL_PGWIRE_PACKET_BYTES in *. lia.
Qed.

(** ** Startup packets *)

(** The startup packet of a list of parameters. *)
Definition startup_fields (params : list (str * str)) : list byte :=
  concat (map (fun '(k, v) => k ++ [x00] ++ v ++ [x00]) params).
Definition startup_packet (params : list (str * str)) : list byte :=
  u32_to_be_bytes (9 + len (startup_fields params)) ++ u32_to_be_bytes POSTGRESQL_PROTOCOL_3
  ++ startup_fields params ++ [x00].

Lemma split_startup_fields params :
  Forall (fun '(k, v) => x00 ∉ k /\ x00 ∉ v) params ->
  split_on x00 (startup_fields params) = concat (map (fun '(k, v) => [k; v]) params) ++ [[]].
Proof.
  induction 1 as [|[k v] params [Hk Hv] _ IH]; [done|].
  change (startup_fields ((k, v) :: params)) with ((k ++ [x00] ++ v ++ [x00]) ++ startup_fields params).
  simpl. rewrite <- !app_assoc. simpl. rewrite split_on_app by done.
  rewrite <- app_assoc. simpl. rewrite split_on_app, IH by done. done.
Qed.

Lemma drop_last_empty_snoc (fields : list str) : drop_last_empty (fields ++ [[]]) = fields.
Proof. unfold drop_last_empty. by rewrite last_snoc, removelast_last. Qed.

Lemma flatten_even (params : list (str * str)) :
  Nat.even (length (concat (map (fun '(k, v) => [k; v]) params))) = true.
Proof. induction params as [|[k v] params IH]; [done|]. simpl. done. Qed.

Lemma find_user_params (params : list (str * str)) (u : str) (seen : bool) :
  is_Some (utf8_decode u) -> map fst (List.filter (fun p => bool_decide (fst p = lit "user")) params) =
    (if seen then [] else [lit "user"]) -> (lit "user", u) ∈ params \/ seen = true ->
  find_user (concat (map (fun '(k, v) => [k; v]) params)) (if seen then Some u else None) = Ok (Some u).
Proof.
  intros Hu. revert seen. induction params as [|[k v] params IH]; intros seen Hf Hin.
  - destruct seen; [done|]. by destruct Hin as [?%not_elem_of_nil|].
  - simpl in Hf |- *. case_bool_decide as Hk; simpl in Hf.
    + destruct seen; [done|]. injection Hf as -> Hf.
      assert (v = u) as ->.
      { destruct Hin as [[Heq|Hin]%elem_of_cons|]; [congruence| |done]. exfalso.
        apply (not_elem_of_nil (A := str) (lit "user")). rewrite <- Hf. apply list_elem_of_fmap.
        exists (lit "user", u). split; [done|]. apply list_elem_of_In, filter_In.
        by rewrite <- list_elem_of_In, bool_decide_eq_true_2. }
      rewrite bool_decide_eq_true_2 by done. apply (IH true); [done | by right].
    + apply IH; [done|]. destruct Hin as [[Heq|?]%elem_of_cons|?]; [congruence | auto | auto].
Qed.

Lemma startup_user_packet (params : list (str * str)) (b : byte) (u : str) :
  Forall (fun '(k, v) => x00 ∉ k /\ x00 ∉ v) params ->
  map fst (List.filter (fun p => bool_decide (fst p = lit "user")) params) = [lit "user"] ->
  (lit "user", b :: u) ∈ params -> is_Some (utf8_decode (b :: u)) ->
  startup_user (startup_packet params) = Ok (b :: u).
Proof.
  intros Hnul Hone Hin Hutf. unfold startup_user, classify_initial_packet, startup_packet.
  set (h := u32_to_be_bytes (9 + len (startup_fields params))).
  assert (length h = 4%nat) as Hh by done. generalize dependent h. intros h Hh.
  assert (length (h ++ u32_to_be_bytes POSTGRESQL_PROTOCOL_3 ++ startup_fields params ++ [x00])
          = (9 + length (startup_fields params))%nat) as Hlen.
  { rewrite !length_app, Hh. simpl. lia. }
  assert (last (h ++ u32_to_be_bytes POSTGRESQL_PROTOCOL_3 ++ startup_fields params ++ [x00])
          = Some x00) as Hlast by (by rewrite !app_assoc, last_snoc).
  rewrite Hlen. replace ((_ <? 8)%nat) with false by (symmetry; apply Nat.ltb_ge; lia). simpl.
  destruct h as [|h0 [|h1 [|h2 [|h3 [|]]]]]; try done. cbn [app drop take].
  change (be_u32 _) with (be_u32 (u32_to_be_bytes POSTGRESQL_PROTOCOL_3)).
  rewrite be_u32_to_be_bytes by (unfold POSTGRESQL_PROTOCOL_3, u32_max; lia). simpl.
  rewrite (bool_decide_eq_true_2 _ Hlast).
  simpl. rewrite drop_0, removelast_last, split_startup_fields, drop_last_empty_snoc by done.
  rewrite flatten_even. simpl. rewrite (find_user_params params (b :: u) false) by auto. done.
Qed.

(** The parameters of a startup packet: what follows the length and the version is each name and
    value with a NUL after it, and a NUL at the end, which may be missing. *)
Definition startup_parameters (packet : list byte) (params : list (str * str)) : Prop :=
  be_u32 (take 4 (drop 4 packet)) = POSTGRESQL_PROTOCOL_3 /\
  Forall (fun '(k, v) => x00 ∉ k /\ x00 ∉ v) params /\
  (drop 8 packet = startup_fields params ++ [x00] \/ drop 8 packet = startup_fields params).
(** The values of the parameter [user] *)
Definition users (params : list (str * str)) : list str :=
  map snd (List.filter (fun p => bool_decide (fst p = lit "user")) params).

Lemma split_on_join sep (s : str) :
  concat (map (fun f => f ++ [sep]) (split_on sep s)) = s ++ [sep] /\ Forall (fun f => sep ∉ f) (split_on sep s).
Proof.
  induction s as [|b s [IH IHf]]; [split; [done|]; repeat constructor; set_solver|]. cbn [split_on].
  case_bool_decide as Hb; [subst b; cbn [map concat app]; rewrite IH; split; [done|]; constructor; [set_solver|done]|].
  destruct (split_on sep s) as [|f fs]; [by destruct s|]. cbn [map concat app] in *. split; [by rewrite IH|].
  apply Forall_cons in IHf as [Hf IHf]. constructor; [set_solver|done].
Qed.
Fixpoint pairs {A} (l : list A) : list (A * A) := match l with a :: b :: l => (a, b) :: pairs l | _ => [] end.
Lemma pairs_fields (fields : list str) : Nat.even (length fields) = true -> Forall (fun f => x00 ∉ f) fields ->
  concat (map (fun f => f ++ [x00]) fields) = startup_fields (pairs fields) /\
  Forall (fun '(k, v) => x00 ∉ k /\ x00 ∉ v) (pairs fields).
Proof.
  revert fields. fix IH 1. intros [|k [|v fields]] He Hf; [clear IH; by split|discriminate He|]. cbn in He. specialize (IH fields).
  apply Forall_cons in Hf as [Hk Hf]. apply Forall_cons in Hf as [Hv Hf]. destruct (IH He Hf) as [Hc Hp]. clear IH.
  split; [|by constructor]. cbn [map concat pairs startup_fields]. unfold startup_fields in *. cbn [map concat]. rewrite Hc. by rewrite <- !app_assoc.
Qed.
Lemma find_user_users fields user r : find_user fields user = Ok r ->
  option_list r = option_list user ++ users (pairs fields).
Proof.
  revert fields user. fix IH 1. intros [|k [|v fields]] user H; [clear IH; injection H as <-; by rewrite app_nil_r..|]. cbn [find_user] in H.
  specialize (IH fields). cbn [pairs]. unfold users. cbn [List.filter fst]. case_bool_decide as Hk; [|exact (IH user H)].
  destruct user as [u|]; [discriminate H|]. case_bool_decide; [|discriminate H]. cbn [map snd]. exact (IH (Some v) H).
Qed.
Lemma startup_user_single packet u : startup_user packet = Ok u ->
  exists params, startup_parameters packet params /\ users params = [u].
Proof.
  unfold startup_user. intros H. apply bind_ok in H as (kind & Hk & H). apply bind_ok in H as ([] & Hs%ensure_ok & H).
  apply andb_true_iff in Hs as [->%bool_decide_eq_true Hlast%bool_decide_eq_true].
  apply bind_ok in H as ([] & Hl%ensure_ok%Nat.leb_le & H). apply bind_ok in H as ([] & He%ensure_ok & H). apply bind_ok in H as (r & Hr & H).
  assert (u <> [] /\ r = Some u) as [_ ->] by (destruct r as [[|]|]; naive_solver). apply find_user_users in Hr.
  set (body := drop 8 packet) in *. assert (Hbody : body = removelast body ++ [x00]).
  { assert (body <> []) as Hne by (intros Hb; apply (f_equal length) in Hb; unfold body in Hb; rewrite length_drop in Hb; cbn in Hb; lia).
    rewrite (app_removelast_last x00 Hne) at 1. f_equal. f_equal. apply last_Some in Hlast as [l Hp].
    assert (last body = Some x00) as Hb.
    { unfold body. rewrite Hp, length_app in Hl. cbn in Hl. rewrite Hp, drop_app_le by lia. by rewrite last_snoc. }
    apply last_Some in Hb as [l' ->]. by rewrite List.last_last. }
  destruct (split_on_join x00 (removelast body)) as [Hj Hf]. rewrite <- Hbody in Hj. set (fields := split_on x00 (removelast body)) in *.
  exists (pairs (drop_last_empty fields)). split; [|exact (eq_sym Hr)].
  assert (Hkind : be_u32 (take 4 (drop 4 packet)) = POSTGRESQL_PROTOCOL_3).
  { unfold classify_initial_packet in Hk. apply bind_ok in Hk as ([] & _ & Hk).
    destruct (Z.eqb_spec (be_u32 (take 4 (drop 4 packet))) POSTGRESQL_PROTOCOL_3) as [|_]; [done|]. by repeat case_match. }
  unfold drop_last_empty in *. destruct (last fields) as [[|b f]|] eqn:Hlf.
  - apply last_Some in Hlf as [fs Hfs]. rewrite Hfs, removelast_last in *. apply Forall_app in Hf as [Hf _].
    destruct (pairs_fields fs He Hf) as [Hp Hpf]. split_and!; [done|done|]. left. rewrite map_app, concat_app, Hp in Hj. exact (eq_sym Hj).
  - destruct (pairs_fields fields He Hf) as [Hp Hpf]. split_and!; [done|done|]. right. rewrite <- Hp. exact (eq_sym Hj).
  - destruct (pairs_fields fields He Hf) as [Hp Hpf]. split_and!; [done|done|]. right. rewrite <- Hp. exact (eq_sym Hj).
Qed.

(** ** Negotiation *)

(** Requests for encryption and for cancellation, by their length and code *)
Definition encryption_request (packet : list byte) : Prop :=
  length packet = 8%nat /\ (be_u32 (drop 4 packet) = SSL_REQUEST_CODE \/ be_u32 (drop 4 packet) = GSSENC_REQUEST_CODE).
Definition cancel_request (packet : list byte) : Prop :=
  length packet = 16%nat /\ be_u32 (take 4 (drop 4 packet)) = CANCEL_REQUEST_CODE.

Lemma classified packet kind : classify_initial_packet packet = Ok kind ->
  match kind with
  | Ssl | GssEnc => encryption_request packet
  | CancelRequest => cancel_request packet
  | Startup => True
  end.
Proof.
  unfold classify_initial_packet. intros H. apply bind_ok in H as ([] & _ & H).
  destruct (_ =? POSTGRESQL_PROTOCOL_3); [by injection H as <-|].
  destruct ((_ =? CANCEL_REQUEST_CODE) && _) eqn:Hc; [injection H as <-; by apply andb_true_iff in Hc as [?%Z.eqb_eq ?%Nat.eqb_eq]|].
  assert (forall code, (be_u32 (take 4 (drop 4 packet)) =? code) && (length packet =? 8)%nat = true ->
    length packet = 8%nat /\ be_u32 (drop 4 packet) = code) as Henc.
  { intros code [Hb%Z.eqb_eq Hl%Nat.eqb_eq]%andb_true_iff. rewrite take_ge in Hb by (rewrite length_drop; lia). done. }
  destruct ((_ =? SSL_REQUEST_CODE) && _) eqn:Hs; [injection H as <-; apply Henc in Hs as [? ?]; split; auto|].
  destruct ((_ =? GSSENC_REQUEST_CODE) && _) eqn:Hg; [injection H as <-; apply Henc in Hg as [? ?]; split; auto|done].
Qed.

(** What is forwarded follows the encryption requests, and starts the session of the role or cancels. *)
Lemma negotiate_result fuel role startup s fwd :
  negotiate fuel role startup s = Ok fwd ->
  exists requests packet rest, startup ++ s = concat requests ++ packet ++ rest /\ Forall encryption_request requests /\
    (requests = [] <-> classify_initial_packet startup <> Ok Ssl /\ classify_initial_packet startup <> Ok GssEnc) /\
    (requests = [] -> classify_initial_packet startup = Ok CancelRequest <-> fwd = ForwardCancellation packet) /\
    match fwd with
    | ForwardSession p r => p = packet /\ r = rest /\ exists params, startup_parameters packet params /\ users params = [role]
    | ForwardCancellation p => p = packet /\ cancel_request packet
    end.
Proof.
  revert startup s. induction fuel as [|fuel IH]; intros startup s; [done|]. cbn [negotiate].
  intros Hn. apply bind_ok in Hn as (kind & Hk & Hn). rewrite Hk. pose proof (classified _ _ Hk) as Hc.
  assert (Hreq : forall p s', read_pgwire_packet s = Ok (p, s') -> encryption_request startup -> negotiate fuel role p s' = Ok fwd ->
    kind = Ssl \/ kind = GssEnc -> exists requests packet rest, startup ++ s = concat requests ++ packet ++ rest /\ Forall encryption_request requests /\
    (requests = [] <-> (Ok kind : result RuntimeError _) <> Ok Ssl /\ (Ok kind : result RuntimeError _) <> Ok GssEnc) /\
    (requests = [] -> (Ok kind : result RuntimeError _) = Ok CancelRequest <-> fwd = ForwardCancellation packet) /\
    match fwd with
    | ForwardSession p r => p = packet /\ r = rest /\ exists params, startup_parameters packet params /\ users params = [role]
    | ForwardCancellation p => p = packet /\ cancel_request packet
    end).
  { intros p s' Hp Henc Hgo Hkind. apply read_pgwire_packet_ok in Hp as [-> _].
    destruct (IH _ _ Hgo) as (requests & packet & rest & Hs & Hf & _ & _ & Hfwd). exists (startup :: requests), packet, rest.
    split_and!; [cbn [concat]; rewrite <- app_assoc; by rewrite Hs|by constructor|split; [done|]; intros []; by destruct Hkind as [-> | ->]|done|done]. }
  destruct kind.
  - apply bind_ok in Hn as (user & Hu%startup_user_single & Hn). inv_ok. bool_prop. subst user.
    exists [], startup, s. by split_and!.
  - injection Hn as <-. exists [], startup, s. by split_and!.
  - apply bind_ok in Hn as ([p s'] & Hp & Hn). eapply Hreq; eauto.
  - apply bind_ok in Hn as ([p s'] & Hp & Hn). eapply Hreq; eauto.
Qed.

(** Each round consumes a packet, so one round per byte left is always enough. *)
Lemma negotiate_fuel f1 f2 role startup s :
  (length s < f1)%nat -> (length s < f2)%nat ->
  negotiate f1 role startup s = negotiate f2 role startup s.
Proof.
  revert f2 startup s. induction f1 as [|f1 IH]; intros [|f2] startup s H1 H2; try lia.
  cbn [negotiate]. destruct (classify_initial_packet startup) as [kind|e]; [|done]. simpl.
  assert ((('(p, s') ← read_pgwire_packet s; negotiate f1 role p s') : result _ _) =
          ('(p, s') ← read_pgwire_packet s; negotiate f2 role p s')) as Hrec.
  { destruct (read_pgwire_packet s) as [[p s']|e] eqn:Hp; [|done]. simpl.
    apply read_pgwire_packet_ok in Hp as [-> Hp]. unfold len in Hp. rewrite length_app in *.
    apply IH; lia. }
  by destruct kind.
Qed.

Section runtime_lemmas.
Context `{Signatures} `{!ControlCodec}.

Lemma empty_cache_wf : cache_wf empty_cache.
Proof using. split; simpl; [done | constructor | lia]. Qed.

(** Any number of requests, with the connection and the time of each *)
Definition Arrival : Type := LeaseRequest * PublicKey * option Z.
Definition receive_requests (self : BootstrapAuthority) (arrivals : list Arrival) : BootstrapAuthority :=
  foldl (fun self '(request, remote, now) => fst (issue self request remote now)) self arrivals.
(** The nonces that these record *)
Definition request_entry (request : LeaseRequest) : PublicKey * list byte := (request_credential request, request_nonce request).
Definition records (self : BootstrapAuthority) (a : Arrival) : bool :=
  let '(request, remote, _) := a in
  is_ok (verify_request request (public (secret_key self)) remote)
  && bool_decide (is_Some (registrations self !! request_credential request)) && negb (nonces_poisoned self)
  && bool_decide (request_entry request ∉ order (seen_nonces self)).
Fixpoint recorded (self : BootstrapAuthority) (arrivals : list Arrival) : list (PublicKey * list byte) :=
  match arrivals with
  | [] => []
  | a :: arrivals =>
      (if records self a then [request_entry (fst (fst a))] else []) ++ recorded (receive_requests self [a]) arrivals
  end.

Lemma issue_records self a : cache_wf (seen_nonces self) ->
  let self' := receive_requests self [a] in
  self' = with_nonces self (seen_nonces self') /\ cache_wf (seen_nonces self') /\
  order (seen_nonces self') =
    if records self a then keep_last NONCE_CACHE_CAPACITY (order (seen_nonces self) ++ [request_entry (fst (fst a))])
    else order (seen_nonces self).
Proof using.
  intros Hwf. destruct a as [[request remote] now]. cbn [receive_requests foldl fst]. unfold records, issue.
  assert (Hself : self = with_nonces self (seen_nonces self)) by (by destruct self).
  destruct (verify_request _ _ _) as [[]|]; cbn [map_err is_ok andb fst]; [|by split_and!].
  destruct (registrations self !! request_credential request) as [role|]; [|by split_and!].
  rewrite bool_decide_eq_true_2 by eauto. destruct (nonces_poisoned self); cbn [negb andb fst]; [by split_and!|].
  pose proof (insert_nonce_spec (seen_nonces self) (request_credential request) (request_nonce request) Hwf) as Hs.
  destruct (insert_nonce _ _ _) as [cache|e].
  - destruct Hs as (Hn & Hwf' & Ho). cbn [fst]. rewrite bool_decide_eq_true_2 by done. by split_and!.
  - destruct Hs as [-> Hin]. cbn [fst]. rewrite bool_decide_eq_false_2 by (intros Hn; by apply Hn). by split_and!.
Qed.
Lemma receive_requests_spec arrivals : forall self, cache_wf (seen_nonces self) ->
  let self' := receive_requests self arrivals in
  self' = with_nonces self (seen_nonces self') /\ cache_wf (seen_nonces self') /\
  order (seen_nonces self') = keep_last NONCE_CACHE_CAPACITY (order (seen_nonces self) ++ recorded self arrivals).
Proof using.
  induction arrivals as [|a arrivals IH]; intros self Hwf self'.
  - split_and!; [by destruct self|done|]. cbn [recorded]. rewrite app_nil_r. unfold keep_last.
    replace (_ - _)%nat with 0%nat by (pose proof (cache_bounded _ Hwf); lia). done.
  - destruct (issue_records self a Hwf) as (Hs1 & Hwf1 & Ho1). destruct (IH _ Hwf1) as (Hs2 & Hwf2 & Ho2).
    change (receive_requests (receive_requests self [a]) arrivals) with self' in *. split_and!; [|done|].
    + rewrite Hs2 at 1. rewrite Hs1. by destruct self.
    + rewrite Ho2. cbn [recorded]. rewrite Ho1. destruct (records self a); [|done]. by rewrite keep_last_app, <- app_assoc.
Qed.
Lemma elem_of_keep_last {A} n (l k : list A) x : (length k < n)%nat -> x ∈ keep_last n (l ++ x :: k).
Proof using.
  intros Hn. unfold keep_last. rewrite length_app. cbn [length]. rewrite drop_app_le by lia. apply elem_of_app. right. left.
Qed.
Lemma keep_last_suffix {A} n (l k : list A) : (n <= length k)%nat -> keep_last n (l ++ k) = keep_last n k.
Proof using. intros Hn. unfold keep_last. rewrite length_app, drop_app_ge by lia. f_equal. lia. Qed.

Lemma new_registered_cache sk regs w generation ttl now (self : BootstrapAuthority) :
  new_registered sk regs w generation ttl now = Ok self -> seen_nonces self = empty_cache.
Proof using.
  unfold new_registered. intros Hn. apply bind_ok in Hn as (t & _ & Hn). apply bind_ok in Hn as (validated & _ & Hn).
  apply bind_ok in Hn as ([] & _ & [= <-]). done.
Qed.

Lemma new_claims_ok cred role w generation issued expires ps (c : AccessLeaseClaims) :
  new_claims cred role w generation issued expires ps = Ok c ->
  c = mkClaims PROTOCOL_VERSION cred role w generation 0 0 issued expires ps /\
  validate_shape c = Ok tt.
Proof using. unfold new_claims. intros Hc. apply bind_ok in Hc as ([] & ? & [= <-]). done. Qed.
End runtime_lemmas.

(** ** Properties *)

(** The nonce cache refuses exactly the requests it remembers, and it remembers
    exactly the last 4096 accepted ones: whatever sequence of requests arrives, the
    cache holds the most recent accepted entries, without duplicates. *)
Theorem nonce_cache_remembers_last `{Signatures} `{!ControlCodec} requests cred nonce :
  let '(c, history) := accepted requests empty_cache in
  order c = keep_last NONCE_CACHE_CAPACITY history /\ NoDup (order c) /\
  (insert_nonce c cred nonce = Err NonceReused <->
   (cred, nonce) ∈ keep_last NONCE_CACHE_CAPACITY history).
Proof.
  pose proof (accepted_order requests empty_cache empty_cache_wf) as Ha.
  destruct (accepted requests empty_cache) as [c history]. destruct Ha as [Hwf Ho]. simpl in Ho.
  split_and!; [done | apply Hwf |]. rewrite <- Ho.
  pose proof (insert_nonce_spec c cred nonce Hwf) as Hs.
  destruct (insert_nonce c cred nonce) as [c'|e]; [naive_solver|]. destruct Hs as [-> ?]. done.
Qed.

(** C27: A lease issued by a bootstrap authority, after whatever requests came before, is for a
    registered credential whose request proof verified over the connection's transport, carries the
    registered role and the authority's worker, and verifies at that worker.  The same request over
    that transport is refused when it is repeated, at any time and whatever comes in between, until
    the authority has recorded 4096 other requests (the capacity of its nonce cache).  By then the
    authority has forgotten it and, unless it has recorded it anew since, issues the lease again
    when the request is repeated: that is the limit of the protection against replays. *)
Theorem bootstrap_issue_sound `{Signatures} `{!ControlCodec} sk regs w generation ttl created start
    (earlier later : list Arrival) request remote now lease self' :
  new_registered sk regs w generation ttl created = Ok start -> 0 <= now ->
  let self := receive_requests start earlier in
  issue self request remote (Some now) = (self', Ok lease) ->
  let c := claims lease in
  (verify_request request (public sk) remote = Ok tt /\
   registrations start !! request_credential request = Some (login_role c) /\
   credential c = request_credential request /\ worker c = w /\ protocols c = [Pgwire; Cancellation] /\
   verify_lease lease (public sk) now (addr_id w) (request_credential request) = Ok tt) /\
  let others := recorded self' later in
  ((length others < NONCE_CACHE_CAPACITY)%nat ->
   forall again, issue (receive_requests self' later) request remote again =
     (receive_requests self' later, Err NonceReused)) /\
  ((NONCE_CACHE_CAPACITY <= length others)%nat -> request_entry request ∉ others ->
   (issue (receive_requests self' later) request remote (Some now)).2 = Ok lease).
Proof.
  intros Hnew Hnow self Hi c.
  assert (Hwf0 : cache_wf (seen_nonces start)) by (rewrite (new_registered_cache _ _ _ _ _ _ _ Hnew); apply empty_cache_wf).
  destruct (receive_requests_spec earlier start Hwf0) as (Hself & Hwf & _). fold self in Hself, Hwf.
  assert (Hparts : secret_key start = sk /\ authority_worker start = w /\ nonces_poisoned start = false).
  { unfold new_registered in Hnew. apply bind_ok in Hnew as (t & _ & Hnew). apply bind_ok in Hnew as (vs & _ & Hnew).
    apply bind_ok in Hnew as ([] & _ & [= <-]). done. }
  destruct Hparts as (Hsk & Hworker & Hpoison).
  assert (Hsame : secret_key self = sk /\ registrations self = registrations start /\ authority_worker self = w /\ nonces_poisoned self = false)
    by (rewrite Hself; by split_and!).
  destruct Hsame as (Hsk' & Hregs & Hworker' & Hpoison'). clearbody self. clear Hself.
  unfold issue in Hi. rewrite Hsk', Hregs, Hworker', Hpoison' in Hi.
  destruct (verify_request request (public sk) remote) as [[]|] eqn:Hv; [|done]. cbn [map_err] in Hi.
  destruct (registrations start !! request_credential request) as [role|] eqn:Hr; [|done].
  pose proof (insert_nonce_spec (seen_nonces self) (request_credential request) (request_nonce request) Hwf) as Hins.
  destruct (insert_nonce _ _ _) as [cache|] eqn:Hn; [|done]. destruct Hins as (_ & Hwf' & Ho). injection Hi as <- Hlease.
  pose proof Hlease as Hi. cbn [mbind result_bind ok_or] in Hi. apply bind_ok in Hi as (cl & Hc%map_err_ok & Hl%map_err_ok).
  apply new_claims_ok in Hc as [Hcl Hshape]. pose proof (issue_lease_ok _ _ _ Hl) as (Hcc & _). split.
  { assert (validate_at cl now = Ok tt) as Hat.
    { apply validate_shape_at; [by rewrite Hcl | done | | done]. rewrite Hcl. simpl. unfold saturating_add. lia. }
    pose proof (issued_lease_verifies _ _ _ _ Hl Hat) as Hver.
    unfold c. rewrite Hcc. rewrite Hcl in Hver |- *. simpl in *. by split_and!. }
  intros others. destruct (receive_requests_spec later (with_nonces self cache) Hwf') as (Hlater & Hwf2 & Ho2).
  fold others in Ho2. cbn [seen_nonces with_nonces] in Ho2. rewrite Ho, keep_last_app, <- app_assoc in Ho2. cbn [app] in Ho2.
  set (self2 := receive_requests (with_nonces self cache) later) in *. clearbody self2.
  assert (Hparts : secret_key self2 = sk /\ registrations self2 = registrations start /\ authority_worker self2 = w /\
    nonces_poisoned self2 = false /\ authority_generation self2 = authority_generation self /\ lease_ttl_seconds self2 = lease_ttl_seconds self)
    by (rewrite Hlater; by split_and!).
  destruct Hparts as (Hsk2 & Hregs2 & Hw2 & Hpoison2 & Hgen2 & Httl2).
  pose proof (insert_nonce_spec (seen_nonces self2) (request_credential request) (request_nonce request) Hwf2) as Hagain.
  rewrite Ho2 in Hagain. split.
  - intros Hfew again. unfold issue. rewrite Hsk2, Hv, Hregs2, Hr, Hpoison2. cbn [map_err].
    destruct (insert_nonce (seen_nonces self2) _ _) as [cache2|e]; [|by destruct Hagain as [-> _]].
    destruct Hagain as [Hno _]. destruct Hno. by apply elem_of_keep_last.
  - intros Hmany Hnew2. unfold issue. rewrite Hsk2, Hv, Hregs2, Hr, Hpoison2, Hw2, Hgen2, Httl2. cbn [map_err].
    destruct (insert_nonce (seen_nonces self2) _ _) as [cache2|e]; [exact Hlease|]. destruct Hagain as [_ Hin]. destruct Hnew2.
    rewrite (app_assoc _ [_] others : _ ++ _ :: others = _) in Hin.
    rewrite keep_last_suffix in Hin by done. exact (subseteq_drop _ _ _ Hin).
Qed.

(** C26: The worker lets an application stream reach the backend only under a lease that is current
    and signed for this worker.  After the prelude, whose application the lease permits, come the
    encryption requests, if any, and then the packet that is forwarded.  A session begins with a
    startup packet that has exactly one user parameter, the leased role, on a pgwire stream.  A
    cancellation comes first on a cancellation stream; on a pgwire stream it follows at least one
    encryption request, and a cancellation stream has none. *)
Theorem forwarded_stream_authorized `{Signatures} `{!ControlCodec} lease compression w bootstrap now
    parse_prelude s fwd :
  0 <= now <= u64_max - MAX_CLOCK_SKEW_SECONDS ->
  forward_application_stream lease compression w bootstrap (Some now) parse_prelude s = Ok fwd ->
  lease_valid (claims lease) now /\ addr_id (worker (claims lease)) = w /\
  (exists lb, lease_signing_bytes (claims lease) = Ok lb /\
     verify bootstrap lb (lease_signature lease) = true) /\
  exists prelude requests packet rest,
    read_control parse_prelude s = Ok (prelude, concat requests ++ packet ++ rest) /\
    Forall encryption_request requests /\ permits (claims lease) (prelude_protocol prelude) = true /\
    match fwd with
    | ForwardSession p r =>
        p = packet /\ r = rest /\ prelude_protocol prelude = Pgwire /\
        exists params, startup_parameters packet params /\ users params = [login_role (claims lease)]
    | ForwardCancellation p =>
        p = packet /\ cancel_request packet /\
        prelude_protocol prelude = match requests with [] => Cancellation | _ => Pgwire end
    end.
Proof.
  intros Hnow Hf. unfold forward_application_stream in Hf. cbn [mbind result_bind ok_or] in Hf.
  apply bind_ok in Hf as ([] & Hl%map_err_ok & Hf). apply verify_lease_ok in Hl as (Hsig & Hat & Hw & _).
  apply bind_ok in Hf as ([prelude s1] & Hctl & Hf). apply bind_ok in Hf as ([] & Hpre%map_err_ok & Hf).
  apply bind_ok in Hf as ([] & _ & Hf). apply bind_ok in Hf as ([initial s2] & Hinit & Hf).
  apply bind_ok in Hf as (kind & Hk & Hf). apply bind_ok in Hf as ([] & Hexp%ensure_ok & Hf).
  bool_prop. assert (permits (claims lease) (prelude_protocol prelude) = true) as Hperm.
  { unfold verify_prelude in Hpre. apply bind_ok in Hpre as ([] & _ & Hpre). by inv_ok. }
  split_and!; [by eapply validate_at_ok | done | done |].
  destruct (negotiate_result _ _ _ _ _ Hf) as (requests & packet & rest & Hs & Henc & Hnone & Hcancel & Hfwd).
  apply read_pgwire_packet_ok in Hinit as [-> _]. rewrite Hs in Hctl. rewrite Hk in Hnone, Hcancel.
  exists prelude, requests, packet, rest. split_and!; [done..|]. destruct fwd as [p r|p].
  - destruct Hfwd as (-> & -> & Hp). split_and!; [done..| |done]. rewrite Hexp. destruct kind; try done.
    by destruct (Hcancel (proj2 Hnone ltac:(done))) as [Hc _]; specialize (Hc eq_refl).
  - destruct Hfwd as [-> Hp]. split_and!; [done..|]. rewrite Hexp. destruct requests as [|q requests].
    + destruct (Hcancel eq_refl) as [_ Hc]. specialize (Hc eq_refl). by injection Hc as ->.
    + destruct kind; try done. assert (q :: requests = []) as Hq by (by apply Hnone). discriminate Hq.
Qed.

(** The startup packet of any parameter list without NUL bytes and with exactly one
    non-empty UTF-8 [user] parameter is read back as that user, and control messages
    survive framing: a written frame is read back as the message and the rest of the
    stream. *)
Theorem startup_and_control_round_trip {T} (from_slice : list byte -> option T) (v : T)
    json frame rest (params : list (str * str)) b (u : str) :
  (write_control (Some json) = Ok frame -> from_slice json = Some v ->
   read_control from_slice (frame ++ rest) = Ok (v, rest)) /\
  (Forall (fun '(k, v) => x00 ∉ k /\ x00 ∉ v) params ->
   map fst (List.filter (fun p => bool_decide (fst p = lit "user")) params) = [lit "user"] ->
   (lit "user", b :: u) ∈ params -> is_Some (utf8_decode (b :: u)) ->
   startup_user (startup_packet params) = Ok (b :: u)).
Proof. split; [apply control_frame_ok | apply startup_user_packet]. Qed.

Section samples.
#[local] Existing Instance sample_signatures.
#[local] Existing Instance sample_codec.

Definition sample_request : LeaseRequest :=
  mkLeaseRequest 1 (7%nat : PublicKey) (11%nat : PublicKey) (lit "fresh")
    ((7%nat, LEASE_REQUEST_DOMAIN ++ lit "fresh") : Signature).
Definition sample_authority : BootstrapAuthority :=
  mkBootstrapAuthority (5%nat : SecretKey) {[ (7%nat : PublicKey) := lit "alice" ]}
    (mkEndpointAddr (9%nat : PublicKey) []) 1 300 empty_cache false.

Lemma bootstrap_issue_sound_witness :
  exists self' lease, issue sample_authority sample_request 11%nat (Some 1000) = (self', Ok lease) /\
    login_role (claims lease) = lit "alice" /\
    issue self' sample_request 11%nat (Some 1001) = (self', Err NonceReused).
Proof.
  assert (exists r, issue sample_authority sample_request 11%nat (Some 1000) = r /\
            match snd r with Ok l => login_role (claims l) = lit "alice" | Err _ => False end)
    as ([self' [lease|e]] & Hi & Hl) by (eexists; split; [reflexivity | vm_compute; reflexivity]);
    [|destruct Hl].
  exists self', lease. split; [exact Hi|]. split; [exact Hl|].
  assert (Hnew : new_registered (5%nat : SecretKey) [((7%nat : PublicKey), lit "alice")] (mkEndpointAddr (9%nat : PublicKey) []) 1 300 (Some 900) =
    Ok sample_authority) by (vm_compute; reflexivity).
  pose proof (bootstrap_issue_sound (5%nat : SecretKey) [((7%nat : PublicKey), lit "alice")] (mkEndpointAddr (9%nat : PublicKey) []) 1 300 (Some 900)
    sample_authority [] [] sample_request (11%nat : PublicKey) 1000 lease self' Hnew ltac:(lia) Hi) as [_ [Hagain _]].
  exact (Hagain (Nat.lt_0_succ _) (Some 1001)).
Defined.

Definition sample_prelude (s : list byte) : option StreamPrelude :=
  Some (mkStreamPrelude 1 Pgwire CodecNone).
Definition sample_stream : list byte :=
  u32_to_be_bytes 1 ++ [x50] ++ u32_to_be_bytes 8 ++ u32_to_be_bytes SSL_REQUEST_CODE
  ++ startup_packet [(lit "user", lit "alice"); (lit "database", lit "gis")].

Lemma forwarded_stream_authorized_witness :
  exists p rest, forward_application_stream sample_lease CodecNone 9%nat 5%nat (Some 1100)
    sample_prelude sample_stream = Ok (ForwardSession p rest) /\
    exists params, startup_parameters p params /\ users params = [lit "alice"].
Proof.
  eexists _, _. split; [vm_compute; reflexivity|].
  destruct (proj2 (proj2 (proj2 (@forwarded_stream_authorized sample_signatures sample_codec sample_lease CodecNone
    9%nat 5%nat 1100 sample_prelude sample_stream _
    ltac:(unfold u64_max, MAX_CLOCK_SKEW_SECONDS; lia) ltac:(vm_compute; reflexivity)))))
    as (prelude & requests & packet & rest & _ & _ & _ & Hp & _ & _ & Hu). rewrite Hp. exact Hu.
Defined.

(** A startup packet without parameters, not even the final NUL, makes the task of its stream panic;
    so an authenticated client can end the task with eight bytes. *)
Theorem empty_startup_panics :
  startup_user (u32_to_be_bytes 8 ++ u32_to_be_bytes POSTGRESQL_PROTOCOL_3) = Err Panicked /\
  forward_application_stream sample_lease CodecNone (9%nat : PublicKey) (5%nat : PublicKey) (Some 1100) sample_prelude
    (u32_to_be_bytes 1 ++ [x50] ++ u32_to_be_bytes 8 ++ u32_to_be_bytes POSTGRESQL_PROTOCOL_3) = Err Panicked.
Proof. split; vm_compute; reflexivity. Qed.
End samples.

Lemma startup_and_control_round_trip_witness :
  startup_user (startup_packet [(lit "user", lit "alice"); (lit "database", lit "gis")])
    = Ok (lit "alice") /\
  read_control Some (u32_to_be_bytes 2 ++ lit "{}" ++ lit "tail") = Ok (lit "{}", lit "tail").
Proof.
  pose proof (startup_and_control_round_trip Some (lit "{}") (lit "{}")
    (u32_to_be_bytes 2 ++ lit "{}") (lit "tail")
    [(lit "user", lit "alice"); (lit "database", lit "gis")] x61 (lit "lice")) as [Hc Hs].
  split.
  - apply Hs.
    + repeat constructor; simpl; set_solver.
    + vm_compute. reflexivity.
    + left.
    + eexists. vm_compute. reflexivity.
  - exact (Hc eq_refl eq_refl).
Defined.
