(* ===== verification/EdgeCompression.v ===== *)
(** * Compression blocks of the edge transport ([quackgis-edge/src/compression.rs])

    Application data is cut into independent blocks: a kind byte, two big-endian
    lengths and a payload that is raw or LZ4-compressed.  The encoder compresses
    adaptively and backs off from incompressible data; the decoder checks the
    declared lengths before it allocates.  A reader is the list of byte strings its
    [read] calls return; [lz4_flex] is the interface [Lz4]; the CPU-time counters
    are left out. *)

From S2P Require Import Prelude EdgeProtocol.

Definition MAX_UNCOMPRESSED_BLOCK_BYTES : Z := 65536.
Definition MAX_COMPRESSED_BLOCK_BYTES : Z := MAX_UNCOMPRESSED_BLOCK_BYTES.
Definition MAX_EXPANSION_RATIO : Z := 256.
Definition MIN_COMPRESSION_INPUT_BYTES : Z := 1024.
Definition MIN_COMPRESSION_SAVINGS_BYTES : Z := 64.
Definition MIN_COMPRESSION_SAVINGS_PERCENT : Z := 12.
Definition INCOMPRESSIBLE_PROBES_BEFORE_BACKOFF : Z := 2.
Definition INCOMPRESSIBLE_BACKOFF_BLOCKS : Z := 8.
Definition BLOCK_HEADER_BYTES : Z := 9.
Definition RAW_BLOCK : byte := x00.
Definition LZ4_BLOCK : byte := x01.

Inductive Direction := Upstream | Downstream.
Inductive BlockClassification := Compressed | RawSmall | RawIncompressible | RawBackoff.
Inductive IoError :=
  | IoUnexpectedEof | UnknownBlockKind | LengthLimit | RawLengthsDiffer | RatioViolation
  | InvalidLz4 | WrongDecodedLength.

(** ** Metrics ([AtomicU64] counters) *)

Record DirectionMetrics := mkDirectionMetrics {
  uncompressed_bytes : Z;
  wire_bytes : Z;
  latency_sensitive_bytes : Z;
  blocks : Z;
  compressed_blocks : Z;
  raw_small_blocks : Z;
  raw_incompressible_blocks : Z;
  raw_backoff_blocks : Z;
  decode_failures : Z }.
Definition zero_metrics : DirectionMetrics := mkDirectionMetrics 0 0 0 0 0 0 0 0 0.

Record TransportMetrics := mkTransportMetrics {
  upstream : DirectionMetrics;
  downstream : DirectionMetrics;
  pgwire_streams : Z;
  cancellation_streams : Z }.

(** [TransportMetrics::record_stream] and [record_latency_sensitive] *)
Definition record_stream (m : TransportMetrics) (p : ApplicationProtocol) : TransportMetrics :=
  match p with
  | Pgwire => mkTransportMetrics (upstream m) (downstream m) (wrapping_add (pgwire_streams m) 1)
                (cancellation_streams m)
  | Cancellation => mkTransportMetrics (upstream m) (downstream m) (pgwire_streams m)
                      (wrapping_add (cancellation_streams m) 1)
  | Http => m
  end.
Definition add_latency (d : DirectionMetrics) (n : Z) : DirectionMetrics :=
  mkDirectionMetrics (uncompressed_bytes d) (wire_bytes d)
    (wrapping_add (latency_sensitive_bytes d) n) (blocks d) (compressed_blocks d)
    (raw_small_blocks d) (raw_incompressible_blocks d) (raw_backoff_blocks d) (decode_failures d).
Definition record_latency_sensitive (m : TransportMetrics) (dir : Direction) (n : Z)
    : TransportMetrics :=
  match dir with
  | Upstream => mkTransportMetrics (add_latency (upstream m) n) (downstream m) (pgwire_streams m)
                  (cancellation_streams m)
  | Downstream => mkTransportMetrics (upstream m) (add_latency (downstream m) n) (pgwire_streams m)
                    (cancellation_streams m)
  end.

(** The [bytes_saved] of [DirectionMetrics::snapshot] *)
Definition as_i64 (n : Z) : Z := Z.min n i64_max.
Definition bytes_saved (d : DirectionMetrics) : Z :=
  as_i64 (uncompressed_bytes d) - as_i64 (wire_bytes d).

(** [DirectionMetrics::record_block] *)
Definition count_if (c : bool) (n : Z) : Z := if c then wrapping_add n 1 else n.
Definition record_block (d : DirectionMetrics) (uncompressed wire : Z) (k : BlockClassification)
    : DirectionMetrics :=
  mkDirectionMetrics (wrapping_add (uncompressed_bytes d) uncompressed)
    (wrapping_add (wire_bytes d) wire) (latency_sensitive_bytes d) (wrapping_add (blocks d) 1)
    (count_if (match k with Compressed => true | _ => false end) (compressed_blocks d))
    (count_if (match k with RawSmall => true | _ => false end) (raw_small_blocks d))
    (count_if (match k with RawIncompressible => true | _ => false end) (raw_incompressible_blocks d))
    (count_if (match k with RawBackoff => true | _ => false end) (raw_backoff_blocks d))
    (decode_failures d).

(** [classify_raw] *)
Definition classify_raw (length : Z) : BlockClassification :=
  if length <? MIN_COMPRESSION_INPUT_BYTES then RawSmall else RawIncompressible.

(** [lz4_flex::block]: decompression inverts compression, and the block format
    expands a byte of input to at most 255 bytes of output. *)
Class Lz4 := {
  compress : list byte -> list byte;
  decompress : list byte -> nat -> option (list byte);
  decompress_compress : forall x, decompress (compress x) (length x) = Some x;
  compress_ratio : forall x, len x <= len (compress x) * MAX_EXPANSION_RATIO }.

(** ** Decoder *)

(** [validate_lengths] *)
Definition validate_lengths (kind : byte) (uncompressed payload : Z) : result IoError unit :=
  _ ← ensure (bool_decide (kind = RAW_BLOCK) || bool_decide (kind = LZ4_BLOCK)) UnknownBlockKind;
  _ ← ensure ((1 <=? uncompressed) && (uncompressed <=? MAX_UNCOMPRESSED_BLOCK_BYTES)
              && (1 <=? payload) && (payload <=? MAX_COMPRESSED_BLOCK_BYTES)) LengthLimit;
  _ ← ensure (negb (bool_decide (kind = RAW_BLOCK) && negb (payload =? uncompressed)))
        RawLengthsDiffer;
  ensure (negb (bool_decide (kind = LZ4_BLOCK)
                && ((uncompressed <=? payload)
                    || (saturating_mul payload MAX_EXPANSION_RATIO <? uncompressed))))
    RatioViolation.

Definition io_read_exact (n : nat) (s : list byte) : result IoError (list byte * list byte) :=
  if (n <=? length s)%nat then Ok (take n s, drop n s) else Err IoUnexpectedEof.

Definition be_length (b : list byte) : Z :=
  match b with [b0; b1; b2; b3] => u32_from_be_bytes b0 b1 b2 b3 | _ => 0 end.

Section codec.
Context `{Lz4}.

(** One round of [copy_decompressed] after its kind byte: the decoded bytes, the
    payload length, the classification and the rest of the stream. *)
Definition decode_block (kind : byte) (s : list byte)
    : result IoError (list byte * Z * BlockClassification * list byte) :=
  '(lengths, s) ← io_read_exact 8 s;
  let uncompressed := be_length (take 4 lengths) in
  let payload_length := be_length (drop 4 lengths) in
  _ ← validate_lengths kind uncompressed payload_length;
  '(payload, s) ← io_read_exact (Z.to_nat payload_length) s;
  '(decoded, k) ← (if bool_decide (kind = RAW_BLOCK)
                   then Ok (payload, classify_raw uncompressed)
                   else d ← ok_or (decompress payload (Z.to_nat uncompressed)) InvalidLz4;
                        Ok (d, Compressed));
  _ ← ensure (len decoded =? uncompressed) WrongDecodedLength;
  Ok (decoded, payload_length, k, s).

(** The bytes written, the metrics and the result of a copy. *)
Record Copied := mkCopied {
  written : list byte;
  copied_metrics : DirectionMetrics;
  copied_result : result IoError Z }.

(** [copy_decompressed]; every block consumes at least its kind byte. *)
Fixpoint decompress_loop (fuel : nat) (s out : list byte) (m : DirectionMetrics) (total : Z) : Copied :=
  match fuel, s with
  | _, [] => mkCopied out m (Ok total)
  | O, _ => mkCopied out m (Err IoUnexpectedEof)
  | S fuel, kind :: s =>
      match decode_block kind s with
      | Err e => mkCopied out m (Err e)
      | Ok (decoded, payload_length, k, s) =>
          decompress_loop fuel s (out ++ decoded)
            (record_block m (len decoded) (BLOCK_HEADER_BYTES + payload_length) k)
            (saturating_add total (len decoded))
      end
  end.
Definition add_failure (m : DirectionMetrics) : DirectionMetrics :=
  mkDirectionMetrics (uncompressed_bytes m) (wire_bytes m) (latency_sensitive_bytes m) (blocks m)
    (compressed_blocks m) (raw_small_blocks m) (raw_incompressible_blocks m) (raw_backoff_blocks m)
    (wrapping_add (decode_failures m) 1).
Definition copy_decompressed (s : list byte) (m : DirectionMetrics) : Copied :=
  let c := decompress_loop (length s) s [] m 0 in
  match copied_result c with
  | Ok _ => c
  | Err _ => mkCopied (written c) (add_failure (copied_metrics c)) (copied_result c)
  end.

(** ** Encoder *)

(** The adaptive state of [copy_compressed]. *)
Record Adaptive := mkAdaptive { incompressible_probes : Z; backoff_blocks : Z }.
Definition adaptive_start : Adaptive := mkAdaptive 0 0.

Definition encode_block (st : Adaptive) (input : list byte)
    : Adaptive * (byte * list byte * BlockClassification) :=
  let read := len input in
  if read <? MIN_COMPRESSION_INPUT_BYTES then (st, (RAW_BLOCK, input, RawSmall))
  else if 0 <? backoff_blocks st then
    (mkAdaptive (incompressible_probes st) (backoff_blocks st - 1), (RAW_BLOCK, input, RawBackoff))
  else
    let compressed := compress input in
    let saved := saturating_sub read (len compressed) in
    let saves_enough := (MIN_COMPRESSION_SAVINGS_BYTES <=? saved)
                        && (saturating_mul read MIN_COMPRESSION_SAVINGS_PERCENT
                            <=? saturating_mul saved 100) in
    if saves_enough then (mkAdaptive 0 (backoff_blocks st), (LZ4_BLOCK, compressed, Compressed))
    else
      let probes := incompressible_probes st + 1 in
      (if INCOMPRESSIBLE_PROBES_BEFORE_BACKOFF <=? probes
       then mkAdaptive 0 INCOMPRESSIBLE_BACKOFF_BLOCKS
       else mkAdaptive probes (backoff_blocks st), (RAW_BLOCK, input, RawIncompressible)).

Definition frame_block (kind : byte) (input payload : list byte) : list byte :=
  [kind] ++ u32_to_be_bytes (len input) ++ u32_to_be_bytes (len payload) ++ payload.

(** [copy_compressed]: the loop over the reads; an empty read ends it. *)
Fixpoint compress_loop (reads : list (list byte)) (st : Adaptive) (out : list byte)
    (m : DirectionMetrics) (total : Z) : Copied :=
  match reads with
  | [] | [] :: _ => mkCopied out m (Ok total)
  | input :: reads =>
      let '(st, (kind, payload, k)) := encode_block st input in
      compress_loop reads st (out ++ frame_block kind input payload)
        (record_block m (len input) (BLOCK_HEADER_BYTES + len payload) k)
        (saturating_add total (len input))
  end.
Definition copy_compressed (reads : list (list byte)) (m : DirectionMetrics) : Copied :=
  compress_loop reads adaptive_start [] m 0.

(** [copy_unframed] *)
Fixpoint copy_unframed (reads : list (list byte)) (out : list byte) (m : DirectionMetrics) (total : Z)
    : Copied :=
  match reads with
  | [] | [] :: _ => mkCopied out m (Ok total)
  | input :: reads =>
      copy_unframed reads (out ++ input) (record_block m (len input) (len input) RawIncompressible)
        (saturating_add total (len input))
  end.

(** [copy_application]; the bytes a reader delivers before its first empty read. *)
Fixpoint reader_bytes (reads : list (list byte)) : list byte :=
  match reads with
  | [] | [] :: _ => []
  | input :: reads => input ++ reader_bytes reads
  end.
Definition copy_application (reads : list (list byte)) (codec : CompressionCodec) (encode : bool)
    (m : DirectionMetrics) : Copied :=
  match codec, encode with
  | CodecNone, _ => copy_unframed reads [] m 0
  | Lz4Block, true => copy_compressed reads m
  | Lz4Block, false => copy_decompressed (reader_bytes reads) m
  end.

(** ** Lemmas *)

(** The blocks the encoder may produce: each accepted by [validate_lengths]. *)
Definition block_input (input : list byte) : Prop := 1 <= len input <= MAX_UNCOMPRESSED_BLOCK_BYTES.

Lemma io_read_exact_app a b : io_read_exact (length a) (a ++ b) = Ok (a, b).
Proof using.
  unfold io_read_exact. rewrite (proj2 (Nat.leb_le _ _)) by (rewrite length_app; lia).
  by rewrite take_app_length, drop_app_length.
Qed.

Lemma io_read_exact_app' n a b : n = length a -> io_read_exact n (a ++ b) = Ok (a, b).
Proof using. intros ->. apply io_read_exact_app. Qed.

Lemma io_read_exact_ok n s a b : io_read_exact n s = Ok (a, b) -> s = a ++ b /\ length a = n.
Proof using.
  unfold io_read_exact. destruct (Nat.leb_spec n (length s)); [|done].
  intros [= <- <-]. rewrite take_drop, length_take. split; [done | lia].
Qed.

Lemma encode_block_payload st input st' kind payload k :
  block_input input -> encode_block st input = (st', (kind, payload, k)) ->
  1 <= len payload <= len input /\
  validate_lengths kind (len input) (len payload) = Ok tt /\
  ((kind = RAW_BLOCK /\ payload = input) \/ (kind = LZ4_BLOCK /\ payload = compress input)).
Proof using.
  intros Hin. assert (forall p, p = input -> 1 <= len p <= len input /\
    validate_lengths RAW_BLOCK (len input) (len p) = Ok tt) as Hraw.
  { intros p ->. split; [unfold block_input in Hin; lia|]. unfold validate_lengths. simpl.
    unfold block_input in Hin. rewrite Z.eqb_refl.
    rewrite !(proj2 (Z.leb_le _ _)) by (unfold MAX_COMPRESSED_BLOCK_BYTES, MAX_UNCOMPRESSED_BLOCK_BYTES in *; lia). done. }
  unfold encode_block. destruct (Z.ltb_spec (len input) MIN_COMPRESSION_INPUT_BYTES) as [?|Hlen].
  { intros [= <- <- <- <-]. destruct (Hraw input eq_refl). auto. }
  destruct (0 <? backoff_blocks st); [intros [= <- <- <- <-]; destruct (Hraw input eq_refl); auto|].
  destruct (_ && _) eqn:Hsave; [|intros [= <- <- <- <-]; destruct (Hraw input eq_refl); auto].
  intros [= <- <- <- <-]. bool_prop. pose proof (compress_ratio input) as Hratio.
  unfold saturating_sub, MIN_COMPRESSION_SAVINGS_BYTES, MIN_COMPRESSION_INPUT_BYTES, block_input,
    MAX_UNCOMPRESSED_BLOCK_BYTES, MAX_EXPANSION_RATIO in *.
  split_and!; [lia | lia | | by right]. unfold validate_lengths. simpl.
  unfold MAX_COMPRESSED_BLOCK_BYTES, MAX_UNCOMPRESSED_BLOCK_BYTES, saturating_mul, MAX_EXPANSION_RATIO, u64_max.
  rewrite (proj2 (Z.leb_le 1 (len input))), (proj2 (Z.leb_le (len input) 65536)),
    (proj2 (Z.leb_le 1 (len (compress input)))) by lia.
  rewrite (proj2 (Z.leb_le (len (compress input)) 65536)) by lia. simpl.
  rewrite (proj2 (Z.leb_gt _ _)), (proj2 (Z.ltb_ge _ _)) by lia. done.
Qed.

Lemma be_length_bytes n : 0 <= n <= u32_max -> be_length (u32_to_be_bytes n) = n.
Proof using. intros Hn. by apply (u32_from_to_be_bytes n (zb (n / 16777216)) (zb (n / 65536)) (zb (n / 256)) (zb n)). Qed.

Lemma decode_frame st input st' kind payload k rest :
  block_input input -> encode_block st input = (st', (kind, payload, k)) ->
  exists k', decode_block kind (u32_to_be_bytes (len input) ++ u32_to_be_bytes (len payload) ++ payload ++ rest)
    = Ok (input, len payload, k', rest).
Proof using.
  intros Hin He. destruct (encode_block_payload _ _ _ _ _ _ Hin He) as (Hp & Hv & Hk).
  unfold block_input, MAX_UNCOMPRESSED_BLOCK_BYTES in Hin. unfold decode_block.
  assert (forall n, length (u32_to_be_bytes n) = 4%nat) as H4 by reflexivity.
  rewrite app_assoc. rewrite (io_read_exact_app' 8 (u32_to_be_bytes (len input) ++ u32_to_be_bytes (len payload)))
    by (by rewrite length_app, !H4).
  cbn [mbind result_bind]. rewrite (take_app_length' _ _ 4), (drop_app_length' _ _ 4) by (by rewrite H4).
  rewrite !be_length_bytes by (unfold u32_max; lia). rewrite Hv. cbn [mbind result_bind].
  replace (Z.to_nat (len payload)) with (length payload) by (unfold len; lia).
  rewrite io_read_exact_app. cbn [mbind result_bind].
  destruct Hk as [[-> ->]|[-> ->]]; simpl.
  - rewrite Z.eqb_refl. eexists. reflexivity.
  - replace (Z.to_nat (len input)) with (length input) by (unfold len; lia).
    rewrite decompress_compress. simpl. rewrite Z.eqb_refl. eexists. reflexivity.
Qed.

Lemma validate_lengths_ok kind u p :
  validate_lengths kind u p = Ok tt ->
  1 <= u <= MAX_UNCOMPRESSED_BLOCK_BYTES /\ 1 <= p <= MAX_COMPRESSED_BLOCK_BYTES /\
  ((kind = RAW_BLOCK /\ p = u) \/ (kind = LZ4_BLOCK /\ p < u <= p * MAX_EXPANSION_RATIO)).
Proof using.
  unfold validate_lengths. intros Hv.
  apply bind_ok in Hv as ([] & Hk%ensure_ok & Hv). apply bind_ok in Hv as ([] & Hl%ensure_ok & Hv).
  apply bind_ok in Hv as ([] & Hr%ensure_ok & Hv%ensure_ok).
  rewrite !andb_true_iff, !Z.leb_le in Hl. destruct Hl as (((? & ?) & ?) & ?).
  split; [done|]. split; [done|].
  destruct (Z.eqb_spec p u) as [?|_], (Z.leb_spec u p) as [_|?],
    (Z.ltb_spec (saturating_mul p MAX_EXPANSION_RATIO) u) as [_|Hsat];
    apply orb_true_iff in Hk as [Hk|Hk]; apply bool_decide_eq_true in Hk as ->;
    try discriminate Hr; try discriminate Hv; auto.
  all: right; split; [done|]; split; [done|]; unfold saturating_mul in Hsat; lia.
Qed.

Lemma decode_block_bounds kind s decoded p k rest :
  decode_block kind s = Ok (decoded, p, k, rest) ->
  len s = 8 + p + len rest /\ 1 <= len decoded <= MAX_UNCOMPRESSED_BLOCK_BYTES /\
  1 <= p <= MAX_COMPRESSED_BLOCK_BYTES /\ len decoded <= p * MAX_EXPANSION_RATIO.
Proof using.
  unfold decode_block. intros Hd. apply bind_ok in Hd as ([lengths s1] & Hl & Hd).
  apply io_read_exact_ok in Hl as [-> Hl]. apply bind_ok in Hd as ([] & Hv%validate_lengths_ok & Hd).
  apply bind_ok in Hd as ([payload s2] & Hp & Hd). apply io_read_exact_ok in Hp as [-> Hp].
  apply bind_ok in Hd as ([dec k'] & _ & Hd).
  apply bind_ok in Hd as ([] & Hlen%ensure_ok%Z.eqb_eq & [= <- <- <- <-]).
  rewrite !len_app. unfold len at 1 2. unfold MAX_EXPANSION_RATIO in *. lia.
Qed.

(** The decoder is told about a block what the encoder was: the counters that
    both sides keep of a transfer. *)
Definition transfer_counters (m : DirectionMetrics) : Z * Z * Z * Z :=
  (uncompressed_bytes m, wire_bytes m, blocks m, compressed_blocks m).

Lemma decode_frame_compressed st input st' kind payload k rest d p k' r :
  encode_block st input = (st', (kind, payload, k)) ->
  decode_block kind rest = Ok (d, p, k', r) -> (k = Compressed <-> k' = Compressed).
Proof using.
  intros He Hd. assert (k = Compressed <-> kind = LZ4_BLOCK) as ->.
  { revert He. unfold encode_block. destruct (_ <? _); [intros [= <- <- <- <-]; done|].
    destruct (_ <? _); [intros [= <- <- <- <-]; done|]. destruct (_ && _); intros [= <- <- <- <-]; done. }
  unfold decode_block in Hd. apply bind_ok in Hd as ([lengths s1] & _ & Hd).
  apply bind_ok in Hd as ([] & Hv%validate_lengths_ok & Hd). apply bind_ok in Hd as ([pl s2] & _ & Hd).
  apply bind_ok in Hd as ([dec k2] & Hk & Hd). apply bind_ok in Hd as ([] & _ & [= <- <- <- <-]).
  destruct Hv as (_ & _ & [[-> _]|[-> _]]); cbn in Hk.
  - injection Hk as <- <-. unfold classify_raw. destruct (_ <? _); done.
  - apply bind_ok in Hk as (x & _ & [= <- <-]). done.
Qed.

Lemma record_block_transfer m m' u w k k' :
  transfer_counters m = transfer_counters m' -> (k = Compressed <-> k' = Compressed) ->
  transfer_counters (record_block m u w k) = transfer_counters (record_block m' u w k').
Proof using.
  unfold transfer_counters. destruct m, m'. cbn. intros [= -> -> -> ->] Hk.
  destruct k, k'; try reflexivity; exfalso; destruct Hk as [H1 H2]; try discriminate (H1 eq_refl);
    discriminate (H2 eq_refl).
Qed.

Lemma compress_loop_out reads st out m total :
  let c := compress_loop reads st [] m total in
  compress_loop reads st out m total = mkCopied (out ++ written c) (copied_metrics c) (copied_result c).
Proof using.
  revert st out m total. induction reads as [|[|b input] reads IH]; intros st out m total;
    [cbn; by rewrite app_nil_r..|]. cbn [compress_loop].
  destruct (encode_block st (b :: input)) as [st' [[kind payload] k]].
  rewrite (IH st' (out ++ _)), (IH st' ([] ++ _)). cbn [written copied_metrics copied_result].
  by rewrite app_nil_l, app_assoc.
Qed.

Lemma compress_decompress_loop reads st m m' total fuel out :
  Forall block_input reads -> transfer_counters m = transfer_counters m' ->
  let c := compress_loop reads st [] m total in
  let d := decompress_loop fuel (written c) out m' total in
  (length (written c) <= fuel)%nat ->
  written d = out ++ concat reads /\ copied_result d = copied_result c /\
  (exists n, copied_result c = Ok n) /\
  transfer_counters (copied_metrics d) = transfer_counters (copied_metrics c).
Proof using.
  intros Hreads. revert st m m' total fuel out.
  induction Hreads as [|input reads Hin Hreads IH]; intros st m m' total fuel out Hm; cbn zeta.
  { intros _. destruct fuel; cbn; rewrite app_nil_r; eauto. }
  destruct input as [|b input]; [exfalso; unfold block_input, len in Hin; simpl in Hin; lia|].
  set (inp := b :: input) in *. cbn [compress_loop].
  change (match inp with [] => ?x | _ :: _ => ?y end) with y.
  destruct (encode_block st inp) as [st' [[kind payload] k]] eqn:He.
  rewrite compress_loop_out. cbn [written copied_metrics copied_result app].
  unfold frame_block. rewrite <-!app_assoc. cbn [app length].
  destruct fuel as [|fuel]; [cbn; lia|]. intros Hf. cbn [decompress_loop].
  destruct (decode_frame st inp st' kind payload k
    (written (compress_loop reads st' [] (record_block m (len inp) (BLOCK_HEADER_BYTES + len payload) k)
       (saturating_add total (len inp)))) Hin He) as [k' Hd].
  rewrite Hd. assert (k = Compressed <-> k' = Compressed) as Hk by (eapply decode_frame_compressed; eauto).
  destruct (IH st' _ _ (saturating_add total (len inp)) fuel (out ++ inp)
    (record_block_transfer m m' (len inp) (BLOCK_HEADER_BYTES + len payload) k k' Hm Hk)) as (-> & -> & Hn & ->).
  { rewrite !length_app in Hf. lia. }
  by rewrite <-app_assoc.
Qed.

Lemma saturating_total t a b :
  0 <= a -> 0 <= b -> Z.min (saturating_add t a + b) u64_max = Z.min (t + (a + b)) u64_max.
Proof using. unfold saturating_add. lia. Qed.

Lemma compress_loop_measures reads st m total :
  Forall block_input reads -> 0 <= total <= u64_max ->
  let c := compress_loop reads st [] m total in
  copied_result c = Ok (Z.min (total + len (concat reads)) u64_max) /\
  len (written c) <= len (concat reads) + BLOCK_HEADER_BYTES * Z.of_nat (length reads).
Proof using.
  intros Hreads. revert st m total. induction Hreads as [|input reads Hin Hreads IH]; intros st m total Ht.
  { cbn -[u64_max]. rewrite Z.add_0_r, Z.min_l by lia. done. }
  destruct input as [|b input]; [exfalso; unfold block_input, len in Hin; simpl in Hin; lia|].
  set (inp := b :: input) in *. cbn [compress_loop concat length].
  change (match inp with [] => ?x | _ :: _ => ?y end) with y.
  destruct (encode_block st inp) as [st' [[kind payload] k]] eqn:He.
  destruct (encode_block_payload _ _ _ _ _ _ Hin He) as (Hp & _ & _).
  rewrite compress_loop_out. cbn [written copied_result app].
  destruct (IH st' (record_block m (len inp) (BLOCK_HEADER_BYTES + len payload) k)
    (saturating_add total (len inp))) as [Hr2 Hw];
    [pose proof (len_nonneg inp); unfold saturating_add, u64_max in *; lia|].
  rewrite Hr2. unfold frame_block. rewrite !len_app. split.
  - by rewrite saturating_total by (unfold len; lia).
  - assert (forall n, len (u32_to_be_bytes n) = 4) as H4 by done. rewrite !H4.
    assert (len [kind] = 1) as -> by done. unfold BLOCK_HEADER_BYTES in *. lia.
Qed.

Lemma decompress_loop_measures fuel s out m total :
  0 <= total <= u64_max ->
  let c := decompress_loop fuel s out m total in
  (exists more, written c = out ++ more /\ len more <= MAX_EXPANSION_RATIO * len s /\
     forall n, copied_result c = Ok n -> n = Z.min (total + len more) u64_max) /\
  decode_failures (copied_metrics c) = decode_failures m.
Proof using.
  revert s out m total. induction fuel as [|fuel IH]; intros [|kind s] out m total Ht; cbn [decompress_loop].
  1-3: (split; [|done]); exists []; rewrite app_nil_r; (split; [done|]); (split; [unfold len, MAX_EXPANSION_RATIO; simpl; lia|]);
    intros n [= <-]; cbn -[u64_max]; rewrite Z.add_0_r, Z.min_l by lia; done.
  destruct (decode_block kind s) as [[[[decoded p] k] rest]|e] eqn:Hd.
  - apply decode_block_bounds in Hd as (Hs & Hdec & Hp & Hr).
    destruct (IH rest (out ++ decoded) (record_block m (len decoded) (BLOCK_HEADER_BYTES + p) k)
      (saturating_add total (len decoded))) as [(more & Hw & Hm & Ho) Hf];
      [pose proof (len_nonneg decoded); unfold saturating_add, u64_max in *; lia|].
    split; [|by rewrite Hf]. exists (decoded ++ more). rewrite Hw, app_assoc. split; [done|].
    rewrite len_app. split; [change (kind :: s) with ([kind] ++ s); rewrite len_app; unfold MAX_EXPANSION_RATIO in *;
      assert (len [kind] = 1) by done; lia|].
    intros n Hn. rewrite (Ho n Hn). by apply saturating_total; unfold len; lia.
  - split; [|done]. exists []. rewrite app_nil_r. split; [done|].
    split; [unfold len, MAX_EXPANSION_RATIO; simpl; lia | done].
Qed.

(** C37: the transport's compression is lossless and never expensive.  For every
    sequence of reads of 1 to 65536 bytes, the encoder succeeds, writes at most nine
    bytes per block more than it was given, and the decoder, however its reader cuts
    the stream into reads, writes exactly the bytes the encoder was given and reports
    the same total; both sides count the same uncompressed bytes, wire bytes, blocks
    and compressed blocks. *)
Theorem compression_round_trip reads chunks m :
  Forall block_input reads ->
  let c := copy_application reads Lz4Block true m in
  reader_bytes chunks = written c ->
  let d := copy_application chunks Lz4Block false m in
  written d = concat reads /\
  copied_result c = Ok (Z.min (len (concat reads)) u64_max) /\
  copied_result d = copied_result c /\
  len (written c) <= len (concat reads) + BLOCK_HEADER_BYTES * Z.of_nat (length reads) /\
  transfer_counters (copied_metrics d) = transfer_counters (copied_metrics c).
Proof using.
  intros Hreads c Hc d. unfold c, d, copy_application, copy_compressed in *. rewrite Hc.
  destruct (compress_loop_measures reads adaptive_start m 0 Hreads) as [Hr Hw]; [unfold u64_max; lia|].
  destruct (compress_decompress_loop reads adaptive_start m m 0
    (length (written (compress_loop reads adaptive_start [] m 0))) [] Hreads eq_refl) as (H1 & H2 & (n & H3) & H4);
    [done|].
  rewrite Z.add_0_l in Hr. unfold copy_decompressed. rewrite H2, H3. split_and!; [done | congruence | congruence | done | done].
Qed.

(** C38: the decoder is bounded on every stream, hostile ones included.  A block it
    accepts declares and decodes to between 1 and 65536 bytes from a payload of at
    most 65536, at most 256 times the payload; so all it ever writes is at most 256
    times what it read.  A success reports the number of bytes written, and a failed
    stream counts exactly one decode failure. *)
Theorem decoder_bounded s m :
  (forall kind rest decoded p k rest', decode_block kind rest = Ok (decoded, p, k, rest') ->
     1 <= len decoded <= MAX_UNCOMPRESSED_BLOCK_BYTES /\ 1 <= p <= MAX_COMPRESSED_BLOCK_BYTES /\
     len decoded <= p * MAX_EXPANSION_RATIO) /\
  let c := copy_decompressed s m in
  len (written c) <= MAX_EXPANSION_RATIO * len s /\
  match copied_result c with
  | Ok n => n = Z.min (len (written c)) u64_max /\
            decode_failures (copied_metrics c) = decode_failures m
  | Err _ => decode_failures (copied_metrics c) = wrapping_add (decode_failures m) 1
  end.
Proof using.
  split; [intros ?????? Hd; apply decode_block_bounds in Hd; tauto|].
  destruct (decompress_loop_measures (length s) s [] m 0) as [(more & Hw & Hm & Ho) Hf]; [unfold u64_max; lia|].
  unfold copy_decompressed. destruct (copied_result _) as [n|e] eqn:Hr; cbn [written copied_result copied_metrics].
  - rewrite ?Hr, Hw. split; [done|]. split; [by apply Ho | done].
  - rewrite ?Hr, Hw. cbn [add_failure decode_failures]. by rewrite Hf.
Qed.
End codec.

(** ** A concrete codec: runs of one byte are stored as their ceil(n/256)-fold *)

Definition uniform (x : list byte) : bool :=
  match x with [] => false | b :: x => forallb (fun c => bool_decide (c = b)) x end.
Definition run_compress (x : list byte) : list byte :=
  if uniform x then replicate (Z.to_nat ((len x + 255) / 256)) (default x00 (head x)) else x.
Definition run_decompress (c : list byte) (n : nat) : option (list byte) :=
  if (length c =? n)%nat then Some c else b ← head c; Some (replicate n b).

Lemma uniform_replicate x : uniform x = true -> x = replicate (length x) (default x00 (head x)).
Proof.
  destruct x as [|b x]; [done|]. cbn [uniform head default length replicate]. intros Hx. f_equal.
  induction x as [|c x IH]; [done|]. cbn in *. apply andb_true_iff in Hx as [->%bool_decide_eq_true Hx].
  f_equal. by apply IH.
Qed.

Lemma run_round_trip x : run_decompress (run_compress x) (length x) = Some x.
Proof.
  unfold run_decompress, run_compress. destruct (uniform x) eqn:Hu; [|by rewrite Nat.eqb_refl].
  pose proof (uniform_replicate x Hu) as Hx. rewrite length_replicate.
  destruct (Nat.eqb_spec (Z.to_nat ((len x + 255) / 256)) (length x)) as [->|_]; [by rewrite <-Hx|].
  assert (Z.to_nat ((len x + 255) / 256) <> 0)%nat.
  { destruct x; [done|]. unfold len. cbn [length]. intros Hz.
    assert (0 < (Z.of_nat (S (length x)) + 255) / 256) by (apply Z.div_str_pos; lia). lia. }
  destruct (Z.to_nat _); [done|]. cbn. by rewrite <-Hx.
Qed.

Lemma run_ratio x : len x <= len (run_compress x) * MAX_EXPANSION_RATIO.
Proof.
  unfold run_compress, MAX_EXPANSION_RATIO. destruct (uniform x); [|unfold len; lia].
  unfold len at 2. rewrite length_replicate, Z2Nat.id.
  - pose proof (Z.div_mod (len x + 255) 256). pose proof (Z.mod_pos_bound (len x + 255) 256). lia.
  - apply Z.div_pos; [unfold len|]; lia.
Qed.

#[local] Instance run_lz4 : Lz4 :=
  {| compress := run_compress; decompress := run_decompress;
     decompress_compress := run_round_trip; compress_ratio := run_ratio |}.

Definition sample_reads : list (list byte) :=
  [replicate 2000 x41; [x42; x43]; replicate 1500 x44 ++ [x45]].

(** The round trip at a compressed, a small and an incompressible block, the
    decoder's reader delivering the stream in two pieces. *)
Lemma compression_round_trip_witness :
  let c := copy_application sample_reads Lz4Block true zero_metrics in
  let chunks := [take 20 (written c); drop 20 (written c)] in
  len (written c) = 1538 /\
  written (copy_application chunks Lz4Block false zero_metrics) = concat sample_reads.
Proof.
  split; [vm_compute; reflexivity|].
  apply (compression_round_trip sample_reads
    [take 20 (written (copy_application sample_reads Lz4Block true zero_metrics));
     drop 20 (written (copy_application sample_reads Lz4Block true zero_metrics))] zero_metrics).
  - repeat constructor; vm_compute; discriminate.
  - vm_compute. reflexivity.
Defined.

(** The bound at a hostile header: 65536 bytes declared for a one-byte payload are
    refused before anything is written. *)
Lemma decoder_bounded_witness :
  let s := [x01; x00; x01; x00; x00; x00; x00; x00; x01; x41] in
  copied_result (copy_decompressed s zero_metrics) = Err RatioViolation /\
  len (written (copy_decompressed s zero_metrics)) <= MAX_EXPANSION_RATIO * len s.
Proof.
  intros s. split; [vm_compute; reflexivity|].
  exact (proj1 (proj2 (decoder_bounded s zero_metrics))).
Defined.
